(* ===== verification/_CoqProject ===== *)
-Q . S2P
Prelude.v
Serializer.v
StringUtil.v
Streambuf.v
LengthDelimited.v
Protocol.v
PlainProtocol.v
StreamProtocol.v
Sodium.v
SodiumHandshake.v
SecureProtocol.v
Session.v
SecureSession.v
UnderWay.v
Connection.v
SecureConnection.v
SessionHost.v
Server.v
Client.v
ObjectPool.v
Timer.v
Runner.v
ThreadRunner.v
Logger.v
Db.v
Pulse.v
PulseTree.v
PulseCalls.v
PulseRace.v
Locks.v
EndToEnd.v
PulseFb.v
Rpc.v
App.v
Json.v
ActPath.v
Acts.v
ActFacts.v
ActFind.v
ActFuel.v
ActFrame.v
ActFlow.v
Bot.v
BotFrame.v
BotRun.v
AlphaNet.v
AlphaLogin.v
AlphaRooms.v
AlphaApp.v
AlphaEnsure.v
