(* ===== verification/Prelude.v ===== *)
(** * play: a verification library for the play network and application library

    The repository (src/play) is a C++ library for servers and clients over TCP
    (net), a small application layer of actors and services (app), utilities (base)
    and a test driver that runs scripted bots (ensure).  This development models
    its logic in the order the bytes go, and proves what each part promises its
    users, together with the places where it does not.

    ** How the program works

    A [server] accepts sockets and makes a [session] of each; a [client] connects
    one.  A session keeps two send buffers and a receive buffer (boost
    [asio::streambuf]), hands received bytes to its [Protocol] until no complete
    frame is left, and reports established, received and closed to its
    [session_handler].  The protocol frames messages with a topic and a length
    ([plain_protocol]), passes bytes through ([stream_protocol]) or encrypts them
    after a handshake ([secure_protocol] with [sodium_handshake] and
    [sodium_cipher]); all write integers with [serializer].  The server and client
    forward the notifications to a [pulse]: a tree of publish/subscribe nodes that
    posts a received frame to its subscribers through a [runner] (an asio
    [io_context] with strands and a [timer_service], whose timers come from an
    [object_pool]) and remembers calls that wait for a response.

    ** Files

    - [Prelude]: the monad for state and exceptions ([M], with outcomes [Ret],
      [Throw], [Aborted] for a failed assertion and [Undefined] for undefined
      behaviour), [PLAY_CHECK] with the build as a parameter, invariants
      ([preserves], [preserve]), sequences of steps ([steps]), ordered maps.
    - [Serializer] (net/util/serializer.hpp): integers as little-endian bytes.
    - [StringUtil] (base/string_util, net/util/address): split, trim, parsing of
      host:port.
    - [Streambuf]: the parts of [asio::streambuf] the code uses.
    - [LengthDelimited] (net/protocol/length_delimited): a 32-bit length before
      the payload.
    - [Protocol]: the class every protocol implements, with the laws a session
      relies on ([FramingLaws]).
    - [PlainProtocol], [StreamProtocol], [SecureProtocol] (net/protocol): its
      instances.  [Sodium] states what is assumed of libsodium; [SodiumHandshake]
      models sodium_handshake and sodium_cipher (xor stream, key exchange).
    - [Session] (net/session): sending, receiving, handshake, closing.
      [SecureSession] runs sessions over the secure protocol.  [UnderWay]: the
      asynchronous operations a session has started and that have not completed.
      [Connection]: two sessions at the ends of a connection, in any interleaving, refine
      two FIFO queues ([Duplex]: what a protocol promises for both directions) as long as
      every send that completes has transferred all its bytes, which asio's [async_send]
      does not promise; [EndToEnd] and [Rpc] share that condition, and what a partial send does is
      [partial_send_reorders] and the second part of [connection_delivers];
      [SecureConnection]: from fresh sockets to such a connection.
    - [SessionHost], [Server], [Client] (net/server, net/client): a store of
      sessions, the registry of the server, connecting and reconnecting.
    - [ObjectPool] (base/object_pool), [Timer] (net/runner/timer_service),
      [Runner] (net/runner, base/dynamic_snowflake).  [ThreadRunner]
      (net/runner/thread_runner, poll_runner): the threads of a runner, the callers of
      [stop] and the handlers, in interleaved single steps.  [Logger] (base/logger,
      stop_watch): the first call of [get] by several threads, and dumps.
    - [Pulse] (net/pulse), with [PulseTree] (delivery, as [wanted] says it without the
      code's own tests, and the well-formed tree),
      [PulseCalls] (waiting calls) and [PulseRace] (calls of several threads on one
      pulse, interleaved block by block); [PulseFb] (net/pulse_fb).  [EndToEnd]: from the
      [send] of one end of a connection to the subscribers at the other; [Rpc]: calls over
      a connection and back.  [Locks]: the mutexes of sessions, servers and pulses, in
      any interleaving of their operations.
    - [Db] (db/nanodbc): connections and nested transactions over an ODBC driver.
    - [App] (app): index, actor_container, session_container, actor, app.
    - [Json] (base/json_reader): the JSON library as a class, documents as trees;
      [ActPath], [Acts] (ensure): paths, and the acts of a flow in a store;
      [ActFacts] (the well-formed tree), [ActFind] (finding acts), [ActFuel] (the
      recursion of acts ends), [ActFrame] (an operation stays in its tree), [ActFlow]
      (running a flow); [Bot]: blackboard, bot, flow and the ensure application over
      [Acts], [Runner] and [Timer], [BotFrame] (bots do not touch each other), [BotRun]
      (all bots, from start to stop).
    - [AlphaNet], [AlphaLogin], [AlphaRooms] (sample/alpha): the messages of the
      sample application, its login (user_master, lobby_runner) and its rooms
      (room_master, room_runner and their actors), over [App]; [AlphaApp]
      (sample/alpha/app/app): its start, its services on their pulses over [Pulse],
      and its stop (the services get the null session of [pulse::dispatch], so
      [alpha_login] and [app_hazards] say what it does to a login); [AlphaEnsure] (sample/alpha/ensure): the acts of its bots.

    ** Conventions

    A member function is a definition with the name it has in the code, in a
    module named after its class, over a record of the data members; code that
    cannot fail is a function, the rest runs in [M].  What the code asks of asio or
    of its callbacks is appended to a list in the state ([emit]); the completion of
    an asynchronous operation is the call of its handler, so a run is a sequence of
    handler calls, in any order the runner may choose.  Objects that are shared by
    pointer (sessions of a server, pulses, timers, pool cells, acts) are addresses
    in a store; access to an address that is not in the store is [Undefined].
    [size_t] and the other fixed-width integers are [Z] reduced where the code
    can wrap ([u32], [u64]); counters bounded by memory are [nat].

    Third-party code is a parameter: the libsodium primitives ([Sodium], with the
    documented properties [SodiumLaws]; [toy_sodium] shows that they can hold),
    flatbuffers, JSON ([Json] with [JsonLaws], and [tree_Json]), the socket
    ([is_open] and the completions), the clock, uuids as strings, asio's [io_context] as threads
    run it ([IoContext] with [IoContextLaws], and a queue), spdlog's registry
    ([Spdlog] with [SpdlogLaws], and a map), the ODBC driver ([Odbc] with [OdbcLaws] and
    [HandleLaws], and [toy_odbc]).

    Loops that are not structural have fuel: the loop of [recv_frames] as many
    rounds as bytes are buffered (every round but the last consumes one,
    [recv_frames_terminates]); [split] as many as the string is long; walks up the
    parents of a pulse as many as there are pulses ([below_size]).  Calls down the
    tree of acts have the depth of the JSON document, which every child's document
    lowers ([ok_child]); calls up as many as there are acts.  [acts_terminate] shows
    that these are enough: whatever stands for a deeper call, the result is the same.
    [poll] of a [poll_runner] has the number of handlers it may run.

    ** Theorems

    Round trips and framing: serialize_roundtrip, length_delimited_roundtrip,
    plain_protocol_framing, secure_protocol_framing, split_correct, parse_address.
    The handshake: secure_handshake_agrees.  The session: session_reassembly,
    session_send_order, session_closed_notification, recv_frames_terminates.  The
    connection: connection_refines_fifo, connection_delivers,
    secure_connection_opens, messages_reach_subscribers.  Who
    is told: server_forwards, server_registry_key, client_connection_cycle,
    pulse_delivery, pulse_tree_preserved, pulse_calls, pulse_fb_calls,
    calls_over_connection.  Resources:
    object_pool_safe, timer_fires, runner_strands, snowflake_unique, transactions_nest,
    connection_handles.  Threads:
    runner_threads_survive, runner_stops, poll_runs_or_waits, mutexes_never_deadlock,
    concurrent_calls, logger_get.  The
    application: container_lookup, app_collections.  Scripted bots:
    act_tree_well_formed, find_descends, acts_terminate, flow_runs, bots_isolated,
    ensure_runs_bots.  The sample:
    alpha_login, room_seats, app_starts, alpha_acts.  Where the code goes wrong, as theorems too:
    plain_protocol_size_limits, handshake_payload_unchecked,
    partial_send_reorders, coalesced_handshake_stalls, handshake_error_escapes,
    accept_hazards, client_hazards, grandchild_dangling, pulse_call_hazards,
    response_counted_twice,
    object_pool_double_destruction, timer_surprises, runner_stop_hazards, act_hazards,
    room_hazards, app_hazards, failed_end_commits.

    ** Not modelled

    What threads do to the data of an object at the same time: outside [ThreadRunner],
    [Logger] and [PulseRace] every handler is one step, as the strands and mutexes of the
    code intend ([Locks] has the mutexes without the data); also not the sinks of the logger and
    the formatting of its messages, uuid generation, the statements and
    results of the database layer (a vendored nanodbc with a cache over its results,
    which convert values to and from the buffers of the driver), observer_ptr (vendored), generated
    flatbuffers headers, tests, the start of processes, and the loop of
    [alpha::app::wait]. *)

From stdpp Require Export base tactics list gmap strings sorting.
From Stdlib Require Export ZArith Lia.
From Stdlib.Init Require Export Byte.
From Stdlib.Strings Require Ascii.


(** ** Build configuration

    [PLAY_CHECK] (base/macros.hpp) logs and then calls [assert].  Whether the
    assertion stops the program is decided by the build ([NDEBUG]), so it is a
    parameter of every definition that contains a check. *)
Class Build := { assertions : bool }.

Definition debug_build : Build := {| assertions := true |}.
Definition release_build : Build := {| assertions := false |}.

(** Strings are lists of characters; [$"abc"] turns a literal into one. *)
Abbreviation ascii := Ascii.ascii.
Abbreviation str := (list ascii).

(** Exceptions the modelled code throws. *)
Inductive exn : Type :=
  | play_error (what : str)
  | sodium_handshake_exception (handle : nat)
  | sodium_cipher_exception (handle : nat)
  | std_exception (what : str).

(** What running a function gives: a value, a thrown exception, a failed
    assertion of a debug build, or undefined behaviour (a null dereference, an
    access out of range, an iterator used after erase). *)
Inductive outcome (A : Type) : Type :=
  | Ret (a : A)
  | Throw (e : exn)
  | Aborted
  | Undefined.
Arguments Ret {A} a.
Arguments Throw {A} e.
Arguments Aborted {A}.
Arguments Undefined {A}.

(** ** The state and exception monad

    A member function is a state transformer over its object's record.  The
    state survives a [throw], as the C++ object does. *)
Definition M (S A : Type) : Type := S → outcome A * S.

#[export] Instance M_ret {S} : MRet (M S) := λ A a s, (Ret a, s).
#[export] Instance M_bind {S} : MBind (M S) := λ A B f m s,
  match m s with
  | (Ret a, s') => f a s'
  | (Throw e, s') => (Throw e, s')
  | (Aborted, s') => (Aborted, s')
  | (Undefined, s') => (Undefined, s')
  end.
#[export] Instance M_fmap {S} : FMap (M S) := λ A B f m s,
  match m s with
  | (Ret a, s') => (Ret (f a), s')
  | (Throw e, s') => (Throw e, s')
  | (Aborted, s') => (Aborted, s')
  | (Undefined, s') => (Undefined, s')
  end.

Definition get {S} : M S S := λ s, (Ret s, s).
Definition put {S} (s' : S) : M S unit := λ _, (Ret tt, s').
Definition gets {S A} (f : S → A) : M S A := λ s, (Ret (f s), s).
Definition modify {S} (f : S → S) : M S unit := λ s, (Ret tt, f s).
Definition throw {S A} (e : exn) : M S A := λ s, (Throw e, s).
Definition undefined {S A} : M S A := λ s, (Undefined, s).

(** [PLAY_CHECK(cond)]. *)
Definition PLAY_CHECK `{Build} {S} (cond : bool) : M S unit := λ s,
  if cond then (Ret tt, s)
  else if assertions then (Aborted, s) else (Ret tt, s).

(** [try { m } catch (std::exception&) { h }]: assertions and undefined
    behaviour are not caught. *)
Definition try_catch {S A} (m : M S A) (h : exn → M S A) : M S A := λ s,
  match m s with
  | (Throw e, s') => h e s'
  | r => r
  end.

(** Runs an operation of a member object inside its owner. *)
Definition zoom {S T A} (out : S → T) (into : T → S → S) (m : M T A) : M S A := λ s,
  let '(r, t) := m (out s) in (r, into t s).

(** An optional result: dereferencing an empty pointer is undefined. *)
Definition deref {S A} (o : option A) : M S A :=
  match o with Some a => mret a | None => undefined end.

(** [for (auto& x : l) f(x)] *)
Fixpoint for_each {S A} (l : list A) (f : A → M S unit) : M S unit :=
  match l with
  | [] => mret tt
  | x :: l => _ ← f x; for_each l f
  end.

(** [if (b) m] *)
Definition when {S} (b : bool) (m : M S unit) : M S unit :=
  if b then m else mret tt.

Declare Scope play_scope.
Delimit Scope play_scope with play.
Notation "$ s" := (String.list_ascii_of_string s%string)
  (at level 8, s at level 0, format "$ s") : play_scope.
Open Scope play_scope.

(** ** Total correctness triples over the monad

    [triple P m Q]: from a state in [P] the run of [m] ends in an outcome and a
    state that [Q] relates to it.  [m] is a total function, so this is total
    correctness; an abort or undefined behaviour is excluded by a [Q] that
    rejects it. *)
Definition triple {S A} (P : S → Prop) (m : M S A) (Q : outcome A → S → Prop) : Prop :=
  ∀ s, P s → Q (m s).1 (m s).2.

(** [I] holds again however [m] ends. *)
Definition preserves {S A} (I : S → Prop) (m : M S A) : Prop :=
  triple I m (λ _ s, I s).

Section triples.
Context {S : Type}.
Implicit Types P I : S → Prop.

Lemma triple_bind {A B} P (m : M S A) (f : A → M S B) R Q :
  triple P m (λ o s, match o with Ret a => R a s | Throw e => Q (Throw e) s
                     | Aborted => Q Aborted s | Undefined => Q Undefined s end) →
  (∀ a, triple (R a) (f a) Q) →
  triple P (m ≫= f) Q.
Proof.
  intros Hm Hf s HP. specialize (Hm s HP). unfold mbind, M_bind.
  destruct (m s) as [[] ?]; simpl in *; auto. by apply Hf.
Qed.

Lemma preserves_ret {A} I (a : A) : preserves I (mret a).
Proof. intros s Hs. done. Qed.

Lemma preserves_gets {A} I (f : S → A) : preserves I (gets f).
Proof. intros s Hs. done. Qed.

Lemma preserves_get I : preserves I get.
Proof. intros s Hs. done. Qed.

Lemma preserves_throw {A} I e : preserves I (throw (A:=A) e).
Proof. intros s Hs. done. Qed.

Lemma preserves_undefined {A} I : preserves I (undefined (A:=A)).
Proof. intros s Hs. done. Qed.

Lemma preserves_check `{Build} I b : preserves I (PLAY_CHECK b).
Proof. intros s Hs. unfold PLAY_CHECK. destruct b; [done|]. by destruct assertions. Qed.

Lemma preserves_deref {A} I (o : option A) : preserves I (deref o).
Proof. destruct o; intros s Hs; done. Qed.

Lemma preserves_modify I (f : S → S) : (∀ s, I s → I (f s)) → preserves I (modify f).
Proof. intros Hf s Hs. by apply Hf. Qed.

Lemma preserves_bind {A B} I (m : M S A) (f : A → M S B) :
  preserves I m → (∀ a, preserves I (f a)) → preserves I (m ≫= f).
Proof.
  intros Hm Hf. apply triple_bind with (R := λ _ s, I s); [|done].
  intros s Hs. specialize (Hm s Hs). by destruct (m s) as [[] ?].
Qed.

Lemma preserves_try {A} I (m : M S A) h :
  preserves I m → (∀ e, preserves I (h e)) → preserves I (try_catch m h).
Proof.
  intros Hm Hh s Hs. specialize (Hm s Hs). unfold try_catch.
  destruct (m s) as [[] ?]; simpl in *; auto. by apply Hh.
Qed.

Lemma preserves_if {A} I (b : bool) (m1 m2 : M S A) :
  preserves I m1 → preserves I m2 → preserves I (if b then m1 else m2).
Proof. by destruct b. Qed.

Lemma preserves_when I b (m : M S unit) : preserves I m → preserves I (when b m).
Proof. destruct b; intros; [done|]. apply preserves_ret. Qed.

Lemma preserves_for_each {A} I (l : list A) f :
  (∀ x, x ∈ l → preserves I (f x)) → preserves I (for_each l f).
Proof.
  induction l as [|x l IH]; intros Hf; [apply preserves_ret|].
  apply preserves_bind; [apply Hf; set_solver|]. intros _. apply IH. set_solver.
Qed.

Lemma preserves_elim {A} I (m : M S A) s : preserves I m → I s → I (m s).2.
Proof. intros Hm. apply Hm. Qed.
End triples.

(** A check that holds, at least when assertions are on, has no effect. *)
Lemma check_pass `{Build} {S} b (s : S) :
  (assertions = true → b = true) → PLAY_CHECK b s = (Ret tt, s).
Proof. unfold PLAY_CHECK. destruct b, assertions; naive_solver. Qed.

Lemma check_true `{Build} {S} b (s : S) : b = true → PLAY_CHECK b s = (Ret tt, s).
Proof. intros ->. done. Qed.

Lemma check_release `{Build} {S} b (s : S) : assertions = false → PLAY_CHECK b s = (Ret tt, s).
Proof. intros Ha. apply check_pass. congruence. Qed.

Lemma check_fails `{Build} {S} (s : S) : assertions = true → PLAY_CHECK false s = (Aborted, s).
Proof. unfold PLAY_CHECK. by intros ->. Qed.

Create HintDb play.
#[export] Hint Resolve preserves_ret preserves_gets preserves_get preserves_throw
  preserves_undefined preserves_check preserves_deref : play.

(** [preserve] splits a goal [preserves I m] along the structure of [m] and
    leaves the [modify] steps. *)
Ltac preserve_step :=
  match goal with
  | |- preserves _ (_ ≫= _) => apply preserves_bind
  | |- preserves _ (mbind _ _) => apply preserves_bind
  | |- preserves _ (if _ then _ else _) => apply preserves_if
  | |- preserves _ (when _ _) => apply preserves_when
  | |- preserves _ (try_catch _ _) => apply preserves_try
  | |- preserves _ (for_each _ _) => apply preserves_for_each
  | |- preserves _ (match ?x with _ => _ end) => destruct x
  | |- preserves _ _ => solve [auto with play]
  | |- preserves _ (modify _) => apply preserves_modify
  | |- ∀ _, preserves _ _ => intros ?
  | |- ∀ _, _ → preserves _ _ => intros ? ?
  end.
Ltac preserve := repeat preserve_step.

(** [run] computes a run of the monad as far as the known conditions allow;
    [run in H] does so in a hypothesis. *)
Ltac unfold_M :=
  unfold deref, when, zoom, try_catch in *;
  unfold mbind, M_bind, mret, M_ret, fmap, M_fmap, get, put, gets, modify, throw,
    undefined in *.
Ltac run := repeat (progress (unfold_M; simpl)).

(** Running the first operation of a sequence. *)
Lemma bind_run {S A B} (m : M S A) (f : A → M S B) s a s' :
  m s = (Ret a, s') → (m ≫= f) s = f a s'.
Proof. unfold mbind, M_bind. by intros ->. Qed.

Lemma run_eq {S A} (m : M S A) s a : (m s).1 = Ret a → m s = (Ret a, (m s).2).
Proof. destruct (m s). by simpl; intros ->. Qed.

Lemma try_catch_value {S A} (m : M S A) h (x : S) a y : m x = (Ret a, y) → try_catch m h x = (Ret a, y).
Proof. intros Hm. unfold try_catch. by rewrite Hm. Qed.

Lemma bind_bind {S A B C} (m : M S A) (f : A → M S B) (k : B → M S C) (x : S) :
  ((m ≫= f) ≫= k) x = (m ≫= λ a, f a ≫= k) x.
Proof. unfold mbind, M_bind. by destruct (m x) as [[]]. Qed.

Lemma bind_stop {S A B} (m : M S A) (f : A → M S B) s o s' :
  m s = (o, s') → (∀ a, o ≠ Ret a) →
  (m ≫= f) s = (match o with Ret _ => Undefined | Throw e => Throw e
                | Aborted => Aborted | Undefined => Undefined end, s').
Proof. unfold mbind, M_bind. intros ->. destruct o; naive_solver. Qed.

(** Proves a decidable proposition by computing its decision. *)
Ltac decided :=
  match goal with |- ?P =>
    let d := constr:(_ : Decision P) in
    refine (@bool_decide_unpack P d _); vm_compute; exact I
  end.

(** ** Sequences of steps *)
Section reachability.
Context {S L : Type} (step : S → L → S → Prop).

(** The states reachable from [s] by a sequence of labelled steps. *)
Inductive steps : S → list L → S → Prop :=
  | steps_nil s : steps s [] s
  | steps_cons s l s' ls s'' : step s l s' → steps s' ls s'' → steps s (l :: ls) s''.

Lemma steps_invariant (I : S → Prop) :
  (∀ s l s', step s l s' → I s → I s') →
  ∀ s ls s', steps s ls s' → I s → I s'.
Proof. intros Hstep s ls s'. induction 1; eauto. Qed.

Lemma steps_app s1 l1 s2 l2 s3 :
  steps s1 l1 s2 → steps s2 l2 s3 → steps s1 (l1 ++ l2) s3.
Proof. induction 1; simpl; [done|]. intros. econstructor; eauto. Qed.
End reachability.

(** ** Lists *)
Lemma drop_app_exact {A} (l k : list A) n : n = length l → drop n (l ++ k) = k.
Proof. intros ->. apply drop_app_length. Qed.

Lemma take_app_exact {A} (l k : list A) n : n = length l → take n (l ++ k) = l.
Proof. intros ->. apply take_app_length. Qed.

Lemma snoc_assoc {A} (l : list A) x k : l ++ x :: k = (l ++ [x]) ++ k.
Proof. by rewrite <-(assoc_L app). Qed.

Lemma prefix_take {A} (l k : list A) : l `prefix_of` k → take (length l) k = l.
Proof. intros [t ->]. apply take_app_length. Qed.

Lemma sum_list_with_insert {A} (f : A → nat) l i x y :
  l !! i = Some x → sum_list_with f (<[i:=y]> l) + f x = sum_list_with f l + f y.
Proof. revert i. induction l as [|z l IH]; intros [|i] Hx; simplify_eq/=; [lia|]. specialize (IH i Hx). lia. Qed.

Lemma concat_snoc {A} (ls : list (list A)) l : concat (ls ++ [l]) = concat ls ++ l.
Proof. rewrite concat_app. simpl. by rewrite app_nil_r. Qed.

Create Rewrite HintDb play_rw.
#[export] Hint Rewrite @drop_app_length @take_app_length @app_nil_r : play_rw.

(** ** Ordered maps

    [std::map] is visited in the order of its keys. *)
Definition key_le {A} (a b : Z * A) : Prop := (a.1 ≤ b.1)%Z.
#[export] Instance key_le_dec {A} (a b : Z * A) : Decision (key_le a b).
Proof. unfold key_le. apply _. Defined.
Definition entries_in_order {A} (m : gmap Z A) : list (Z * A) :=
  merge_sort key_le (map_to_list m).

(** The keys come in order, each once. *)
Lemma sorted_keys {A} (l : list (Z * A)) : Sorted key_le l → Sorted Z.le (map fst l).
Proof. induction 1 as [|a l Hl IH Ha]; simpl; constructor; [done|]. by inversion Ha; constructor. Qed.

Lemma entries_in_order_spec {A} (m : gmap Z A) :
  Sorted Z.le (map fst (entries_in_order m)) ∧ NoDup (map fst (entries_in_order m)) ∧
  ∀ k v, (k, v) ∈ entries_in_order m ↔ m !! k = Some v.
Proof.
  unfold entries_in_order. pose proof (merge_sort_Permutation key_le (map_to_list m)) as Hp. split_and!.
  - apply sorted_keys, Sorted_merge_sort. intros a b. unfold key_le. lia.
  - rewrite Hp. apply NoDup_fst_map_to_list.
  - intros k v. rewrite Hp. apply elem_of_map_to_list.
Qed.
