(* ===== verification/Serializer.v ===== *)
(** * Machine integers and play/net/util/serializer.hpp

    Bytes, fixed-width unsigned integers with their wrap-around, and the
    little-endian (de)serialization every protocol header is written with.
    The theorems relate the shift-and-mask loops to the positional value of the
    bytes and show that the two directions are inverse. *)

From S2P Require Import Prelude.
#[local] Open Scope Z_scope.

Abbreviation byte := Byte.byte.
Abbreviation bytes := (list byte).

#[export] Instance byte_eq_dec : EqDecision byte := Byte.byte_eq_dec.

(** ** Machine integers *)

(** Conversion to an unsigned integer type of [n] bytes. *)
Definition wrap (n : nat) (z : Z) : Z := z mod 2 ^ (8 * Z.of_nat n).

Definition u16 (z : Z) : Z := wrap 2 z.
Definition u32 (z : Z) : Z := wrap 4 z.
Definition u64 (z : Z) : Z := wrap 8 z.

(** [static_cast<uint8_t>(z)] and back. *)
Definition byte_of_Z (z : Z) : byte :=
  match Byte.of_N (Z.to_N (z mod 256)) with Some b => b | None => x00 end.
Definition Z_of_byte (b : byte) : Z := Z.of_N (Byte.to_N b).

(** The value of a (signed) [char] holding the byte. *)
Definition Z_of_char (b : byte) : Z :=
  if Z_of_byte b <? 128 then Z_of_byte b else Z_of_byte b - 256.

(** The positional value of a little-endian byte string: the reference the
    loops are compared with. *)
Fixpoint le_value (bs : bytes) : Z :=
  match bs with
  | [] => 0
  | b :: bs => Z_of_byte b + 256 * le_value bs
  end.

(** ** The serializer *)
Module serializer.
Section serializer.
Context `{Build}.

(** The loop of [serialize<Value>]: [fuel] iterations from index [i].  A store
    past the end of [buf] is undefined. *)
Fixpoint serialize_loop (fuel i : nat) (buf : bytes) (sv : Z) : M unit bytes :=
  match fuel with
  | O => mret buf
  | S fuel =>
      if decide (i < length buf)%nat
      then serialize_loop fuel (S i) (<[i := byte_of_Z (Z.land sv 255)]> buf) (Z.shiftr sv 8)
      else undefined
  end.

(** [serialize(buf, len, v)] for a [Value] of [n] bytes. *)
Definition serialize (n : nat) (buf : bytes) (len : nat) (v : Z) : M unit bytes :=
  _ ← PLAY_CHECK (n <=? len)%nat;
  serialize_loop n 0 buf v.

(** [serialize(buf, len, bool)] *)
Definition serialize_bool (buf : bytes) (len : nat) (v : bool) : M unit bytes :=
  let tv := if v then 1 else 0 in
  if decide (0 < length buf)%nat then mret (<[0%nat := byte_of_Z tv]> buf) else undefined.

(** The loop of [deserialize<Value>]. *)
Fixpoint deserialize_loop (n fuel i : nat) (buf : bytes) (v : Z) : M unit Z :=
  match fuel with
  | O => mret v
  | S fuel =>
      b ← deref (buf !! i);
      let bv := wrap n (Z_of_byte b) in
      deserialize_loop n fuel (S i) buf
        (wrap n (Z.lor v (Z.shiftl (Z.land bv 255) (8 * Z.of_nat i))))
  end.

(** [deserialize(buf, len, v)]: returns the value stored into [v]. *)
Definition deserialize (n : nat) (buf : bytes) (len : nat) : M unit Z :=
  _ ← PLAY_CHECK (n <=? len)%nat;
  deserialize_loop n n 0 buf 0.

(** [deserialize(buf, len, bool&)] *)
Definition deserialize_bool (buf : bytes) (len : nat) : M unit bool :=
  _ ← PLAY_CHECK (0 <? len)%nat;
  tv ← deref (buf !! 0%nat);
  mret (negb (Z_of_byte tv =? 0)).
End serializer.
End serializer.

(** The little-endian bytes of [v]: what [serialize] writes. *)
Fixpoint le_bytes (n : nat) (v : Z) : bytes :=
  match n with
  | O => []
  | S n => byte_of_Z (Z.land v 255) :: le_bytes n (Z.shiftr v 8)
  end.

#[global] Arguments wrap : simpl never.
#[global] Arguments u16 : simpl never.
#[global] Arguments u32 : simpl never.
#[global] Arguments u64 : simpl never.
#[global] Arguments byte_of_Z : simpl never.
#[global] Arguments Z_of_byte : simpl never.
#[global] Arguments Z_of_char : simpl never.

(** ** Bytes *)
Lemma Z_of_byte_range b : 0 <= Z_of_byte b < 256.
Proof. unfold Z_of_byte. pose proof (Byte.to_N_bounded b). lia. Qed.

Lemma Z_of_byte_of_Z z : Z_of_byte (byte_of_Z z) = z mod 256.
Proof.
  unfold byte_of_Z, Z_of_byte. pose proof (Z.mod_pos_bound z 256 ltac:(lia)) as Hr.
  destruct (Byte.of_N (Z.to_N (z mod 256))) as [b|] eqn:Hb.
  - apply Byte.to_of_N in Hb. rewrite Hb. lia.
  - apply Byte.of_N_None_iff in Hb. lia.
Qed.

Lemma byte_of_Z_of_byte b : byte_of_Z (Z_of_byte b) = b.
Proof.
  unfold byte_of_Z. pose proof (Z_of_byte_range b). rewrite Z.mod_small by lia.
  unfold Z_of_byte. by rewrite N2Z.id, Byte.of_to_N.
Qed.

Lemma Z_of_byte_inj b1 b2 : Z_of_byte b1 = Z_of_byte b2 → b1 = b2.
Proof. intros Heq. rewrite <-(byte_of_Z_of_byte b1), Heq. apply byte_of_Z_of_byte. Qed.

Lemma land_255 z : Z.land z 255 = z mod 256.
Proof. change 255 with (Z.ones 8). by rewrite Z.land_ones by lia. Qed.

Lemma byte_of_Z_land z : byte_of_Z (Z.land z 255) = byte_of_Z z.
Proof. apply Z_of_byte_inj. rewrite !Z_of_byte_of_Z, land_255. apply Z.mod_mod. lia. Qed.

(** The cast [uint32_t pv = p[i]] of a signed character and the mask give the
    byte back. *)
Lemma char_to_byte b : Z.land (u32 (Z_of_char b)) 255 = Z_of_byte b.
Proof.
  rewrite land_255. pose proof (Z_of_byte_range b). unfold u32, wrap, Z_of_char.
  replace (2 ^ (8 * Z.of_nat 4)) with 4294967296 by done.
  destruct (Z.ltb_spec (Z_of_byte b) 128).
  - rewrite (Z.mod_small _ 4294967296) by lia. apply Z.mod_small. lia.
  - replace ((Z_of_byte b - 256) mod 4294967296) with (Z_of_byte b + 16777215 * 256).
    + rewrite Z.mod_add by lia. apply Z.mod_small. lia.
    + apply Z.mod_unique with (-1); lia.
Qed.

(** ** Little-endian values *)
Lemma length_le_bytes n v : length (le_bytes n v) = n.
Proof. revert v. induction n; intros; simpl; auto. Qed.

Lemma pow256_S n : 2 ^ (8 * Z.of_nat (S n)) = 256 * 2 ^ (8 * Z.of_nat n).
Proof.
  rewrite Nat2Z.inj_succ. replace (8 * Z.succ (Z.of_nat n)) with (8 + 8 * Z.of_nat n) by lia.
  rewrite Z.pow_add_r by lia. done.
Qed.

Lemma pow256_pos n : 0 < 2 ^ (8 * Z.of_nat n).
Proof. apply Z.pow_pos_nonneg; lia. Qed.

Lemma le_value_range bs : 0 <= le_value bs < 2 ^ (8 * Z.of_nat (length bs)).
Proof.
  induction bs as [|b bs IH]; [simpl; lia|].
  pose proof (Z_of_byte_range b). simpl length. rewrite pow256_S. simpl. lia.
Qed.

Lemma le_value_bytes n v : le_value (le_bytes n v) = wrap n v.
Proof.
  revert v. induction n as [|n IH]; intros v; simpl.
  { unfold wrap. simpl. by rewrite Z.mod_1_r. }
  rewrite IH, byte_of_Z_land, Z_of_byte_of_Z, Z.shiftr_div_pow2 by lia.
  unfold wrap. rewrite pow256_S. change (2 ^ 8) with 256.
  pose proof (pow256_pos n).
  rewrite Z.rem_mul_r by lia. done.
Qed.

Lemma le_bytes_value bs : le_bytes (length bs) (le_value bs) = bs.
Proof.
  induction bs as [|b bs IH]; [done|]. simpl.
  pose proof (Z_of_byte_range b).
  rewrite byte_of_Z_land. f_equal.
  - apply Z_of_byte_inj. rewrite Z_of_byte_of_Z, Z.mul_comm, Z.mod_add, Z.mod_small; lia.
  - rewrite Z.shiftr_div_pow2 by lia. change (2 ^ 8) with 256.
    rewrite Z.mul_comm, Z.div_add, Z.div_small by lia. done.
Qed.

Lemma wrap_id n v : 0 <= v < 2 ^ (8 * Z.of_nat n) → wrap n v = v.
Proof. apply Z.mod_small. Qed.

Lemma u16_small v : 0 <= v < 65536 → u16 v = v.
Proof. apply Z.mod_small. Qed.

Lemma u32_small v : 0 <= v < 4294967296 → u32 v = v.
Proof. apply Z.mod_small. Qed.

Lemma u64_small v : 0 <= v < 18446744073709551616 → u64 v = v.
Proof. apply Z.mod_small. Qed.

Lemma le_value_app bs cs :
  le_value (bs ++ cs) = le_value bs + 2 ^ (8 * Z.of_nat (length bs)) * le_value cs.
Proof.
  induction bs as [|b bs IH]; [simpl; by destruct (le_value cs)|].
  simpl length. rewrite pow256_S. simpl. rewrite IH. lia.
Qed.

(** Adding a byte above the value read so far is what the [|=] does. *)
Lemma lor_shift_add v b k :
  0 <= k → 0 <= v < 2 ^ k → Z.lor v (Z.shiftl b k) = v + 2 ^ k * b.
Proof.
  intros Hk Hv. rewrite Z.lor_comm, Z.shiftl_mul_pow2 by lia.
  assert (Z.land (b * 2 ^ k) v = 0) as Hdisj.
  { rewrite <-Z.shiftl_mul_pow2 by lia. apply Z.bits_inj'. intros i Hi.
    rewrite Z.land_spec, Z.bits_0. destruct (Z.lt_ge_cases i k).
    - by rewrite Z.shiftl_spec_low.
    - destruct (Z.eq_dec v 0) as [->|]; [by rewrite Z.bits_0, andb_false_r|].
      rewrite (Z.bits_above_log2 v i), andb_false_r; [done|lia|].
      apply Z.log2_lt_pow2; [lia|]. eapply Z.lt_le_trans; [apply Hv|].
      apply Z.pow_le_mono_r; lia. }
  pose proof (Z.add_lor_land (b * 2 ^ k) v). lia.
Qed.

(** ** The loops *)
Section loops.
Context `{Build}.

Lemma serialize_loop_spec n pre cur post v :
  length cur = n →
  serializer.serialize_loop n (length pre) (pre ++ cur ++ post) v tt
  = (Ret (pre ++ le_bytes n v ++ post), tt).
Proof.
  revert pre cur v. induction n as [|n IH]; intros pre cur v Hlen.
  { destruct cur; done. }
  destruct cur as [|c cur]; [done|]. simpl in Hlen. simpl.
  rewrite decide_True by (rewrite length_app; simpl; lia).
  rewrite insert_app_r_alt, Nat.sub_diag by lia. simpl.
  replace (S (length pre)) with (length (pre ++ [byte_of_Z (Z.land v 255)]))
    by (rewrite length_app; simpl; lia).
  rewrite (snoc_assoc pre _ (cur ++ post)), IH by lia. by rewrite <-snoc_assoc.
Qed.

Lemma serialize_spec n buf len v :
  (n <= len)%nat → (n <= length buf)%nat →
  serializer.serialize n buf len v tt = (Ret (le_bytes n v ++ drop n buf), tt).
Proof.
  intros Hlen Hbuf. unfold serializer.serialize, PLAY_CHECK. unfold_M.
  rewrite (proj2 (Nat.leb_le _ _) Hlen).
  rewrite <-(take_drop n buf) at 1.
  apply (serialize_loop_spec n [] (take n buf) (drop n buf) v).
  rewrite length_take. lia.
Qed.

Lemma deserialize_loop_spec n k pre rest v :
  (length pre + k = n)%nat → (k <= length rest)%nat → v = le_value pre →
  serializer.deserialize_loop n k (length pre) (pre ++ rest) v tt
  = (Ret (le_value (pre ++ take k rest)), tt).
Proof.
  revert pre rest v. induction k as [|k IH]; intros pre rest v Hn Hrest ->.
  { simpl. by rewrite take_0, app_nil_r. }
  destruct rest as [|b rest]; [simpl in Hrest; lia|]. simpl in Hrest.
  simpl. rewrite list_lookup_middle by done. unfold_M. simpl.
  pose proof (Z_of_byte_range b). pose proof (le_value_range pre).
  assert (2 ^ (8 * Z.of_nat (length pre)) * 256 <= 2 ^ (8 * Z.of_nat n)).
  { rewrite Z.mul_comm, <-pow256_S. apply Z.pow_le_mono_r; lia. }
  rewrite land_255, (wrap_id n (Z_of_byte b)), Z.mod_small by nia.
  rewrite lor_shift_add by lia. rewrite wrap_id by nia.
  replace (S (length pre)) with (length (pre ++ [b])) by (rewrite length_app; simpl; lia).
  rewrite (snoc_assoc pre b rest), IH.
  - by rewrite <-snoc_assoc.
  - rewrite length_app. simpl. lia.
  - lia.
  - rewrite le_value_app. simpl. lia.
Qed.

Lemma deserialize_spec n buf len :
  (n <= len)%nat → (n <= length buf)%nat →
  serializer.deserialize n buf len tt = (Ret (le_value (take n buf)), tt).
Proof.
  intros Hlen Hbuf. unfold serializer.deserialize, PLAY_CHECK. unfold_M.
  rewrite (proj2 (Nat.leb_le _ _) Hlen).
  apply (deserialize_loop_spec n n [] buf 0); simpl; lia.
Qed.

Lemma serialize_bool_spec b buf len v :
  serializer.serialize_bool (b :: buf) len v tt
  = (Ret (byte_of_Z (if v then 1 else 0) :: buf), tt).
Proof. done. Qed.

Lemma deserialize_bool_spec b buf len :
  (0 < len)%nat →
  serializer.deserialize_bool (b :: buf) len tt = (Ret (negb (Z_of_byte b =? 0)), tt).
Proof.
  intros Hlen. unfold serializer.deserialize_bool, PLAY_CHECK. unfold_M.
  by rewrite (proj2 (Nat.ltb_lt _ _) Hlen).
Qed.
End loops.

#[export] Hint Rewrite @length_le_bytes : play_rw.

(** ** Properties *)

(** C1. [serialize] and [deserialize] are inverse for every value that fits the
    [n]-byte type, whatever the buffer held before and whatever follows: the
    value written is the value read, the bytes written are its little-endian
    representation, the bytes after them are untouched, and reading then writing
    restores the bytes. *)
Theorem serialize_roundtrip `{Build} (n : nat) (buf : bytes) (len : nat) (v : Z) :
  (n <= len)%nat → (n <= length buf)%nat → 0 <= v < 2 ^ (8 * Z.of_nat n) →
  ∃ buf', serializer.serialize n buf len v tt = (Ret buf', tt)
    ∧ serializer.deserialize n buf' len tt = (Ret v, tt)
    ∧ le_value (take n buf') = v
    ∧ drop n buf' = drop n buf ∧ length buf' = length buf
    ∧ serializer.serialize n buf' len v tt = (Ret buf', tt).
Proof.
  intros Hlen Hbuf Hv. exists (le_bytes n v ++ drop n buf).
  assert (length (le_bytes n v ++ drop n buf) = length buf) as Hl.
  { rewrite length_app, length_le_bytes, length_drop. lia. }
  rewrite serialize_spec, deserialize_spec, serialize_spec by lia.
  rewrite take_app_exact, !drop_app_exact by (by rewrite length_le_bytes).
  rewrite le_value_bytes, wrap_id by done. done.
Qed.

Lemma serialize_roundtrip_witness :
  let _ := debug_build in
  ∃ buf', serializer.serialize 2 [x00; x00; xff] 2 513 tt = (Ret buf', tt)
    ∧ serializer.deserialize 2 buf' 2 tt = (Ret 513, tt)
    ∧ le_value (take 2 buf') = 513
    ∧ drop 2 buf' = drop 2 [x00; x00; xff] ∧ length buf' = length [x00; x00; xff]
    ∧ serializer.serialize 2 buf' 2 513 tt = (Ret buf', tt).
Proof.
  intros ?. apply (serialize_roundtrip 2 [x00; x00; xff] 2 513); simpl; lia.
Defined.
