(* ===== verification/StringUtil.v ===== *)
(** * play/base/string_util.hpp and play/net/util/address.cpp

    The tokenizer used for configuration paths, act paths and addresses, with the
    index arithmetic of the source, and the [ip:port] parser.  The loop is shown
    to terminate within its fuel and, for a one-character delimiter, to compute
    the reference tokenizer [tokens]. *)

From S2P Require Import Prelude.
From S2P Require Import Serializer.
From Stdlib.Strings Require Import Ascii.
Import (notations) Ascii.

(** [s.find_first_of(chars, pos)]: [None] is [std::string::npos]. *)
Fixpoint find_first_of (s chars : str) (pos : nat) : option nat :=
  match s with
  | [] => None
  | c :: s =>
      match pos with
      | S pos => S <$> find_first_of s chars pos
      | O => if decide (c ∈ chars) then Some 0 else S <$> find_first_of s chars 0
      end
  end.

(** [s.substr(pos, n)] for [pos <= s.size()]. *)
Definition substr (s : str) (pos n : nat) : str := take n (drop pos s).

Module string_util.
(** The [while] loop of [split].  One iteration advances [ppos] beyond the
    delimiter found, so [length s + 1] iterations suffice ([split_fuel_enough]). *)
Fixpoint split_loop (fuel : nat) (s delimiter : str) (result : list str)
    (ppos : nat) (cpos : option nat) : option (list str * nat) :=
  match cpos with
  | None => Some (result, ppos)
  | Some c =>
      match fuel with
      | O => None
      | S fuel =>
          let result := if decide (ppos < c) then result ++ [substr s ppos (c - ppos)]
                        else result in
          let ppos := c + length delimiter in
          split_loop fuel s delimiter result ppos (find_first_of s delimiter ppos)
      end
  end.

(** [string_util::split(in, delimiter)] *)
Definition split (s delimiter : str) : list str :=
  match s with
  | [] => []
  | _ =>
      match split_loop (S (length s)) s delimiter [] 0 (find_first_of s delimiter 0) with
      | Some (result, ppos) =>
          if decide (ppos < length s) then result ++ [drop ppos s] else result
      | None => []
      end
  end.
End string_util.

(** The C library's [atoi] on a string of decimal digits: the longest prefix of
    digits is read, after optional white space and a sign. *)
Definition digit (c : ascii) : option Z :=
  let n := Z.of_N (Ascii.N_of_ascii c) in
  if (48 <=? n)%Z && (n <=? 57)%Z then Some (n - 48)%Z else None.

Fixpoint digits_value (acc : Z) (s : str) : Z :=
  match s with
  | [] => acc
  | c :: s => match digit c with Some d => digits_value (10 * acc + d) s | None => acc end
  end.

Definition is_space (c : ascii) : bool :=
  let n := Z.of_N (Ascii.N_of_ascii c) in (n =? 32)%Z || ((9 <=? n)%Z && (n <=? 13)%Z).

Fixpoint skip_space (s : str) : str :=
  match s with c :: s' => if is_space c then skip_space s' else s | [] => [] end.

Definition atoi (s : str) : Z :=
  match skip_space s with
  | "-"%char :: s => (- digits_value 0 s)%Z
  | "+"%char :: s => digits_value 0 s
  | s => digits_value 0 s
  end.

Module address.
(** [address::parse(ip_addr)]: the pair's second component is a [uint16_t]. *)
Definition parse (ip_addr : str) : M unit (str * Z) :=
  let vs := string_util.split ip_addr $":" in
  if decide (length vs < 2) then mret ([], 0%Z)
  else
    v0 ← deref (vs !! 0);
    v1 ← deref (vs !! 1);
    mret (v0, u16 (atoi v1)).
End address.

(** ** Reference tokenizer: maximal runs of characters other than [d] *)
Fixpoint tokens_go (d : ascii) (cur s : str) : list str :=
  match s with
  | [] => if decide (cur = []) then [] else [cur]
  | c :: s =>
      if decide (c = d)
      then (if decide (cur = []) then [] else [cur]) ++ tokens_go d [] s
      else tokens_go d (cur ++ [c]) s
  end.
Definition tokens (d : ascii) (s : str) : list str := tokens_go d [] s.

(** ** Searching *)
Lemma find_first_of_Some s chars pos i :
  find_first_of s chars pos = Some i →
  pos ≤ i < length s ∧ (∃ c, s !! i = Some c ∧ c ∈ chars)
  ∧ ∀ j c, pos ≤ j < i → s !! j = Some c → c ∉ chars.
Proof.
  revert pos i. induction s as [|c s IH]; intros pos i; simpl; [done|].
  destruct pos as [|pos].
  - case_decide as Hc.
    + intros [= <-]. split_and!; [lia|lia|by exists c|]. intros; lia.
    + intros (j & Hj & ->)%fmap_Some. apply IH in Hj as (? & Hin & Hno).
      split_and!; [lia|lia|done|]. intros [|k] c' Hk Hc'; simplify_eq/=; [done|].
      eapply Hno; [|done]. lia.
  - intros (j & Hj & ->)%fmap_Some. apply IH in Hj as (? & Hin & Hno).
    split_and!; [lia|lia|done|]. intros [|k] c' Hk Hc'; [lia|].
    eapply Hno; [|done]. lia.
Qed.

Lemma find_first_of_None s chars pos j c :
  find_first_of s chars pos = None → pos ≤ j → s !! j = Some c → c ∉ chars.
Proof.
  revert pos j. induction s as [|a s IH]; intros pos j; simpl; [done|].
  destruct pos as [|pos], j as [|j]; simpl; intros Hf Hj Hc; [| |lia|].
  - case_decide; [done|]. by simplify_eq.
  - case_decide; [done|]. apply fmap_None in Hf. eapply IH; [done| |done]. lia.
  - apply fmap_None in Hf. eapply IH; [done| |done]. lia.
Qed.

(** ** Termination *)
Lemma split_loop_total fuel s d result ppos :
  d ≠ [] → length s < ppos + fuel ∨ length s < fuel →
  is_Some (string_util.split_loop fuel s d result ppos (find_first_of s d ppos)).
Proof.
  intros Hd. revert result ppos.
  induction fuel as [|fuel IH]; intros result ppos Hf; simpl.
  - destruct (find_first_of s d ppos) as [c|] eqn:Hc; [|done].
    apply find_first_of_Some in Hc as [? _]. lia.
  - destruct (find_first_of s d ppos) as [c|] eqn:Hc; [|done].
    apply find_first_of_Some in Hc as [? _]. apply IH.
    destruct d; [done|]. simpl. lia.
Qed.

Lemma find_first_of_nil s pos : find_first_of s [] pos = None.
Proof.
  revert pos. induction s as [|c s IH]; intros [|pos]; simpl; rewrite ?IH; try done.
Qed.

Lemma split_fuel_enough s d :
  is_Some (string_util.split_loop (S (length s)) s d [] 0 (find_first_of s d 0)).
Proof.
  destruct d as [|c d]; [rewrite find_first_of_nil; simpl; done|].
  apply split_loop_total; [done|]. lia.
Qed.

(** ** The reference tokenizer *)
Lemma tokens_go_run d cur w r :
  d ∉ w →
  tokens_go d cur (w ++ d :: r)
  = (if decide (cur ++ w = []) then [] else [cur ++ w]) ++ tokens d r.
Proof.
  revert cur. induction w as [|c w IH]; intros cur Hd; simpl.
  { rewrite app_nil_r. by rewrite decide_True by done. }
  rewrite decide_False by set_solver. rewrite IH by set_solver.
  by rewrite <-snoc_assoc.
Qed.

Lemma tokens_go_end d cur w :
  d ∉ w → tokens_go d cur w = if decide (cur ++ w = []) then [] else [cur ++ w].
Proof.
  revert cur. induction w as [|c w IH]; intros cur Hd; simpl.
  { by rewrite app_nil_r. }
  rewrite decide_False by set_solver. rewrite IH by set_solver. by rewrite <-snoc_assoc.
Qed.

Lemma tokens_go_ok d cur s :
  d ∉ cur →
  Forall (λ t, t ≠ [] ∧ d ∉ t) (tokens_go d cur s)
  ∧ concat (tokens_go d cur s) = cur ++ filter (λ c, c ≠ d) s.
Proof.
  revert cur. induction s as [|c s IH]; intros cur Hcur; simpl.
  - rewrite app_nil_r. case_decide; [subst; split; [constructor|done]|].
    split; [by repeat constructor|]. simpl. by rewrite app_nil_r.
  - rewrite filter_cons. case_decide as Hc.
    + destruct (IH []) as [HF Hcat]; [set_solver|].
      rewrite (decide_False (P := c ≠ d)) by auto. rewrite concat_app, Hcat.
      case_decide; subst; simpl; [split; [done|done]|].
      split; [by repeat constructor|]. by rewrite app_nil_r.
    + destruct (IH (cur ++ [c])) as [HF Hcat]; [set_solver|].
      rewrite (decide_True (P := c ≠ d)) by done. rewrite Hcat. split; [done|]. by rewrite <-snoc_assoc.
Qed.

Lemma tokens_single d w : d ∉ w → w ≠ [] → tokens d w = [w].
Proof. intros Hd Hw. unfold tokens. rewrite tokens_go_end by done. by rewrite decide_False. Qed.

Lemma tokens_pair d w r :
  d ∉ w → w ≠ [] → d ∉ r → r ≠ [] → tokens d (w ++ d :: r) = [w; r].
Proof.
  intros Hw Hwne Hr Hrne. unfold tokens at 1. rewrite tokens_go_run by done.
  rewrite tokens_single by done. simpl. by rewrite decide_False by done.
Qed.

(** Reading the rest of the string from a position. *)
Lemma tokens_step d s ppos c :
  find_first_of s [d] ppos = Some c →
  tokens d (drop ppos s)
  = (if decide (ppos < c) then [substr s ppos (c - ppos)] else []) ++ tokens d (drop (c + 1) s).
Proof.
  intros Hf. apply find_first_of_Some in Hf as ([Hp Hc] & (x & Hx & Hin) & Hno).
  apply list_elem_of_singleton in Hin as ->.
  assert (drop ppos s = take (c - ppos) (drop ppos s) ++ d :: drop (c + 1) s) as Hs.
  { rewrite <-(take_drop (c - ppos) (drop ppos s)) at 1. f_equal.
    rewrite drop_drop. replace (ppos + (c - ppos)) with c by lia.
    rewrite (drop_S _ _ _ Hx). by rewrite Nat.add_1_r. }
  rewrite Hs at 1. unfold tokens at 1. rewrite tokens_go_run.
  - unfold substr. simpl. f_equal. destruct (decide (ppos < c)).
    + rewrite decide_False; [done|]. intros Hnil. apply (f_equal length) in Hnil.
      rewrite length_take, length_drop in Hnil. simpl in Hnil. lia.
    + rewrite decide_True; [done|]. by replace (c - ppos) with 0 by lia.
  - intros (j & Hj)%list_elem_of_lookup. pose proof (lookup_lt_Some _ _ _ Hj) as Hlt.
    rewrite length_take, length_drop in Hlt.
    rewrite lookup_take_lt, lookup_drop in Hj by lia.
    eapply Hno; [|done|set_solver]. lia.
Qed.

Lemma tokens_last d s ppos :
  find_first_of s [d] ppos = None →
  tokens d (drop ppos s) = if decide (ppos < length s) then [drop ppos s] else [].
Proof.
  intros Hf. unfold tokens. rewrite tokens_go_end; simpl.
  - destruct (decide (ppos < length s)).
    + rewrite decide_False; [done|]. intros Hnil. apply (f_equal length) in Hnil.
      rewrite length_drop in Hnil. simpl in Hnil. lia.
    + rewrite decide_True; [done|]. apply drop_ge. lia.
  - intros (j & Hj)%list_elem_of_lookup. rewrite lookup_drop in Hj.
    eapply find_first_of_None; [done| |done|set_solver]. lia.
Qed.

Lemma split_loop_tokens fuel d s result ppos res pos :
  string_util.split_loop fuel s [d] result ppos (find_first_of s [d] ppos) = Some (res, pos) →
  result ++ tokens d (drop ppos s)
  = if decide (pos < length s) then res ++ [drop pos s] else res.
Proof.
  revert result ppos. induction fuel as [|fuel IH]; intros result ppos; simpl;
    destruct (find_first_of s [d] ppos) as [c|] eqn:Hf; intros Hl; simplify_eq.
  - rewrite (tokens_last _ _ _ Hf). case_decide; [done|]. by rewrite app_nil_r.
  - apply IH in Hl. rewrite (tokens_step _ _ _ _ Hf), <-Hl.
    case_decide; [by rewrite (assoc_L app)|done].
  - rewrite (tokens_last _ _ _ Hf). case_decide; [done|]. by rewrite app_nil_r.
Qed.

Lemma split_tokens s d : string_util.split s [d] = tokens d s.
Proof.
  unfold string_util.split. destruct s as [|c s]; [done|].
  destruct (split_fuel_enough (c :: s) [d]) as [[res pos] Hl]. rewrite Hl.
  by apply split_loop_tokens in Hl as <-.
Qed.

(** ** Numbers *)
Definition is_digit (c : ascii) : Prop := is_Some (digit c).
#[export] Instance is_digit_dec c : Decision (is_digit c) := _.

Lemma digit_not_space c : is_digit c → is_space c = false.
Proof.
  unfold is_digit, digit, is_space. intros [d Hd].
  case_match eqn:He; [|done]. apply andb_true_iff in He as [?%Z.leb_le ?%Z.leb_le].
  apply orb_false_iff. split; [apply Z.eqb_neq; lia|].
  apply andb_false_iff. right. apply Z.leb_gt. lia.
Qed.

Lemma digit_not_sign c : is_digit c → c ≠ "-"%char ∧ c ≠ "+"%char ∧ c ≠ ":"%char.
Proof. intros Hd. split_and!; intros ->; by destruct Hd. Qed.

Lemma atoi_digits s : Forall is_digit s → atoi s = digits_value 0 s.
Proof.
  intros Hs. destruct s as [|c s]; [done|]. inversion Hs as [|?? Hc]; subst.
  unfold atoi. simpl. rewrite digit_not_space by done.
  destruct (digit_not_sign c Hc) as (? & ? & _).
  destruct c as [[] [] [] [] [] [] [] []]; done.
Qed.

(** ** Properties *)

(** C37. For a one-character delimiter [split] computes exactly the maximal
    non-empty runs of other characters: it equals the reference tokenizer, no
    token is empty or contains the delimiter, and the tokens joined are the input
    without its delimiters (nothing is lost, duplicated or reordered). *)
Theorem split_correct (s : str) (d : ascii) :
  string_util.split s [d] = tokens d s
  ∧ Forall (λ t, t ≠ [] ∧ d ∉ t) (string_util.split s [d])
  ∧ concat (string_util.split s [d]) = filter (λ c, c ≠ d) s.
Proof.
  rewrite split_tokens. destruct (tokens_go_ok d [] s) as [HF Hc]; [set_solver|]. done.
Qed.

(** [parse] of [host:port] gives the host and the port's value reduced to 16
    bits, for every host and port without [:], host non-empty and the port any
    non-empty string of decimal digits; so ports up to 65535 are read back, larger
    numbers are truncated silently, and an address without [:] gives [("", 0)]. *)
Theorem parse_address (host port : str) (c : ascii) :
  host ≠ [] → ":"%char ∉ host → Forall is_digit (c :: port) →
  address.parse (host ++ $":" ++ c :: port) tt
    = (Ret (host, u16 (digits_value 0 (c :: port))), tt)
  ∧ ((0 ≤ digits_value 0 (c :: port) < 65536)%Z →
      address.parse (host ++ $":" ++ c :: port) tt = (Ret (host, digits_value 0 (c :: port)), tt))
  ∧ address.parse host tt = (Ret ([], 0%Z), tt).
Proof.
  intros Hne Hhost Hport. change $":" with [":"%char].
  assert (":"%char ∉ c :: port) as Hp.
  { intros Hin. rewrite Forall_forall in Hport.
    by destruct (digit_not_sign _ (Hport _ Hin)) as (_ & _ & ?). }
  assert (address.parse (host ++ [":"%char] ++ c :: port) tt
    = (Ret (host, u16 (digits_value 0 (c :: port))), tt)) as Heq.
  { unfold address.parse. change $":" with [":"%char]. rewrite split_tokens.
    change ([":"%char] ++ c :: port) with (":"%char :: c :: port).
    rewrite tokens_pair by done.
    run. by rewrite atoi_digits by done. }
  split_and!; [done| |].
  - intros Hr. rewrite Heq. by rewrite u16_small.
  - unfold address.parse. change $":" with [":"%char]. rewrite split_tokens.
    by rewrite tokens_single.
Qed.

Lemma parse_address_witness :
  address.parse ($"127.0.0.1" ++ $":" ++ $"7000") tt
    = (Ret ($"127.0.0.1", u16 (digits_value 0 $"7000")), tt)
  ∧ ((0 ≤ digits_value 0 $"7000" < 65536)%Z →
      address.parse ($"127.0.0.1" ++ $":" ++ $"7000") tt
        = (Ret ($"127.0.0.1", digits_value 0 $"7000"), tt))
  ∧ address.parse $"127.0.0.1" tt = (Ret ([], 0%Z), tt).
Proof.
  apply (parse_address $"127.0.0.1" $"000" "7"%char).
  - discriminate.
  - decided.
  - decided.
Defined.
