(* ===== verification/Streambuf.v ===== *)
(** * Byte buffers: the interface of asio's stream buffer

    Sessions and protocols keep their bytes in [asio::streambuf] (Boost), which
    is not part of the repository.  The class states the operations the code
    calls, the laws their documented behaviour: [prepare] makes an output area of
    the requested size available, [commit] moves its beginning to the end of the
    readable data, [consume] removes readable bytes from the front and [sputn]
    appends.  [list_streambuf] is an instance, so the laws are satisfiable.
    [asio::const_buffer] is a view and is represented by the bytes it shows. *)

From S2P Require Import Prelude.
From S2P Require Import Serializer.

Class Streambuf := {
  streambuf : Type;
  sb_empty : streambuf;
  sb_data : streambuf → bytes;
  (** the memory handed out by the last [prepare] *)
  sb_output : streambuf → bytes;
  sb_prepare : nat → streambuf → streambuf;
  (** storing through the pointer [prepare] returned *)
  sb_store : bytes → streambuf → streambuf;
  sb_commit : nat → streambuf → streambuf;
  sb_consume : nat → streambuf → streambuf;
  sb_sputn : bytes → streambuf → streambuf
}.

Class StreambufLaws `{Streambuf} : Prop := {
  data_empty : sb_data sb_empty = [];
  data_prepare n b : sb_data (sb_prepare n b) = sb_data b;
  output_prepare n b : length (sb_output (sb_prepare n b)) = n;
  data_store o b : sb_data (sb_store o b) = sb_data b;
  output_store o b : length o = length (sb_output b) → sb_output (sb_store o b) = o;
  data_commit n b : sb_data (sb_commit n b) = sb_data b ++ take n (sb_output b);
  data_consume n b : sb_data (sb_consume n b) = drop n (sb_data b);
  data_sputn bs b : sb_data (sb_sputn bs b) = sb_data b ++ bs
}.

(** Two buffers with the same readable data are interchangeable for the reader. *)
Definition sb_equiv `{Streambuf} (b1 b2 : streambuf) : Prop := sb_data b1 = sb_data b2.

(** The instance: readable bytes and output area. *)
#[export] Instance list_streambuf : Streambuf := {|
  streambuf := bytes * bytes;
  sb_empty := ([], []);
  sb_data := fst;
  sb_output := snd;
  sb_prepare n b := (b.1, replicate n x00);
  sb_store o b := (b.1, o);
  sb_commit n b := (b.1 ++ take n b.2, drop n b.2);
  sb_consume n b := (drop n b.1, b.2);
  sb_sputn bs b := (b.1 ++ bs, b.2)
|}.

(** [std::memcpy(dst + pos, src, src.size())]; outside [dst] it is undefined. *)
Definition memcpy {S} (dst : bytes) (pos : nat) (src : bytes) : M S bytes :=
  if decide (pos + length src <= length dst)
  then mret (take pos dst ++ src ++ drop (pos + length src) dst)
  else undefined.

(** Runs a computation that needs no state of its own. *)
Definition lift_pure {S A} (m : M unit A) : M S A := λ s, ((m tt).1, s).

#[export] Instance list_streambuf_laws : StreambufLaws.
Proof. split; intros; simpl; try done. by rewrite length_replicate. Qed.

Section equiv.
Context `{Streambuf}.

#[export] Instance sb_equiv_equivalence : Equivalence sb_equiv.
Proof. split; unfold sb_equiv; repeat intro; congruence. Qed.

#[export] Instance sb_consume_proper `{!StreambufLaws} n : Proper (sb_equiv ==> sb_equiv) (sb_consume n).
Proof. intros b1 b2 Heq. unfold sb_equiv. rewrite !data_consume. by rewrite Heq. Qed.

#[export] Instance sb_prepare_proper `{!StreambufLaws} n : Proper (sb_equiv ==> sb_equiv) (sb_prepare n).
Proof. intros b1 b2 Heq. unfold sb_equiv. by rewrite !data_prepare. Qed.

#[export] Instance sb_sputn_proper `{!StreambufLaws} bs : Proper (sb_equiv ==> sb_equiv) (sb_sputn bs).
Proof. intros b1 b2 Heq. unfold sb_equiv. rewrite !data_sputn. by rewrite Heq. Qed.

#[export] Instance sb_data_proper : Proper (sb_equiv ==> eq) sb_data.
Proof. intros b1 b2 Heq. done. Qed.
End equiv.

(** Copying over exactly the rest of the buffer. *)
Lemma memcpy_tail {S} pre mid src n (s : S) :
  n = length pre → length mid = length src →
  memcpy (pre ++ mid) n src s = (Ret (pre ++ src), s).
Proof.
  intros -> Hlen. unfold memcpy. rewrite decide_True by (rewrite length_app; lia).
  rewrite take_app_length, drop_ge, app_nil_r by (rewrite length_app; lia). done.
Qed.

#[export] Hint Rewrite @data_empty @data_prepare @output_prepare @data_store @data_commit
  @data_consume @data_sputn using typeclasses eauto : play_rw.
