(* ===== verification/LengthDelimited.v ===== *)
(** * play/net/protocol/length_delimited.{hpp,ipp}

    The codec that puts the 32-bit little-endian length of a payload before it. *)

From S2P Require Import Prelude.
From S2P Require Import Serializer.
From S2P Require Import Streambuf.

Module length_delimited.
Definition length_field_size : nat := 4.

Section codec.
Context `{Build} `{Streambuf}.

(** The loop that writes the length field: [p[i] = len & 0xFF; len >>= 8]. *)
Fixpoint write_length (fuel i : nat) (p : bytes) (len : Z) : M unit bytes :=
  match fuel with
  | O => mret p
  | S fuel =>
      if decide (i < length p)
      then write_length fuel (S i) (<[i := byte_of_Z (Z.land len 255)]> p) (Z.shiftr len 8)
      else undefined
  end.

(** [encode(src, mutable_buffer& dst)]: the total length and the memory of [dst]
    afterwards. *)
Definition encode_buf (src dst : bytes) : M unit (nat * bytes) :=
  _ ← PLAY_CHECK (0 <? length src);
  _ ← PLAY_CHECK (length src <=? length dst);
  let total_len := length_field_size + length src in
  _ ← PLAY_CHECK (total_len <=? length dst);
  p ← write_length length_field_size 0 dst (Z.of_nat (length src));
  p ← memcpy p length_field_size src;
  mret (total_len, p).

(** [encode(src, streambuf& dst)]: [prepare], encode into the prepared area, [commit]. *)
Definition encode (src : bytes) : M streambuf nat :=
  _ ← PLAY_CHECK (0 <? length src);
  let total_len := length_field_size + length src in
  _ ← modify (sb_prepare total_len);
  mbuf ← gets sb_output;
  r ← lift_pure (encode_buf src mbuf);
  _ ← modify (sb_store r.2);
  _ ← modify (sb_commit total_len);
  mret total_len.

(** The loop that reads the length field. [p] points to signed characters. *)
Fixpoint read_length (fuel i : nat) (p : bytes) (len : Z) : M unit Z :=
  match fuel with
  | O => mret len
  | S fuel =>
      c ← deref (p !! i);
      let pv := u32 (Z_of_char c) in
      read_length fuel (S i) p
        (Z.lor len (u32 (Z.shiftl (Z.land pv 255) (8 * Z.of_nat i))))
  end.

(** [decode(src)]: the payload, or the empty buffer when it is not complete. *)
Definition decode (src : bytes) : M unit bytes :=
  if decide (length src < length_field_size) then mret []
  else
    len ← read_length length_field_size 0 src 0;
    if (u64 (len + Z.of_nat length_field_size) <=? Z.of_nat (length src))%Z
    then mret (take (Z.to_nat len) (drop length_field_size src))
    else mret [].
End codec.
End length_delimited.

(** The frame the codec produces. *)
Definition length_frame (src : bytes) : bytes :=
  le_bytes 4 (Z.of_nat (length src)) ++ src.

(** Payload sizes the 32-bit length field can hold. *)
Definition fits_u32 (src : bytes) : Prop := (Z.of_nat (length src) < 4294967296)%Z.

Section facts.
Context `{Build}.
Import length_delimited.

Lemma length_length_frame src : length (length_frame src) = 4 + length src.
Proof. unfold length_frame. by rewrite length_app, length_le_bytes. Qed.

Lemma write_length_spec n pre cur post v :
  length cur = n →
  write_length n (length pre) (pre ++ cur ++ post) v tt
  = (Ret (pre ++ le_bytes n v ++ post), tt).
Proof.
  revert pre cur v. induction n as [|n IH]; intros pre cur v Hlen.
  { destruct cur; done. }
  destruct cur as [|c cur]; [done|]. simpl in Hlen. simpl.
  rewrite decide_True by (rewrite length_app; simpl; lia).
  rewrite insert_app_r_alt, Nat.sub_diag by lia. simpl.
  replace (S (length pre)) with (length (pre ++ [byte_of_Z (Z.land v 255)]))
    by (rewrite length_app; simpl; lia).
  rewrite (snoc_assoc pre _ (cur ++ post)), IH by lia. by rewrite <-snoc_assoc.
Qed.

Lemma encode_buf_spec src dst :
  src ≠ [] → length dst = 4 + length src →
  encode_buf src dst tt = (Ret (4 + length src, length_frame src), tt).
Proof.
  intros Hne Hd. assert (0 < length src) by (destruct src; simpl; [done|lia]).
  unfold encode_buf, PLAY_CHECK, length_field_size. unfold_M.
  rewrite (proj2 (Nat.ltb_lt _ _)) by lia.
  rewrite !(proj2 (Nat.leb_le _ _)) by lia.
  rewrite <-(take_drop 4 dst) at 1.
  rewrite (write_length_spec 4 [] (take 4 dst) (drop 4 dst)) by (rewrite length_take; lia).
  rewrite app_nil_l, memcpy_tail by (rewrite ?length_le_bytes, ?length_drop; lia). done.
Qed.

Lemma encode_spec `{StreambufLaws} src (b : streambuf) :
  src ≠ [] →
  ∃ b', encode src b = (Ret (4 + length src), b') ∧ sb_data b' = sb_data b ++ length_frame src.
Proof.
  intros Hne. assert (0 < length src) by (destruct src; simpl; [done|lia]).
  unfold encode, PLAY_CHECK, lift_pure, length_field_size. unfold_M.
  rewrite (proj2 (Nat.ltb_lt _ _)) by lia.
  rewrite encode_buf_spec by (rewrite ?output_prepare; done). simpl.
  eexists. split; [done|].
  rewrite data_commit, data_store, data_prepare, output_store
    by (by rewrite length_length_frame, output_prepare).
  f_equal. apply take_ge. by rewrite length_length_frame.
Qed.

Lemma read_length_spec k pre rest :
  length pre + k = 4 → k ≤ length rest →
  read_length k (length pre) (pre ++ rest) (le_value pre) tt
  = (Ret (le_value (pre ++ take k rest)), tt).
Proof.
  revert pre rest. induction k as [|k IH]; intros pre rest Hn Hrest; simpl.
  { by rewrite take_0, app_nil_r. }
  destruct rest as [|c rest]; [simpl in Hrest; lia|]. simpl in Hrest.
  rewrite list_lookup_middle by done. run.
  pose proof (Z_of_byte_range c). pose proof (le_value_range pre).
  rewrite char_to_byte.
  assert (2 ^ (8 * Z.of_nat (length pre)) * 256 ≤ 4294967296)%Z as Hpow.
  { rewrite Z.mul_comm, <-pow256_S. change 4294967296%Z with (2 ^ 32)%Z.
    apply Z.pow_le_mono_r; lia. }
  pose proof (pow256_pos (length pre)).
  rewrite u32_small by (rewrite Z.shiftl_mul_pow2 by lia; nia).
  rewrite lor_shift_add by lia.
  replace (S (length pre)) with (length (pre ++ [c])) by (rewrite length_app; simpl; lia).
  replace (le_value pre + _)%Z with (le_value (pre ++ [c])) by (rewrite le_value_app; simpl; lia).
  rewrite (snoc_assoc pre c rest), IH by (rewrite ?length_app; simpl; lia).
  by rewrite <-snoc_assoc.
Qed.

(** The declared length of a buffer that holds at least the length field. *)
Definition declared_length (src : bytes) : Z := le_value (take 4 src).

Lemma declared_length_range src :
  4 ≤ length src → (0 ≤ declared_length src < 4294967296)%Z.
Proof.
  intros Hl. unfold declared_length. pose proof (le_value_range (take 4 src)) as Hr.
  rewrite length_take, Nat.min_l in Hr by done. apply Hr.
Qed.

Lemma decode_spec src :
  4 ≤ length src →
  decode src tt =
    (Ret (if decide (declared_length src + 4 ≤ Z.of_nat (length src))%Z
          then take (Z.to_nat (declared_length src)) (drop 4 src) else []), tt).
Proof.
  intros Hlen. unfold decode, length_field_size. rewrite decide_False by lia. unfold_M.
  pose proof (read_length_spec 4 [] src eq_refl Hlen) as Hr.
  change (read_length 4 0 src 0 tt = (Ret (le_value (take 4 src)), tt)) in Hr.
  rewrite Hr.
  pose proof (declared_length_range src Hlen). fold (declared_length src).
  rewrite u64_small by lia.
  destruct (Z.leb_spec (declared_length src + Z.of_nat 4) (Z.of_nat (length src))).
  - by rewrite decide_True by lia.
  - by rewrite decide_False by lia.
Qed.

Lemma decode_short src : length src < 4 → decode src tt = (Ret [], tt).
Proof. intros Hl. unfold decode, length_field_size. by rewrite decide_True. Qed.

Lemma declared_length_frame src rest :
  fits_u32 src → declared_length (length_frame src ++ rest) = Z.of_nat (length src).
Proof.
  intros Hf. unfold declared_length, length_frame. rewrite <-(assoc_L app).
  rewrite take_app_exact by (by rewrite length_le_bytes).
  rewrite le_value_bytes. apply wrap_id. unfold fits_u32 in Hf.
  change (2 ^ (8 * Z.of_nat 4))%Z with 4294967296%Z. lia.
Qed.

Lemma decode_frame src rest :
  fits_u32 src → decode (length_frame src ++ rest) tt = (Ret src, tt).
Proof.
  intros Hf. rewrite decode_spec by (rewrite length_app, length_length_frame; lia).
  rewrite declared_length_frame by done.
  rewrite decide_True by (rewrite length_app, length_length_frame; lia).
  unfold length_frame. rewrite <-(assoc_L app), drop_app_exact by (by rewrite length_le_bytes).
  by rewrite take_app_exact by lia.
Qed.

(** A proper prefix of a frame is not decoded. *)
Lemma decode_prefix src part :
  fits_u32 src → part `prefix_of` length_frame src → length part < length (length_frame src) →
  decode part tt = (Ret [], tt).
Proof.
  intros Hf Hp Hl. rewrite length_length_frame in Hl.
  destruct (decide (length part < 4)); [by apply decode_short|].
  rewrite decode_spec by lia.
  assert (declared_length part = Z.of_nat (length src)) as ->.
  { rewrite <-(declared_length_frame src []), app_nil_r by done. unfold declared_length.
    destruct Hp as [t ->]. by rewrite take_app_le by lia. }
  by rewrite decide_False by lia.
Qed.
End facts.

(** ** Properties *)

(** Encoding into a stream buffer appends the frame to the readable data,
    and decoding at the start of a frame returns exactly the payload whatever
    follows it, while any proper prefix of the frame gives the empty buffer: the
    codec never yields part of a payload. *)
Theorem length_delimited_roundtrip `{Build} `{StreambufLaws}
    (src : bytes) (b : streambuf) (rest part : bytes) :
  src ≠ [] → fits_u32 src →
  part `prefix_of` length_frame src → length part < length (length_frame src) →
  ∃ b', length_delimited.encode src b = (Ret (4 + length src), b')
    ∧ sb_data b' = sb_data b ++ length_frame src
    ∧ length_delimited.decode (drop (length (sb_data b)) (sb_data b') ++ rest) tt = (Ret src, tt)
    ∧ length_delimited.decode part tt = (Ret [], tt).
Proof.
  intros Hne Hf Hp Hl. destruct (encode_spec src b Hne) as (b' & He & Hd).
  exists b'. split_and!; [done|done| |by eapply decode_prefix].
  rewrite Hd, drop_app_length. by apply decode_frame.
Qed.

Lemma length_delimited_roundtrip_witness :
  let _ := debug_build in
  ∃ b', length_delimited.encode [x41; x42] sb_empty = (Ret 6, b')
    ∧ sb_data b' = sb_data sb_empty ++ length_frame [x41; x42]
    ∧ length_delimited.decode (drop (length (sb_data sb_empty)) (sb_data b') ++ [xff]) tt = (Ret [x41; x42], tt)
    ∧ length_delimited.decode [x02; x00; x00; x00; x41] tt = (Ret [], tt).
Proof.
  intros ?. apply (length_delimited_roundtrip [x41; x42] sb_empty [xff] [x02; x00; x00; x00; x41]).
  - discriminate.
  - reflexivity.
  - exists [x42]. reflexivity.
  - vm_compute. lia.
Defined.
