(* ===== verification/Protocol.v ===== *)
(** * The protocol interface (play/net/protocol.hpp and its duck-typed members)

    [session<Protocol>] is a template over a protocol; the class [Protocol] lists
    the members it uses, with the types of the concept the three protocols of
    play/net/protocol implement.  [Framing] states what a protocol with message
    boundaries promises the session: [encode] appends one frame, [decode] gives
    back the payload of a complete frame at the front of the received bytes and
    nothing of an incomplete one, and both ends advance in step. *)

From S2P Require Import Prelude.
From S2P Require Import Serializer.
From S2P Require Import Streambuf.

(** [protocol<Topic>::max_send_size] and [max_recv_size] (protocol.hpp and the
    protocols that redeclare them). *)
Definition max_send_size : nat := 1024 * 1024.
Definition max_recv_size : nat := 1024 * 1024.

Class Protocol `{Streambuf} := {
  proto : Type;
  topic : Type;
  (** the randomness a handshake draws from (no use for the plain protocols) *)
  entropy : Type;
  proto_make : nat → entropy → proto;
  proto_accepted : M proto bytes;
  proto_connected : M proto bytes;
  proto_closed : M proto unit;
  proto_is_established : proto → bool;
  (** [encode(topic, src, dst, encrypt)] on the protocol and [dst] *)
  proto_encode : topic → bytes → bool → M (proto * streambuf) nat;
  (** [decode(src)]: consumed length, frame, topic *)
  proto_decode : bytes → M proto (nat * bytes * topic);
  (** [handshake(src)]: consumed length, bytes to send *)
  proto_handshake : bytes → M proto (nat * bytes)
}.

(** A message handed to [session::send]. *)
Record message `{Protocol} := Message {
  msg_topic : topic;
  msg_payload : bytes;
  msg_encrypt : bool
}.
Arguments Message {_ _} _ _ _.

Class Framing `{Protocol} := {
  (** messages the protocol can transport *)
  sendable : message → Prop;
  (** the bytes the sender in state [p] writes for the message *)
  frame : proto → message → bytes;
  (** the sender's state afterwards *)
  advance : proto → message → proto;
  (** a well-formed sender that has completed its handshake *)
  proto_ok : proto → Prop;
  (** the receiver [rx] is in step with the sender [tx] *)
  in_step : proto → proto → Prop
}.

Class FramingLaws `{Framing} : Prop := {
  frame_ne p m : sendable m → frame p m ≠ [];
  encode_frame p m (b : streambuf) :
    proto_ok p → sendable m →
    ∃ n b', proto_encode (msg_topic m) (msg_payload m) (msg_encrypt m) (p, b)
        = (Ret n, (advance p m, b'))
      ∧ sb_data b' = sb_data b ++ frame p m;
  advance_ok p m : proto_ok p → proto_ok (advance p m);
  proto_ok_established p : proto_ok p → proto_is_established p = true;
  decode_frame tx rx m rest :
    in_step tx rx → sendable m →
    ∃ rx', proto_decode (frame tx m ++ rest) rx
        = (Ret (length (frame tx m), msg_payload m, msg_topic m), rx')
      ∧ in_step (advance tx m) rx'
      ∧ proto_is_established rx' = proto_is_established rx;
  decode_partial tx rx m part :
    in_step tx rx → sendable m →
    part `prefix_of` frame tx m → length part < length (frame tx m) →
    ∃ f t, proto_decode part rx = (Ret (0, f, t), rx);
  sendable_payload m : sendable m → msg_payload m ≠ []
}.

(** The bytes of a sequence of messages and the sender's state after it. *)
Section framing.
Context `{Framing}.

Fixpoint frames (p : proto) (ms : list message) : bytes :=
  match ms with
  | [] => []
  | m :: ms => frame p m ++ frames (advance p m) ms
  end.

Fixpoint advance_all (p : proto) (ms : list message) : proto :=
  match ms with
  | [] => p
  | m :: ms => advance_all (advance p m) ms
  end.

Lemma frames_app p ms1 ms2 :
  frames p (ms1 ++ ms2) = frames p ms1 ++ frames (advance_all p ms1) ms2.
Proof. revert p. induction ms1; intros; simpl; [done|]. by rewrite IHms1, (assoc_L app). Qed.

Lemma advance_all_app p ms1 ms2 :
  advance_all p (ms1 ++ ms2) = advance_all (advance_all p ms1) ms2.
Proof. revert p. induction ms1; intros; simpl; auto. Qed.

Lemma advance_all_ok `{!FramingLaws} p ms : proto_ok p → proto_ok (advance_all p ms).
Proof. revert p. induction ms; intros; simpl; [done|]. by apply IHms, advance_ok. Qed.
End framing.
