(* ===== verification/PlainProtocol.v ===== *)
(** * play/net/protocol/plain_protocol.{hpp,ipp}

    [topic{sizeof(Topic)} | length{4} | payload].  A topic is an unsigned integer
    of [sizeof_Topic] bytes. *)

From S2P Require Import Prelude.
From S2P Require Import Serializer.
From S2P Require Import Streambuf.
From S2P Require Import LengthDelimited.
From S2P Require Import Protocol.

Module plain_protocol.
Section plain_protocol.
Context `{Build} `{Streambuf} (sizeof_Topic : nat).

(** The object; [length_codec] is whether the [unique_ptr] is set (the codec
    itself keeps only the handle). *)
Record state := State {
  handle : nat;
  is_accepted : bool;
  is_connected : bool;
  is_closed : bool;
  length_codec : option nat
}.

Definition make (handle : nat) : state := State handle false false true None.

Definition is_established (p : state) : bool :=
  (is_accepted p || is_connected p) && negb (is_closed p).

Definition get_min_size : nat := length_delimited.length_field_size + sizeof_Topic.

(** [accepted()] *)
Definition accepted : M state bytes :=
  p ← get;
  _ ← PLAY_CHECK (negb (is_accepted p));
  _ ← PLAY_CHECK (negb (is_connected p));
  _ ← PLAY_CHECK (is_closed p);
  _ ← PLAY_CHECK (bool_decide (length_codec p = None));
  _ ← put (State (handle p) true (is_connected p) false (Some (handle p)));
  mret [].

(** [connected()] *)
Definition connected : M state bytes :=
  p ← get;
  _ ← PLAY_CHECK (negb (is_accepted p));
  _ ← PLAY_CHECK (negb (is_connected p));
  _ ← PLAY_CHECK (is_closed p);
  _ ← PLAY_CHECK (bool_decide (length_codec p = None));
  _ ← put (State (handle p) (is_accepted p) true false (Some (handle p)));
  mret [].

(** [closed()] *)
Definition closed : M state unit :=
  p ← get;
  if is_closed p then mret tt
  else put (State (handle p) (is_accepted p) (is_connected p) true (length_codec p)).

(** [encode(pic, src, dst)] *)
Definition encode (pic : Z) (src : bytes) (_ignore : bool) : M (state * streambuf) nat :=
  p ← gets fst;
  _ ← PLAY_CHECK (negb (is_closed p));
  if is_closed p then mret 0
  else
    _ ← PLAY_CHECK (is_established p);
    _ ← deref (length_codec p);
    let total_len := length_delimited.length_field_size + length src + sizeof_Topic in
    _ ← modify (λ s, (s.1, sb_prepare total_len s.2));
    wbuf ← gets (λ s, sb_output s.2);
    wbuf ← lift_pure (serializer.serialize sizeof_Topic wbuf (length src) pic);
    _ ← modify (λ s, (s.1, sb_commit sizeof_Topic (sb_store wbuf s.2)));
    size ← zoom snd (λ b s, (s.1, b)) (length_delimited.encode src);
    _ ← PLAY_CHECK (size =? length src + length_delimited.length_field_size);
    mret total_len.

(** [decode(src)] *)
Definition decode (src : bytes) : M state (nat * bytes * Z) :=
  p ← get;
  _ ← deref (length_codec p);
  if decide (length src ≤ get_min_size) then mret (0, [], 0%Z)
  else
    pic ← lift_pure (serializer.deserialize sizeof_Topic src (length src));
    let cbuf := drop sizeof_Topic src in
    sbuf ← lift_pure (length_delimited.decode cbuf);
    if decide (0 < length sbuf) then
      let consumed_len := sizeof_Topic + length_delimited.length_field_size + length sbuf in
      mret (consumed_len, sbuf, pic)
    else mret (0, [], 0%Z).

(** [handshake(data)]: no handshake is required. *)
Definition handshake (_data : bytes) : M state (nat * bytes) := mret (0, []).

(** The members under the names of the concept. *)
Definition plain_Protocol : Protocol := {|
  proto := state;
  topic := Z;
  entropy := unit;
  proto_make h _ := make h;
  proto_accepted := accepted;
  proto_connected := connected;
  proto_closed := closed;
  proto_is_established := is_established;
  proto_encode := encode;
  proto_decode := decode;
  proto_handshake := handshake
|}.

(** ** The frame format *)
Definition plain_frame (pic : Z) (src : bytes) : bytes :=
  le_bytes sizeof_Topic pic ++ length_frame src.

(** Topics the type can hold and payloads [encode] accepts: in a build with
    assertions a payload shorter than a topic fails a check. *)
Definition plain_sendable (pic : Z) (src : bytes) : Prop :=
  (0 ≤ pic < 2 ^ (8 * Z.of_nat sizeof_Topic))%Z ∧ src ≠ [] ∧ fits_u32 src
  ∧ (assertions = true → sizeof_Topic ≤ length src).
End plain_protocol.
End plain_protocol.

Section facts.
Context `{Build} `{StreambufLaws} (n : nat).
Import plain_protocol.

Lemma length_plain_frame pic src : length (plain_frame n pic src) = n + 4 + length src.
Proof. unfold plain_frame. rewrite length_app, length_le_bytes, length_length_frame. lia. Qed.

Lemma established_open p :
  is_established p = true → is_closed p = false.
Proof. unfold is_established. intros [_ Hc]%andb_true_iff. by apply negb_true_iff. Qed.

Lemma serialize_spec_release (m : nat) buf len v :
  (assertions = true → m ≤ len) → m ≤ length buf →
  serializer.serialize m buf len v tt = (Ret (le_bytes m v ++ drop m buf), tt).
Proof.
  intros Hlen Hbuf. unfold serializer.serialize. unfold_M.
  rewrite check_pass by (intros; by apply Nat.leb_le, Hlen).
  rewrite <-(take_drop m buf) at 1.
  apply (serialize_loop_spec m [] (take m buf) (drop m buf) v).
  rewrite length_take. lia.
Qed.

Lemma plain_encode_spec p (b : streambuf) pic src enc :
  is_established p = true → is_Some (length_codec p) → src ≠ [] →
  (assertions = true → n ≤ length src) →
  ∃ b', encode n pic src enc (p, b) = (Ret (4 + length src + n), (p, b'))
    ∧ sb_data b' = sb_data b ++ plain_frame n pic src.
Proof.
  intros He [h Hc] Hne Hn. pose proof (established_open p He) as Hcl.
  unfold encode, lift_pure, length_delimited.length_field_size. unfold_M.
  cbn [fst snd]. rewrite Hcl, He, Hc. cbn [fst snd negb].
  rewrite !check_pass by done.
  rewrite serialize_spec_release by (rewrite ?output_prepare; auto; lia). cbn [fst snd].
  set (b1 := sb_commit _ _).
  destruct (encode_spec src b1 Hne) as (b' & Heb & Hd). rewrite Heb. cbn [fst snd].
  rewrite check_pass by (intros; apply Nat.eqb_eq; lia).
  exists b'. split; [done|]. rewrite Hd. subst b1.
  rewrite data_commit, data_store, data_prepare, output_store.
  - rewrite take_app_exact by (by rewrite length_le_bytes).
    unfold plain_frame. by rewrite (assoc_L app).
  - rewrite length_app, length_le_bytes, length_drop, output_prepare. lia.
Qed.

(** In a debug build a payload shorter than a topic aborts the program. *)
Lemma plain_encode_short_aborts p (b : streambuf) pic src enc :
  assertions = true → is_established p = true → is_Some (length_codec p) →
  length src < n → (encode n pic src enc (p, b)).1 = Aborted.
Proof.
  intros Ha He [h Hc] Hn. pose proof (established_open p He) as Hcl.
  unfold encode, lift_pure, serializer.serialize, PLAY_CHECK. unfold_M. simpl.
  rewrite Hcl, He, Hc. simpl. rewrite (proj2 (Nat.leb_gt _ _)) by lia. by rewrite Ha.
Qed.

Lemma plain_decode_spec p src :
  is_Some (length_codec p) →
  decode n src p =
    (Ret (if decide (n + 4 < length src ∧ declared_length (drop n src) ≠ 0%Z
                     ∧ (declared_length (drop n src) + 4 ≤ Z.of_nat (length (drop n src)))%Z)
          then (n + 4 + Z.to_nat (declared_length (drop n src)),
                take (Z.to_nat (declared_length (drop n src))) (drop 4 (drop n src)),
                le_value (take n src))
          else (0, [], 0%Z)), p).
Proof.
  intros [h Hc]. unfold decode, get_min_size, lift_pure, length_delimited.length_field_size.
  unfold_M. rewrite Hc.
  destruct (decide (length src ≤ 4 + n)) as [Hs|Hs].
  { by rewrite decide_False by lia. }
  rewrite deserialize_spec by lia. cbn [fst].
  assert (4 ≤ length (drop n src)) as Hd by (rewrite length_drop; lia).
  rewrite LengthDelimited.decode_spec by done. cbn [fst].
  pose proof (declared_length_range _ Hd) as Hr.
  destruct (decide (declared_length (drop n src) + 4 ≤ _)%Z) as [Hl|Hl].
  - rewrite length_take, Nat.min_l by (rewrite length_drop; lia).
    destruct (decide (declared_length (drop n src) = 0%Z)) as [Hz|Hz].
    + rewrite decide_False by lia. by rewrite decide_False by naive_solver.
    + rewrite !decide_True by lia. done.
  - rewrite decide_False by (simpl; lia). by rewrite decide_False by naive_solver.
Qed.

Lemma drop_plain_frame pic src rest :
  drop n (plain_frame n pic src ++ rest) = length_frame src ++ rest.
Proof.
  unfold plain_frame. rewrite <-(assoc_L app). by rewrite drop_app_exact by (by rewrite length_le_bytes).
Qed.

Lemma plain_decode_frame p pic src rest :
  is_Some (length_codec p) → src ≠ [] → fits_u32 src →
  (0 ≤ pic < 2 ^ (8 * Z.of_nat n))%Z →
  decode n (plain_frame n pic src ++ rest) p = (Ret (length (plain_frame n pic src), src, pic), p).
Proof.
  intros Hc Hne Hf Hpic. rewrite plain_decode_spec by done. rewrite drop_plain_frame.
  assert (0 < length src) by (destruct src; simpl; [done|lia]).
  rewrite declared_length_frame by done.
  rewrite decide_True; cycle 1.
  { rewrite !length_app, length_plain_frame, length_length_frame. lia. }
  rewrite Nat2Z.id, length_plain_frame.
  unfold plain_frame, length_frame. rewrite <-!(assoc_L app).
  rewrite drop_app_exact by (by rewrite length_le_bytes).
  rewrite !take_app_exact by (by rewrite ?length_le_bytes).
  by rewrite le_value_bytes, wrap_id.
Qed.

Lemma plain_decode_partial p pic src part :
  is_Some (length_codec p) → fits_u32 src →
  part `prefix_of` plain_frame n pic src → length part < length (plain_frame n pic src) →
  decode n part p = (Ret (0, [], 0%Z), p).
Proof.
  intros Hc Hf Hp Hl. rewrite length_plain_frame in Hl. rewrite plain_decode_spec by done.
  destruct (decide (n + 4 < length part)) as [Hn|Hn]; [|by rewrite decide_False by naive_solver].
  assert (declared_length (drop n part) = Z.of_nat (length src)) as Hd.
  { destruct Hp as [t Ht]. pose proof (drop_plain_frame pic src []) as Hdr.
    rewrite !app_nil_r, Ht in Hdr. rewrite drop_app_le in Hdr by lia.
    rewrite <-(declared_length_frame src []), app_nil_r, <-Hdr by done.
    unfold declared_length. rewrite take_app_le; [done|]. rewrite length_drop. lia. }
  rewrite decide_False; [done|]. rewrite Hd, length_drop. lia.
Qed.
End facts.

(** ** The framing instance: [plain_protocol<Topic>] implements the interface *)
Section instance.
Context `{Build} `{Streambuf} (n : nat).
Import plain_protocol.

#[local] Instance plain_Protocol_inst : Protocol := plain_Protocol n.

Definition plain_ok (p : state) : Prop :=
  is_established p = true ∧ is_Some (length_codec p).

#[export] Instance plain_Framing : @Framing _ (plain_Protocol n) := {|
  sendable m := plain_sendable n (msg_topic m) (msg_payload m);
  frame _ m := plain_frame n (msg_topic m) (msg_payload m);
  advance p _ := p;
  proto_ok := plain_ok;
  in_step tx rx := is_Some (length_codec rx)
|}.

#[export] Instance plain_FramingLaws `{!StreambufLaws} : @FramingLaws _ _ plain_Framing.
Proof.
  split; simpl.
  - intros p m (_ & Hne & _). unfold plain_frame, length_frame.
    intros Hnil%(f_equal length). rewrite !length_app, !length_le_bytes in Hnil. simpl in Hnil. lia.
  - intros p m b [He Hc] (? & ? & ? & ?).
    destruct (plain_encode_spec n p b (msg_topic m) (msg_payload m) (msg_encrypt m))
      as (b' & ? & ?); [done..|]. eauto.
  - done.
  - by intros p [? ?].
  - intros tx rx m rest Hc (? & ? & ? & ?). exists rx. by rewrite plain_decode_frame.
  - intros tx rx m part Hc (? & ? & ? & ?) ? ?. eexists _, _. by eapply plain_decode_partial.
  - by intros m (? & ? & ?).
Qed.
End instance.

(** ** Properties *)

(** C9. [plain_protocol] frames, for payloads that [plain_sendable] admits (neither empty nor
    too long, and in a debug build not shorter than the topic): on an established connection [encode] appends
    exactly [topic | length | payload], [decode] at the start of those bytes
    returns their number, the payload and the topic whatever follows, and a proper
    prefix decodes to nothing; [accepted] and [connected] each lead from a new
    object to such a connection, and [closed] ends it. *)
Theorem plain_protocol_framing `{Build} `{StreambufLaws} (n : nat)
    (b : streambuf) (h : nat) (pic : Z) (src rest part : bytes) (enc : bool) :
  plain_protocol.plain_sendable n pic src →
  part `prefix_of` plain_protocol.plain_frame n pic src →
  length part < length (plain_protocol.plain_frame n pic src) →
  ∀ p, p = (plain_protocol.accepted (plain_protocol.make h)).2
       ∨ p = (plain_protocol.connected (plain_protocol.make h)).2 →
  (∃ b', plain_protocol.encode n pic src enc (p, b) = (Ret (4 + length src + n), (p, b'))
     ∧ sb_data b' = sb_data b ++ plain_protocol.plain_frame n pic src)
  ∧ plain_protocol.decode n (plain_protocol.plain_frame n pic src ++ rest) p
    = (Ret (length (plain_protocol.plain_frame n pic src), src, pic), p)
  ∧ plain_protocol.decode n part p = (Ret (0, [], 0%Z), p)
  ∧ plain_protocol.is_established (plain_protocol.closed p).2 = false.
Proof.
  intros (? & ? & ? & ?) Hp Hl p Hpp.
  assert (plain_protocol.is_established p = true ∧ is_Some (plain_protocol.length_codec p)) as [He Hc].
  { destruct Hpp as [-> | ->]; split; done. }
  split_and!.
  - by apply plain_encode_spec.
  - by apply plain_decode_frame.
  - by eapply plain_decode_partial.
  - destruct Hpp as [-> | ->]; done.
Qed.

Lemma plain_protocol_framing_witness :
  let _ := debug_build in
  let p := (plain_protocol.accepted (plain_protocol.make 7)).2 in
  (∃ b', plain_protocol.encode 2 258 [x41; x42] false (p, sb_empty) = (Ret 8, (p, b'))
     ∧ sb_data b' = sb_data sb_empty ++ plain_protocol.plain_frame 2 258 [x41; x42])
  ∧ plain_protocol.decode 2 (plain_protocol.plain_frame 2 258 [x41; x42] ++ [xff]) p
    = (Ret (length (plain_protocol.plain_frame 2 258 [x41; x42]), [x41; x42], 258%Z), p)
  ∧ plain_protocol.decode 2 [x02; x01; x02] p = (Ret (0, [], 0%Z), p)
  ∧ plain_protocol.is_established (plain_protocol.closed p).2 = false.
Proof.
  intros ? p. apply (plain_protocol_framing 2 sb_empty 7 258 [x41; x42] [xff] [x02; x01; x02] false).
  - split_and!; [done|done|done|done|intros _; simpl; lia].
  - exists [x00; x00; x00; x41; x42]. reflexivity.
  - vm_compute. lia.
  - by left.
Defined.

(** Two payload sizes the format has no use for.  A frame that declares an
    empty payload is never consumed: [decode] returns nothing whatever follows it,
    so every later frame of the stream is lost.  And a payload shorter than a
    topic, which [session::send] accepts, stops a build with assertions, because
    [encode] passes [src.size()] as the space available for the topic. *)
Theorem plain_protocol_size_limits `{Build} `{StreambufLaws} (n : nat)
    (p : plain_protocol.state) (b : streambuf) (pic : Z) (src rest : bytes) (enc : bool) :
  plain_ok p →
  plain_protocol.decode n (plain_protocol.plain_frame n pic [] ++ rest) p = (Ret (0, [], 0%Z), p)
  ∧ (assertions = true → length src < n →
     (plain_protocol.encode n pic src enc (p, b)).1 = Aborted)
  ∧ (assertions = false → src ≠ [] →
     (plain_protocol.encode n pic src enc (p, b)).1 = Ret (4 + length src + n)).
Proof.
  intros [He Hc]. split_and!.
  - rewrite plain_decode_spec, drop_plain_frame by done.
    rewrite declared_length_frame by done. by rewrite decide_False by (simpl; lia).
  - intros Ha Hs. by apply plain_encode_short_aborts.
  - intros Ha Hs. destruct (plain_encode_spec n p b pic src enc) as (b' & -> & _);
      [done|done|done|intros; congruence|done].
Qed.

Lemma plain_protocol_size_limits_witness :
  let _ := debug_build in
  let p := (plain_protocol.connected (plain_protocol.make 7)).2 in
  plain_protocol.decode 2 (plain_protocol.plain_frame 2 5 [] ++ [x01; x02]) p = (Ret (0, [], 0%Z), p)
  ∧ (assertions = true → length [x41] < 2 →
     (plain_protocol.encode 2 5 [x41] false (p, sb_empty)).1 = Aborted)
  ∧ (assertions = false → [x41] ≠ [] →
     (plain_protocol.encode 2 5 [x41] false (p, sb_empty)).1 = Ret (4 + length [x41] + 2)).
Proof.
  intros ? p. apply (plain_protocol_size_limits 2 p sb_empty 5 [x41] [x01; x02] false).
  split; [reflexivity|]. by exists 7.
Defined.
