(* ===== verification/StreamProtocol.v ===== *)
(** * play/net/protocol/stream_protocol.{hpp,ipp}

    The bypass protocol: bytes are handed on as they arrive, so it has no message
    boundaries and does not implement [Framing]. *)

From S2P Require Import Prelude.
From S2P Require Import Serializer.
From S2P Require Import Streambuf.
From S2P Require Import Protocol.

Module stream_protocol.
Section stream_protocol.
Context `{Build} `{Streambuf}.

Record state := State {
  handle : nat;
  is_accepted : bool;
  is_connected : bool;
  is_closed : bool
}.

Definition make (handle : nat) : state := State handle false false true.

Definition is_established (p : state) : bool :=
  (is_accepted p || is_connected p) && negb (is_closed p).

Definition get_min_size : nat := 0.

(** [accepted()] *)
Definition accepted : M state bytes :=
  p ← get;
  _ ← PLAY_CHECK (negb (is_accepted p));
  _ ← PLAY_CHECK (negb (is_connected p));
  _ ← PLAY_CHECK (is_closed p);
  _ ← put (State (handle p) true (is_connected p) false);
  mret [].

(** [connected()] *)
Definition connected : M state bytes :=
  p ← get;
  _ ← PLAY_CHECK (negb (is_accepted p));
  _ ← PLAY_CHECK (negb (is_connected p));
  _ ← PLAY_CHECK (is_closed p);
  _ ← put (State (handle p) (is_accepted p) true false);
  mret [].

(** [closed()] *)
Definition closed : M state unit :=
  p ← get;
  if is_closed p then mret tt
  else put (State (handle p) (is_accepted p) (is_connected p) true).

(** [encode(pic, src, dst)] *)
Definition encode (_pic : unit) (src : bytes) (_ignore : bool) : M (state * streambuf) nat :=
  p ← gets fst;
  _ ← PLAY_CHECK (negb (is_closed p));
  if is_closed p then mret 0
  else
    _ ← PLAY_CHECK (is_established p);
    _ ← modify (λ s, (s.1, sb_prepare (length src) s.2));
    _ ← modify (λ s, (s.1, sb_sputn src s.2));
    mret (length src).

(** [decode(src)] *)
Definition decode (src : bytes) : M state (nat * bytes * unit) :=
  mret (length src, src, tt).

(** [handshake(src)] *)
Definition handshake (_data : bytes) : M state (nat * bytes) := mret (0, []).

Definition stream_Protocol : Protocol := {|
  proto := state;
  topic := unit;
  entropy := unit;
  proto_make h _ := make h;
  proto_accepted := accepted;
  proto_connected := connected;
  proto_closed := closed;
  proto_is_established := is_established;
  proto_encode := encode;
  proto_decode := decode;
  proto_handshake := handshake
|}.
End stream_protocol.
End stream_protocol.

Section facts.
Context `{Build} `{StreambufLaws}.
Import stream_protocol.

Lemma stream_encode_spec p (b : streambuf) src enc :
  is_established p = true →
  ∃ b', encode tt src enc (p, b) = (Ret (length src), (p, b')) ∧ sb_data b' = sb_data b ++ src.
Proof.
  intros He. assert (is_closed p = false) as Hc.
  { unfold is_established in He. apply andb_true_iff in He as [_ Hc]. by apply negb_true_iff. }
  unfold encode. unfold_M. cbn [fst snd]. rewrite Hc, He. cbn [fst snd negb].
  rewrite !check_true by done. eexists. split; [done|]. cbn [snd].
  by rewrite data_sputn, data_prepare.
Qed.
End facts.
