(* ===== verification/Sodium.v ===== *)
(** * The libsodium interface

    The operations of libsodium the code calls and their documented behaviour.
    Functions that draw random bytes take and return the generator's state.
    A [None] result is a non-zero return code.  [toy_sodium] is an instance that
    satisfies the laws (it offers no secrecy). *)

From S2P Require Import Prelude.
From S2P Require Import Serializer.

Class Sodium := {
  (** [crypto_stream_chacha20_KEYBYTES], [crypto_stream_chacha20_NONCEBYTES]
      and [crypto_box_SEALBYTES] *)
  KEYBYTES : nat;
  NONCEBYTES : nat;
  SEALBYTES : nat;
  rng : Type;
  crypto_kx_keypair : rng → bytes * bytes * rng;
  randombytes_buf : nat → rng → bytes * rng;
  (** [(rx, tx)] from own public, own secret, peer's public key *)
  crypto_kx_server_session_keys : bytes → bytes → bytes → option (bytes * bytes);
  crypto_kx_client_session_keys : bytes → bytes → bytes → option (bytes * bytes);
  crypto_box_seal : bytes → bytes → rng → bytes * rng;
  crypto_box_seal_open : bytes → bytes → bytes → option bytes;
  (** message, nonce, key *)
  crypto_stream_chacha20_xor : bytes → bytes → bytes → option bytes;
  sodium_increment : bytes → bytes
}.

Class SodiumLaws `{Sodium} : Prop := {
  keypair_length r pk sk r' :
    crypto_kx_keypair r = (pk, sk, r') → length pk = KEYBYTES ∧ length sk = KEYBYTES;
  randombytes_length n r bs r' : randombytes_buf n r = (bs, r') → length bs = n;
  (** the two sides derive the same pair of keys, with the directions exchanged *)
  kx_agree r1 r2 pk1 sk1 r1' pk2 sk2 r2' :
    crypto_kx_keypair r1 = (pk1, sk1, r1') → crypto_kx_keypair r2 = (pk2, sk2, r2') →
    ∃ k1 k2, crypto_kx_server_session_keys pk1 sk1 pk2 = Some (k1, k2)
      ∧ crypto_kx_client_session_keys pk2 sk2 pk1 = Some (k2, k1);
  seal_length m pk r c r' :
    crypto_box_seal m pk r = (c, r') → length c = SEALBYTES + length m;
  (** a sealed box opens with the matching key pair only *)
  seal_open m r0 pk sk r0' r c r' :
    crypto_kx_keypair r0 = (pk, sk, r0') → crypto_box_seal m pk r = (c, r') →
    crypto_box_seal_open c pk sk = Some m;
  (** the stream cipher succeeds, keeps the length and is its own inverse *)
  chacha20_xor_spec m n k :
    ∃ c, crypto_stream_chacha20_xor m n k = Some c ∧ length c = length m
      ∧ crypto_stream_chacha20_xor c n k = Some m;
  increment_length n : length (sodium_increment n) = length n;
  (** the constants are small (32, 8 and 48) *)
  sizes_small : KEYBYTES ≤ 64 ∧ NONCEBYTES ≤ 64 ∧ SEALBYTES ≤ 64
}.

(** An instance: keys are one repeated byte, sealing adds a zero prefix and the
    stream cipher exclusive-ors with a byte of the key. *)
Definition byte_xor (a b : byte) : byte := byte_of_Z (Z.lxor (Z_of_byte a) (Z_of_byte b)).

#[export] Instance toy_sodium : Sodium := {|
  KEYBYTES := 32;
  NONCEBYTES := 8;
  SEALBYTES := 48;
  rng := nat;
  crypto_kx_keypair r :=
    (replicate 32 (byte_of_Z (Z.of_nat r)), replicate 32 (byte_of_Z (Z.of_nat r)), S r);
  randombytes_buf n r := (replicate n (byte_of_Z (Z.of_nat r)), S r);
  crypto_kx_server_session_keys pk sk peer :=
    Some (zip_with byte_xor pk peer, map (byte_xor x01) (zip_with byte_xor pk peer));
  crypto_kx_client_session_keys pk sk peer :=
    Some (map (byte_xor x01) (zip_with byte_xor peer pk), zip_with byte_xor peer pk);
  crypto_box_seal m pk r := (replicate 48 x00 ++ m, r);
  crypto_box_seal_open c pk sk :=
    if decide (take 48 c = replicate 48 x00) then Some (drop 48 c) else None;
  crypto_stream_chacha20_xor m n k :=
    Some (map (byte_xor (default x00 (head k))) m);
  sodium_increment n :=
    le_bytes (length n) (le_value n + 1)
|}.

Lemma Z_lxor_byte a b : (0 ≤ Z.lxor (Z_of_byte a) (Z_of_byte b) < 256)%Z.
Proof.
  pose proof (Z_of_byte_range a). pose proof (Z_of_byte_range b).
  assert (0 ≤ Z.lxor (Z_of_byte a) (Z_of_byte b))%Z by (apply Z.lxor_nonneg; lia).
  split; [done|]. destruct (Z.eq_dec (Z.lxor (Z_of_byte a) (Z_of_byte b)) 0) as [->|]; [lia|].
  change 256%Z with (2 ^ 8)%Z. apply Z.log2_lt_pow2; [lia|].
  eapply Z.le_lt_trans; [apply Z.log2_lxor; lia|].
  apply Z.max_lub_lt.
  - destruct (Z.eq_dec (Z_of_byte a) 0) as [->|]; [simpl; lia|]. apply Z.log2_lt_pow2; lia.
  - destruct (Z.eq_dec (Z_of_byte b) 0) as [->|]; [simpl; lia|]. apply Z.log2_lt_pow2; lia.
Qed.

Lemma byte_xor_involutive a b : byte_xor a (byte_xor a b) = b.
Proof.
  unfold byte_xor. rewrite Z_of_byte_of_Z, (Z.mod_small _ 256) by apply Z_lxor_byte.
  by rewrite <-Z.lxor_assoc, Z.lxor_nilpotent, Z.lxor_0_l, byte_of_Z_of_byte.
Qed.

#[export] Instance toy_sodium_laws : SodiumLaws.
Proof.
  split; cbn -[replicate drop]; intros; simplify_eq.
  - by rewrite !length_replicate.
  - by rewrite length_replicate.
  - eauto.
  - by rewrite length_app, length_replicate.
  - rewrite decide_True by done. by rewrite drop_app_exact.
  - eexists. split_and!; [done|by rewrite length_map|]. f_equal. rewrite map_map.
    rewrite <-(map_id m) at 2. apply map_ext. intros. apply byte_xor_involutive.
  - by rewrite length_le_bytes.
  - lia.
Qed.
