(* ===== verification/SodiumHandshake.v ===== *)
(** * play/net/protocol/sodium_handshake.{hpp,ipp} and sodium_cipher.{hpp,ipp}

    Key and nonce exchange, and the stream cipher that uses its result.  The state
    of the random generator is a field of the handshake, so that every draw is a
    function of the state. *)

From S2P Require Import Prelude.
From S2P Require Import Serializer.
From S2P Require Import Streambuf.
From S2P Require Import Sodium.

Module sodium_handshake.
Section sodium_handshake.
Context `{Build} `{Sodium}.

Definition key_size : nat := KEYBYTES.
Definition nonce_size : nat := NONCEBYTES.
Definition nonce_exchange_size : nat := SEALBYTES + nonce_size + 1.

(** The arrays hold unspecified bytes until they are first written. *)
Record state := State {
  handle : nat;
  is_accepted : bool;
  key_received : bool;
  nonce_received : bool;
  established : bool;
  pub_key : bytes;
  sec_key : bytes;
  peer_pub_key : bytes;
  rx_key : bytes;
  tx_key : bytes;
  rx_nonce : bytes;
  tx_nonce : bytes;
  generator : rng
}.

Definition make (handle : nat) (accepted : bool) (r : rng) : state :=
  State handle accepted false false false
    (replicate key_size x00) (replicate key_size x00) (replicate key_size x00)
    (replicate key_size x00) (replicate key_size x00)
    (replicate nonce_size x00) (replicate nonce_size x00) r.

Definition is_key_received (h : state) : bool := key_received h.
Definition is_established (h : state) : bool := established h.

Definition set_keypair (pk sk : bytes) (r : rng) (h : state) : state :=
  State (handle h) (is_accepted h) (key_received h) (nonce_received h) (established h)
    pk sk (peer_pub_key h) (rx_key h) (tx_key h) (rx_nonce h) (tx_nonce h) r.

Definition set_tx_nonce (n : bytes) (h : state) : state :=
  State (handle h) (is_accepted h) (key_received h) (nonce_received h) (established h)
    (pub_key h) (sec_key h) (peer_pub_key h) (rx_key h) (tx_key h) (rx_nonce h) n (generator h).

Definition set_rx_nonce (n : bytes) (r : rng) (h : state) : state :=
  State (handle h) (is_accepted h) (key_received h) (nonce_received h) (established h)
    (pub_key h) (sec_key h) (peer_pub_key h) (rx_key h) (tx_key h) n (tx_nonce h) r.

Definition set_nonce_received (h : state) : state :=
  State (handle h) (is_accepted h) (key_received h) true true
    (pub_key h) (sec_key h) (peer_pub_key h) (rx_key h) (tx_key h) (rx_nonce h) (tx_nonce h)
    (generator h).

Definition set_peer_key (pk : bytes) (h : state) : state :=
  State (handle h) (is_accepted h) (key_received h) (nonce_received h) (established h)
    (pub_key h) (sec_key h) pk (rx_key h) (tx_key h) (rx_nonce h) (tx_nonce h) (generator h).

Definition set_session_keys (keys : bytes * bytes) (h : state) : state :=
  State (handle h) (is_accepted h) true (nonce_received h) (established h)
    (pub_key h) (sec_key h) (peer_pub_key h) keys.1 keys.2 (rx_nonce h) (tx_nonce h) (generator h).

(** [inc_tx_nonce()] and [inc_rx_nonce()] *)
Definition inc_tx_nonce : M state unit :=
  modify (λ h, set_tx_nonce (sodium_increment (tx_nonce h)) h).
Definition inc_rx_nonce : M state unit :=
  modify (λ h, set_rx_nonce (sodium_increment (rx_nonce h)) (generator h) h).

(** [sync_key()]: the letter [k] and the public key *)
Definition sync_key : M state bytes :=
  h ← get; mret (x6b :: pub_key h).

(** [sync_nonce()]: the letter [n] and the sealed receive nonce *)
Definition sync_nonce : M state bytes :=
  h ← get;
  let '(sealed, r) := crypto_box_seal (rx_nonce h) (peer_pub_key h) (generator h) in
  _ ← put (set_rx_nonce (rx_nonce h) r h);
  mret (x6e :: sealed).

(** [prepare()] *)
Definition prepare : M state bytes :=
  h ← get;
  let '(pk, sk, r) := crypto_kx_keypair (generator h) in
  _ ← put (set_keypair pk sk r h);
  sync_key.

(** [crypto_box_seal_open] writes the opened message to the start of the
    [nonce_size] bytes of [tx_nonce_]; a longer message overruns the array. *)
Definition store_nonce (m old : bytes) : M state bytes :=
  if decide (length m ≤ nonce_size) then mret (m ++ drop (length m) old) else undefined.

(** [on_handshake(src)]: the consumed length and the bytes to send *)
Definition on_handshake (src : bytes) : M state (nat * bytes) :=
  _ ← PLAY_CHECK (0 <? length src);
  _ ← PLAY_CHECK ((length src =? key_size + 1) || (length src =? nonce_exchange_size));
  h ← get;
  if key_received h then
    _ ← PLAY_CHECK (negb (nonce_received h));
    _ ← PLAY_CHECK (negb (established h));
    c ← deref (src !! 0);
    _ ← PLAY_CHECK (bool_decide (c = x6e));
    match crypto_box_seal_open (drop 1 src) (pub_key h) (sec_key h) with
    | None => throw (sodium_handshake_exception (handle h))
    | Some m =>
        n ← store_nonce m (tx_nonce h);
        _ ← put (set_nonce_received (set_tx_nonce n h));
        mret (length src, [])
    end
  else
    _ ← PLAY_CHECK (negb (nonce_received h));
    _ ← PLAY_CHECK (negb (established h));
    c ← deref (src !! 0);
    _ ← PLAY_CHECK (bool_decide (c = x6b));
    (* memcpy(peer_pub_key_, data + 1, key_size) *)
    if decide (key_size + 1 ≤ length src) then
      _ ← put (set_peer_key (take key_size (drop 1 src)) h);
      h ← get;
      let result := if is_accepted h
        then crypto_kx_server_session_keys (pub_key h) (sec_key h) (peer_pub_key h)
        else crypto_kx_client_session_keys (pub_key h) (sec_key h) (peer_pub_key h) in
      match result with
      | None => throw (sodium_handshake_exception (handle h))
      | Some keys =>
          _ ← modify (set_session_keys keys);
          h ← get;
          let '(n, r) := randombytes_buf nonce_size (generator h) in
          _ ← put (set_rx_nonce n r h);
          send ← sync_nonce;
          mret (length src, send)
      end
    else undefined.
End sodium_handshake.
End sodium_handshake.

Module sodium_cipher.
Section sodium_cipher.
Context `{Build} `{Sodium}.
Import sodium_handshake.

(** [encode(src, mutable_buffer& dst)] on the referenced handshake: the number of
    bytes and the memory of [dst] *)
Definition encode (src dst : bytes) : M state (nat * bytes) :=
  _ ← PLAY_CHECK (length src <=? length dst);
  h ← get;
  match crypto_stream_chacha20_xor src (tx_nonce h) (tx_key h) with
  | None => throw (sodium_cipher_exception (handle h))
  | Some c =>
      dst ← memcpy dst 0 c;
      _ ← inc_tx_nonce;
      mret (length src, dst)
  end.

(** [encode(src, streambuf& dst)] *)
Definition encode_streambuf `{Streambuf} (src : bytes) : M (state * streambuf) nat :=
  _ ← modify (λ s, (s.1, sb_prepare (length src) s.2));
  dst_buf ← gets (λ s, sb_output s.2);
  r ← zoom fst (λ h s, (h, s.2)) (encode src dst_buf);
  _ ← modify (λ s, (s.1, sb_commit (length src) (sb_store r.2 s.2)));
  mret (length src).

(** [decode(src)]: the bytes are decrypted in place; the buffer returned shows
    exactly the decrypted bytes *)
Definition decode (src : bytes) : M state (nat * bytes) :=
  h ← get;
  match crypto_stream_chacha20_xor src (rx_nonce h) (rx_key h) with
  | None => throw (sodium_cipher_exception (handle h))
  | Some buf =>
      _ ← inc_rx_nonce;
      mret (length src, buf)
  end.
End sodium_cipher.
End sodium_cipher.

Section facts.
Context `{Build} `{SodiumLaws}.
Import sodium_handshake.

(** A state whose key pair came from the generator. *)
Definition has_keypair (h : state) (r : rng) : Prop :=
  ∃ r', crypto_kx_keypair r = (pub_key h, sec_key h, r').

Lemma prepare_spec h :
  ∃ r', prepare h
    = (Ret (x6b :: (crypto_kx_keypair (generator h)).1.1),
       set_keypair (crypto_kx_keypair (generator h)).1.1 (crypto_kx_keypair (generator h)).1.2 r' h).
Proof.
  unfold prepare, sync_key. unfold_M.
  destruct (crypto_kx_keypair (generator h)) as [[pk sk] r]. by exists r.
Qed.

(** Receiving the peer's key: the session keys are set and the own receive nonce
    is sent sealed for the peer. *)
Lemma on_key_spec h peer keys :
  key_received h = false → nonce_received h = false → established h = false →
  length peer = key_size →
  (if is_accepted h then crypto_kx_server_session_keys (pub_key h) (sec_key h) peer
   else crypto_kx_client_session_keys (pub_key h) (sec_key h) peer) = Some keys →
  ∃ n r1 sealed r2,
    crypto_box_seal n peer r1 = (sealed, r2) ∧ length n = nonce_size ∧
    on_handshake (x6b :: peer) h
    = (Ret (S key_size, x6e :: sealed),
       set_rx_nonce n r2 (set_session_keys keys (set_peer_key peer h))).
Proof.
  intros Hk Hn He Hl Hkeys. unfold on_handshake. unfold_M. simpl length.
  rewrite check_true by done. rewrite check_true; cycle 1.
  { rewrite Hl, orb_true_iff. left. apply Nat.eqb_eq. lia. }
  rewrite Hk, Hn, He. simpl negb. rewrite !check_true by done. simpl.
  rewrite decide_True by lia. simpl.
  rewrite drop_0, take_ge by lia.
  rewrite Hkeys.
  destruct (randombytes_buf nonce_size _) as [n r1] eqn:Hr. simpl.
  destruct (crypto_box_seal n peer r1) as [sealed r2] eqn:Hs.
  exists n, r1, sealed, r2. split_and!; [done|by eapply randombytes_length|].
  unfold sync_nonce. run. rewrite Hs. by rewrite Hl.
Qed.

(** Receiving the sealed nonce completes the handshake. *)
Lemma on_nonce_spec h sealed m r0 r r' :
  key_received h = true → nonce_received h = false → established h = false →
  has_keypair h r0 → crypto_box_seal m (pub_key h) r = (sealed, r') →
  length m = nonce_size → length (tx_nonce h) = nonce_size →
  on_handshake (x6e :: sealed) h
  = (Ret (S (length sealed), []), set_nonce_received (set_tx_nonce m h)).
Proof.
  intros Hk Hn He [r0' Hkp] Hseal Hm Htx.
  pose proof (seal_open _ _ _ _ _ _ _ _ Hkp Hseal) as Hopen.
  pose proof (seal_length _ _ _ _ _ Hseal) as Hlen.
  unfold on_handshake. unfold_M. simpl length.
  rewrite check_true by done. rewrite check_true; cycle 1.
  { rewrite orb_true_iff. right. apply Nat.eqb_eq. unfold nonce_exchange_size. lia. }
  rewrite Hk, Hn, He. simpl negb. rewrite !check_true by done. simpl.
  rewrite drop_0, Hopen.
  unfold store_nonce. rewrite decide_True by lia. unfold_M.
  by rewrite drop_ge, app_nil_r by lia.
Qed.

(** A sealed nonce that does not open throws. *)
Lemma on_nonce_fails h sealed :
  key_received h = true → nonce_received h = false → established h = false →
  length sealed = SEALBYTES + NONCEBYTES →
  crypto_box_seal_open sealed (pub_key h) (sec_key h) = None →
  on_handshake (x6e :: sealed) h = (Throw (sodium_handshake_exception (handle h)), h).
Proof.
  intros Hk Hn He Hl Hopen. unfold on_handshake. unfold_M. simpl length.
  rewrite check_true by done. rewrite check_true; cycle 1.
  { rewrite orb_true_iff. right. apply Nat.eqb_eq. unfold nonce_exchange_size, nonce_size. lia. }
  rewrite Hk, Hn, He. simpl negb. rewrite !check_true by done. simpl.
  by rewrite drop_0, Hopen.
Qed.

(** A nonce message that opens to more than [nonce_size] bytes overruns the
    array once the size check does not stop the program. *)
Lemma on_nonce_overrun h c sealed m :
  assertions = false → key_received h = true → 
  crypto_box_seal_open sealed (pub_key h) (sec_key h) = Some m → nonce_size < length m →
  (on_handshake (c :: sealed) h).1 = Undefined.
Proof.
  intros Ha Hk Hopen Hm. unfold on_handshake. unfold_M. rewrite !check_release by done.
  rewrite Hk. simpl. rewrite ?check_release by done. rewrite drop_0, Hopen.
  unfold store_nonce. by rewrite decide_False by lia.
Qed.

Lemma cipher_encode_spec h src dst :
  length dst = length src →
  ∃ c, crypto_stream_chacha20_xor src (tx_nonce h) (tx_key h) = Some c ∧ length c = length src
    ∧ sodium_cipher.encode src dst h
      = (Ret (length src, c), set_tx_nonce (sodium_increment (tx_nonce h)) h).
Proof.
  intros Hd. destruct (chacha20_xor_spec src (tx_nonce h) (tx_key h)) as (c & Hc & Hl & _).
  exists c. split_and!; [done..|]. unfold sodium_cipher.encode. unfold_M.
  rewrite check_true by (apply Nat.leb_le; lia). rewrite Hc.
  rewrite (memcpy_tail [] dst c 0) by (simpl; lia). done.
Qed.

Lemma cipher_decode_spec h c :
  ∃ m, crypto_stream_chacha20_xor c (rx_nonce h) (rx_key h) = Some m ∧
    sodium_cipher.decode c h
    = (Ret (length c, m), set_rx_nonce (sodium_increment (rx_nonce h)) (generator h) h).
Proof.
  destruct (chacha20_xor_spec c (rx_nonce h) (rx_key h)) as (m & Hm & _).
  exists m. split; [done|]. unfold sodium_cipher.decode. unfold_M. by rewrite Hm.
Qed.
End facts.
