(* ===== verification/SecureProtocol.v ===== *)
(** * play/net/protocol/secure_protocol.{hpp,ipp}

    [topic{sizeof(Topic)} | enc{1} | length{4} | payload], with the handshake that
    precedes the frames and optional encryption of the payload. *)

From S2P Require Import Prelude.
From S2P Require Import Serializer.
From S2P Require Import Streambuf.
From S2P Require Import LengthDelimited.
From S2P Require Import Protocol.
From S2P Require Import Sodium.
From S2P Require Import SodiumHandshake.

(** Runs an operation on the memory from offset [k] on, the way the code advances
    its write pointer. *)
Definition at_offset {S} (k : nat) (f : bytes → M S bytes) (w : bytes) : M S bytes :=
  r ← f (drop k w); mret (take k w ++ r).

Module secure_protocol.
Section secure_protocol.
Context `{Build} `{Streambuf} `{Sodium} (sizeof_Topic : nat).

Definition length_field_size : nat := 4.
Definition enc_field_size : nat := 1.

(** The object.  [cipher_codec] holds a reference to the handshake, so only
    whether it is set is recorded.  [hs_send_buf] stands for the thread-local
    buffer of [encode_handshake] (each call leaves it empty) and [seed] for the
    generator the handshake will draw from. *)
Record state := State {
  handle : nat;
  is_accepted : bool;
  is_connected : bool;
  is_closed : bool;
  cipher_codec : option nat;
  cipher_handshake : option sodium_handshake.state;
  hs_send_buf : streambuf;
  seed : rng
}.

Definition make (handle : nat) (r : rng) : state :=
  State handle false false true None None sb_empty r.

Definition set_handshake (h : sodium_handshake.state) (p : state) : state :=
  State (handle p) (is_accepted p) (is_connected p) (is_closed p) (cipher_codec p) (Some h)
    (hs_send_buf p) (seed p).

Definition set_hs_send_buf (b : streambuf) (p : state) : state :=
  State (handle p) (is_accepted p) (is_connected p) (is_closed p) (cipher_codec p)
    (cipher_handshake p) b (seed p).

(** [is_established()] *)
Definition is_established (p : state) : bool :=
  negb (is_closed p) &&
  match cipher_handshake p with
  | Some h => sodium_handshake.is_established h
  | None => false
  end.

Definition get_min_size : nat := length_field_size + sizeof_Topic + enc_field_size.

(** A call through [cipher_handshake_], undefined when the pointer is empty. *)
Definition on_cipher_handshake {A} (m : M sodium_handshake.state A) : M state A := λ p,
  match cipher_handshake p with
  | Some h => let '(r, h') := m h in (r, set_handshake h' p)
  | None => (Undefined, p)
  end.

(** [encode_handshake(src)] *)
Definition encode_handshake (src : bytes) : M state bytes :=
  size ← zoom hs_send_buf set_hs_send_buf (length_delimited.encode src);
  _ ← PLAY_CHECK (size =? length src + length_delimited.length_field_size);
  send ← gets (λ p, sb_data (hs_send_buf p));
  _ ← modify (λ p, set_hs_send_buf (sb_consume size (hs_send_buf p)) p);
  mret send.

(** [accepted()] *)
Definition accepted : M state bytes :=
  p ← get;
  _ ← PLAY_CHECK (negb (is_accepted p));
  _ ← PLAY_CHECK (negb (is_connected p));
  _ ← PLAY_CHECK (is_closed p);
  _ ← PLAY_CHECK (bool_decide (¬ is_Some (cipher_handshake p)));
  _ ← PLAY_CHECK (bool_decide (cipher_codec p = None));
  _ ← put (State (handle p) true (is_connected p) false (Some (handle p))
             (Some (sodium_handshake.make (handle p) true (seed p))) (hs_send_buf p) (seed p));
  buf ← on_cipher_handshake sodium_handshake.prepare;
  encode_handshake buf.

(** [connected()] *)
Definition connected : M state bytes :=
  p ← get;
  _ ← PLAY_CHECK (negb (is_accepted p));
  _ ← PLAY_CHECK (negb (is_connected p));
  _ ← PLAY_CHECK (is_closed p);
  _ ← PLAY_CHECK (bool_decide (¬ is_Some (cipher_handshake p)));
  _ ← PLAY_CHECK (bool_decide (cipher_codec p = None));
  _ ← put (State (handle p) (is_accepted p) true false (Some (handle p))
             (Some (sodium_handshake.make (handle p) false (seed p))) (hs_send_buf p) (seed p));
  buf ← on_cipher_handshake sodium_handshake.prepare;
  encode_handshake buf.

(** [closed()] *)
Definition closed : M state unit :=
  p ← get;
  if is_closed p then mret tt
  else put (State (handle p) (is_accepted p) (is_connected p) true (cipher_codec p)
              (cipher_handshake p) (hs_send_buf p) (seed p)).

(** [encode(pic, src, dst, encrypt)] *)
Definition encode (pic : Z) (src : bytes) (encrypt : bool) : M (state * streambuf) nat :=
  p ← gets fst;
  _ ← PLAY_CHECK (negb (is_closed p));
  if is_closed p then mret 0
  else if negb (is_established p) then mret 0
  else
    let header_len := length_field_size + sizeof_Topic + enc_field_size in
    let total_len := length src + header_len in
    _ ← modify (λ s, (s.1, sb_prepare total_len s.2));
    wdst ← gets (λ s, sb_output s.2);
    wdst ← lift_pure (serializer.serialize sizeof_Topic wdst sizeof_Topic pic);
    wdst ← lift_pure (at_offset sizeof_Topic
             (λ w, serializer.serialize_bool w enc_field_size encrypt) wdst);
    wdst ← lift_pure (at_offset (sizeof_Topic + enc_field_size)
             (λ w, serializer.serialize 4 w length_field_size (u32 (Z.of_nat (length src)))) wdst);
    let pbody := header_len in
    if encrypt then
      _ ← deref (cipher_codec p);
      r ← zoom fst (λ p' s, (p', s.2))
            (on_cipher_handshake
               (sodium_cipher.encode src (take (length src) (drop pbody wdst))));
      _ ← PLAY_CHECK (r.1 =? length src);
      _ ← modify (λ s, (s.1, sb_commit total_len (sb_store (take pbody wdst ++ r.2) s.2)));
      mret total_len
    else
      wdst ← memcpy wdst pbody src;
      _ ← modify (λ s, (s.1, sb_commit total_len (sb_store wdst s.2)));
      mret total_len.

(** [decode(src)] *)
Definition decode (src : bytes) : M state (nat * bytes * Z) :=
  if decide (length src ≤ get_min_size) then mret (0, [], 0%Z)
  else
    pic ← lift_pure (serializer.deserialize sizeof_Topic src sizeof_Topic);
    let psrc := drop sizeof_Topic src in
    encrypt ← lift_pure (serializer.deserialize_bool psrc enc_field_size);
    let psrc := drop enc_field_size psrc in
    len ← lift_pure (serializer.deserialize 4 psrc length_field_size);
    let total_len := u64 (len + Z.of_nat (length_field_size + sizeof_Topic + enc_field_size)) in
    if (Z.of_nat (length src) <? total_len)%Z then mret (0, [], 0%Z)
    else
      let ppayload := take (Z.to_nat len) (drop length_field_size psrc) in
      if (encrypt : bool) then
        p ← get (S:=state);
        _ ← deref (cipher_codec p);
        r ← on_cipher_handshake (sodium_cipher.decode ppayload);
        _ ← PLAY_CHECK (Z.of_nat r.1 =? len)%Z;
        mret (Z.to_nat total_len, r.2, pic)
      else mret (Z.to_nat total_len, ppayload, pic).

(** [handshake(src)] *)
Definition handshake (src : bytes) : M state (nat * bytes) :=
  payload ← lift_pure (length_delimited.decode src);
  if decide (0 < length payload) then
    r ← on_cipher_handshake (sodium_handshake.on_handshake payload);
    let '(used_len, resp) := r in
    _ ← PLAY_CHECK (used_len =? length payload);
    let consumed_len := length payload + length_delimited.length_field_size in
    if decide (0 < length resp) then
      send ← encode_handshake resp;
      mret (consumed_len, send)
    else
      p ← get;
      h ← deref (cipher_handshake p);
      _ ← PLAY_CHECK (sodium_handshake.is_established h);
      mret (consumed_len, [])
  else mret (0, []).

Definition secure_Protocol : Protocol := {|
  proto := state;
  topic := Z;
  entropy := rng;
  proto_make := make;
  proto_accepted := accepted;
  proto_connected := connected;
  proto_closed := closed;
  proto_is_established := is_established;
  proto_encode := encode;
  proto_decode := decode;
  proto_handshake := handshake
|}.

(** ** The frame format *)
Definition secure_header (pic : Z) (enc : bool) (len : nat) : bytes :=
  le_bytes sizeof_Topic pic ++ [byte_of_Z (if enc then 1 else 0)] ++ le_bytes 4 (Z.of_nat len).

(** The body on the wire and the sender afterwards. *)
Definition secure_body (p : state) (src : bytes) (enc : bool) : bytes :=
  match enc, cipher_handshake p with
  | true, Some h =>
      default [] (crypto_stream_chacha20_xor src (sodium_handshake.tx_nonce h)
                    (sodium_handshake.tx_key h))
  | _, _ => src
  end.

Definition secure_frame (p : state) (pic : Z) (src : bytes) (enc : bool) : bytes :=
  secure_header pic enc (length src) ++ secure_body p src enc.

Definition secure_advance (p : state) (enc : bool) : state :=
  match enc, cipher_handshake p with
  | true, Some h =>
      set_handshake (sodium_handshake.set_tx_nonce
        (sodium_increment (sodium_handshake.tx_nonce h)) h) p
  | _, _ => p
  end.

(** A sender that finished its handshake. *)
Definition secure_ok (p : state) : Prop :=
  is_established p = true ∧ is_Some (cipher_codec p).

(** The receiver decrypts with what the sender encrypts with. *)
Definition secure_in_step (tx rx : state) : Prop :=
  is_Some (cipher_codec rx) ∧
  ∃ ht hr, cipher_handshake tx = Some ht ∧ cipher_handshake rx = Some hr ∧
    sodium_handshake.tx_key ht = sodium_handshake.rx_key hr ∧
    sodium_handshake.tx_nonce ht = sodium_handshake.rx_nonce hr.

Definition secure_sendable (pic : Z) (src : bytes) : Prop :=
  (0 ≤ pic < 2 ^ (8 * Z.of_nat sizeof_Topic))%Z ∧ src ≠ [] ∧ fits_u32 src.
End secure_protocol.
End secure_protocol.

Section facts.
Context `{Build} `{StreambufLaws} `{SodiumLaws} (n : nat).
Import secure_protocol.

Lemma at_offset_app {S} pre k (f : bytes → M S bytes) w r (s : S) :
  k = length pre → f w s = (Ret r, s) → at_offset k f (pre ++ w) s = (Ret (pre ++ r), s).
Proof.
  intros -> Hf. unfold at_offset. rewrite drop_app_length, take_app_length.
  rewrite (bind_run _ _ _ _ _ Hf). done.
Qed.

Lemma length_header pic enc len : length (secure_header n pic enc len) = n + 5.
Proof. unfold secure_header. rewrite !length_app, !length_le_bytes. simpl. lia. Qed.

Lemma length_body p src enc : length (secure_body p src enc) = length src.
Proof.
  unfold secure_body. destruct enc, (cipher_handshake p) as [h|]; try done.
  by destruct (chacha20_xor_spec src (sodium_handshake.tx_nonce h) (sodium_handshake.tx_key h))
    as (c & -> & ? & _).
Qed.

Lemma length_secure_frame p pic src enc :
  length (secure_frame n p pic src enc) = n + 5 + length src.
Proof. unfold secure_frame. by rewrite length_app, length_header, length_body. Qed.

(** The three header fields are written one after the other into the prepared
    memory. *)
Lemma write_topic w pic :
  n ≤ length w → serializer.serialize n w n pic tt = (Ret (le_bytes n pic ++ drop n w), tt).
Proof. intros. by apply serialize_spec. Qed.

Lemma write_enc w pic enc :
  n < length w →
  at_offset n (λ w, serializer.serialize_bool w enc_field_size enc) (le_bytes n pic ++ drop n w) tt
  = (Ret (le_bytes n pic ++ byte_of_Z (if enc then 1 else 0) :: drop (S n) w), tt).
Proof.
  intros Hw. destruct (drop n w) as [|c w'] eqn:Hd.
  { apply (f_equal length) in Hd. rewrite length_drop in Hd. simpl in Hd. lia. }
  assert (drop (S n) w = w') as ->.
  { replace (S n) with (n + 1) by lia. by rewrite <-drop_drop, Hd. }
  apply at_offset_app; [by rewrite length_le_bytes|]. by apply serialize_bool_spec.
Qed.

Lemma write_len w pre v :
  length pre = n + 1 → 4 ≤ length w →
  at_offset (n + enc_field_size) (λ w, serializer.serialize 4 w length_field_size v) (pre ++ w) tt
  = (Ret (pre ++ le_bytes 4 v ++ drop 4 w), tt).
Proof.
  intros Hp Hw. apply at_offset_app; [done|]. by apply serialize_spec.
Qed.

Lemma commit_frame (b b0 : streambuf) header body total :
  length header + length body = total → sb_data b0 = sb_data b → length (sb_output b0) = total →
  sb_data (sb_commit total (sb_store (header ++ body) b0)) = sb_data b ++ header ++ body.
Proof.
  intros Hl Hb Ho. rewrite data_commit, data_store, Hb, output_store by (rewrite length_app; lia).
  f_equal. apply take_ge. rewrite length_app. lia.
Qed.

Lemma secure_encode_spec p (b : streambuf) pic src enc :
  secure_ok p → secure_sendable n pic src →
  ∃ b', encode n pic src enc (p, b) = (Ret (length src + (4 + n + 1)), (secure_advance p enc, b'))
    ∧ sb_data b' = sb_data b ++ secure_frame n p pic src enc.
Proof.
  intros [He [c Hc]] (Hpic & Hne & Hf). unfold encode, lift_pure. unfold_M. cbn [fst snd].
  assert (is_closed p = false) as Hcl.
  { unfold is_established in He. apply andb_true_iff in He as [Hcl _]. by apply negb_true_iff. }
  rewrite Hcl, He. cbn [negb]. rewrite check_true by done.
  unfold length_field_size, enc_field_size.
  remember (length src + (4 + n + 1)) as total eqn:Ht.
  cbn [fst snd]. set (b1 := sb_prepare total b).
  assert (length (sb_output b1) = total) as Hw by (subst b1; by rewrite output_prepare).
  rewrite write_topic by lia. cbn [fst].
  change 1 with enc_field_size at 1. rewrite write_enc by lia. cbn [fst].
  rewrite snoc_assoc. change (n + 1) with (n + enc_field_size) at 1.
  change 4 with length_field_size at 2.
  rewrite write_len; [|by rewrite length_app, length_le_bytes|rewrite length_drop; lia].
  cbn [fst]. rewrite drop_drop, u32_small by (unfold fits_u32 in Hf; lia).
  set (w := drop (S n + 4) (sb_output b1)).
  assert (length w = length src) as Hlw by (subst w; rewrite length_drop; lia).
  rewrite <-(assoc_L app). 
  replace (le_bytes n pic ++ [byte_of_Z (if enc then 1 else 0)] ++ le_bytes 4 (Z.of_nat (length src)) ++ w)
    with (secure_header n pic enc (length src) ++ w)
    by (unfold secure_header; by rewrite <-!(assoc_L app)).
  pose proof (length_header pic enc (length src)) as Hlh.
  unfold secure_frame, secure_body, secure_advance.
  destruct enc.
  - rewrite Hc. unfold is_established in He.
    destruct (cipher_handshake p) as [h|] eqn:Hh; [|by rewrite andb_false_r in He].
    rewrite drop_app_exact, take_app_exact, take_ge by lia.
    destruct (cipher_encode_spec h src w Hlw) as (body & Hx & Hlb & Hce).
    unfold on_cipher_handshake. cbn [fst snd]. rewrite Hh, Hce. cbn [fst snd].
    rewrite check_true by apply Nat.eqb_refl.
    eexists. split; [done|]. cbn [snd]. rewrite Hx. simpl default.
    apply commit_frame; [lia|subst b1; by rewrite data_prepare|done].
  - rewrite memcpy_tail by lia. eexists. split; [done|]. cbn [snd].
    apply commit_frame; [lia|subst b1; by rewrite data_prepare|done].
Qed.

(** What [decode] reads from the front of the buffer. *)
Definition wire_len (src : bytes) : Z := le_value (take 4 (drop (n + 1) src)).

Lemma decode_incomplete p src :
  (length src ≤ n + 5 ∨ (Z.of_nat (length src) < wire_len src + Z.of_nat (n + 5))%Z) →
  n ≤ 8 →
  decode n src p = (Ret (0, [], 0%Z), p).
Proof.
  intros Hs Hn. unfold decode, get_min_size, length_field_size, enc_field_size, lift_pure.
  destruct (decide (length src ≤ 4 + n + 1)) as [|Hgt]; [done|]. unfold_M.
  rewrite deserialize_spec by lia. cbn [fst].
  destruct (drop n src) as [|c src'] eqn:Hd.
  { apply (f_equal length) in Hd. rewrite length_drop in Hd. simpl in Hd. lia. }
  rewrite deserialize_bool_spec by lia. cbn [fst]. rewrite <-Hd, drop_drop.
  rewrite deserialize_spec by (rewrite ?length_drop; lia). cbn [fst].
  fold (wire_len src).
  assert (0 ≤ wire_len src < 4294967296)%Z as Hr.
  { pose proof (le_value_range (take 4 (drop (n + 1) src))) as Hr.
    rewrite length_take, Nat.min_l in Hr by (rewrite length_drop; lia). apply Hr. }
  rewrite u64_small by lia.
  by rewrite (proj2 (Z.ltb_lt _ _)) by lia.
Qed.

Lemma wire_len_frame pic enc src rest :
  fits_u32 src → wire_len (secure_header n pic enc (length src) ++ rest) = Z.of_nat (length src).
Proof.
  intros Hf. unfold wire_len, secure_header. rewrite <-!(assoc_L app), (assoc_L app).
  rewrite drop_app_exact by (by rewrite length_app, length_le_bytes).
  rewrite take_app_exact by (by rewrite length_le_bytes).
  rewrite le_value_bytes. apply wrap_id. unfold fits_u32 in Hf.
  change (2 ^ (8 * Z.of_nat 4))%Z with 4294967296%Z. lia.
Qed.

(** A complete frame is parsed into its fields. *)
Lemma decode_complete p pic enc body rest :
  (0 ≤ pic < 2 ^ (8 * Z.of_nat n))%Z → body ≠ [] → fits_u32 body → n ≤ 8 →
  decode n (secure_header n pic enc (length body) ++ body ++ rest) p =
  (if enc then
     _ ← deref (cipher_codec p);
     r ← on_cipher_handshake (sodium_cipher.decode body);
     _ ← PLAY_CHECK (Z.of_nat r.1 =? Z.of_nat (length body))%Z;
     mret (n + 5 + length body, r.2, pic)
   else mret (n + 5 + length body, body, pic)) p.
Proof.
  intros Hpic Hne Hf Hn. assert (0 < length body) by (destruct body; simpl; [done|lia]).
  set (src := secure_header n pic enc (length body) ++ body ++ rest).
  pose proof (length_header pic enc (length body)) as Hlh.
  assert (n + 5 + length body ≤ length src) as Hlen by (subst src; rewrite !length_app; lia).
  assert (wire_len src = Z.of_nat (length body)) as Hw by by apply wire_len_frame.
  assert (drop n src = byte_of_Z (if enc then 1 else 0)
    :: le_bytes 4 (Z.of_nat (length body)) ++ body ++ rest) as Hd.
  { subst src. unfold secure_header. rewrite <-!(assoc_L app).
    by rewrite drop_app_exact by (by rewrite length_le_bytes). }
  unfold decode, get_min_size, length_field_size, enc_field_size, lift_pure.
  rewrite decide_False by lia. unfold fits_u32 in Hf.
  erewrite (bind_run _ _ p _ p) by (rewrite deserialize_spec by lia; done).
  erewrite (bind_run _ _ p _ p) by (rewrite Hd, deserialize_bool_spec by lia; done).
  erewrite (bind_run _ _ p _ p); cycle 1.
  { rewrite drop_drop, deserialize_spec by (rewrite ?length_drop; lia). done. }
  fold (wire_len src). rewrite Hw, u64_small by lia.
  rewrite (proj2 (Z.ltb_ge _ _)) by lia.
  rewrite drop_drop, (drop_drop src). replace (n + 1 + 4) with (n + 5) by lia.
  rewrite Nat2Z.id. subst src.
  rewrite (drop_app_exact (secure_header _ _ _ _)) by done.
  rewrite (take_app_exact body) by done.
  replace (take n _) with (le_bytes n pic); cycle 1.
  { unfold secure_header. rewrite <-!(assoc_L app). symmetry. apply take_app_exact.
    by rewrite length_le_bytes. }
  rewrite le_value_bytes, wrap_id by done.
  replace (Z.to_nat _) with (n + 5 + length body) by lia.
  rewrite Z_of_byte_of_Z. by destruct enc.
Qed.
Lemma established_codec_decode p pic src enc rest tx :
  secure_in_step tx p → secure_sendable n pic src → n ≤ 8 →
  ∃ p', decode n (secure_frame n tx pic src enc ++ rest) p
      = (Ret (length (secure_frame n tx pic src enc), src, pic), p')
    ∧ secure_in_step (secure_advance tx enc) p' ∧ is_established p' = is_established p.
Proof.
  intros ([c Hc] & ht & hr & Ht & Hr & Hkey & Hnonce) (Hpic & Hne & Hf) Hn.
  assert (length (secure_body tx src enc) = length src) as Hlb by apply length_body.
  assert (secure_body tx src enc ≠ []) as Hbne.
  { intros Hnil. rewrite Hnil in Hlb. by destruct src. }
  rewrite length_secure_frame. unfold secure_frame. rewrite <-(assoc_L app), <-Hlb.
  rewrite decode_complete by (unfold fits_u32; rewrite ?Hlb; done).
  unfold secure_body, secure_advance in *. rewrite Ht in *. destruct enc.
  - destruct (chacha20_xor_spec src (sodium_handshake.tx_nonce ht) (sodium_handshake.tx_key ht))
      as (body & Hx & Hl & Hinv).
    rewrite Hx. simpl default. rewrite Hc. simpl deref.
    erewrite bind_run by done. erewrite bind_run; cycle 1.
    { unfold on_cipher_handshake. rewrite Hr. unfold sodium_cipher.decode.
      erewrite bind_run by done. rewrite <-Hkey, <-Hnonce, Hinv.
      erewrite bind_run by done. done. }
    erewrite bind_run by (rewrite check_true by apply Z.eqb_refl; done). simpl.
    eexists. split; [done|]. split.
    + split; [by exists c|]. simpl. eexists _, _. split_and!; [done|done|done|]. simpl. by rewrite Hnonce.
    + unfold is_established. simpl. by rewrite Hr.
  - eexists. split; [done|]. split; [|done]. split; [by exists c|]. by exists ht, hr.
Qed.

Lemma secure_advance_ok p enc : secure_ok p → secure_ok (secure_advance p enc).
Proof.
  intros [He Hc]. unfold secure_advance. destruct enc; [|done].
  destruct (cipher_handshake p) as [h|] eqn:Hh; [|done].
  split; [|done]. unfold is_established in *. by rewrite Hh in He.
Qed.

Lemma partial_frame p tx pic src enc part :
  secure_sendable n pic src → n ≤ 8 →
  part `prefix_of` secure_frame n tx pic src enc →
  length part < length (secure_frame n tx pic src enc) →
  decode n part p = (Ret (0, [], 0%Z), p).
Proof.
  intros (? & ? & Hf) Hn [t Ht] Hl. rewrite length_secure_frame in Hl.
  apply decode_incomplete; [|done].
  destruct (decide (length part ≤ n + 5)) as [|Hgt]; [by left|right].
  assert (wire_len part = Z.of_nat (length src)) as ->; [|lia].
  rewrite <-(wire_len_frame pic enc src (secure_body tx src enc)) by done.
  unfold secure_frame in Ht. rewrite Ht. unfold wire_len.
  rewrite drop_app_le, take_app_le; [done| |lia]. rewrite length_drop. lia.
Qed.
End facts.

(** ** The framing instance *)
Section instance.
Context `{Build} `{Streambuf} `{Sodium} (n : nat).
Import secure_protocol.

#[local] Instance secure_Protocol_inst : Protocol := secure_Protocol n.

#[export] Instance secure_Framing : @Framing _ (secure_Protocol n) := {|
  sendable m := secure_sendable n (msg_topic m) (msg_payload m);
  frame p m := secure_frame n p (msg_topic m) (msg_payload m) (msg_encrypt m);
  advance p m := secure_advance p (msg_encrypt m);
  proto_ok := secure_ok;
  in_step := secure_in_step
|}.

Lemma secure_FramingLaws `{!StreambufLaws} `{!SodiumLaws} :
  n ≤ 8 → @FramingLaws _ _ secure_Framing.
Proof.
  intros Hn. split; simpl.
  - intros p m _ Hnil%(f_equal length). rewrite length_secure_frame in Hnil. simpl in Hnil. lia.
  - intros p m b Hok Hs.
    destruct (secure_encode_spec n p b (msg_topic m) (msg_payload m) (msg_encrypt m))
      as (b' & ? & ?); [done..|]. eauto.
  - intros p m. apply secure_advance_ok.
  - by intros p [? ?].
  - intros tx rx m rest Hst Hs. by apply established_codec_decode.
  - intros tx rx m part Hst Hs Hp Hl. eexists _, _. by eapply partial_frame.
  - by intros m (? & ? & ?).
Qed.
End instance.

(** ** The handshake between two ends *)
Section handshake.
Context `{Build} `{StreambufLaws} `{SodiumLaws}.
Import secure_protocol.

(** Connected, the codec created, nothing left in the handshake buffer. *)
Definition hs_open (p : state) (h : sodium_handshake.state) : Prop :=
  is_closed p = false ∧ is_Some (cipher_codec p) ∧ sb_data (hs_send_buf p) = [] ∧
  cipher_handshake p = Some h.

(** The own key was drawn and sent, nothing received yet. *)
Definition hs_prepared (acc : bool) (r : rng) (h : sodium_handshake.state) : Prop :=
  sodium_handshake.is_accepted h = acc ∧ sodium_handshake.key_received h = false ∧
  sodium_handshake.nonce_received h = false ∧ sodium_handshake.established h = false ∧
  has_keypair h r ∧ length (sodium_handshake.tx_nonce h) = sodium_handshake.nonce_size.

Definition key_frame (pk : bytes) : bytes := length_frame (x6b :: pk).
Definition nonce_frame (sealed : bytes) : bytes := length_frame (x6e :: sealed).

Lemma encode_handshake_spec src p h :
  src ≠ [] → hs_open p h →
  ∃ p', encode_handshake src p = (Ret (length_frame src), p') ∧ hs_open p' h.
Proof.
  intros Hne (Hc & Hco & Hb & Hh).
  destruct (encode_spec src (hs_send_buf p) Hne) as (b' & He & Hd).
  rewrite Hb in Hd. simpl in Hd. unfold encode_handshake.
  erewrite bind_run by (unfold zoom; rewrite He; done).
  erewrite bind_run by (rewrite check_true; [done|apply Nat.eqb_eq; unfold length_delimited.length_field_size; lia]).
  run. rewrite Hd. eexists. split; [done|].
  split_and!; [done..| |done]. simpl. rewrite data_consume, Hd.
  apply drop_ge. rewrite length_length_frame. lia.
Qed.

Lemma start_spec (acc : bool) hd r :
  ∃ p h, (if acc then accepted else connected) (make hd r)
      = (Ret (key_frame (crypto_kx_keypair r).1.1), p)
    ∧ hs_open p h ∧ hs_prepared acc r h
    ∧ sodium_handshake.pub_key h = (crypto_kx_keypair r).1.1
    ∧ sodium_handshake.sec_key h = (crypto_kx_keypair r).1.2.
Proof.
  set (h0 := sodium_handshake.make hd acc r).
  destruct (prepare_spec h0) as (r' & Hp).
  set (h1 := sodium_handshake.set_keypair (crypto_kx_keypair r).1.1 (crypto_kx_keypair r).1.2 r' h0).
  set (p1 := State hd acc (negb acc) false (Some hd) (Some h1) sb_empty r).
  destruct (encode_handshake_spec (x6b :: (crypto_kx_keypair r).1.1) p1 h1) as (p2 & He & Ho);
    [done|split_and!; [done|by exists hd|apply data_empty|done]|].
  exists p2, h1. split_and!; [|done| |done|done].
  - destruct acc; unfold accepted, connected;
      (rewrite (bind_run _ _ _ (make hd r) (make hd r)) by done);
      do 3 (rewrite (bind_run _ _ _ tt (make hd r)) by (by apply check_true));
      rewrite (bind_run _ _ _ tt (make hd r))
        by (apply check_true, bool_decide_eq_true; simpl; by intros [? ?]);
      rewrite (bind_run _ _ _ tt (make hd r)) by (by apply check_true, bool_decide_eq_true);
      (erewrite bind_run by done);
      (erewrite bind_run by (unfold on_cipher_handshake; simpl; fold h0; rewrite Hp; done));
      exact He.
  - split_and!; [done..| |by apply length_replicate].
    exists (crypto_kx_keypair r).2. simpl. by destruct (crypto_kx_keypair r) as [[??]?].
Qed.

(** One handshake frame at the front of the received bytes is handed to the
    handshake object; a reply is framed for sending. *)
Lemma handshake_frame payload rest p h resp h' :
  payload ≠ [] → fits_u32 payload → hs_open p h →
  sodium_handshake.on_handshake payload h = (Ret (length payload, resp), h') →
  (resp = [] → sodium_handshake.is_established h' = true) →
  ∃ p', handshake (length_frame payload ++ rest) p
      = (Ret (length (length_frame payload), if decide (resp = []) then [] else length_frame resp), p')
    ∧ hs_open p' h'.
Proof.
  intros Hne Hf (Hc & Hco & Hb & Hh) Hon He.
  assert (0 < length payload) by (destruct payload; simpl; [done|lia]).
  unfold handshake.
  erewrite bind_run by (unfold lift_pure; rewrite LengthDelimited.decode_frame by done; done).
  rewrite decide_True by lia.
  erewrite bind_run by (unfold on_cipher_handshake; rewrite Hh, Hon; done).
  cbn beta iota.
  erewrite bind_run by (apply check_true, Nat.eqb_refl).
  assert (hs_open (set_handshake h' p) h') as Ho by (by split_and!).
  rewrite length_length_frame. unfold length_delimited.length_field_size.
  destruct resp as [|c resp].
  - rewrite decide_False by (simpl; lia).
    erewrite bind_run by done. erewrite bind_run by done.
    erewrite bind_run by (apply check_true, He; done).
    rewrite Nat.add_comm. eexists. split; [done|exact Ho].
  - rewrite decide_True by (simpl; lia).
    destruct (encode_handshake_spec (c :: resp) _ _ ltac:(done) Ho) as (p' & Hen & Ho').
    erewrite bind_run by exact Hen. rewrite Nat.add_comm. by exists p'.
Qed.

Lemma handshake_stop p h payload rest o h' :
  cipher_handshake p = Some h → payload ≠ [] → fits_u32 payload →
  sodium_handshake.on_handshake payload h = (o, h') → (∀ r, o ≠ Ret r) →
  handshake (length_frame payload ++ rest) p
  = (match o with Throw e => Throw e | Aborted => Aborted | _ => Undefined end, set_handshake h' p).
Proof.
  intros Hh Hne Hf Ho Hr. unfold handshake.
  erewrite bind_run by (unfold lift_pure; rewrite LengthDelimited.decode_frame by done; done).
  rewrite decide_True by (destruct payload; simpl; [done|lia]).
  rewrite (bind_stop _ _ _ o (set_handshake h' p));
    [by destruct o|unfold on_cipher_handshake; by rewrite Hh, Ho|done].
Qed.

(** The state after the peer's key: waiting for the nonce. *)
Definition hs_keyed (keys : bytes * bytes) (n : bytes) (h h' : sodium_handshake.state) : Prop :=
  sodium_handshake.key_received h' = true ∧ sodium_handshake.nonce_received h' = false ∧
  sodium_handshake.established h' = false ∧ sodium_handshake.pub_key h' = sodium_handshake.pub_key h ∧
  sodium_handshake.sec_key h' = sodium_handshake.sec_key h ∧
  sodium_handshake.tx_nonce h' = sodium_handshake.tx_nonce h ∧
  sodium_handshake.rx_nonce h' = n ∧ sodium_handshake.rx_key h' = keys.1 ∧
  sodium_handshake.tx_key h' = keys.2.

Lemma handshake_key acc r p h peer keys :
  hs_open p h → hs_prepared acc r h → length peer = KEYBYTES →
  (if acc then crypto_kx_server_session_keys (sodium_handshake.pub_key h) (sodium_handshake.sec_key h) peer
   else crypto_kx_client_session_keys (sodium_handshake.pub_key h) (sodium_handshake.sec_key h) peer)
    = Some keys →
  ∃ n rg sealed rg' h', crypto_box_seal n peer rg = (sealed, rg') ∧ length n = NONCEBYTES ∧
    hs_keyed keys n h h' ∧
    ∀ rest, ∃ p', handshake (key_frame peer ++ rest) p
      = (Ret (length (key_frame peer), nonce_frame sealed), p') ∧ hs_open p' h'.
Proof.
  intros Ho (Ha & Hk & Hn & He & Hkp & Htx) Hl Hkeys.
  destruct (on_key_spec h peer keys Hk Hn He Hl) as (n & rg & sealed & rg' & Hs & Hln & Hon);
    [by rewrite Ha|].
  exists n, rg, sealed, rg', (sodium_handshake.set_rx_nonce n rg'
    (sodium_handshake.set_session_keys keys (sodium_handshake.set_peer_key peer h))).
  split_and!; [done|done|by split_and!|].
  assert (S sodium_handshake.key_size = length (x6b :: peer)) as Hsz by (simpl; by rewrite Hl).
  rewrite Hsz in Hon. intros rest.
  assert (fits_u32 (x6b :: peer)) as Hf by (unfold fits_u32; simpl; pose proof sizes_small; lia).
  destruct (handshake_frame (x6b :: peer) rest p h (x6e :: sealed) _ ltac:(done) Hf Ho Hon ltac:(done))
    as (p' & Hhs & Ho').
  rewrite (decide_False (P:=x6e :: sealed = [])) in Hhs by done. by exists p'.
Qed.

Lemma handshake_nonce r0 p h m rg sealed rg' :
  hs_open p h → sodium_handshake.key_received h = true →
  sodium_handshake.nonce_received h = false → sodium_handshake.established h = false →
  has_keypair h r0 → length (sodium_handshake.tx_nonce h) = sodium_handshake.nonce_size →
  crypto_box_seal m (sodium_handshake.pub_key h) rg = (sealed, rg') → length m = NONCEBYTES →
  ∀ rest, ∃ p', handshake (nonce_frame sealed ++ rest) p
      = (Ret (length (nonce_frame sealed), []), p')
    ∧ hs_open p' (sodium_handshake.set_nonce_received (sodium_handshake.set_tx_nonce m h)).
Proof.
  intros Ho Hk Hn He Hkp Htx Hs Hm rest.
  pose proof (on_nonce_spec h sealed m r0 rg rg' Hk Hn He Hkp Hs Hm Htx) as Hon.
  assert (fits_u32 (x6e :: sealed)) as Hf.
  { unfold fits_u32. simpl. rewrite (seal_length _ _ _ _ _ Hs). pose proof sizes_small. lia. }
  destruct (handshake_frame (x6e :: sealed) rest p h [] _ ltac:(done) Hf Ho Hon ltac:(done))
    as (p' & Hhs & Ho').
  rewrite (decide_True (P:=[] = [])) in Hhs by done. by exists p'.
Qed.
End handshake.

(** The relation [secure_in_step] on concrete states. *)
Definition in_step_b `{Sodium} (tx rx : secure_protocol.state) : bool :=
  match secure_protocol.cipher_codec rx, secure_protocol.cipher_handshake tx,
    secure_protocol.cipher_handshake rx with
  | Some _, Some ht, Some hr =>
      bool_decide (sodium_handshake.tx_key ht = sodium_handshake.rx_key hr) &&
      bool_decide (sodium_handshake.tx_nonce ht = sodium_handshake.rx_nonce hr)
  | _, _, _ => false
  end.

Lemma in_step_decide `{Sodium} tx rx :
  in_step_b tx rx = true → secure_protocol.secure_in_step tx rx.
Proof.
  unfold in_step_b, secure_protocol.secure_in_step.
  destruct (secure_protocol.cipher_codec rx), (secure_protocol.cipher_handshake tx) as [ht|],
    (secure_protocol.cipher_handshake rx) as [hr|]; try done.
  intros [Hk%bool_decide_eq_true Hn%bool_decide_eq_true]%andb_prop. split; [done|].
  by exists ht, hr.
Qed.

(** The four messages of an exchange between two fresh ends. *)
Lemma handshake_exchange `{Build} `{StreambufLaws} `{SodiumLaws}
    (ha hb : nat) (ra rb : rng) :
  ∃ A1 B1 ka kb, secure_protocol.accepted (secure_protocol.make ha ra) = (Ret ka, A1) ∧
    secure_protocol.connected (secure_protocol.make hb rb) = (Ret kb, B1) ∧
  ∃ na nb, (length kb ≤ 69 ∧ length nb ≤ 133 ∧ ka ≠ []) ∧
    (length ka ≤ 69 ∧ length na ≤ 133 ∧ kb ≠ [] ∧ na ≠ [] ∧ nb ≠ []) ∧
  ∀ rest1 rest2 rest3 rest4, ∃ A2 B2 A3 B3,
    secure_protocol.handshake (kb ++ rest1) A1 = (Ret (length kb, na), A2) ∧
    secure_protocol.handshake (ka ++ rest2) B1 = (Ret (length ka, nb), B2) ∧
    secure_protocol.is_established A2 = false ∧ secure_protocol.is_established B2 = false ∧
    secure_protocol.handshake (nb ++ rest3) A2 = (Ret (length nb, []), A3) ∧
    secure_protocol.handshake (na ++ rest4) B2 = (Ret (length na, []), B3) ∧
    secure_protocol.secure_ok A3 ∧ secure_protocol.secure_ok B3 ∧
    secure_protocol.secure_in_step A3 B3 ∧ secure_protocol.secure_in_step B3 A3.
Proof.
  destruct (start_spec true ha ra) as (A1 & a & HA1 & HoA & Hpa & Hpka & Hska).
  destruct (start_spec false hb rb) as (B1 & b & HB1 & HoB & Hpb & Hpkb & Hskb).
  exists A1, B1. do 2 eexists. split_and!; [exact HA1|exact HB1|].
  destruct (crypto_kx_keypair ra) as [[pka ska] ra'] eqn:Ea.
  destruct (crypto_kx_keypair rb) as [[pkb skb] rb'] eqn:Eb. simpl in *.
  destruct (kx_agree _ _ _ _ _ _ _ _ Ea Eb) as (k1 & k2 & Hsrv & Hcli).
  destruct (keypair_length _ _ _ _ Ea) as [Hla _], (keypair_length _ _ _ _ Eb) as [Hlb _].
  destruct (handshake_key true ra A1 a pkb (k1, k2) HoA Hpa Hlb) as
    (na & rga & sa & rga' & a2 & Hsa & Hna & Hka & HA2); [by rewrite Hpka, Hska|].
  destruct (handshake_key false rb B1 b pka (k2, k1) HoB Hpb Hla) as
    (nb & rgb & sb & rgb' & b2 & Hsb & Hnb & Hkb & HB2); [by rewrite Hpkb, Hskb|].
  exists (nonce_frame sa), (nonce_frame sb). split; [|split].
  1, 2: unfold key_frame, nonce_frame; rewrite !length_length_frame; simpl;
    rewrite ?(seal_length _ _ _ _ _ Hsb), ?(seal_length _ _ _ _ _ Hsa);
    pose proof sizes_small; split_and!; (lia || done).
  intros rest1 rest2 rest3 rest4.
  destruct (HA2 rest1) as (A2 & HA2' & HoA2), (HB2 rest2) as (B2 & HB2' & HoB2).
  destruct Hpa as (_ & _ & _ & _ & [? Hkpa] & Htxa), Hpb as (_ & _ & _ & _ & [? Hkpb] & Htxb).
  destruct Hka as (Hk1 & Hk2 & Hk3 & Hk4 & Hk5 & Hk6 & Hk7 & Hk8 & Hk9).
  destruct Hkb as (Hl1 & Hl2 & Hl3 & Hl4 & Hl5 & Hl6 & Hl7 & Hl8 & Hl9).
  destruct (handshake_nonce ra A2 a2 nb rgb sb rgb' HoA2) with (rest := rest3) as (A3 & HA3 & HoA3);
    [done|done|done| |by rewrite Hk6|by rewrite Hk4, Hpka|done|].
  { eexists. rewrite Hk4, Hk5. exact Hkpa. }
  destruct (handshake_nonce rb B2 b2 na rga sa rga' HoB2) with (rest := rest4) as (B3 & HB3 & HoB3);
    [done|done|done| |by rewrite Hl6|by rewrite Hl4, Hpkb|done|].
  { eexists. rewrite Hl4, Hl5. exact Hkpb. }
  exists A2, B2, A3, B3.
  destruct HoA2 as (Hca2 & _ & _ & Hha2), HoB2 as (Hcb2 & _ & _ & Hhb2).
  destruct HoA3 as (Hca3 & Hcc3 & _ & Hha3), HoB3 as (Hcb3 & Hcd3 & _ & Hhb3).
  unfold secure_protocol.secure_ok, secure_protocol.secure_in_step, secure_protocol.is_established.
  rewrite Hca2, Hcb2, Hca3, Hcb3, Hha2, Hhb2, Hha3, Hhb3.
  split_and!; try done; [|].
  - eexists _, _. split_and!; [done|done|simpl in *; congruence|simpl in *; congruence].
  - eexists _, _. split_and!; [done|done|simpl in *; congruence|simpl in *; congruence].
Qed.

(** ** Properties *)

(** C10. The handshake of [secure_protocol] succeeds and agrees.  Starting from a
    fresh object on each side, with any randomness: each side sends one key frame;
    given the peer's key frame it answers with one nonce frame and is not yet
    established; given the peer's nonce frame it is established and sends nothing.
    Whatever bytes follow a handshake frame in the receive buffer are left alone.
    At the end each side decrypts with the key and nonce the other encrypts with. *)
Theorem secure_handshake_agrees `{Build} `{StreambufLaws} `{SodiumLaws}
    (ha hb : nat) (ra rb : rng) :
  ∃ A1 B1 ka kb, secure_protocol.accepted (secure_protocol.make ha ra) = (Ret ka, A1) ∧
    secure_protocol.connected (secure_protocol.make hb rb) = (Ret kb, B1) ∧
  ∃ na nb,
  ∀ rest1 rest2 rest3 rest4, ∃ A2 B2 A3 B3,
    secure_protocol.handshake (kb ++ rest1) A1 = (Ret (length kb, na), A2) ∧
    secure_protocol.handshake (ka ++ rest2) B1 = (Ret (length ka, nb), B2) ∧
    secure_protocol.is_established A2 = false ∧ secure_protocol.is_established B2 = false ∧
    secure_protocol.handshake (nb ++ rest3) A2 = (Ret (length nb, []), A3) ∧
    secure_protocol.handshake (na ++ rest4) B2 = (Ret (length na, []), B3) ∧
    secure_protocol.secure_ok A3 ∧ secure_protocol.secure_ok B3 ∧
    secure_protocol.secure_in_step A3 B3 ∧ secure_protocol.secure_in_step B3 A3.
Proof.
  destruct (handshake_exchange ha hb ra rb) as (A1 & B1 & ka & kb & HA & HB & na & nb & _ & _ & Hall).
  exists A1, B1, ka, kb. split_and!; [done|done|]. by exists na, nb.
Qed.

Lemma secure_handshake_agrees_witness :
  let _ := debug_build in
  ∃ A1 B1 ka kb, secure_protocol.accepted (secure_protocol.make 7 (5 : @rng toy_sodium)) = (Ret ka, A1) ∧
    secure_protocol.connected (secure_protocol.make 8 (9 : @rng toy_sodium)) = (Ret kb, B1) ∧
  ∃ na nb,
  ∀ rest1 rest2 rest3 rest4, ∃ A2 B2 A3 B3,
    secure_protocol.handshake (kb ++ rest1) A1 = (Ret (length kb, na), A2) ∧
    secure_protocol.handshake (ka ++ rest2) B1 = (Ret (length ka, nb), B2) ∧
    secure_protocol.is_established A2 = false ∧ secure_protocol.is_established B2 = false ∧
    secure_protocol.handshake (nb ++ rest3) A2 = (Ret (length nb, []), A3) ∧
    secure_protocol.handshake (na ++ rest4) B2 = (Ret (length na, []), B3) ∧
    secure_protocol.secure_ok A3 ∧ secure_protocol.secure_ok B3 ∧
    secure_protocol.secure_in_step A3 B3 ∧ secure_protocol.secure_in_step B3 A3.
Proof. intros ?. apply (secure_handshake_agrees 7 8 (5 : @rng toy_sodium) (9 : @rng toy_sodium)). Defined.

(** C11. [secure_protocol] frames: a message encoded by an established sender is
    appended to the buffer as one frame, encrypted or not as asked; a receiver in
    step decodes exactly that payload and topic from the front of the stream
    whatever follows, and is again in step with the sender, whose nonce moved when
    the payload was encrypted; a proper prefix decodes to nothing and leaves the
    receiver alone. *)
Theorem secure_protocol_framing `{Build} `{StreambufLaws} `{SodiumLaws} (n : nat)
    (tx rx : secure_protocol.state) (b : streambuf) (pic : Z) (src rest part : bytes) (enc : bool) :
  n ≤ 8 → secure_protocol.secure_ok tx → secure_protocol.secure_in_step tx rx →
  secure_protocol.secure_sendable n pic src →
  part `prefix_of` secure_protocol.secure_frame n tx pic src enc →
  length part < n + 5 + length src →
  ∃ frame tx' b' rx',
    secure_protocol.encode n pic src enc (tx, b) = (Ret (length frame), (tx', b')) ∧
    sb_data b' = sb_data b ++ frame ∧
    frame = secure_protocol.secure_frame n tx pic src enc ∧
    secure_protocol.decode n (frame ++ rest) rx = (Ret (length frame, src, pic), rx') ∧
    secure_protocol.secure_ok tx' ∧ secure_protocol.secure_in_step tx' rx' ∧
    secure_protocol.decode n part rx = (Ret (0, [], 0%Z), rx).
Proof.
  intros Hn Hok Hst Hs Hp Hl.
  destruct (secure_encode_spec n tx b pic src enc Hok Hs) as (b' & He & Hd).
  destruct (established_codec_decode n rx pic src enc rest tx) as (rx' & Hdec & Hst' & _); try done.
  eexists _, _, b', rx'. split_and!; [|exact Hd|done|exact Hdec| |exact Hst'|].
  - rewrite He, length_secure_frame. do 2 f_equal. lia.
  - by apply secure_advance_ok.
  - eapply partial_frame; [done..|]. by rewrite length_secure_frame.
Qed.

(** Two ends of a completed handshake over the toy instance. *)
Definition toy_pair : secure_protocol.state * secure_protocol.state :=
  let _ := debug_build in
  let start (acc : bool) r := (if acc then secure_protocol.accepted else secure_protocol.connected)
    (secure_protocol.make 7 r) in
  let out (r : outcome bytes) := match r with Ret b => b | _ => [] end in
  let reply (r : outcome (nat * bytes)) := match r with Ret p => p.2 | _ => [] end in
  let '(ka, a) := start true 5 in
  let '(kb, b) := start false 9 in
  let '(na, a) := secure_protocol.handshake (out kb) a in
  let '(nb, b) := secure_protocol.handshake (out ka) b in
  let '(_, a) := secure_protocol.handshake (reply nb) a in
  let '(_, b) := secure_protocol.handshake (reply na) b in
  (a, b).

Lemma secure_protocol_framing_witness :
  let _ := debug_build in
  let tx := toy_pair.1 in
  ∃ frame tx' b' rx',
    secure_protocol.encode 2 258 [x41; x42] true (tx, sb_empty) = (Ret (length frame), (tx', b')) ∧
    sb_data b' = sb_data sb_empty ++ frame ∧
    frame = secure_protocol.secure_frame 2 tx 258 [x41; x42] true ∧
    secure_protocol.decode 2 (frame ++ [xff]) toy_pair.2 = (Ret (length frame, [x41; x42], 258%Z), rx') ∧
    secure_protocol.secure_ok tx' ∧ secure_protocol.secure_in_step tx' rx' ∧
    secure_protocol.decode 2 [x02; x01; x01] toy_pair.2 = (Ret (0, [], 0%Z), toy_pair.2).
Proof.
  intros ? tx.
  apply (secure_protocol_framing 2 tx toy_pair.2 sb_empty 258 [x41; x42] [xff] [x02; x01; x01] true).
  - lia.
  - split; [vm_compute; reflexivity|]. exists 7. vm_compute. reflexivity.
  - apply in_step_decide. vm_compute. reflexivity.
  - split_and!; [done|done|done|reflexivity].
  - vm_compute. eexists. reflexivity.
  - vm_compute. lia.
Defined.

(** A peer decides how the handshake ends.  In a build with assertions any
    handshake frame whose payload is neither a key nor a nonce message stops the
    program.  Without assertions, once the keys are exchanged, a sealed message of
    more than a nonce's length is opened into the nonce array and overruns it. *)
Theorem handshake_payload_unchecked `{Build} `{Sodium}
    (p : secure_protocol.state) (h : sodium_handshake.state) (payload rest m : bytes) :
  secure_protocol.cipher_handshake p = Some h → payload ≠ [] → fits_u32 payload →
  (assertions = true → length payload ≠ KEYBYTES + 1 →
   length payload ≠ SEALBYTES + NONCEBYTES + 1 →
   (secure_protocol.handshake (length_frame payload ++ rest) p).1 = Aborted) ∧
  (assertions = false → sodium_handshake.key_received h = true →
   crypto_box_seal_open (drop 1 payload) (sodium_handshake.pub_key h) (sodium_handshake.sec_key h)
     = Some m →
   NONCEBYTES < length m →
   (secure_protocol.handshake (length_frame payload ++ rest) p).1 = Undefined).
Proof.
  intros Hh Hne Hf. destruct payload as [|c sealed] eqn:Hp; [done|]. rewrite <-Hp in *.
  pose proof (λ o h', handshake_stop p h payload rest o h' Hh Hne Hf) as Hstop.
  split.
  - intros Ha Hl1 Hl2. destruct (sodium_handshake.on_handshake payload h) as [o h'] eqn:Ho.
    assert (o = Aborted) as ->; [|by rewrite (Hstop _ _ eq_refl)].
    revert Ho. unfold sodium_handshake.on_handshake. unfold_M.
    rewrite check_true by (subst; done).
    replace (_ || _) with false; [rewrite check_fails by done; congruence|].
    symmetry. apply orb_false_iff. split; by apply Nat.eqb_neq.
  - intros Ha Hk Ho Hm. destruct (sodium_handshake.on_handshake payload h) as [o h'] eqn:Hr.
    pose proof (on_nonce_overrun h c sealed m Ha Hk) as Hu. rewrite <-Hp, Hr in Hu. simpl in Hu.
    rewrite Hu in Hstop by (subst payload; done). by rewrite (Hstop _ _ eq_refl).
Qed.

Lemma handshake_payload_unchecked_witness :
  let _ := release_build in
  let key := replicate 32 x05 in
  let nonce := replicate 8 x00 in
  let h := sodium_handshake.State 7 true true false false key key key key key nonce nonce 6 in
  let p := secure_protocol.State 7 true false false (Some 7) (Some h) sb_empty 5 in
  let payload := x6e :: replicate 57 x00 in
  (assertions = true → length payload ≠ 32 + 1 → length payload ≠ 48 + 8 + 1 →
   (secure_protocol.handshake (length_frame payload ++ []) p).1 = Aborted) ∧
  (assertions = false → sodium_handshake.key_received h = true →
   crypto_box_seal_open (drop 1 payload) key key = Some (replicate 9 x00) →
   8 < length (replicate 9 x00) →
   (secure_protocol.handshake (length_frame payload ++ []) p).1 = Undefined).
Proof.
  intros ? key nonce h p payload.
  apply (handshake_payload_unchecked p h payload [] (replicate 9 x00)).
  - reflexivity.
  - discriminate.
  - reflexivity.
Defined.
