(* ===== verification/Session.v ===== *)
(** * play/net/session.{hpp,ipp}

    The byte transport of one TCP connection: one receive and one send at a time,
    two send buffers that change roles, the handshake before the connection is
    established and the reassembly of frames after it.

    The object's state is a record; every member function is an operation of the
    monad.  What the session asks of its surroundings is recorded in [events], in
    order: the asynchronous operations it starts on the socket and the three
    notifications of [session_handler].  Completions of the asynchronous operations
    are the calls of [handle_send] and [handle_recv].  Members run under the
    session's mutex or on the socket's completion path, one at a time; the
    notifications of this library's server and client post the work and return. *)

From S2P Require Import Prelude.
From S2P Require Import Serializer.
From S2P Require Import Streambuf.
From S2P Require Import Protocol.
From S2P Require Import PlainProtocol.

(** [session::user_data] with the object's identity. *)
Record user_data := UserData { ud_object : nat; ud_handle : nat }.

Module session.
Section session.
Context `{Build} `{Protocol}.

Definition recv_size : nat := 1024 * 8.

Inductive event :=
  | async_send (bs : bytes)
  | async_receive
  | on_established
  | on_receive (pic : topic) (frame : bytes)
  | on_closed.

Record state := State {
  is_open : bool;               (** [socket_.is_open()] *)
  native_handle : nat;          (** [socket_.native_handle()] *)
  accepted : bool;
  handle : nat;
  protocol : option proto;
  seed : entropy;               (** what the protocol is created from *)
  remote_addr : str;
  bound : option user_data;     (** [bind_data_] *)
  recv_buf : streambuf;
  sending : bool;
  acc_buf_index : bool;         (** [0] and [1]; [^ 1] is [negb] *)
  send_bufs : streambuf * streambuf;
  events : list event
}.

(** The constructor; the socket is opened by accept or connect. *)
Definition make (is_accepted : bool) (r : entropy) : state :=
  State false 0 is_accepted 0 None r [] None sb_empty false false (sb_empty, sb_empty) [].

(** A completed accept or connect leaves the socket open. *)
Definition open_socket (fd : nat) (s : state) : state :=
  State true fd (accepted s) (handle s) (protocol s) (seed s) (remote_addr s) (bound s)
    (recv_buf s) (sending s) (acc_buf_index s) (send_bufs s) (events s).

Definition set_open (b : bool) (s : state) : state :=
  State b (native_handle s) (accepted s) (handle s) (protocol s) (seed s) (remote_addr s) (bound s)
    (recv_buf s) (sending s) (acc_buf_index s) (send_bufs s) (events s).
Definition set_handle (h : nat) (s : state) : state :=
  State (is_open s) (native_handle s) (accepted s) h (protocol s) (seed s) (remote_addr s) (bound s)
    (recv_buf s) (sending s) (acc_buf_index s) (send_bufs s) (events s).
Definition set_protocol (p : option proto) (s : state) : state :=
  State (is_open s) (native_handle s) (accepted s) (handle s) p (seed s) (remote_addr s) (bound s)
    (recv_buf s) (sending s) (acc_buf_index s) (send_bufs s) (events s).
Definition set_remote_addr (a : str) (s : state) : state :=
  State (is_open s) (native_handle s) (accepted s) (handle s) (protocol s) (seed s) a (bound s)
    (recv_buf s) (sending s) (acc_buf_index s) (send_bufs s) (events s).
Definition set_bound (d : option user_data) (s : state) : state :=
  State (is_open s) (native_handle s) (accepted s) (handle s) (protocol s) (seed s) (remote_addr s) d
    (recv_buf s) (sending s) (acc_buf_index s) (send_bufs s) (events s).
Definition set_recv_buf (b : streambuf) (s : state) : state :=
  State (is_open s) (native_handle s) (accepted s) (handle s) (protocol s) (seed s) (remote_addr s)
    (bound s) b (sending s) (acc_buf_index s) (send_bufs s) (events s).
Definition set_sending (b : bool) (s : state) : state :=
  State (is_open s) (native_handle s) (accepted s) (handle s) (protocol s) (seed s) (remote_addr s)
    (bound s) (recv_buf s) b (acc_buf_index s) (send_bufs s) (events s).
Definition set_acc_buf_index (i : bool) (s : state) : state :=
  State (is_open s) (native_handle s) (accepted s) (handle s) (protocol s) (seed s) (remote_addr s)
    (bound s) (recv_buf s) (sending s) i (send_bufs s) (events s).
Definition set_send_bufs (b : streambuf * streambuf) (s : state) : state :=
  State (is_open s) (native_handle s) (accepted s) (handle s) (protocol s) (seed s) (remote_addr s)
    (bound s) (recv_buf s) (sending s) (acc_buf_index s) b (events s).

Definition emit (e : event) (s : state) : state :=
  State (is_open s) (native_handle s) (accepted s) (handle s) (protocol s) (seed s) (remote_addr s)
    (bound s) (recv_buf s) (sending s) (acc_buf_index s) (send_bufs s) (events s ++ [e]).

(** [send_bufs_[i]] *)
Definition send_buf (i : bool) (s : state) : streambuf :=
  if i then (send_bufs s).2 else (send_bufs s).1.
Definition set_send_buf (i : bool) (b : streambuf) (s : state) : state :=
  set_send_bufs (if i then ((send_bufs s).1, b) else (b, (send_bufs s).2)) s.

(** A call through [protocol_], undefined when the pointer is empty. *)
Definition on_protocol {A} (m : M proto A) : M state A := λ s,
  match protocol s with
  | Some p => let '(r, p') := m p in (r, set_protocol (Some p') s)
  | None => (Undefined, s)
  end.

(** [is_established()] *)
Definition is_established (s : state) : bool :=
  match protocol s with Some p => proto_is_established p | None => false end.

(** [protocol_->is_established()] *)
Definition protocol_is_established : M state bool :=
  s ← get; p ← deref (protocol s); mret (proto_is_established p).

(** [close()] *)
Definition close : M state unit :=
  s ← get; when (is_open s) (modify (set_open false)).

(** [start_send()] *)
Definition start_send : M state unit :=
  s ← get;
  _ ← PLAY_CHECK (negb (sending s));
  let buf := sb_data (send_buf (acc_buf_index s) s) in
  if decide (length buf = 0) then mret tt
  else
    _ ← modify (set_acc_buf_index (negb (acc_buf_index s)));
    _ ← modify (set_sending true);
    modify (emit (async_send buf)).

(** [start_recv()] *)
Definition start_recv : M state unit :=
  _ ← modify (λ s, set_recv_buf (sb_prepare recv_size (recv_buf s)) s);
  modify (emit async_receive).

(** [send(data, len)] *)
Definition send_bytes (data : bytes) : M state unit :=
  s ← get;
  if negb (is_open s) then mret tt
  else
    let i := acc_buf_index s in
    _ ← modify (λ s, set_send_buf i (sb_prepare (length data) (send_buf i s)) s);
    _ ← modify (λ s, set_send_buf i (sb_sputn data (send_buf i s)) s);
    s ← get (S:=state);
    if negb (sending s) then start_send else mret tt.

(** [protocol_->encode(pic, cbuf, acc_buf, encrypt)] *)
Definition encode_acc (pic : topic) (src : bytes) (encrypt : bool) : M state nat := λ s,
  match protocol s with
  | Some p =>
      let '(r, (p', b')) :=
        proto_encode pic src encrypt (p, send_buf (acc_buf_index s) s) in
      (r, set_protocol (Some p') (set_send_buf (acc_buf_index s) b' s))
  | None => (Undefined, s)
  end.

(** [send(pic, data, len, encrypt)]; [None] is the null pointer. *)
Definition send (pic : topic) (data : option bytes) (len : nat) (encrypt : bool) : M state bool :=
  s ← get;
  if negb (is_open s) then mret false
  else if decide (max_send_size ≤ len) then mret false
  else
    _ ← PLAY_CHECK (0 <? len);
    _ ← PLAY_CHECK (bool_decide (is_Some data));
    if decide (len = 0 ∨ data = None) then mret false
    else
      cbuf ← deref (take len <$> data);
      encoded ← try_catch (_ ← encode_acc pic cbuf encrypt; mret true)
        (λ _, _ ← close; mret false);
      if (encoded : bool) then
        s ← get (S:=state);
        _ ← when (negb (sending s)) start_send;
        mret true
      else mret false.

(** [handle_close(ec)] *)
Definition handle_close : M state unit :=
  s ← get;
  if is_open s then
    _ ← close;
    _ ← on_protocol proto_closed;
    modify (emit on_closed)
  else mret tt.

(** [handle_send(ec, len)] *)
Definition handle_send (ec : bool) (len : nat) : M state unit :=
  s ← get;
  _ ← PLAY_CHECK (sending s);
  if negb ec then
    let index := negb (acc_buf_index s) in
    _ ← modify (λ s, set_send_buf index (sb_consume len (send_buf index s)) s);
    _ ← modify (set_sending false);
    start_send
  else handle_close.

(** [send_handshake(buf)] *)
Definition send_handshake (buf : bytes) : M state unit :=
  if decide (0 < length buf) then send_bytes buf else mret tt.

(** What one round of [recv_frames] decides. *)
Inductive round := frame_received | no_frame | decode_failed.

(** The body of the loop of [recv_frames]. *)
Definition recv_frame (recv_data : bytes) : M state round :=
  try_catch
    (r ← on_protocol (proto_decode recv_data);
     let '(consumed_len, frame, pic) := r in
     if decide (0 < consumed_len) then
       _ ← PLAY_CHECK (0 <? length frame);
       _ ← modify (emit (on_receive pic frame));
       _ ← modify (λ s, set_recv_buf (sb_consume consumed_len (recv_buf s)) s);
       mret frame_received
     else mret no_frame)
    (λ _, _ ← close; mret decode_failed).

Fixpoint recv_frames_loop (fuel : nat) (frame_count : nat) : M state nat :=
  match fuel with
  | 0 => mret frame_count
  | S fuel =>
      recv_data ← gets (λ s, sb_data (recv_buf s));
      if decide (0 < length recv_data) then
        r ← recv_frame recv_data;
        match r with
        | frame_received => recv_frames_loop fuel (S frame_count)
        | no_frame | decode_failed => mret frame_count
        end
      else mret frame_count
  end.

(** [recv_frames()]: every round but the last consumes at least one byte. *)
Definition recv_frames : M state nat :=
  n ← gets (λ s, length (sb_data (recv_buf s)));
  recv_frames_loop n 0.

(** [handle_recv(ec, len)]: the bytes were stored into the memory [start_recv]
    prepared. *)
Definition handle_recv (ec : bool) (received : bytes) : M state unit :=
  if negb ec then
    _ ← modify (λ s, set_recv_buf (sb_commit (length received)
          (sb_store (received ++ drop (length received) (sb_output (recv_buf s))) (recv_buf s))) s);
    established ← protocol_is_established;
    _ ← (if (established : bool) then (_ ← recv_frames; mret tt)
         else
           recv_data ← gets (λ s, sb_data (recv_buf s));
           r ← on_protocol (proto_handshake recv_data);
           let '(consumed_len, buf) := r in
           _ ← modify (λ s, set_recv_buf (sb_consume consumed_len (recv_buf s)) s);
           _ ← send_handshake buf;
           established ← protocol_is_established;
           when established
             (_ ← modify (emit on_established); _ ← recv_frames; mret tt));
    start_recv
  else handle_close.

(** [start()]; [ep] is the remote endpoint, [None] when asking for it fails. *)
Definition start (ep : option (str * str)) : M state unit :=
  s ← get;
  _ ← PLAY_CHECK (bool_decide (¬ is_Some (protocol s)));
  _ ← modify (λ s, set_handle (native_handle s) s);
  _ ← PLAY_CHECK (0 <? native_handle s);
  _ ← modify (λ s, set_protocol (Some (proto_make (handle s) (seed s))) s);
  _ ← (if accepted s then
         buf ← on_protocol proto_accepted; send_handshake buf
       else
         buf ← on_protocol proto_connected; send_handshake buf);
  match ep with
  | None => throw (std_exception $"remote_endpoint")
  | Some (addr, port) =>
      _ ← modify (set_remote_addr (addr ++ $":" ++ port));
      _ ← start_recv;
      established ← protocol_is_established;
      when established (modify (emit on_established))
  end.

(** [bind_data(data)] and [get_data()] *)
Definition bind_data (data : user_data) : M state unit :=
  modify (λ s, set_bound (Some (UserData (ud_object data) (handle s))) s).
Definition get_data (s : state) : option user_data := bound s.

(** [~session()] *)
Definition destroy : M state unit := close.
End session.
End session.

(** ** Sending *)
Section sending.
Context `{Build} `{Framing} `{!StreambufLaws} `{!FramingLaws}.
Import session.
Implicit Types s : state.

(** The accumulation buffer, the buffer of the send in flight and all bytes
    handed to the socket so far. *)
Definition acc s : bytes := sb_data (send_buf (acc_buf_index s) s).
Definition in_flight s : bytes := sb_data (send_buf (negb (acc_buf_index s)) s).
Definition sends (es : list event) : list bytes :=
  omap (λ e, match e with async_send b => Some b | _ => None end) es.
Definition wire s : bytes := concat (sends (events s)).

(** [start_send] as a function. *)
Definition kick s : state :=
  if decide (acc s = []) then s
  else emit (async_send (acc s)) (set_sending true (set_acc_buf_index (negb (acc_buf_index s)) s)).

Lemma start_send_kick s : sending s = false → start_send s = (Ret tt, kick s).
Proof.
  intros Hs. unfold start_send, kick, acc. unfold_M. rewrite Hs. simpl.
  destruct (decide (length _ = 0)) as [Hl|Hl]; [|rewrite decide_False; [done|intros Hn; by rewrite Hn in Hl]].
  by rewrite decide_True by (by apply length_zero_iff_nil).
Qed.

Lemma send_buf_set_same i b s : send_buf i (set_send_buf i b s) = b.
Proof. by destruct i. Qed.

Lemma send_buf_set_other i b s : send_buf (negb i) (set_send_buf i b s) = send_buf (negb i) s.
Proof. by destruct i. Qed.

Lemma kick_spec s :
  sending s = false → in_flight s = [] →
  acc (kick s) = [] ∧ wire (kick s) = wire s ++ acc s ∧
  sending (kick s) = bool_decide (acc s ≠ []) ∧ in_flight (kick s) = acc s ∧
  is_open (kick s) = is_open s ∧ protocol (kick s) = protocol s.
Proof.
  intros Hs Hf. unfold kick. destruct (decide (acc s = [])) as [Ha|Ha].
  - rewrite Ha, app_nil_r. by split_and!.
  - split_and!; try done.
    + unfold wire, sends. simpl. rewrite omap_app, concat_app; simpl; by rewrite app_nil_r.
    + by rewrite bool_decide_true.
    + unfold in_flight, acc. simpl. by rewrite negb_involutive.
Qed.

Lemma send_spec s p m :
  is_open s = true → protocol s = Some p → proto_ok p → sendable m →
  length (msg_payload m) < max_send_size →
  ∃ s1, is_open s1 = true ∧ protocol s1 = Some (advance p m) ∧ sending s1 = sending s ∧
    wire s1 = wire s ∧ acc s1 = acc s ++ frame p m ∧ in_flight s1 = in_flight s ∧
    send (msg_topic m) (Some (msg_payload m)) (length (msg_payload m)) (msg_encrypt m) s
    = (Ret true, if sending s then s1 else kick s1).
Proof.
  intros Ho Hp Hok Hs Hl.
  destruct (encode_frame p m (send_buf (acc_buf_index s) s) Hok Hs) as (n & b' & He & Hd).
  pose proof (sendable_payload m Hs) as Hne.
  exists (set_protocol (Some (advance p m)) (set_send_buf (acc_buf_index s) b' s)).
  split_and!; [done..| | |].
  { unfold acc, in_flight. rewrite <-Hd. f_equal. apply send_buf_set_same. }
  { unfold in_flight. f_equal. apply send_buf_set_other. }
  unfold send. unfold_M. rewrite Ho. cbn [negb].
  rewrite decide_False by lia. rewrite check_true; cycle 1.
  { apply Nat.ltb_lt. destruct (msg_payload m); simpl; [done|lia]. }
  rewrite check_true by done.
  rewrite decide_False by (intros [?%length_zero_iff_nil|?]; done).
  unfold option_fmap, option_map. rewrite firstn_all. unfold encode_acc. rewrite Hp, He. simpl.
  destruct (sending s) eqn:Hsd; simpl; [done|]. by rewrite start_send_kick.
Qed.

Lemma handle_send_spec s len :
  sending s = true →
  ∃ s1, is_open s1 = is_open s ∧ protocol s1 = protocol s ∧ sending s1 = false ∧
    events s1 = events s ∧ acc s1 = acc s ∧ in_flight s1 = drop len (in_flight s) ∧
    handle_send false len s = (Ret tt, kick s1).
Proof.
  intros Hs. set (i := acc_buf_index s).
  exists (set_sending false (set_send_buf (negb i) (sb_consume len (send_buf (negb i) s)) s)).
  split_and!; [done..| | |].
  - unfold acc. simpl. fold i. rewrite <-(negb_involutive i) at 1.
    change (sb_data (send_buf (negb (negb i)) (set_send_buf (negb i)
      (sb_consume len (send_buf (negb i) s)) s)) = sb_data (send_buf i s)).
    by rewrite send_buf_set_other, negb_involutive.
  - unfold in_flight at 1.
    change (sb_data (send_buf (negb i) (set_send_buf (negb i)
      (sb_consume len (send_buf (negb i) s)) s)) = drop len (in_flight s)).
    by rewrite send_buf_set_same, data_consume.
  - unfold handle_send. unfold_M. rewrite Hs, check_true by done. cbn [negb].
    by rewrite start_send_kick.
Qed.

Lemma kick_idle s : acc s = [] → kick s = s.
Proof. intros Ha. unfold kick. by rewrite decide_True. Qed.

Lemma kick_busy s :
  acc s ≠ [] →
  acc (kick s) = in_flight s ∧ in_flight (kick s) = acc s ∧ sending (kick s) = true ∧
  sends (events (kick s)) = sends (events s) ++ [acc s] ∧ is_open (kick s) = is_open s.
Proof.
  intros Ha. unfold kick. rewrite decide_False by done. split_and!; try done.
  - unfold in_flight, acc. simpl. by rewrite negb_involutive.
  - simpl. unfold sends. by rewrite omap_app.
Qed.

Lemma send_bytes_spec s data :
  is_open s = true →
  ∃ s1, is_open s1 = true ∧ sending s1 = sending s ∧ events s1 = events s ∧
    acc s1 = acc s ++ data ∧ in_flight s1 = in_flight s ∧
    send_bytes data s = (Ret tt, if sending s then s1 else kick s1).
Proof.
  intros Ho. set (i := acc_buf_index s).
  set (b1 := sb_prepare (length data) (send_buf i s)).
  exists (set_send_buf i (sb_sputn data b1) (set_send_buf i b1 s)).
  split_and!; [done..| | |].
  - unfold acc. change (acc_buf_index _) with i at 1.
    rewrite send_buf_set_same. subst b1. by rewrite data_sputn, data_prepare.
  - unfold in_flight. change (acc_buf_index _) with i at 1.
    by rewrite !send_buf_set_other.
  - unfold send_bytes. unfold_M. rewrite Ho. cbn [negb]. rewrite send_buf_set_same.
    simpl. destruct (sending s) eqn:Hs; simpl; [done|]. by rewrite start_send_kick.
Qed.

(** The sender's view of a run: messages submitted and sends completed in full. *)
Inductive send_label := submitted (m : message) | sent_all.

Inductive send_step : state → send_label → state → Prop :=
  | step_submit s m s' :
      sendable m → length (msg_payload m) < max_send_size →
      send (msg_topic m) (Some (msg_payload m)) (length (msg_payload m)) (msg_encrypt m) s
        = (Ret true, s') →
      send_step s (submitted m) s'
  | step_sent s s' :
      sending s = true →
      handle_send false (length (in_flight s)) s = (Ret tt, s') →
      send_step s sent_all s'.

Definition messages (ls : list send_label) : list message :=
  omap (λ l, match l with submitted m => Some m | sent_all => None end) ls.

(** What holds between two operations of a connected sender. *)
Definition sender_ok (p : proto) s : Prop :=
  is_open s = true ∧ protocol s = Some p ∧ proto_ok p ∧
  (sending s = false → acc s = [] ∧ in_flight s = []).

Lemma kick_ok p s :
  is_open s = true → protocol s = Some p → proto_ok p → sending s = false → in_flight s = [] →
  sender_ok p (kick s).
Proof.
  intros Ho Hp Hok Hs Hf. destruct (kick_spec s Hs Hf) as (Ha & _ & Hsd & Hfl & Ho' & Hp').
  split_and!; [congruence|congruence|done|]. rewrite Hsd, Ha, Hfl.
  destruct (acc s); [done|]. by rewrite bool_decide_true.
Qed.

Lemma send_step_ok p s l s' :
  sender_ok p s → send_step s l s' →
  let p' := match l with submitted m => advance p m | sent_all => p end in
  let new := match l with submitted m => frame p m | sent_all => [] end in
  sender_ok p' s' ∧ wire s' ++ acc s' = wire s ++ acc s ++ new.
Proof.
  intros (Ho & Hp & Hok & Hidle) Hst. destruct Hst as [s m s' Hm Hl Hsend|s s' Hs Hsent].
  - destruct (send_spec s p m) as (s1 & Ho1 & Hp1 & Hs1 & Hw1 & Ha1 & Hf1 & Heq); [done..|].
    rewrite Heq in Hsend. injection Hsend as <-. rewrite <-Hs1. pose proof (advance_ok p m Hok).
    destruct (sending s) eqn:Hsd; rewrite Hs1.
    + split; [by split_and!; [..|congruence]|]. by rewrite Hw1, Ha1.
    + destruct (Hidle eq_refl) as [_ Hfl]. rewrite Hfl in Hf1. split; [by apply kick_ok|].
      destruct (kick_spec s1 Hs1 Hf1) as (-> & -> & _). by rewrite app_nil_r, Hw1, Ha1.
  - destruct (handle_send_spec s (length (in_flight s)) Hs)
      as (s1 & Ho1 & Hp1 & Hs1 & Hw1 & Ha1 & Hf1 & Heq). rewrite drop_all in Hf1.
    rewrite Heq in Hsent. injection Hsent as <-. split; [apply kick_ok; congruence|].
    destruct (kick_spec s1 Hs1 Hf1) as (-> & -> & _).
    unfold wire. by rewrite !app_nil_r, Hw1, Ha1.
Qed.

Lemma send_steps_ok p s ls s' :
  sender_ok p s → steps send_step s ls s' →
  sender_ok (advance_all p (messages ls)) s' ∧
  wire s' ++ acc s' = wire s ++ acc s ++ frames p (messages ls).
Proof.
  intros Hok Hst. revert p Hok.
  induction Hst as [s|s l s1 ls s2 Hl Hst IH]; intros p Hok.
  { simpl. by rewrite app_nil_r. }
  destruct (send_step_ok p s l s1 Hok Hl) as [Hok1 Heq].
  destruct (IH _ Hok1) as [Hok2 Heq2]. rewrite (assoc_L app), Heq in Heq2.
  destruct l; simpl in *; (split; [done|]);
    rewrite Heq2, ?app_nil_r, <-?(assoc_L app); done.
Qed.
End sending.

(** ** Receiving *)
Section receiving.
Context `{Build} `{Framing} `{!StreambufLaws}.
Import session.
Implicit Types s : state.

Definition pending s : bytes := sb_data (recv_buf s).

(** The messages handed to [session_handler::on_receive]. *)
Definition received (es : list event) : list (topic * bytes) :=
  omap (λ e, match e with on_receive t f => Some (t, f) | _ => None end) es.

Definition content (m : message) : topic * bytes := (msg_topic m, msg_payload m).

(** Nothing, or the beginning of another message. *)
Definition partial (tx : proto) (part : bytes) : Prop :=
  part = [] ∨ ∃ m, sendable m ∧ part `prefix_of` frame tx m ∧ length part < length (frame tx m).

(** A session that receives: established, the socket filled from [start_recv],
    in step with the sender. *)
Definition listening (tx : proto) s : Prop :=
  length (sb_output (recv_buf s)) = recv_size ∧
  ∃ rx, protocol s = Some rx ∧ proto_is_established rx = true ∧ in_step tx rx.

Lemma received_app es1 es2 : received (es1 ++ es2) = received es1 ++ received es2.
Proof. apply omap_app. Qed.

Lemma recv_frame_message `{!FramingLaws} s rx tx m rest :
  protocol s = Some rx → in_step tx rx → sendable m → pending s = frame tx m ++ rest →
  ∃ s' rx', recv_frame (pending s) s = (Ret frame_received, s') ∧
    protocol s' = Some rx' ∧ in_step (advance tx m) rx' ∧
    proto_is_established rx' = proto_is_established rx ∧
    pending s' = rest ∧ received (events s') = received (events s) ++ [content m] ∧
    is_open s' = is_open s.
Proof.
  intros Hp Hst Hm Hd.
  destruct (decode_frame tx rx m rest Hst Hm) as (rx' & Hdec & Hst' & He).
  pose proof (frame_ne tx m Hm) as Hne. pose proof (sendable_payload m Hm) as Hpay.
  unfold recv_frame, try_catch, on_protocol. unfold_M. rewrite Hp, Hd, Hdec. simpl.
  rewrite decide_True; cycle 1.
  { destruct (frame tx m); simpl; [done|lia]. }
  rewrite check_true; cycle 1.
  { apply Nat.ltb_lt. destruct (msg_payload m); simpl; [done|lia]. }
  eexists _, rx'. split_and!; [done|done|done|done| | |done].
  - unfold pending in *. simpl. rewrite data_consume, Hd. by apply drop_app_exact.
  - simpl. by rewrite received_app.
Qed.

Lemma recv_frame_partial `{!FramingLaws} s rx tx part :
  protocol s = Some rx → in_step tx rx → partial tx part → pending s = part → part ≠ [] →
  recv_frame (pending s) s = (Ret no_frame, s).
Proof.
  intros Hp Hst [->|(m & Hm & Hpre & Hl)] Hd Hne; [done|].
  destruct (decode_partial tx rx m part Hst Hm Hpre Hl) as (f & t & Hdec).
  unfold recv_frame, try_catch, on_protocol. unfold_M. rewrite Hp, Hd, Hdec. simpl.
  do 2 f_equal. destruct s; simpl in *. by rewrite Hp.
Qed.

Lemma recv_frames_loop_messages `{!FramingLaws} ms fuel cnt s rx tx part :
  protocol s = Some rx → in_step tx rx → Forall sendable ms →
  partial (advance_all tx ms) part → pending s = frames tx ms ++ part →
  length (pending s) ≤ fuel →
  ∃ s' rx', recv_frames_loop fuel cnt s = (Ret (cnt + length ms), s') ∧
    protocol s' = Some rx' ∧ in_step (advance_all tx ms) rx' ∧
    proto_is_established rx' = proto_is_established rx ∧
    pending s' = part ∧ received (events s') = received (events s) ++ map content ms ∧
    is_open s' = is_open s.
Proof.
  revert fuel cnt s rx tx.
  induction ms as [|m ms IH]; intros fuel cnt s rx tx Hp Hst Hms Hpart Hd Hfuel.
  - exists s, rx. simpl in *. rewrite Nat.add_0_r, app_nil_r.
    split_and!; try done. destruct fuel as [|fuel]; [done|]. simpl. unfold_M.
    destruct (decide (0 < length (sb_data (recv_buf s)))) as [Hl|]; [|done].
    change (sb_data (recv_buf s)) with (pending s) in *.
    rewrite (recv_frame_partial s rx tx part); [done..|]. intros ->. rewrite Hd in Hl. simpl in Hl. lia.
  - apply Forall_cons in Hms as [Hm Hms]. simpl in Hd, Hpart. rewrite <-(assoc_L app) in Hd.
    destruct (recv_frame_message s rx tx m _ Hp Hst Hm Hd)
      as (s1 & rx1 & Hrun & Hp1 & Hst1 & He1 & Hd1 & Hr1 & Ho1).
    pose proof (frame_ne tx m Hm) as Hne. rewrite Hd, length_app in Hfuel.
    assert (0 < length (frame tx m)) as Hf0 by (destruct (frame tx m); simpl; [done|lia]).
    destruct fuel as [|fuel]; [lia|].
    destruct (IH fuel (S cnt) s1 rx1 (advance tx m)) as (s2 & rx2 & Hrun2 & Hp2 & Hst2 & He2 & Hd2 & Hr2 & Ho2);
      [done..|rewrite Hd1; lia|].
    exists s2, rx2. split_and!; [|done|done|congruence|done| |congruence].
    + simpl. erewrite bind_run by done. change (sb_data (recv_buf s)) with (pending s).
      rewrite decide_True by (rewrite Hd, length_app; lia).
      erewrite bind_run by exact Hrun. cbn beta iota. rewrite Hrun2. do 2 f_equal. simpl. lia.
    + rewrite Hr2, Hr1, <-(assoc_L app). done.
Qed.

(** The beginning of a frame holds no complete frame. *)
Lemma partial_not_frame `{!FramingLaws} tx rx part m :
  in_step tx rx → sendable m → partial tx part → ¬ frame tx m `prefix_of` part.
Proof.
  intros Hst Hm Hpart [rest ->]. pose proof (frame_ne tx m Hm) as Hne.
  destruct Hpart as [[? _]%app_nil|(m' & Hm' & Hp & Hl)]; [done|].
  destruct (decode_frame tx rx m rest Hst Hm) as (rx' & Hdec & _).
  destruct (decode_partial tx rx m' _ Hst Hm' Hp Hl) as (f & t & Hdec').
  rewrite Hdec in Hdec'. injection Hdec' as Hz%length_zero_iff_nil. done.
Qed.

(** One completion of a receive on an established connection. *)
Lemma handle_recv_messages `{!FramingLaws} ms s tx bs part :
  listening tx s → Forall sendable ms → length bs ≤ recv_size →
  partial (advance_all tx ms) part → pending s ++ bs = frames tx ms ++ part →
  ∃ s', handle_recv false bs s = (Ret tt, s') ∧
    listening (advance_all tx ms) s' ∧ pending s' = part ∧
    received (events s') = received (events s) ++ map content ms ∧ is_open s' = is_open s.
Proof.
  intros (Ho & rx & Hp & He & Hst) Hms Hbs Hpart Hd.
  set (s1 := set_recv_buf (sb_commit (length bs)
    (sb_store (bs ++ drop (length bs) (sb_output (recv_buf s))) (recv_buf s))) s).
  assert (pending s1 = frames tx ms ++ part) as Hd1.
  { unfold pending in *. simpl. rewrite <-Hd, data_commit, data_store, output_store.
    - by rewrite take_app_length.
    - rewrite length_app, length_drop. lia. }
  destruct (recv_frames_loop_messages ms (length (pending s1)) 0 s1 rx tx part)
    as (s2 & rx2 & Hrun & Hp2 & Hst2 & He2 & Hd2 & Hr2 & Ho2); [done..|].
  exists (emit async_receive (set_recv_buf (sb_prepare recv_size (recv_buf s2)) s2)).
  split_and!.
  - unfold handle_recv. cbn [negb].
    erewrite bind_run by (unfold modify; fold s1; done).
    erewrite bind_run; cycle 1.
    { unfold protocol_is_established. unfold_M. subst s1. simpl. rewrite Hp, He. done. }
    erewrite bind_run; [done|]. unfold recv_frames.
    erewrite bind_run; [done|]. erewrite bind_run by done. exact Hrun.
  - split; [simpl; by rewrite output_prepare|]. exists rx2. simpl. split_and!; [done|congruence|done].
  - unfold pending in *. simpl. by rewrite data_prepare.
  - simpl. by rewrite received_app, Hr2, app_nil_r.
  - done.
Qed.

(** Any beginning of a stream of frames is a number of frames and the beginning
    of the next one. *)
Lemma frames_prefix tx ms part l :
  Forall sendable ms → partial (advance_all tx ms) part → l `prefix_of` frames tx ms ++ part →
  ∃ k part', k ≤ length ms ∧ l = frames tx (take k ms) ++ part' ∧ partial (advance_all tx (take k ms)) part'.
Proof.
  revert tx l. induction ms as [|m ms IH]; intros tx l Hms Hpart Hpre; simpl in *.
  { exists 0, l. split_and!; [done..|]. destruct Hpart as [->|(m & Hm & Hpp & Hl)].
    - left. by apply prefix_nil_inv.
    - right. exists m. split_and!; [done|by etrans|]. apply prefix_length in Hpre. simpl. lia. }
  apply Forall_cons in Hms as [Hm Hms]. rewrite <-(assoc_L app) in Hpre.
  destruct (decide (length (frame tx m) ≤ length l)) as [Hl|Hl].
  - assert (frame tx m `prefix_of` l) as [l' ->].
    { destruct (prefix_weak_total l (frame tx m) _ Hpre) as [Hlp|?]; [by eexists| |done].
      by rewrite (prefix_length_eq _ _ Hlp). }
    apply prefix_app_inv in Hpre.
    destruct (IH _ _ Hms Hpart Hpre) as (k & part' & Hk & -> & Hp').
    exists (S k), part'. simpl. split_and!; [lia|by rewrite (assoc_L app)|done].
  - exists 0, l. simpl. split_and!; [lia|done|]. right. exists m. split_and!; [done| |lia].
    destruct Hpre as [t Ht]. exists (drop (length l) (frame tx m)).
    rewrite <-(take_drop (length l) (frame tx m)) at 1. f_equal.
    apply (f_equal (take (length l))) in Ht.
    rewrite take_app_length, take_app_le in Ht by lia. done.
Qed.

(** The completions of a stream that starts inside a frame. *)
Lemma receive_chunks `{!FramingLaws} chunks tx ms part s :
  listening tx s → partial tx (pending s) → Forall sendable ms → partial (advance_all tx ms) part →
  Forall (λ c, length c ≤ recv_size) chunks →
  pending s ++ concat chunks = frames tx ms ++ part →
  ∃ s', for_each chunks (handle_recv false) s = (Ret tt, s') ∧
    received (events s') = received (events s) ++ map content ms ∧
    pending s' = part ∧ listening (advance_all tx ms) s' ∧ is_open s' = is_open s.
Proof.
  revert tx ms s. induction chunks as [|c chunks IH]; intros tx ms s Hl Hpp Hms Hpart Hcs Hd.
  - simpl in *. rewrite app_nil_r in Hd. destruct ms as [|m ms].
    + exists s. simpl in *. by rewrite app_nil_r.
    + destruct Hl as (_ & rx & _ & _ & Hst). apply Forall_cons in Hms as [Hm _].
      destruct (partial_not_frame tx rx (pending s) m Hst Hm Hpp).
      rewrite Hd. simpl. rewrite <-(assoc_L app). by eexists.
  - apply Forall_cons in Hcs as [Hc Hcs]. simpl in Hd. rewrite (assoc_L app) in Hd.
    destruct (frames_prefix tx ms part (pending s ++ c)) as (k & part' & Hk & Hck & Hp'); [done..|by eexists|].
    destruct (handle_recv_messages (take k ms) s tx c part') as (s1 & Hrun & Hl1 & Hpd1 & Hr1 & Ho1);
      [done|by apply Forall_take|done..|].
    rewrite <-(take_drop k ms) in Hpart, Hd |- *.
    rewrite advance_all_app in Hpart |- *. rewrite frames_app, Hck, <-!(assoc_L app) in Hd.
    apply app_inv_head in Hd.
    destruct (IH (advance_all tx (take k ms)) (drop k ms) s1) as (s2 & Hrun2 & Hr2 & Hpd2 & Hl2 & Ho2);
      [done|by rewrite Hpd1|by apply Forall_drop|done|done|by rewrite Hpd1|].
    exists s2. split_and!; [|by rewrite Hr2, Hr1, map_app, (assoc_L app)|done|done|congruence].
    simpl. by erewrite bind_run.
Qed.
End receiving.

(** ** Closing: what any operation does to the socket and to the notifications *)
Section closing.
Context `{Build} `{Protocol}.
Import session.
Implicit Types s : state.

Definition closed_count (es : list event) : nat :=
  length (omap (λ e, match e with on_closed => Some tt | _ => None end) es).

(** The operations the owner, the socket and the peer can perform. *)
Inductive operation :=
  | op_send_bytes (data : bytes)
  | op_send (pic : topic) (data : option bytes) (len : nat) (enc : bool)
  | op_close
  | op_bind_data (d : user_data)
  | op_handle_send (ec : bool) (len : nat)
  | op_handle_recv (ec : bool) (bs : bytes).

Definition perform (o : operation) : M state unit :=
  match o with
  | op_send_bytes data => send_bytes data
  | op_send pic data len enc => _ ← send pic data len enc; mret tt
  | op_close => close
  | op_bind_data d => bind_data d
  | op_handle_send ec len => handle_send ec len
  | op_handle_recv ec bs => handle_recv ec bs
  end.

(** Steps keep the state an exception or a failed check leaves. *)
Definition session_step s (o : operation) s' : Prop := s' = (perform o s).2.

(** Bounds on the notifications: [n] before, one more once the socket is
    closed by an error. *)
Definition closed_within (n : nat) s : Prop :=
  if is_open s then closed_count (events s) = n else closed_count (events s) ≤ S n.
Definition stays_closed (n : nat) s : Prop :=
  is_open s = false ∧ closed_count (events s) = n.

Lemma closed_count_snoc es e :
  closed_count (es ++ [e]) = closed_count es + match e with on_closed => 1 | _ => 0 end.
Proof.
  unfold closed_count. rewrite omap_app, length_app. by destruct e.
Qed.

(** Invariants of both kinds only look at the socket and the notifications. *)
Record watches (I : state → Prop) : Prop := {
  watch_fields s s' : is_open s' = is_open s → events s' = events s → I s → I s';
  watch_emit s e : e ≠ on_closed → I s → I (emit e s);
  watch_close s : I s → I (set_open false s)
}.

Section watched.
Context (I : state → Prop) (HI : watches I).

Lemma watch_modify (f : state → state) :
  (∀ s, is_open (f s) = is_open s) → (∀ s, events (f s) = events s) → preserves I (modify f).
Proof. intros Ho He. apply preserves_modify. intros s. by apply watch_fields. Qed.

Lemma watch_on_protocol {A} (m : M proto A) : preserves I (on_protocol m).
Proof.
  intros s Hs. unfold on_protocol. destruct (protocol s) as [p|]; [|done].
  destruct (m p). simpl. by eapply (watch_fields _ HI s).
Qed.

Lemma watch_encode_acc pic src enc : preserves I (encode_acc pic src enc).
Proof.
  intros s Hs. unfold encode_acc. destruct (protocol s) as [p|]; [|done].
  destruct (proto_encode _ _ _ _) as [r [p' b']]. simpl. by eapply (watch_fields _ HI s).
Qed.

Lemma watch_close_op : preserves I close.
Proof.
  unfold close. preserve. by apply watch_close.
Qed.

Lemma watch_emit_op e : e ≠ on_closed → preserves I (modify (emit e)).
Proof. intros He. apply preserves_modify. intros s. by apply watch_emit. Qed.

Lemma watch_established : preserves I protocol_is_established.
Proof. unfold protocol_is_established. preserve. Qed.
End watched.

#[local] Hint Resolve watch_on_protocol watch_encode_acc watch_close_op watch_established : play.
Ltac watch :=
  repeat first [ by apply watch_emit_op | by apply watch_modify | preserve_step ].

Section operations.
Context (I : state → Prop) (HI : watches I).
Hypothesis watch_handle_close : preserves I handle_close.

Lemma watch_start_send : preserves I start_send.
Proof. unfold start_send. watch. Qed.

Lemma watch_start_recv : preserves I start_recv.
Proof. unfold start_recv. watch. Qed.

#[local] Hint Resolve watch_start_send watch_start_recv watch_handle_close : play.

Lemma watch_send_bytes data : preserves I (send_bytes data).
Proof. unfold send_bytes. watch. Qed.

#[local] Hint Resolve watch_send_bytes : play.

Lemma watch_send pic data len enc : preserves I (send pic data len enc).
Proof. unfold send. watch. Qed.

Lemma watch_handle_send ec len : preserves I (handle_send ec len).
Proof. unfold handle_send. watch. Qed.

Lemma watch_send_handshake buf : preserves I (send_handshake buf).
Proof. unfold send_handshake. watch. Qed.

Lemma watch_recv_frame d : preserves I (recv_frame d).
Proof. unfold recv_frame. watch. Qed.

#[local] Hint Resolve watch_send_handshake watch_recv_frame : play.

Lemma watch_recv_frames_loop fuel cnt : preserves I (recv_frames_loop fuel cnt).
Proof. revert cnt. induction fuel as [|fuel IH]; intros cnt; simpl; watch. all: apply IH. Qed.

#[local] Hint Resolve watch_recv_frames_loop : play.

Lemma watch_recv_frames : preserves I recv_frames.
Proof. unfold recv_frames. watch. Qed.

#[local] Hint Resolve watch_recv_frames : play.

Lemma watch_handle_recv ec bs : preserves I (handle_recv ec bs).
Proof. unfold handle_recv. watch. Qed.

#[local] Hint Resolve watch_send watch_handle_send watch_handle_recv : play.

Lemma watch_perform o : preserves I (perform o).
Proof. destruct o; simpl; unfold bind_data; watch. Qed.

Lemma watch_steps s ls s' : steps session_step s ls s' → I s → I s'.
Proof.
  apply steps_invariant. intros s0 l s0' -> Hs. by apply watch_perform.
Qed.
End operations.

Lemma closed_within_watches n : watches (closed_within n).
Proof.
  unfold closed_within. split; intros s.
  - intros s' -> ->. done.
  - intros e He. simpl. rewrite closed_count_snoc. destruct e; by rewrite ?Nat.add_0_r.
  - simpl. destruct (is_open s); lia.
Qed.

Lemma stays_closed_watches n : watches (stays_closed n).
Proof.
  unfold stays_closed. split; intros s.
  - intros s' -> ->. done.
  - intros e He. simpl. rewrite closed_count_snoc. destruct e; by rewrite ?Nat.add_0_r.
  - simpl. by intros [_ ?].
Qed.

Lemma handle_close_closed_within n : preserves (closed_within n) handle_close.
Proof.
  intros s. destruct (is_open s) eqn:Ho; unfold closed_within, handle_close, close, on_protocol;
    rewrite Ho; intros Hn; run; repeat (rewrite Ho; simpl); [|done].
  destruct (protocol s) as [p|]; [|simpl; lia].
  destruct (proto_closed p) as [[] p']; simpl; rewrite ?closed_count_snoc; simpl; lia.
Qed.

Lemma handle_close_stays_closed n : preserves (stays_closed n) handle_close.
Proof.
  intros s [Ho Hn]. unfold handle_close. unfold_M. by rewrite Ho.
Qed.

Lemma handle_close_notifies s p p' :
  is_open s = true → protocol s = Some p → proto_closed p = (Ret tt, p') →
  handle_close s = (Ret tt, emit on_closed (set_protocol (Some p') (set_open false s))).
Proof.
  intros Ho Hp Hc. unfold handle_close, close, on_protocol. run. repeat (rewrite Ho; simpl).
  by rewrite Hp, Hc.
Qed.
End closing.

(** ** The receive loop on any protocol *)
Section termination.
Context `{Build} `{Protocol} `{!StreambufLaws}.
Import session.

(** A round that goes on has shortened the buffer. *)
Lemma recv_frame_consumes (s s' : state) d :
  recv_frame d s = (Ret frame_received, s') → 0 < length (pending s) →
  length (pending s') < length (pending s).
Proof.
  unfold recv_frame, try_catch, on_protocol, close. unfold_M.
  destruct (protocol s) as [p|]; [|done].
  destruct (proto_decode d p) as [[[[c f] t]|e| |] p'] eqn:Hdec; simpl.
  - destruct (decide (0 < c)); [|done]. unfold PLAY_CHECK.
    destruct (0 <? length f); simpl; [|destruct assertions; simpl; [done|]].
    all: intros [= <-] Hl; unfold pending in *; simpl; rewrite data_consume, length_drop; lia.
  - destruct (is_open s); simpl; done.
  - done.
  - done.
Qed.

Lemma recv_frames_loop_enough f1 f2 cnt s :
  length (pending s) ≤ f1 → length (pending s) ≤ f2 →
  recv_frames_loop f1 cnt s = recv_frames_loop f2 cnt s.
Proof.
  revert f2 cnt s. induction f1 as [|f1 IH]; intros f2 cnt s Hf1 Hf2.
  - destruct f2 as [|f2]; [done|]. simpl. unfold_M. unfold pending in Hf1.
    by rewrite decide_False by lia.
  - destruct f2 as [|f2]; simpl; unfold_M.
    { unfold pending in Hf2. by rewrite decide_False by lia. }
    destruct (decide (0 < length (sb_data (recv_buf s)))) as [Hl|]; [|done].
    destruct (recv_frame (sb_data (recv_buf s)) s) as [[[]| | |] s1] eqn:Hr; [|done..].
    apply recv_frame_consumes in Hr; [|done]. apply IH; lia.
Qed.
End termination.

(** ** Properties *)

(** A session over [plain_protocol<uint16_t>] after [start]. *)
Definition plain2 `{Build} : Protocol := plain_protocol.plain_Protocol 2.
Definition plain_session `{Build} (is_accepted : bool) : @session.state _ plain2 :=
  (session.start (Some ($"127.0.0.1", $"7000"))
     (session.open_socket 5 (@session.make _ plain2 is_accepted tt))).2.
Definition plain_message `{Build} (t : Z) (payload : bytes) : @message _ plain2 :=
  @Message _ plain2 t payload false.

(** C8. The sender loses, duplicates and reorders nothing while sends complete in
    full: after any sequence of submitted messages and completed sends, the bytes
    handed to the socket followed by the accumulation buffer are exactly the
    frames of the submitted messages in order.  Nothing waits without a send in
    flight, a further message is always accepted and a completion always handled. *)
Theorem session_send_order `{Build} `{Framing} `{!StreambufLaws} `{!FramingLaws}
    (p : proto) (s s' : session.state) (ls : list send_label) :
  session.is_open s = true → session.protocol s = Some p → proto_ok p →
  session.sending s = false → acc s = [] → in_flight s = [] →
  steps send_step s ls s' →
  wire s' ++ acc s' = wire s ++ frames p (messages ls) ∧
  (session.sending s' = false → acc s' = []) ∧
  (∀ m, sendable m → length (msg_payload m) < max_send_size → ∃ s'',
     session.send (msg_topic m) (Some (msg_payload m)) (length (msg_payload m)) (msg_encrypt m) s'
     = (Ret true, s'')) ∧
  (session.sending s' = true → ∃ s'',
     session.handle_send false (length (in_flight s')) s' = (Ret tt, s'')).
Proof.
  intros Ho Hp Hok Hs Ha Hf Hst.
  destruct (send_steps_ok p s ls s') as [(Ho' & Hp' & Hok' & Hidle') Heq]; [by split_and!|done|].
  split_and!.
  - by rewrite Heq, Ha.
  - intros Hs'. by apply Hidle'.
  - intros m Hm Hl. destruct (send_spec s' _ m Ho' Hp' Hok' Hm Hl) as (s1 & _ & _ & _ & _ & _ & _ & ->).
    eauto.
  - intros Hs'. destruct (handle_send_spec s' (length (in_flight s')) Hs') as (s1 & _ & _ & _ & _ & _ & _ & ->).
    eauto.
Qed.

Lemma session_send_order_witness :
  let _ := debug_build in
  let p := (plain_protocol.accepted (plain_protocol.make 5)).2 in
  let m := plain_message 258 [x41; x42] in
  let s := plain_session true in
  let s1 := (session.send (msg_topic m) (Some (msg_payload m)) 2 false s).2 in
  let s2 := (session.handle_send false (length (in_flight s1)) s1).2 in
  wire s2 ++ acc s2 = wire s ++ @frames _ plain2 (plain_Framing 2) p [m].
Proof.
  intros ? p m s s1 s2.
  destruct (@session_send_order _ _ plain2 (plain_Framing 2) _ _ p s s2 [submitted m; sent_all])
    as [Heq _]; [reflexivity|reflexivity|split; [reflexivity|by exists 5]|reflexivity|reflexivity|reflexivity| |exact Heq].
  eapply (steps_cons _ s _ s1); [|eapply (steps_cons _ s1 _ s2); [|apply steps_nil]].
  - apply step_submit.
    + split_and!; [done|done|done|reflexivity|]. intros _. simpl. lia.
    + unfold max_send_size. simpl length. lia.
    + apply run_eq. reflexivity.
  - apply step_sent; [reflexivity|]. apply run_eq. reflexivity.
Defined.

(** [async_send] may transfer part of the bytes; the session then drops
    the rest behind.  After a completion of the first part [x] of [x ++ y] with an
    empty accumulation buffer no send is started although [y] is unsent, the next
    bytes [z] are sent first, and [y] follows after [z]: the peer reads [x z y]. *)
Theorem partial_send_reorders `{Build} `{Protocol} `{!StreambufLaws}
    (s : session.state) (x y z : bytes) :
  session.is_open s = true → session.sending s = true → acc s = [] → in_flight s = x ++ y →
  y ≠ [] → z ≠ [] →
  ∃ s1 s2 s3,
    session.handle_send false (length x) s = (Ret tt, s1) ∧
    session.sending s1 = false ∧ sends (session.events s1) = sends (session.events s) ∧
    session.send_bytes z s1 = (Ret tt, s2) ∧
    sends (session.events s2) = sends (session.events s) ++ [z] ∧
    session.handle_send false (length z) s2 = (Ret tt, s3) ∧
    sends (session.events s3) = sends (session.events s) ++ [z; y].
Proof.
  intros Ho Hs Ha Hf Hy Hz.
  destruct (handle_send_spec s (length x) Hs) as (s1 & Ho1 & _ & Hs1 & He1 & Ha1 & Hf1 & Hrun1).
  rewrite Hf, drop_app_length in Hf1. rewrite kick_idle in Hrun1 by congruence.
  destruct (send_bytes_spec s1 z) as (s2 & Ho2 & Hs2 & He2 & Ha2 & Hf2 & Hrun2); [congruence|].
  rewrite Ha1, Ha in Ha2. simpl in Ha2. rewrite Hs1 in Hrun2.
  destruct (kick_busy s2) as (Hka & Hkf & Hks & Hke & Hko); [congruence|].
  destruct (handle_send_spec (kick s2) (length z) Hks)
    as (s3 & Ho3 & _ & Hs3 & He3 & Ha3 & Hf3 & Hrun3).
  destruct (kick_busy s3) as (_ & _ & _ & Hke3 & _); [congruence|].
  exists s1, (kick s2), (kick s3). split_and!; try done; [congruence|congruence|].
  rewrite Hke3, He3, Hke, Ha3, Hka, Hf2, Hf1, He2, He1, Ha2. by rewrite <-(assoc_L app).
Qed.

Lemma partial_send_reorders_witness :
  let _ := debug_build in
  let s := (session.send_bytes [x01; x02; x03] (plain_session true)).2 in
  ∃ s1 s2 s3,
    session.handle_send false 1 s = (Ret tt, s1) ∧
    session.sending s1 = false ∧ sends (session.events s1) = sends (session.events s) ∧
    session.send_bytes [x09] s1 = (Ret tt, s2) ∧
    sends (session.events s2) = sends (session.events s) ++ [[x09]] ∧
    session.handle_send false 1 s2 = (Ret tt, s3) ∧
    sends (session.events s3) = sends (session.events s) ++ [[x09]; [x02; x03]].
Proof.
  intros ? s. apply (partial_send_reorders s [x01] [x02; x03] [x09]); [reflexivity..|done|done].
Defined.

(** C7. Reassembly: however the peer's stream of frames is cut into receive
    completions, [on_receive] is called once per message, in order, with the
    message's topic and payload, and what remains in the buffer is the beginning
    of the next frame. *)
Theorem session_reassembly `{Build} `{Framing} `{!StreambufLaws} `{!FramingLaws}
    (tx : proto) (ms : list message) (part : bytes) (chunks : list bytes) (s : session.state) :
  listening tx s → pending s = [] → Forall sendable ms → partial (advance_all tx ms) part →
  Forall (λ c, length c ≤ session.recv_size) chunks →
  concat chunks = frames tx ms ++ part →
  ∃ s', for_each chunks (session.handle_recv false) s = (Ret tt, s') ∧
    received (session.events s') = received (session.events s) ++ map content ms ∧
    pending s' = part ∧ listening (advance_all tx ms) s' ∧ session.is_open s' = session.is_open s.
Proof.
  intros Hl Hp. assert (partial tx (pending s)) as Hpp by (by left).
  intros Hms Hpart Hcs Hc. apply (f_equal (app (pending s))) in Hc. rewrite Hp in Hc at 2.
  simpl in Hc. clear Hp. by apply receive_chunks.
Qed.

Lemma session_reassembly_witness :
  let _ := debug_build in
  let p := (plain_protocol.accepted (plain_protocol.make 5)).2 in
  let ms := [plain_message 258 [x41; x42]; plain_message 3 [x43; x44]] in
  let s := plain_session true in
  ∃ s', for_each [[x02; x01; x02; x00]; [x00; x00; x41; x42; x03]; [x00; x02; x00; x00; x00; x43; x44; x07]]
      (session.handle_recv false) s = (Ret tt, s') ∧
    received (session.events s') = received (session.events s) ++ map content ms ∧
    pending s' = [x07] ∧
    @listening _ plain2 (plain_Framing 2) (@advance_all _ plain2 (plain_Framing 2) p ms) s' ∧
    session.is_open s' = session.is_open s.
Proof.
  intros ? p ms s. apply (@session_reassembly _ _ plain2 (plain_Framing 2) _ _ p ms [x07]).
  - split; [reflexivity|]. eexists. split_and!; [reflexivity|reflexivity|by exists 5].
  - reflexivity.
  - apply Forall_cons. split; [|apply Forall_singleton].
    all: split_and!; [done|done|done|reflexivity|intros _; simpl; lia].
  - right. exists (plain_message 7 [x01; x01]). split_and!.
    + split_and!; [done|done|done|reflexivity|]. intros _. simpl. lia.
    + by eexists.
    + vm_compute. lia.
  - unfold session.recv_size. repeat (apply Forall_cons; split; [simpl length; lia|]). done.
  - reflexivity.
Defined.

(** C30. [recv_frames] ends: every round that goes on has consumed at least one
    byte, so as many rounds as there are buffered bytes are enough; with any larger
    number of rounds the result and the state are the same.  This holds for any
    protocol, whatever [decode] answers. *)
Theorem recv_frames_terminates `{Build} `{Protocol} `{!StreambufLaws} (s : session.state) (k : nat) :
  session.recv_frames_loop (length (pending s) + k) 0 s = session.recv_frames s.
Proof.
  change (session.recv_frames_loop (length (pending s) + k) 0 s
    = session.recv_frames_loop (length (pending s)) 0 s).
  apply recv_frames_loop_enough; lia.
Qed.

Lemma recv_frames_terminates_witness :
  let _ := debug_build in
  let s := session.set_recv_buf (sb_sputn [x01; x00; x02; x00; x00; x00; x41; x42; x05] sb_empty)
    (plain_session true) in
  session.recv_frames_loop (length (pending s) + 100) 0 s = session.recv_frames s
  ∧ (session.recv_frames s).1 = Ret 1.
Proof.
  intros ? s. split; [apply (recv_frames_terminates s 100)|reflexivity].
Defined.

(** C17. Who learns that a connection ended.  Over any operations, whatever they
    return, [on_closed] is called at most once, and the first socket error on an
    open session calls it, whether the receive or the send that is under way ends with
    it.  But a session closed from this side, by [close] or
    because a frame could not be handled, never calls it: whatever is done with a
    session whose socket is closed, and whichever completions arrive for it, there
    is no further notification. *)
Theorem session_closed_notification `{Build} `{Protocol} (s : session.state) (p p' : proto) :
  session.is_open s = true → session.protocol s = Some p → proto_closed p = (Ret tt, p') →
  (∀ ls s', steps session_step s ls s' →
     closed_count (session.events s') ≤ S (closed_count (session.events s))) ∧
  (∀ bs, session.handle_recv true bs s
     = (Ret tt, session.emit session.on_closed
         (session.set_protocol (Some p') (session.set_open false s)))) ∧
  (session.sending s = true → ∀ len, session.handle_send true len s
     = (Ret tt, session.emit session.on_closed
         (session.set_protocol (Some p') (session.set_open false s)))) ∧
  session.close s = (Ret tt, session.set_open false s) ∧
  (∀ s1 ls s', session.is_open s1 = false → steps session_step s1 ls s' →
     session.is_open s' = false ∧
     closed_count (session.events s') = closed_count (session.events s1)).
Proof.
  intros Ho Hp Hc. split_and!.
  - intros ls s' Hst. set (n := closed_count (session.events s)).
    assert (closed_within n s') as Hn.
    { apply (watch_steps _ (closed_within_watches n) (handle_close_closed_within n) s ls s' Hst).
      unfold closed_within. by rewrite Ho. }
    unfold closed_within in Hn. destruct (session.is_open s'); lia.
  - intros bs. unfold session.handle_recv. simpl. by apply (handle_close_notifies s p p').
  - intros Hs len. unfold session.handle_send. rewrite (bind_run _ _ s s s) by done.
    rewrite (bind_run _ _ s tt s) by (by apply check_true). simpl. by apply (handle_close_notifies s p p').
  - unfold session.close. run. by rewrite Ho.
  - intros s1 ls s' Ho1 Hst.
    by apply (watch_steps _ (stays_closed_watches _) (handle_close_stays_closed _) _ ls s' Hst).
Qed.

Lemma session_closed_notification_witness :
  let _ := debug_build in
  let s := (session.send_bytes [x01; x02] (plain_session true)).2 in
  let p := (plain_protocol.accepted (plain_protocol.make 5)).2 in
  let p' : @proto _ plain2 := (plain_protocol.closed p).2 in
  let ended := session.emit session.on_closed (session.set_protocol (Some p') (session.set_open false s)) in
  (∀ ls s', steps session_step s ls s' →
     closed_count (session.events s') ≤ S (closed_count (session.events s))) ∧
  session.handle_recv true [] s = (Ret tt, ended) ∧ session.handle_send true 0 s = (Ret tt, ended) ∧
  session.close s = (Ret tt, session.set_open false s) ∧
  (∀ (s1 : @session.state _ plain2) ls s', session.is_open s1 = false → steps session_step s1 ls s' →
     session.is_open s' = false ∧
     closed_count (session.events s') = closed_count (session.events s1)).
Proof.
  intros ? s p p' ended.
  destruct (session_closed_notification s p p') as (Hcount & Hrecv & Hsend & Hclose & Hafter); [reflexivity..|].
  split; [exact Hcount|split; [apply Hrecv|split; [apply Hsend; reflexivity|split; [exact Hclose|exact Hafter]]]].
Defined.
