(* ===== verification/SecureSession.v ===== *)
(** * Sessions over [secure_protocol]

    How the session drives a handshake (play/net/session.ipp, [start] and
    [handle_recv]) with the secure protocol: what a completed receive does before
    the connection is established. *)

From S2P Require Import Prelude.
From S2P Require Import Serializer.
From S2P Require Import Streambuf.
From S2P Require Import LengthDelimited.
From S2P Require Import Protocol.
From S2P Require Import Sodium.
From S2P Require Import SodiumHandshake.
From S2P Require Import SecureProtocol.
From S2P Require Import Session.

(** ** The handshake phase of a session, for any protocol *)
Section handshake.
Context `{Build} `{Protocol} `{!StreambufLaws}.
Import session.
Implicit Types s : state.

(** Waiting for the peer's handshake bytes. *)
Definition greeting (p : proto) s : Prop :=
  is_open s = true ∧ protocol s = Some p ∧ proto_is_established p = false ∧
  length (sb_output (recv_buf s)) = recv_size.

(** [es'] adds only sends to [es]. *)
Definition only_sends (es es' : list event) : Prop :=
  ∃ bs, es' = es ++ map async_send bs.

Lemma start_send_quiet s :
  sending s = false →
  ∃ s', start_send s = (Ret tt, s') ∧ only_sends (events s) (events s') ∧
    is_open s' = is_open s ∧ protocol s' = protocol s ∧ recv_buf s' = recv_buf s.
Proof.
  intros Hs. rewrite start_send_kick by done. eexists. split; [done|]. unfold kick.
  destruct (decide (acc s = [])).
  - split_and!; try done. exists []. by rewrite app_nil_r.
  - split_and!; try done. by exists [acc s].
Qed.

Lemma send_handshake_quiet s buf :
  is_open s = true →
  ∃ s', send_handshake buf s = (Ret tt, s') ∧ only_sends (events s) (events s') ∧
    is_open s' = true ∧ protocol s' = protocol s ∧ recv_buf s' = recv_buf s.
Proof.
  intros Ho. unfold send_handshake. destruct (decide (0 < length buf)); cycle 1.
  { exists s. split_and!; try done. exists []. by rewrite app_nil_r. }
  unfold send_bytes. unfold_M. rewrite Ho. cbn [negb].
  match goal with |- context [sending ?x] => set (s1 := x) end.
  assert (events s1 = events s ∧ is_open s1 = true ∧ protocol s1 = protocol s ∧
    recv_buf s1 = recv_buf s) as (He & Ho1 & Hp & Hr) by by subst s1.
  destruct (sending s1) eqn:Hs; simpl.
  - exists s1. split_and!; try done. exists []. by rewrite He, app_nil_r.
  - destruct (start_send_quiet s1 Hs) as (s2 & Hrun & Hes & Ho2 & Hp2 & Hr2).
    exists s2. rewrite He in Hes. split_and!; try done; congruence.
Qed.

(** The buffered bytes a completed receive hands to the protocol. *)
Lemma commit_received s bs :
  length (sb_output (recv_buf s)) = recv_size → length bs ≤ recv_size →
  sb_data (sb_commit (length bs)
    (sb_store (bs ++ drop (length bs) (sb_output (recv_buf s))) (recv_buf s))) = pending s ++ bs.
Proof.
  intros Ho Hl. rewrite data_commit, data_store, output_store.
  - by rewrite take_app_length.
  - rewrite length_app, length_drop. lia.
Qed.

(** What sending depends on in a session. *)
Definition send_view s : streambuf * streambuf * bool * bool := (send_bufs s, acc_buf_index s, sending s).

(** A completed receive before the connection is established calls
    [protocol::handshake] exactly once, however many bytes are buffered. *)
Lemma handle_recv_handshake s p bs c reply p' :
  greeting p s → length bs ≤ recv_size →
  proto_handshake (pending s ++ bs) p = (Ret (c, reply), p') →
  (proto_is_established p' = true → drop c (pending s ++ bs) = []) →
  ∃ s' es, handle_recv false bs s = (Ret tt, s') ∧ only_sends (events s) es ∧
    events s' = es ++ (if proto_is_established p' then [on_established] else []) ++ [async_receive] ∧
    protocol s' = Some p' ∧ is_open s' = true ∧ pending s' = drop c (pending s ++ bs) ∧
    length (sb_output (recv_buf s')) = recv_size ∧
    ∃ s1 s2, send_view s1 = send_view s ∧ is_open s1 = true ∧
      send_handshake reply s1 = (Ret tt, s2) ∧ send_view s' = send_view s2.
Proof.
  intros (Ho & Hp & Hne & Hout) Hl Hhs Hrest.
  set (b1 := sb_commit (length bs)
    (sb_store (bs ++ drop (length bs) (sb_output (recv_buf s))) (recv_buf s))).
  assert (sb_data b1 = pending s ++ bs) as Hb1 by by apply commit_received.
  set (s1 := set_recv_buf (sb_consume c b1) (set_protocol (Some p') (set_recv_buf b1 s))).
  destruct (send_handshake_quiet s1 reply) as (s2 & Hrun2 & Hes & Ho2 & Hp2 & Hr2); [done|].
  assert (pending s2 = drop c (pending s ++ bs)) as Hd2.
  { unfold pending at 1. rewrite Hr2, <-Hb1. apply data_consume. }
  set (s3 := if proto_is_established p' then emit on_established s2 else s2).
  exists (emit async_receive (set_recv_buf (sb_prepare recv_size (recv_buf s3)) s3)), (events s2).
  split_and!; [|exact Hes| | | | | |].
  - unfold handle_recv. cbn [negb]. erewrite bind_run by (unfold modify; fold b1; done).
    erewrite bind_run; cycle 1.
    { unfold protocol_is_established. unfold_M. simpl. rewrite Hp, Hne. done. }
    erewrite bind_run; [done|]. erewrite bind_run by done.
    erewrite bind_run; cycle 1.
    { unfold on_protocol. simpl. rewrite Hp, Hb1, Hhs. done. }
    cbn beta iota. erewrite bind_run by done.
    erewrite bind_run by exact Hrun2.
    erewrite bind_run; cycle 1.
    { unfold protocol_is_established. unfold_M. rewrite Hp2. simpl. done. }
    subst s3. destruct (proto_is_established p') eqn:He; [|done]. simpl when.
    erewrite bind_run by done.
    erewrite bind_run; [done|]. unfold recv_frames. unfold_M.
    change (sb_data (recv_buf (emit on_established s2))) with (pending s2).
    rewrite Hd2, Hrest by done. done.
  - subst s3. destruct (proto_is_established p'); simpl; by rewrite <-?(assoc_L app).
  - subst s3. destruct (proto_is_established p'); simpl; by rewrite Hp2.
  - subst s3. by destruct (proto_is_established p').
  - unfold pending. simpl. rewrite data_prepare. subst s3.
    by destruct (proto_is_established p').
  - simpl. apply output_prepare.
  - exists s1, s2. split_and!; [done|done|done|]. subst s3. by destruct (proto_is_established p').
Qed.

(** An exception of [protocol::handshake] is not caught: the socket stays open
    and no receive is started. *)
Lemma handle_recv_handshake_throws s p bs e p' :
  greeting p s → length bs ≤ recv_size →
  proto_handshake (pending s ++ bs) p = (Throw e, p') →
  ∃ s', handle_recv false bs s = (Throw e, s') ∧ is_open s' = true ∧ events s' = events s.
Proof.
  intros (Ho & Hp & Hne & Hout) Hl Hhs.
  set (b1 := sb_commit (length bs)
    (sb_store (bs ++ drop (length bs) (sb_output (recv_buf s))) (recv_buf s))).
  assert (sb_data b1 = pending s ++ bs) as Hb1 by by apply commit_received.
  set (s1 := set_protocol (Some p') (set_recv_buf b1 s)).
  exists s1. split_and!; [|done|done]. unfold handle_recv. cbn [negb].
  erewrite bind_run by (unfold modify; fold b1; done).
  erewrite bind_run; cycle 1.
  { unfold protocol_is_established. unfold_M. simpl. rewrite Hp, Hne. done. }
  rewrite (bind_stop _ _ _ (Throw e) s1); [done| |done].
  erewrite bind_run by done. rewrite (bind_stop _ _ _ (Throw e) s1); [done| |done].
  unfold on_protocol. simpl. rewrite Hp, Hb1, Hhs. done.
Qed.

Lemma sends_only es : ∀ bs : list bytes, es = map async_send bs → sends es = bs.
Proof. intros bs ->. unfold sends. induction bs as [|b bs IH]; simpl; [done|]. by f_equal. Qed.

Lemma established_not_send (bs : list bytes) : on_established ∉ map async_send bs.
Proof. induction bs; set_solver. Qed.

(** The bytes [k] are being sent and nothing waits. *)
Definition sending_only (k : bytes) s : Prop := sending s = true ∧ in_flight s = k ∧ acc s = [].

(** The first handshake message goes to the socket at once. *)
Lemma send_handshake_first s k :
  is_open s = true → sending s = false → acc s = [] → in_flight s = [] → k ≠ [] →
  ∃ s', send_handshake k s = (Ret tt, s') ∧ events s' = events s ++ [async_send k] ∧
    is_open s' = true ∧ protocol s' = protocol s ∧ recv_buf s' = recv_buf s ∧ sending_only k s'.
Proof.
  intros Ho Hs Ha Hf Hk.
  destruct (send_handshake_quiet s k Ho) as (s' & Hrun & [bs Hes] & Ho' & Hp' & Hr').
  destruct (send_bytes_spec s k Ho) as (s1 & _ & Hs1 & He1 & Ha1 & Hf1 & Hrun1).
  unfold send_handshake in Hrun. rewrite decide_True in Hrun by (destruct k; simpl; [done|lia]).
  rewrite Hrun1, Hs in Hrun. injection Hrun as <-. rewrite Ha in Ha1. simpl in Ha1.
  destruct (kick_busy s1) as (Hka & Hkf & Hks & _ & _); [by rewrite Ha1|].
  exists (kick s1). split_and!; try done.
  - unfold send_handshake. by rewrite decide_True, Hrun1, Hs by (destruct k; simpl; [done|lia]).
  - unfold kick. rewrite decide_False by (by rewrite Ha1). simpl. by rewrite He1, Ha1.
  - split_and!; [done|congruence|congruence].
Qed.

(** [start] of a session that has to shake hands. *)
Lemma start_handshake (is_accepted : bool) (ep : str * str) fd r k p :
  0 < fd → k ≠ [] →
  (if is_accepted then proto_accepted else proto_connected) (proto_make fd r) = (Ret k, p) →
  proto_is_established p = false →
  ∃ s, start (Some ep) (open_socket fd (make is_accepted r)) = (Ret tt, s) ∧ greeting p s ∧
    pending s = [] ∧ events s = [async_send k; async_receive] ∧ sending_only k s.
Proof.
  intros Hfd Hk Hacc He. destruct ep as [addr port].
  set (s0 := open_socket fd (make is_accepted r)). set (s1 := set_handle fd s0).
  set (s2 := set_protocol (Some (proto_make fd r)) s1). set (s3 := set_protocol (Some p) s2).
  assert (sb_data sb_empty = []) as Hempty by apply data_empty.
  destruct (send_handshake_first s3 k) as (s4 & Hrun & Hev & Ho & Hp & Hr & Hs4); [done..|].
  set (s5 := set_remote_addr (addr ++ $":" ++ port) s4).
  set (s6 := emit async_receive (set_recv_buf (sb_prepare recv_size (recv_buf s5)) s5)).
  exists s6. split_and!.
  - unfold start. rewrite (bind_run _ _ s0 s0 s0) by done.
    rewrite (bind_run _ _ s0 tt s0) by (by apply check_true).
    rewrite (bind_run _ _ s0 tt s1) by done.
    rewrite (bind_run _ _ s1 tt s1) by (by apply check_true, Nat.ltb_lt).
    rewrite (bind_run _ _ s1 tt s2) by done.
    rewrite (bind_run _ _ s2 tt s4); cycle 1.
    { change (accepted s0) with is_accepted.
      destruct is_accepted; (rewrite (bind_run _ _ s2 k s3); [done|]);
        unfold on_protocol; simpl; by rewrite Hacc. }
    rewrite (bind_run _ _ s4 tt s5) by done. rewrite (bind_run _ _ s5 tt s6) by done.
    rewrite (bind_run _ _ s6 false s6); [done|].
    unfold protocol_is_established. rewrite (bind_run _ _ s6 s6 s6) by done.
    assert (protocol s6 = Some p) as -> by exact Hp.
    unfold deref. rewrite (bind_run _ _ s6 p s6) by done. by rewrite He.
  - split_and!; [exact Ho|exact Hp|exact He|]. apply output_prepare.
  - unfold pending. simpl. rewrite data_prepare, Hr. apply data_empty.
  - simpl. by rewrite Hev.
  - exact Hs4.
Qed.
End handshake.

(** ** Properties *)

(** The accepting end of a secure connection.  [start] sends its key and
    waits.  When the peer's two handshake messages arrive in two completions the
    session becomes established and says so.  When they arrive in one, which
    nothing prevents since the peer answers our key at once, [handle_recv] handles
    the first only: the session is not established, the second message stays in
    the buffer although it would complete the handshake, and the session waits for
    more bytes that a peer with nothing further to say never sends. *)
Theorem coalesced_handshake_stalls `{Build} `{StreambufLaws} `{SodiumLaws}
    (n : nat) (ep : str * str) (ha hb : nat) (ra rb : rng) :
  0 < ha →
  let P := secure_protocol.secure_Protocol n in
  ∃ s0 B1 B2 ka kb nb,
    session.start (Some ep) (session.open_socket ha (@session.make _ P true ra)) = (Ret tt, s0) ∧
    session.events s0 = [session.async_send ka; session.async_receive] ∧
    secure_protocol.connected (secure_protocol.make hb rb) = (Ret kb, B1) ∧
    secure_protocol.handshake ka B1 = (Ret (length ka, nb), B2) ∧
    (∃ s1 s2, session.handle_recv false kb s0 = (Ret tt, s1) ∧
       session.handle_recv false nb s1 = (Ret tt, s2) ∧
       session.is_established s2 = true ∧ session.on_established ∈ session.events s2) ∧
    (∃ s1, session.handle_recv false (kb ++ nb) s0 = (Ret tt, s1) ∧
       session.is_established s1 = false ∧ session.on_established ∉ session.events s1 ∧
       pending s1 = nb ∧ last (session.events s1) = Some session.async_receive).
Proof.
  intros Hha P.
  destruct (handshake_exchange ha hb ra rb)
    as (A1 & B1 & ka & kb & HA & HB & na & nb & (Hlk & Hln & Hne) & _ & Hall).
  destruct (Hall [] [] [] []) as (A2 & B2 & A3 & B3 & Hka & Hkb & Hna & _ & Hnb & _ & [HeA _] & _).
  destruct (Hall nb [] [] []) as (A2' & _ & _ & _ & Hka' & _ & Hna' & _).
  rewrite app_nil_r in Hka, Hkb, Hnb.
  assert (secure_protocol.is_established A1 = false) as He1.
  { destruct (start_spec true ha ra) as (p & h & Hst & (_ & _ & _ & Hh) & (_ & _ & _ & Hes & _) & _).
    rewrite HA in Hst. injection Hst as _ <-. unfold secure_protocol.is_established.
    rewrite Hh. unfold sodium_handshake.is_established. by rewrite Hes, andb_false_r. }
  destruct (@start_handshake _ _ P _ true ep ha ra ka A1 Hha Hne HA He1) as (s0 & Hrun & Hg & Hp0 & Hev & _).
  assert (∀ k, k ≤ 202 → k ≤ session.recv_size) as Hsize.
  { intros k Hk. unfold session.recv_size. lia. }
  exists s0, B1, B2, ka, kb, nb. split_and!; [done|done|done|done| |].
  - destruct (@handle_recv_handshake _ _ P _ s0 A1 kb (length kb) na A2 Hg)
      as (s1 & es1 & Hr1 & Hes1 & He & Hpr1 & Ho1 & Hpd1 & Hout1 & _);
      [apply Hsize; lia|by rewrite Hp0|simpl; congruence|].
    rewrite Hp0 in Hpd1. simpl in Hpd1. rewrite drop_all in Hpd1.
    destruct (@handle_recv_handshake _ _ P _ s1 A2 nb (length nb) [] A3)
      as (s2 & es2 & Hr2 & Hes2 & He2 & Hpr2 & Ho2 & Hpd2 & Hout2 & _);
      [by split_and!|apply Hsize; lia|by rewrite Hpd1|intros _; by rewrite Hpd1, drop_all|].
    exists s1, s2. split_and!; [done|done| |].
    + unfold session.is_established. by rewrite Hpr2.
    + rewrite He2. simpl. rewrite HeA. set_solver.
  - destruct (@handle_recv_handshake _ _ P _ s0 A1 (kb ++ nb) (length kb) na A2' Hg)
      as (s1 & es1 & Hr1 & [bs Hes1] & He & Hpr1 & Ho1 & Hpd1 & Hout1 & _);
      [apply Hsize; rewrite length_app; lia|by rewrite Hp0|simpl; congruence|].
    rewrite Hp0 in Hpd1. simpl in Hpd1. rewrite drop_app_length in Hpd1.
    exists s1. simpl in He. rewrite Hna' in He. simpl in He. split_and!; [done| | |done|].
    + unfold session.is_established. by rewrite Hpr1.
    + rewrite He, Hes1, Hev. pose proof (established_not_send bs). set_solver.
    + rewrite He. by rewrite last_snoc.
Qed.

Lemma coalesced_handshake_stalls_witness :
  let _ := debug_build in
  let P := secure_protocol.secure_Protocol 2 in
  let ra : @rng toy_sodium := 5 in let rb : @rng toy_sodium := 9 in
  ∃ s0 B1 B2 ka kb nb,
    session.start (Some ($"127.0.0.1", $"7000")) (session.open_socket 7 (@session.make _ P true ra))
      = (Ret tt, s0) ∧
    session.events s0 = [session.async_send ka; session.async_receive] ∧
    secure_protocol.connected (secure_protocol.make 8 rb) = (Ret kb, B1) ∧
    secure_protocol.handshake ka B1 = (Ret (length ka, nb), B2) ∧
    (∃ s1 s2, session.handle_recv false kb s0 = (Ret tt, s1) ∧
       session.handle_recv false nb s1 = (Ret tt, s2) ∧
       session.is_established s2 = true ∧ session.on_established ∈ session.events s2) ∧
    (∃ s1, session.handle_recv false (kb ++ nb) s0 = (Ret tt, s1) ∧
       session.is_established s1 = false ∧ session.on_established ∉ session.events s1 ∧
       pending s1 = nb ∧ last (session.events s1) = Some session.async_receive).
Proof.
  intros ? P ra rb.
  apply (coalesced_handshake_stalls 2 ($"127.0.0.1", $"7000") 7 8 ra rb). lia.
Defined.

(** A peer whose second handshake message does not open makes
    [handle_recv] throw: the exception leaves the completion handler, the socket
    stays open, nobody is notified and no receive is started, so the session never
    notices the end of the connection either. *)
Theorem handshake_error_escapes `{Build} `{StreambufLaws} `{SodiumLaws} (n : nat)
    (s : @session.state _ (secure_protocol.secure_Protocol n)) (p : secure_protocol.state)
    (h : sodium_handshake.state) (sealed : bytes) :
  @greeting _ (secure_protocol.secure_Protocol n) p s → pending s = [] →
  secure_protocol.cipher_handshake p = Some h →
  sodium_handshake.key_received h = true → sodium_handshake.nonce_received h = false →
  sodium_handshake.established h = false →
  length sealed = SEALBYTES + NONCEBYTES →
  crypto_box_seal_open sealed (sodium_handshake.pub_key h) (sodium_handshake.sec_key h) = None →
  ∃ s', session.handle_recv false (nonce_frame sealed) s
      = (Throw (sodium_handshake_exception (sodium_handshake.handle h)), s') ∧
    session.is_open s' = true ∧ session.events s' = session.events s.
Proof.
  intros Hg Hpd Hh Hk Hn He Hl Hopen. pose proof sizes_small as Hsmall.
  pose proof (on_nonce_fails h sealed Hk Hn He Hl Hopen) as Hon.
  assert (length (nonce_frame sealed) ≤ session.recv_size) as Hsize.
  { unfold nonce_frame, session.recv_size. rewrite length_length_frame. simpl length. lia. }
  eapply (@handle_recv_handshake_throws _ _ (secure_protocol.secure_Protocol n) _ s p _ _ _ Hg Hsize).
  rewrite Hpd. simpl. unfold nonce_frame. rewrite <-(app_nil_r (length_frame _)).
  assert (fits_u32 (x6e :: sealed)) as Hf by (unfold fits_u32; simpl length; lia).
  exact (handshake_stop p h (x6e :: sealed) [] (Throw _) h Hh ltac:(done) Hf Hon ltac:(done)).
Qed.

Lemma handshake_error_escapes_witness :
  let _ := debug_build in
  let P := secure_protocol.secure_Protocol 2 in
  let key := replicate 32 x05 in
  let nonce := replicate 8 x00 in
  let h := sodium_handshake.State 7 true true false false key key key key key nonce nonce 6 in
  let p : @proto _ P := secure_protocol.State 7 true false false (Some 7) (Some h) sb_empty 5 in
  let s := session.set_recv_buf (sb_prepare session.recv_size sb_empty)
    (session.set_protocol (Some p) (session.open_socket 7 (session.make true (5 : @entropy _ P)))) in
  let sealed := replicate 56 x01 in
  ∃ s', session.handle_recv false (nonce_frame sealed) s
      = (Throw (sodium_handshake_exception 7), s') ∧
    session.is_open s' = true ∧ session.events s' = session.events s.
Proof.
  intros ? P key nonce h p s sealed.
  apply (handshake_error_escapes 2 s p h sealed).
  - split_and!; [reflexivity|reflexivity|reflexivity|apply output_prepare].
  - reflexivity.
  - reflexivity.
  - reflexivity.
  - reflexivity.
  - reflexivity.
  - reflexivity.
  - reflexivity.
Defined.
