(* ===== verification/UnderWay.v ===== *)
(** * What a session has under way

    The asynchronous operations of a session (play/net/session.ipp): how many it has started is
    read off what it asked of the socket, how many have completed is for the socket to count.
    Whatever the protocol does and whatever arrives, a session has one send under way when
    [sending_] says so, of the buffer that does not accumulate, and one receive. *)

From S2P Require Import Prelude.
From S2P Require Import Serializer.
From S2P Require Import Streambuf.
From S2P Require Import Protocol.
From S2P Require Import PlainProtocol.
From S2P Require Import Session.

(** The completed operations of an end. *)
Record completed := Completed { sends_done : nat; receives_done : nat }.
Definition sent_one (o : completed) : completed := Completed (S (sends_done o)) (receives_done o).
Definition received_one (o : completed) : completed := Completed (sends_done o) (S (receives_done o)).

(** [m] leads from [I] to [J] when it returns. *)
Definition ends {S A} (I J : S → Prop) (m : M S A) : Prop := ∀ s a s', I s → m s = (Ret a, s') → J s'.

Lemma ends_before {S A B} (I J : S → Prop) (m : M S A) (f : A → M S B) :
  preserves I m → (∀ a, ends I J (f a)) → ends I J (m ≫= f).
Proof.
  intros Hm Hf s b s' Hs. unfold mbind, M_bind. specialize (Hm s Hs).
  destruct (m s) as [[a| | |] s1]; [|done..]. by apply Hf.
Qed.

Lemma ends_after {S A B} (I J : S → Prop) (m : M S A) (f : A → M S B) :
  ends I J m → (∀ a, preserves J (f a)) → ends I J (m ≫= f).
Proof.
  intros Hm Hf s b s' Hs. unfold mbind, M_bind. destruct (m s) as [[a| | |] s1] eqn:Hr; [|done..].
  intros Hb. pose proof (Hf a s1 (Hm s a s1 Hs Hr)) as HJ. by rewrite Hb in HJ.
Qed.

Section under_way.
Context `{Build} `{Protocol}.
Import session.
Implicit Types (s : state) (o : completed).

Definition receives (es : list event) : nat :=
  length (omap (λ e, match e with async_receive => Some tt | _ => None end) es).

(** The sends and the receives that were started and have not completed. *)
Definition sends_under_way o s : list bytes := drop (sends_done o) (sends (events s)).
Definition receives_under_way o s : nat := receives (events s) - receives_done o.

(** One send or none, and [r] receives started. *)
Definition hands (k r : nat) s : Prop :=
  (∃ l, length l = k ∧ sends (events s) = l ++ (if sending s then [in_flight s] else [])) ∧
  receives (events s) = r.
Definition in_hand o s : Prop := hands (sends_done o) (S (receives_done o)) s.

Lemma in_hand_under_way o s :
  in_hand o s →
  sends_under_way o s = (if sending s then [in_flight s] else []) ∧ receives_under_way o s = 1.
Proof.
  intros [(l & Hl & Hs) Hr]. unfold sends_under_way, receives_under_way. rewrite Hs, Hr, <-Hl, drop_app_length.
  split; [done|lia].
Qed.

Lemma hands_same k r s s' :
  events s' = events s → sending s' = sending s → in_flight s' = in_flight s → hands k r s → hands k r s'.
Proof. unfold hands. by intros -> -> ->. Qed.

Lemma hands_emit k r e s :
  (∀ bs, e ≠ async_send bs) → e ≠ async_receive → hands k r s → hands k r (emit e s).
Proof.
  intros Hs He [(l & Hl & Hsn) Hr]. unfold hands, sends, receives in *. simpl. rewrite !omap_app.
  destruct e; try done; simpl; rewrite !app_nil_r; [by destruct (Hs bs)|..]; (split; [by exists l|done]).
Qed.

(** *** Sending *)
Lemma hands_kick k r s : hands k r s → sending s = false → hands k r (kick s).
Proof.
  intros [(l & Hl & Hs) Hr] Hsd. unfold kick. destruct (decide _) as [|Ha]; [by split; [exists l|]|].
  rewrite Hsd, app_nil_r in Hs. split.
  - exists l. split; [done|]. unfold sends in *. simpl. rewrite omap_app, Hs. simpl.
    unfold in_flight, acc. simpl. by rewrite negb_involutive.
  - unfold receives in *. simpl. rewrite omap_app. simpl. by rewrite app_nil_r.
Qed.

(** [if (!sending_) start_send();] *)
Lemma hands_start_send k r {A} (a : A) :
  preserves (hands k r) (s ← get; _ ← when (negb (sending s)) start_send; mret a).
Proof.
  intros s Hs. unfold when. unfold_M. destruct (sending s) eqn:Hsd; simpl; [done|].
  rewrite start_send_kick by done. by apply hands_kick.
Qed.

Lemma hands_encode_acc k r t d e : preserves (hands k r) (encode_acc t d e).
Proof.
  intros s Hs. unfold encode_acc. destruct (protocol s); [|done].
  destruct (proto_encode _ _ _ _) as [? [? b']]. simpl. eapply hands_same; [..|exact Hs]; [done..|].
  unfold in_flight. f_equal. apply (send_buf_set_other (acc_buf_index s) b' s).
Qed.

Lemma hands_close k r : preserves (hands k r) close.
Proof. unfold close. preserve; intros s Hs; done. Qed.
#[local] Hint Resolve hands_start_send hands_encode_acc hands_close : play.

Lemma hands_send k r t d n e : preserves (hands k r) (send t d n e).
Proof.
  unfold send. apply preserves_bind; [apply preserves_get|intros s0].
  apply preserves_if; [apply preserves_ret|]. destruct (decide (max_send_size ≤ n)); [apply preserves_ret|].
  do 2 (apply preserves_bind; [apply preserves_check|intros _]).
  destruct (decide (n = 0 ∨ d = None)); [apply preserves_ret|].
  apply preserves_bind; [apply preserves_deref|intros cbuf].
  apply preserves_bind; [preserve|intros b]. apply preserves_if; [apply hands_start_send|apply preserves_ret].
Qed.

Lemma hands_send_bytes `{!StreambufLaws} k r d : preserves (hands k r) (send_bytes d).
Proof.
  intros s Hs. destruct (is_open s) eqn:Ho.
  - destruct (send_bytes_spec s d Ho) as (s1 & _ & Hsd & He & _ & Hf & ->). simpl.
    assert (hands k r s1) as Hs1 by by apply (hands_same k r s). destruct (sending s); [done|]. by apply hands_kick.
  - unfold send_bytes. unfold_M. by rewrite Ho.
Qed.

(** A completed send is done with; what accumulated is under way then. *)
Lemma in_hand_complete `{!StreambufLaws} o s n s' :
  in_hand o s → sending s = true → handle_send false n s = (Ret tt, s') → in_hand (sent_one o) s'.
Proof.
  intros [(l & Hl & Hs) Hr] Hsd Hrun. destruct (handle_send_spec s n Hsd) as (s1 & _ & _ & Hs1 & He & _ & _ & Hrun').
  rewrite Hrun in Hrun'. injection Hrun' as ->. apply hands_kick; [|done]. rewrite Hsd in Hs.
  split; [|by rewrite He]. exists (l ++ [in_flight s]). rewrite length_app, Hs1, He, app_nil_r. simpl.
  split; [lia|done].
Qed.

(** *** Receiving *)
Lemma hands_on_protocol k r {A} (m : M proto A) : preserves (hands k r) (on_protocol m).
Proof.
  intros s Hs. unfold on_protocol. destruct (protocol s); [|done]. by destruct (m _).
Qed.
#[local] Hint Resolve hands_on_protocol : play.

Lemma hands_recv_frames_loop k r fuel n : preserves (hands k r) (recv_frames_loop fuel n).
Proof.
  revert n. induction fuel as [|fuel IH]; intros n; [apply preserves_ret|].
  simpl. unfold recv_frame. preserve; intros s Hs; try done. by apply hands_emit.
Qed.

Lemma hands_recv_frames k r : preserves (hands k r) recv_frames.
Proof. unfold recv_frames. preserve. apply hands_recv_frames_loop. Qed.

Lemma hands_send_handshake `{!StreambufLaws} k r bs : preserves (hands k r) (send_handshake bs).
Proof. unfold send_handshake. destruct (decide _); [apply hands_send_bytes|apply preserves_ret]. Qed.

Lemma hands_established k r : preserves (hands k r) protocol_is_established.
Proof. unfold protocol_is_established. preserve. Qed.
#[local] Hint Resolve hands_recv_frames hands_send_handshake hands_established : play.

(** A receive is started. *)
Lemma hands_start_recv k r : ends (hands k r) (hands k (S r)) start_recv.
Proof.
  intros s a s' [(l & Hl & Hs) Hr]. unfold start_recv. unfold_M. intros [= <- <-].
  unfold hands, sends, receives in *. simpl. rewrite !omap_app. simpl. rewrite app_nil_r, length_app. simpl.
  split; [by exists l|lia].
Qed.

(** A completed receive is done with, and the next one under way. *)
Lemma hands_handle_recv `{!StreambufLaws} k r bs : ends (hands k r) (hands k (S r)) (handle_recv false bs).
Proof.
  unfold handle_recv. cbn [negb].
  apply ends_before; [preserve; by intros|intros _]. apply ends_before; [preserve|intros b].
  apply ends_before; [|intros _; apply hands_start_recv].
  preserve; intros s Hs; try done. by apply hands_emit.
Qed.

Lemma in_hand_arrive `{!StreambufLaws} o s bs s' :
  in_hand o s → handle_recv false bs s = (Ret tt, s') → in_hand (received_one o) s'.
Proof. apply hands_handle_recv. Qed.

Lemma in_hand_send o s t d n e r s' : in_hand o s → send t d n e s = (r, s') → in_hand o s'.
Proof. intros Hs Hrun. pose proof (hands_send _ _ t d n e s Hs) as Hs'. by rewrite Hrun in Hs'. Qed.

(** [start] on a fresh socket. *)
Lemma hands_start `{!StreambufLaws} k ep : ends (hands k 0) (hands k 1) (start (Some ep)).
Proof.
  unfold start. destruct ep as [addr port].
  apply ends_before; [apply preserves_get|intros s0].
  repeat (apply ends_before; [solve [preserve; by intros]|intros ?]).
  apply ends_after; [apply hands_start_recv|intros _]. preserve; intros s1 Hs1. by apply hands_emit.
Qed.

Lemma in_hand_start `{!StreambufLaws} ep fd acc r s :
  start (Some ep) (open_socket fd (make acc r)) = (Ret tt, s) → in_hand (Completed 0 0) s.
Proof. apply hands_start. by split; [exists []|]. Qed.
End under_way.
