(* ===== verification/Connection.v ===== *)
(** * Two connected sessions

    Two sessions (play/net/session.ipp) at the ends of a TCP connection, each sending
    and receiving.  The socket carries bytes in order: a completed send puts some or
    all of the bytes of [async_send] on their way, a completed receive takes any number of
    them, up to what [start_recv] prepared, off it.  The abstract specification is a pair of
    FIFO queues of messages; [linked] is the simulation relation.  It holds as long as
    every send transfers all its bytes, which the label of the completion says: after a
    partial one the session starts no send for the rest ([partial_send_strands]) and the
    bytes of the next messages go first ([Session.partial_send_reorders]).

    [Duplex] states what a protocol promises a session that uses it in both directions:
    decoding leaves alone what sending depends on, and the other way round. *)

From S2P Require Import Prelude.
From S2P Require Import Serializer.
From S2P Require Import Streambuf.
From S2P Require Import Protocol.
From S2P Require Import PlainProtocol.
From S2P Require Import Sodium.
From S2P Require Import SodiumHandshake.
From S2P Require Import SecureProtocol.
From S2P Require Import Session.
From S2P Require Import UnderWay.

Class Duplex `{Framing} := {
  (** [p] and [q] are established and send the same bytes from now on *)
  same_sender : proto → proto → Prop
}.

Class DuplexLaws `{Duplex} : Prop := {
  same_sender_refl p : proto_ok p → same_sender p p;
  same_sender_trans p q r : same_sender p q → same_sender q r → same_sender p r;
  same_sender_ok p q : same_sender p q → proto_ok q;
  same_sender_frame p q m : same_sender p q → frame p m = frame q m;
  same_sender_advance p q m : same_sender p q → same_sender (advance p m) (advance q m);
  decode_same_sender p d : proto_ok p → same_sender p (proto_decode d p).2;
  advance_in_step tx p m : in_step tx p → in_step tx (advance p m)
}.

(** The two ends. *)
Inductive side := near | far.
Definition other (d : side) : side := match d with near => far | far => near end.

Section connection.
Context `{Build} `{Framing}.
Import session.
Implicit Types s a b : state.

(** The ends, the bytes on their way from each, and the operations of each that completed. *)
Record conn := Conn {
  near_end : state; far_end : state;
  from_near : bytes; from_far : bytes;
  near_ops : completed; far_ops : completed
}.
Definition at_end (d : side) (c : conn) : state := match d with near => near_end c | far => far_end c end.
Definition transit (d : side) (c : conn) : bytes := match d with near => from_near c | far => from_far c end.
Definition set_end (d : side) (s : state) (c : conn) : conn :=
  match d with
  | near => Conn s (far_end c) (from_near c) (from_far c) (near_ops c) (far_ops c)
  | far => Conn (near_end c) s (from_near c) (from_far c) (near_ops c) (far_ops c)
  end.
Definition set_transit (d : side) (bs : bytes) (c : conn) : conn :=
  match d with
  | near => Conn (near_end c) (far_end c) bs (from_far c) (near_ops c) (far_ops c)
  | far => Conn (near_end c) (far_end c) (from_near c) bs (near_ops c) (far_ops c)
  end.
Definition ops (d : side) (c : conn) : completed := match d with near => near_ops c | far => far_ops c end.
Definition set_ops (d : side) (o : completed) (c : conn) : conn :=
  match d with
  | near => Conn (near_end c) (far_end c) (from_near c) (from_far c) o (far_ops c)
  | far => Conn (near_end c) (far_end c) (from_near c) (from_far c) (near_ops c) o
  end.

(** What is seen of a step: a message handed to [send] of one end, how many bytes a send of
    that end left behind, or the messages its peer was notified of. *)
Inductive label :=
  | put (d : side) (x : topic * bytes)
  | sent (d : side) (left_behind : nat)
  | got (d : side) (xs : list (topic * bytes)).

(** The notifications of received messages an operation added. *)
Definition newly_received s s' : list (topic * bytes) :=
  drop (length (received (events s))) (received (events s')).

(** A message is handed to [send]; the send under way, of the bytes [async_send] was given,
    completes; the receive under way completes. *)
Inductive conn_step : conn → label → conn → Prop :=
  | step_put d m c a' :
      sendable m → length (msg_payload m) < max_send_size →
      send (msg_topic m) (Some (msg_payload m)) (length (msg_payload m)) (msg_encrypt m) (at_end d c)
        = (Ret true, a') →
      conn_step c (put d (content m)) (set_end d a' c)
  | step_complete d bs n c a' :
      head (sends_under_way (ops d c) (at_end d c)) = Some bs → 0 < n ≤ length bs →
      handle_send false n (at_end d c) = (Ret tt, a') →
      conn_step c (sent d (length bs - n))
        (set_ops d (sent_one (ops d c)) (set_end d a' (set_transit d (transit d c ++ take n bs) c)))
  | step_arrive d bs rest c b' :
      0 < receives_under_way (ops (other d) c) (at_end (other d) c) →
      transit d c = bs ++ rest → bs ≠ [] → length bs ≤ recv_size →
      handle_recv false bs (at_end (other d) c) = (Ret tt, b') →
      conn_step c (got d (newly_received (at_end (other d) c) b'))
        (set_ops (other d) (received_one (ops (other d) c)) (set_end (other d) b' (set_transit d rest c))).

(** The specification: what each end was given and the other was not yet told of. *)
Definition queues : Type := list (topic * bytes) * list (topic * bytes).
Definition queue (d : side) (q : queues) : list (topic * bytes) := match d with near => q.1 | far => q.2 end.
Definition set_queue (d : side) (l : list (topic * bytes)) (q : queues) : queues :=
  match d with near => (l, q.2) | far => (q.1, l) end.

Inductive fifo_step : queues → label → queues → Prop :=
  | fifo_put d x q : fifo_step q (put d x) (set_queue d (queue d q ++ [x]) q)
  | fifo_sent d k q : fifo_step q (sent d k) q
  | fifo_got d xs rest q : queue d q = xs ++ rest → fifo_step q (got d xs) (set_queue d rest q).

(** The messages put in at one end and got out at the other over a run. *)
Definition puts (d : side) (ls : list label) : list (topic * bytes) :=
  flat_map (λ l, match l, d with put near x, near | put far x, far => [x] | _, _ => [] end) ls.
Definition gots (d : side) (ls : list label) : list (topic * bytes) :=
  flat_map (λ l, match l, d with got near xs, near | got far xs, far => xs | _, _ => [] end) ls.
Definition is_put (l : label) : bool := match l with put _ _ => true | _ => false end.

(** Every send that completed transferred all its bytes. *)
Definition in_full (l : label) : bool := match l with sent _ k => k =? 0 | _ => true end.
Definition sent_in_full (ls : list label) : Prop := forallb in_full ls = true.

(** Nothing is under way: nothing can happen but that somebody sends. *)
Definition quiet (c : conn) : Prop := ∀ l c', conn_step c l c' → is_put l = true.

(** The bytes an end still has to hand over, and the work left. *)
Definition outgoing s : bytes := in_flight s ++ acc s.
Definition work (c : conn) : nat :=
  2 * length (outgoing (near_end c)) + length (from_near c) +
  (2 * length (outgoing (far_end c)) + length (from_far c)).

(** Two sessions that have just started. *)
Definition opened (a b : state) : conn := Conn a b [] [] (Completed 0 0) (Completed 0 0).

(** Each end has one receive under way, and a send when it says so. *)
Definition all_in_hand (c : conn) : Prop := ∀ d, in_hand (ops d c) (at_end d c).

(** Two established ends in step, with nothing to send or on its way. *)
Definition idle_end s : Prop :=
  is_open s = true ∧ sending s = false ∧ outgoing s = [] ∧ pending s = [].
Definition connected (c : conn) : Prop :=
  from_near c = [] ∧ from_far c = [] ∧ idle_end (near_end c) ∧ idle_end (far_end c) ∧ all_in_hand c ∧
  ∃ p q, protocol (near_end c) = Some p ∧ protocol (far_end c) = Some q ∧
    proto_ok p ∧ proto_ok q ∧ listening q (near_end c) ∧ listening p (far_end c).
End connection.

(** ** The queues *)
Section fifo.
Context `{Protocol}.

Lemma queue_set d l q : queue d (set_queue d l q) = l.
Proof. by destruct d. Qed.
Lemma queue_set_other d l q : queue (other d) (set_queue d l q) = queue (other d) q.
Proof. by destruct d. Qed.

Lemma fifo_step_queue q l q' d :
  fifo_step q l q' → queue d q ++ puts d [l] = gots d [l] ++ queue d q'.
Proof.
  destruct 1 as [e x q|e k q|e xs rest q Hq]; [| |destruct d, e; simpl in *];
    try (destruct d, e; simpl); rewrite ?app_nil_r; try done; by destruct d.
Qed.

(** First in, first out. *)
Lemma fifo_steps_queue q ls q' d :
  steps fifo_step q ls q' → queue d q ++ puts d ls = gots d ls ++ queue d q'.
Proof.
  induction 1 as [q|q l q1 ls q2 Hl Hls IH]; [by rewrite app_nil_r|].
  pose proof (fifo_step_queue _ _ _ d Hl) as Hq. unfold puts, gots in *. simpl in *.
  rewrite !app_nil_r in Hq. by rewrite (assoc_L app), Hq, <-!(assoc_L app), IH.
Qed.
End fifo.

(** ** One direction *)
Section flow.
Context `{Build} `{Framing} `{!StreambufLaws} `{!FramingLaws} `{!Duplex} `{!DuplexLaws}.
Import session.
Implicit Types (s a b : state) (tx p : proto) (q ms : list message).

(** An open end that sends like [tx]. *)
Record sends_like tx s : Prop := {
  like_open : is_open s = true;
  like_proto : ∃ p, protocol s = Some p ∧ same_sender tx p;
  like_idle : sending s = false → acc s = [] ∧ in_flight s = [];
  like_busy : sending s = true → in_flight s ≠ []
}.

(** [b] is to receive the messages [q], framed from [tx] on: their bytes are in its
    buffer, on their way, or still at [a]. *)
Record flow tx q a (t : bytes) b : Prop := {
  flow_sender : sends_like (advance_all tx q) a;
  flow_receiver : listening tx b;
  flow_partial : partial tx (pending b);
  flow_sendable : Forall sendable q;
  flow_bytes : pending b ++ t ++ outgoing a = frames tx q
}.

Lemma kick_sends_like tx s :
  is_open s = true → (∃ p, protocol s = Some p ∧ same_sender tx p) →
  sending s = false → in_flight s = [] →
  sends_like tx (kick s) ∧ outgoing (kick s) = acc s.
Proof.
  intros Ho Hp Hs Hf. destruct (kick_spec s Hs Hf) as (Ha & _ & Hsd & Hfl & Ho' & Hp').
  unfold outgoing. rewrite Ha, Hfl, app_nil_r. split; [|done].
  split; [congruence|by rewrite Hp'|rewrite Hsd, Ha, Hfl|rewrite Hsd, Hfl].
  - by intros ?%bool_decide_eq_false%dec_stable.
  - by intros ?%bool_decide_eq_true.
Qed.

Lemma sends_like_ok tx s p : sends_like tx s → protocol s = Some p → same_sender tx p ∧ proto_ok p.
Proof.
  intros [_ (p' & Hp' & Hs) _ _] Hp. rewrite Hp in Hp'. injection Hp' as <-.
  split; [done|]. by eapply same_sender_ok.
Qed.

(** What [send] does to the sender and to the receiver that the same session is. *)
Lemma send_flow tx s m :
  sends_like tx s → sendable m → length (msg_payload m) < max_send_size →
  ∃ s', send (msg_topic m) (Some (msg_payload m)) (length (msg_payload m)) (msg_encrypt m) s = (Ret true, s') ∧
    sends_like (advance tx m) s' ∧ outgoing s' = outgoing s ++ frame tx m ∧
    ∃ p, protocol s = Some p ∧ protocol s' = Some (advance p m).
Proof.
  intros Hl Hm Hlen. destruct (like_proto _ _ Hl) as (p & Hp & Hs).
  destruct (sends_like_ok _ _ _ Hl Hp) as [_ Hok].
  destruct (send_spec s p m (like_open _ _ Hl) Hp Hok Hm Hlen)
    as (s1 & Ho1 & Hp1 & Hs1 & _ & Ha1 & Hf1 & Hrun).
  assert (∃ p', protocol s1 = Some p' ∧ same_sender (advance tx m) p') as Hp1'.
  { exists (advance p m). split; [done|]. by apply same_sender_advance. }
  rewrite (same_sender_frame _ _ m Hs). unfold outgoing at 2. rewrite <-(assoc_L app), <-Ha1, <-Hf1.
  eexists. split; [exact Hrun|]. destruct (sending s) eqn:Hsd.
  - split_and!; [|done|by exists p]. split; [done|done|congruence|].
    intros _. rewrite Hf1. by apply (like_busy _ _ Hl).
  - destruct (like_idle _ _ Hl Hsd) as [_ Hf]. rewrite Hf1, Hf. simpl.
    destruct (kick_sends_like (advance tx m) s1) as [Hk ->]; [done|done|done|congruence|].
    split_and!; [done|done|]. exists p. split; [done|].
    by destruct (kick_spec s1 Hs1 ltac:(congruence)) as (_ & _ & _ & _ & _ & ->).
Qed.

Lemma complete_flow tx s :
  sends_like tx s → sending s = true →
  ∃ s', handle_send false (length (in_flight s)) s = (Ret tt, s') ∧
    sends_like tx s' ∧ outgoing s = in_flight s ++ outgoing s' ∧ protocol s' = protocol s.
Proof.
  intros Hl Hsd. destruct (handle_send_spec s (length (in_flight s)) Hsd)
    as (s1 & Ho1 & Hp1 & Hs1 & _ & Ha1 & Hf1 & Hrun). rewrite drop_all in Hf1.
  destruct (kick_sends_like tx s1) as [Hk Hout];
    [rewrite Ho1; apply Hl|rewrite Hp1; apply Hl|done|done|].
  exists (kick s1). split_and!; [done|done|by rewrite Hout, Ha1|].
  destruct (kick_spec s1 Hs1 Hf1) as (_ & _ & _ & _ & _ & ->). done.
Qed.

(** Neither touches what was received. *)
Definition keeps_received (rb : streambuf) (l : list (topic * bytes)) s : Prop :=
  recv_buf s = rb ∧ received (events s) = l.

Lemma keeps_received_emit rb l e s :
  (∀ t f, e ≠ on_receive t f) → keeps_received rb l s → keeps_received rb l (emit e s).
Proof.
  intros He [Hr Hl]. split; [done|]. simpl. rewrite received_app, Hl.
  destruct e; try done; simpl; rewrite ?app_nil_r; try done. by edestruct He.
Qed.

Lemma start_send_keeps rb l : preserves (keeps_received rb l) start_send.
Proof.
  unfold start_send. preserve; intros s Hs; try done.
  by apply keeps_received_emit.
Qed.

Lemma encode_acc_keeps rb l t d e : preserves (keeps_received rb l) (encode_acc t d e).
Proof.
  intros s Hs. unfold encode_acc. destruct (protocol s); [|done].
  destruct (proto_encode _ _ _ _) as [? [??]]. destruct Hs. split; [|done]. simpl.
  unfold set_send_buf. by destruct (acc_buf_index s).
Qed.
#[local] Hint Resolve start_send_keeps encode_acc_keeps : play.

Lemma send_keeps rb l t d n e : preserves (keeps_received rb l) (send t d n e).
Proof. unfold send, close. preserve; intros s Hs; done. Qed.

Lemma handle_send_keeps rb l n : preserves (keeps_received rb l) (handle_send false n).
Proof.
  unfold handle_send. cbn [negb]. preserve; intros s Hs; done.
Qed.

(** What [handle_recv] leaves alone on an established connection. *)
Definition keeps_sender p (bufs : streambuf * streambuf) (i sd : bool) s : Prop :=
  send_bufs s = bufs ∧ acc_buf_index s = i ∧ sending s = sd ∧
  ∃ p', protocol s = Some p' ∧ same_sender p p'.

Lemma decode_keeps p bufs i sd d : preserves (keeps_sender p bufs i sd) (on_protocol (proto_decode d)).
Proof.
  intros s (Hb & Hi & Hsd & p' & Hp & Hs). unfold on_protocol. rewrite Hp.
  pose proof (decode_same_sender p' d (same_sender_ok _ _ Hs)) as Hd.
  destruct (proto_decode d p') as [r p'']. simpl in Hd. split_and!; [done..|].
  exists p''. split; [done|]. by eapply same_sender_trans.
Qed.
#[local] Hint Resolve decode_keeps : play.

Lemma recv_frames_loop_keeps p bufs i sd fuel n : preserves (keeps_sender p bufs i sd) (recv_frames_loop fuel n).
Proof.
  revert n. induction fuel as [|fuel IH]; intros n; [apply preserves_ret|].
  simpl. unfold recv_frame, close. preserve; intros s Hs; done.
Qed.

Lemma handle_recv_keeps p bufs i sd bs s :
  keeps_sender p bufs i sd s → keeps_sender p bufs i sd (handle_recv false bs s).2.
Proof.
  intros Hk. unfold handle_recv. cbn [negb].
  set (s1 := set_recv_buf (sb_commit (length bs)
    (sb_store (bs ++ drop (length bs) (sb_output (recv_buf s))) (recv_buf s))) s). rewrite (bind_run _ _ s tt s1) by done.
  assert (keeps_sender p bufs i sd s1) as Hk1 by exact Hk.
  rewrite (bind_run _ _ s1 true s1); cycle 1.
  { destruct Hk1 as (_ & _ & _ & p' & Hp & Hs). unfold protocol_is_established.
    rewrite (bind_run _ _ s1 s1 s1) by done. rewrite Hp. rewrite (bind_run _ _ s1 p' s1) by done.
    by rewrite (proto_ok_established p' (same_sender_ok _ _ Hs)). }
  cbv iota. revert Hk1. apply preserves_elim.
  unfold recv_frames, start_recv. preserve; try (intros s' Hs'; done). apply recv_frames_loop_keeps.
Qed.

Lemma arrive_flow tx q a bs rest b txb :
  flow tx q a (bs ++ rest) b → sends_like txb b → length bs ≤ recv_size →
  ∃ k b', handle_recv false bs b = (Ret tt, b') ∧
    flow (advance_all tx (take k q)) (drop k q) a rest b' ∧
    received (events b') = received (events b) ++ map content (take k q) ∧
    sends_like txb b' ∧ outgoing b' = outgoing b.
Proof.
  intros [Hs Hl Hpt Hq Hb] Hlb Hlen.
  destruct (frames_prefix tx q [] (pending b ++ bs)) as (k & part & Hk & Heq & Hpart);
    [done|by left|exists (rest ++ outgoing a); by rewrite app_nil_r, <-Hb, <-!(assoc_L app)|].
  destruct (handle_recv_messages (take k q) b tx bs part) as (b' & Hrun & Hl' & Hp' & Hr & Ho);
    [done|by apply Forall_take|done..|].
  destruct (like_proto _ _ Hlb) as (p & Hp & Hsp).
  destruct (handle_recv_keeps p (send_bufs b) (acc_buf_index b) (sending b) bs b) as (Hkb & Hki & Hks & p' & Hkp & Hkp').
  { split_and!; [done..|]. exists p. split; [done|]. apply same_sender_refl. by eapply same_sender_ok. }
  rewrite Hrun in Hkb, Hki, Hks, Hkp. simpl in Hkb, Hki, Hks, Hkp.
  assert (acc b' = acc b ∧ in_flight b' = in_flight b) as [Ha Hf].
  { unfold acc, in_flight, send_buf. by rewrite Hkb, Hki. }
  exists k, b'. split_and!; [done| |done| |unfold outgoing; congruence].
  - split; [by rewrite <-advance_all_app, take_drop|done|by rewrite Hp'|by apply Forall_drop|].
    rewrite Hp'. apply (app_inv_head (frames tx (take k q))).
    rewrite <-frames_app, take_drop, <-Hb, (assoc_L app), <-Heq, <-!(assoc_L app). done.
  - destruct Hlb as [Hop _ Hid Hbu]. split; [congruence| |by rewrite Hks, Ha, Hf|by rewrite Hks, Hf].
    exists p'. split; [done|]. by eapply same_sender_trans.
Qed.

(** A received message is one of those sent; nothing under way, nothing left. *)
Lemma flow_done tx q a b : flow tx q a [] b → outgoing a = [] → q = [].
Proof.
  intros [_ Hl Hpt Hq Hb] Ho. rewrite Ho, app_nil_r in Hb. destruct q as [|m q]; [done|].
  apply Forall_cons in Hq as [Hm _]. destruct Hl as (_ & rx & _ & _ & Hst).
  destruct (partial_not_frame tx rx (pending b) m Hst Hm Hpt). rewrite Hb. by eexists.
Qed.

(** Sending leaves what the session receives alone. *)
Lemma keeps_receiver tx q a t b b' p p' :
  flow tx q a t b → protocol b = Some p → protocol b' = Some p' →
  (in_step tx p → in_step tx p') → proto_is_established p' = true →
  recv_buf b' = recv_buf b → flow tx q a t b'.
Proof.
  intros [Hs (Ho & rx & Hrx & He & Hst) Hpt Hq Hb] Hp Hp' Hin He' Hr.
  rewrite Hp in Hrx. injection Hrx as ->. unfold pending in *.
  split; unfold pending; rewrite ?Hr; [done| |done|done|done].
  split; [by rewrite Hr|]. exists p'. split_and!; auto.
Qed.

Lemma send_receiver tx q a t b txb m b' p :
  flow tx q a t b → sends_like txb b → protocol b = Some p → protocol b' = Some (advance p m) →
  send (msg_topic m) (Some (msg_payload m)) (length (msg_payload m)) (msg_encrypt m) b = (Ret true, b') →
  flow tx q a t b' ∧ received (events b') = received (events b).
Proof.
  intros Hf Hl Hp Hp' Hrun. destruct (sends_like_ok _ _ _ Hl Hp) as [_ Hok].
  pose proof (preserves_elim _ _ b (send_keeps (recv_buf b) (received (events b)) (msg_topic m)
    (Some (msg_payload m)) (length (msg_payload m)) (msg_encrypt m)) ltac:(done)) as [Hr He].
  rewrite Hrun in Hr, He. split; [|done].
  eapply (keeps_receiver _ _ _ _ b b'); [done|done|done|apply advance_in_step| |done].
  by apply proto_ok_established, advance_ok.
Qed.

Lemma complete_receiver tx q a t b txb n b' :
  flow tx q a t b → sends_like txb b → protocol b' = protocol b →
  handle_send false n b = (Ret tt, b') → flow tx q a t b' ∧ received (events b') = received (events b).
Proof.
  intros Hf Hl Hpp Hrun. destruct (like_proto _ _ Hl) as (p & Hp & Hs).
  pose proof (preserves_elim _ _ b (handle_send_keeps (recv_buf b) (received (events b)) n) ltac:(done)) as [Hr He].
  rewrite Hrun in Hr, He. split; [|done].
  eapply (keeps_receiver _ _ _ _ b b'); [done|done|by rewrite Hpp|done| |done].
  by apply proto_ok_established; eapply same_sender_ok.
Qed.
End flow.

(** ** Both directions *)
Section duplex.
Context `{Build} `{Framing} `{!StreambufLaws} `{!FramingLaws} `{!Duplex} `{!DuplexLaws}.
Import session.
Implicit Types (c : conn) (q : queues).

(** The queues stand for the connection. *)
Definition flows c q : Prop :=
  ∃ (tx : side → proto) (ms : side → list message), ∀ d,
    flow (tx d) (ms d) (at_end d c) (transit d c) (at_end (other d) c) ∧ queue d q = map content (ms d).

Definition linked c q : Prop := all_in_hand c ∧ flows c q.

(** What is under way is known by the flags of the sessions, whatever happens. *)
Lemma in_hand_flags c d :
  all_in_hand c → sends_under_way (ops d c) (at_end d c) = (if sending (at_end d c) then [in_flight (at_end d c)] else []) ∧
  receives_under_way (ops d c) (at_end d c) = 1.
Proof. intros Hc. apply in_hand_under_way, Hc. Qed.

Lemma all_in_hand_step c l c' : all_in_hand c → conn_step c l c' → all_in_hand c'.
Proof.
  intros Hc. destruct 1 as [d m c a' _ _ Hrun|d bs n c a' Hbs _ Hrun|d bs rest c b' _ _ _ _ Hrun]; intros e.
  - pose proof (in_hand_send _ _ _ _ _ _ _ _ (Hc d) Hrun). pose proof (Hc e). by destruct d, e.
  - destruct (in_hand_flags c d Hc) as [Hu _]. rewrite Hu in Hbs.
    destruct (sending (at_end d c)) eqn:Hsd; [|done].
    pose proof (in_hand_complete _ _ _ _ (Hc d) Hsd Hrun). pose proof (Hc e). by destruct d, e.
  - pose proof (in_hand_arrive _ _ _ _ (Hc (other d)) Hrun). pose proof (Hc e). by destruct d, e.
Qed.

Lemma flows_set_ops c q d o : flows c q → flows (set_ops d o c) q.
Proof. by destruct d. Qed.

Definition assign {A} (d : side) (x : A) (f : side → A) : side → A := λ e,
  match d, e with near, near | far, far => x | _, _ => f e end.

Lemma flows_put c q d m :
  flows c q → sendable m → length (msg_payload m) < max_send_size →
  ∃ a', send (msg_topic m) (Some (msg_payload m)) (length (msg_payload m)) (msg_encrypt m) (at_end d c) = (Ret true, a') ∧
    flows (set_end d a' c) (set_queue d (queue d q ++ [content m]) q).
Proof.
  intros (tx & ms & Hl) Hm Hlen. destruct (Hl d) as [Hf Hq], (Hl (other d)) as [Hf' Hq'].
  destruct (send_flow _ _ m (flow_sender _ _ _ _ _ Hf) Hm Hlen) as (a' & Hrun & Hs & Hout & p & Hp & Hp').
  exists a'. split; [done|]. exists tx, (assign d (ms d ++ [m]) ms).
  assert (flow (tx d) (ms d ++ [m]) a' (transit d c) (at_end (other d) c)) as Hnew.
  { destruct Hf as [_ Hr Hpt Hms Hb]. split; [by rewrite advance_all_app|done|done| |].
    - apply Forall_app. split; [done|by apply Forall_singleton].
    - rewrite frames_app, <-Hb, Hout. simpl. by rewrite app_nil_r, <-!(assoc_L app). }
  replace (other (other d)) with d in Hf' by by destruct d.
  destruct (send_receiver _ _ _ _ _ _ m a' p Hf' (flow_sender _ _ _ _ _ Hf) Hp Hp' Hrun) as [Hrec _].
  intros e. destruct d, e; simpl in *; rewrite ?Hq, ?map_app; done.
Qed.

Lemma flows_complete c q d :
  flows c q → sending (at_end d c) = true →
  ∃ a', handle_send false (length (in_flight (at_end d c))) (at_end d c) = (Ret tt, a') ∧
    flows (set_end d a' (set_transit d (transit d c ++ in_flight (at_end d c)) c)) q ∧
    outgoing (at_end d c) = in_flight (at_end d c) ++ outgoing a' ∧ in_flight (at_end d c) ≠ [].
Proof.
  intros (tx & ms & Hl) Hsd. destruct (Hl d) as [Hf Hq], (Hl (other d)) as [Hf' Hq'].
  pose proof (flow_sender _ _ _ _ _ Hf) as Hs.
  destruct (complete_flow _ _ Hs Hsd) as (a' & Hrun & Hs' & Hout & Hp).
  exists a'. split_and!; [done| |done|by apply Hs]. exists tx, ms.
  assert (flow (tx d) (ms d) a' (transit d c ++ in_flight (at_end d c)) (at_end (other d) c)) as Hnew.
  { destruct Hf as [_ Hr Hpt Hms Hb]. split; [done..|]. by rewrite <-Hb, Hout, <-!(assoc_L app). }
  replace (other (other d)) with d in Hf' by by destruct d.
  destruct (complete_receiver _ _ _ _ _ _ _ a' Hf' Hs Hp Hrun) as [Hrec _].
  intros e. destruct d, e; simpl in *; done.
Qed.

Lemma flows_arrive c q d bs rest :
  flows c q → transit d c = bs ++ rest → length bs ≤ recv_size →
  ∃ b' xs ys, handle_recv false bs (at_end (other d) c) = (Ret tt, b') ∧
    queue d q = xs ++ ys ∧ newly_received (at_end (other d) c) b' = xs ∧
    flows (set_end (other d) b' (set_transit d rest c)) (set_queue d ys q) ∧
    outgoing b' = outgoing (at_end (other d) c).
Proof.
  intros (tx & ms & Hl) Ht Hlen. destruct (Hl d) as [Hf Hq], (Hl (other d)) as [Hf' Hq'].
  rewrite Ht in Hf.
  destruct (arrive_flow _ _ _ _ _ _ _ Hf (flow_sender _ _ _ _ _ Hf') Hlen)
    as (k & b' & Hrun & Hnew & Hrec & Hs & Hout).
  exists b', (map content (take k (ms d))), (map content (drop k (ms d))).
  split_and!; [done|by rewrite <-map_app, take_drop| | |done].
  { unfold newly_received. by rewrite Hrec, drop_app_length. }
  exists (assign d (advance_all (tx d) (take k (ms d))) tx), (assign d (drop k (ms d)) ms).
  replace (other (other d)) with d in Hf' by by destruct d.
  destruct Hf' as [_ Hr Hpt Hms Hb]. rewrite <-Hout in Hb.
  intros e. destruct d, e; simpl in *; done.
Qed.

(** A send under way can complete. *)
Lemma complete_possible c d :
  all_in_hand c → sending (at_end d c) = true → in_flight (at_end d c) ≠ [] →
  ∃ l c', conn_step c l c' ∧ is_put l = false.
Proof.
  intros Hc Hsd Hne. destruct (in_hand_flags c d Hc) as [Hu _]. rewrite Hsd in Hu.
  destruct (handle_send_spec (at_end d c) (length (in_flight (at_end d c))) Hsd) as (s1 & _ & _ & _ & _ & _ & _ & Hrun).
  eexists _, _. split; [eapply (step_complete d (in_flight (at_end d c))); [by rewrite Hu| |exact Hrun]|done].
  destruct (in_flight _); simpl; [done|lia].
Qed.

(** The simulation. *)
Lemma linked_step c q l c' :
  linked c q → conn_step c l c' → in_full l = true →
  ∃ q', fifo_step q l q' ∧ linked c' q' ∧ (is_put l = false → work c' < work c).
Proof.
  intros [Hc Hl] Hst Hfull. pose proof (all_in_hand_step _ _ _ Hc Hst) as Hc'.
  destruct Hst as [d m c a' Hm Hlen Hrun|d bs n c a' Hbs Hn Hrun|d bs rest c b' _ Ht Hne Hlen Hrun].
  - destruct (flows_put c q d m Hl Hm Hlen) as (a & Hrun' & Hl').
    rewrite Hrun in Hrun'. injection Hrun' as <-. eexists. split_and!; [apply fifo_put|by split|done].
  - apply Nat.eqb_eq in Hfull. assert (n = length bs) as -> by lia. rewrite take_ge in Hc' |- * by done.
    destruct (in_hand_flags c d Hc) as [Hu _]. rewrite Hu in Hbs.
    destruct (sending (at_end d c)) eqn:Hsd; [|done]. injection Hbs as <-.
    destruct (flows_complete c q d Hl Hsd) as (a & Hrun' & Hl' & Hout & Hne).
    rewrite Hrun in Hrun'. injection Hrun' as <-. exists q.
    split_and!; [apply fifo_sent|split; [done|by apply flows_set_ops]|].
    intros _. unfold work.
    assert (0 < length (in_flight (at_end d c))) by (destruct (in_flight _); simpl; [done|lia]).
    apply (f_equal length) in Hout. rewrite length_app in Hout.
    destruct d; simpl in *; rewrite length_app; lia.
  - destruct (flows_arrive c q d bs rest Hl Ht Hlen) as (b & xs & ys & Hrun' & Hq & Hxs & Hl' & Hout).
    rewrite Hrun in Hrun'. injection Hrun' as <-. rewrite Hxs.
    eexists. split_and!; [by apply fifo_got|split; [done|by apply flows_set_ops]|]. intros _. unfold work.
    assert (0 < length bs) by (destruct bs; simpl; [done|lia]).
    apply (f_equal length) in Ht. rewrite length_app in Ht.
    destruct d; simpl in *; rewrite Hout; lia.
Qed.

Lemma linked_steps c q ls c' :
  linked c q → steps conn_step c ls c' → sent_in_full ls → ∃ q', steps fifo_step q ls q' ∧ linked c' q'.
Proof.
  intros Hl Hst. revert q Hl. induction Hst as [c|c l c1 ls c2 Hc _ IH]; intros q Hl.
  { exists q. split; [apply steps_nil|done]. }
  intros [Hf Hfs]%andb_true_iff.
  destruct (linked_step c q l c1 Hl Hc Hf) as (q1 & Hq1 & Hl1 & _). destruct (IH q1 Hl1 Hfs) as (q2 & Hq2 & Hl2).
  exists q2. split; [by eapply steps_cons|done].
Qed.

Lemma linked_work c q ls c' :
  linked c q → steps conn_step c ls c' → sent_in_full ls → forallb (λ l, negb (is_put l)) ls = true →
  length ls + work c' ≤ work c.
Proof.
  intros Hl Hst. revert q Hl. induction Hst as [c|c l c1 ls c2 Hc _ IH]; intros q Hl; simpl; [lia|].
  intros [Hf Hfs]%andb_true_iff [Hp%negb_true_iff Hps]%andb_true_iff.
  destruct (linked_step c q l c1 Hl Hc Hf) as (q1 & _ & Hl1 & Hw). specialize (Hw Hp).
  specialize (IH q1 Hl1 Hfs Hps). lia.
Qed.

(** When nothing but [put] is possible the queues are empty. *)
Lemma linked_quiet c q :
  linked c q → quiet c → ∀ d, queue d q = [].
Proof.
  intros [Hc Hl] Hquiet.
  assert (∀ d, outgoing (at_end d c) = []) as Hout.
  { intros d. destruct (sending (at_end d c)) eqn:Hsd.
    - destruct (flows_complete c q d Hl Hsd) as (a & Hrun & _ & _ & Hne).
      destruct (complete_possible c d Hc Hsd Hne) as (l & c' & Hst & Hl0). by rewrite (Hquiet l c' Hst) in Hl0.
    - destruct Hl as (tx & ms & Hl). destruct (Hl d) as [Hf _].
      destruct (like_idle _ _ (flow_sender _ _ _ _ _ Hf) Hsd) as [Ha Hi]. unfold outgoing. by rewrite Ha, Hi. }
  assert (∀ d, transit d c = []) as Htr.
  { intros d. destruct (decide (transit d c = [])) as [|Hne]; [done|].
    pose proof (take_drop recv_size (transit d c)) as Ht. symmetry in Ht.
    destruct (flows_arrive c q d _ _ Hl Ht) as (b & xs & ys & Hrun & _); [rewrite length_take; lia|].
    destruct (in_hand_flags c (other d) Hc) as [_ Hrecv].
    specialize (Hquiet _ _ (step_arrive d _ _ c b ltac:(rewrite Hrecv; lia) Ht
      ltac:(destruct (transit d c); [done|unfold recv_size; simpl; done]) ltac:(rewrite length_take; lia) Hrun)).
    done. }
  intros d. destruct Hl as (tx & ms & Hl). destruct (Hl d) as [Hf ->]. rewrite Htr in Hf.
  by rewrite (flow_done _ _ _ _ Hf (Hout d)).
Qed.

(** With no send under way and nothing on its way only [put] is possible. *)
Lemma nothing_under_way c :
  (∀ d, sends_under_way (ops d c) (at_end d c) = [] ∧ transit d c = []) → quiet c.
Proof.
  intros Hn l c' Hst. destruct Hst as [|d bs n c a' Hs _ _|d bs rest c b' _ Ht Hne _ _]; [done| |].
  - destruct (Hn d) as [Hs' _]. by rewrite Hs' in Hs.
  - destruct (Hn d) as [_ Ht']. rewrite Ht in Ht'. by apply app_nil in Ht' as [? _].
Qed.

(** The peer of a sender whose send stopped within a frame. *)
Lemma arrive_part tx b p bs m :
  listening tx b → pending b = [] → protocol b = Some p → proto_ok p → sendable m →
  bs `prefix_of` frame tx m → length bs < length (frame tx m) → length bs ≤ recv_size →
  ∃ b', handle_recv false bs b = (Ret tt, b') ∧ newly_received b b' = [] ∧ sending b' = sending b.
Proof.
  intros Hl Hpd Hp Hok Hm Hpre Hlt Hlen.
  destruct (handle_recv_messages [] b tx bs bs) as (b' & Hrun & _ & _ & Hr & _);
    [done|done|done|right; by exists m|by rewrite Hpd|].
  exists b'. split; [done|]. split.
  - unfold newly_received. by rewrite Hr, app_nil_r, drop_all.
  - destruct (handle_recv_keeps p (send_bufs b) (acc_buf_index b) (sending b) bs b) as (_ & _ & Hs & _).
    + split_and!; [done..|]. exists p. split; [done|]. by apply same_sender_refl.
    + by rewrite Hrun in Hs.
Qed.

(** The sender. *)
Lemma partial_send_run p s m :
  idle_end s → protocol s = Some p → proto_ok p → sendable m → length (msg_payload m) < max_send_size →
  1 < length (frame p m) →
  ∃ s1 s2, send (msg_topic m) (Some (msg_payload m)) (length (msg_payload m)) (msg_encrypt m) s = (Ret true, s1) ∧
    sending s1 = true ∧ in_flight s1 = frame p m ∧ handle_send false 1 s1 = (Ret tt, s2) ∧ sending s2 = false.
Proof.
  intros (Ho & Hs & [Hif Hac]%app_nil & _) Hp Hok Hm Hlen Hfr.
  destruct (send_spec s p m Ho Hp Hok Hm Hlen) as (s1 & _ & _ & Hsd & _ & Ha & Hi & Hrun).
  rewrite Hs in Hrun, Hsd. rewrite Hac in Ha. rewrite Hif in Hi. simpl in Ha.
  destruct (kick_busy s1) as (Hka & Hki & Hks & _); [rewrite Ha; intros E; rewrite E in Hfr; simpl in Hfr; lia|].
  destruct (handle_send_spec (kick s1) 1 Hks) as (s2 & _ & _ & Hs2 & _ & Ha2 & _ & Hrun2).
  rewrite (kick_idle s2) in Hrun2 by congruence. exists (kick s1), s2. split_and!; congruence.
Qed.

(** A send that completes behind the first byte of a message, with nothing accumulated
    meanwhile: no send is started for the rest, and nothing happens any more. *)
Lemma partial_send_strands c d m p :
  connected c → protocol (at_end d c) = Some p → sendable m → length (msg_payload m) < max_send_size →
  1 < length (frame p m) →
  ∃ ls c', steps conn_step c ls c' ∧ puts d ls = [content m] ∧ (∀ e, gots e ls = []) ∧ quiet c'.
Proof.
  intros (Ht1 & Ht2 & Hi1 & Hi2 & Hc & p1 & p2 & Hpn & Hpf & Hok1 & Hok2 & Hl1 & Hl2) Hp Hm Hlen Hfr.
  assert (∀ e, transit e c = [] ∧ idle_end (at_end e c)) as Hidle by by intros [].
  assert (listening p (at_end (other d) c) ∧ proto_ok p ∧ ∃ r, protocol (at_end (other d) c) = Some r ∧ proto_ok r)
    as (Hl & Hok & r & Hr & Hokr) by (destruct d; simpl in *; simplify_eq; eauto).
  clear Ht1 Ht2 Hi1 Hi2 Hpn Hpf Hok1 Hok2 Hl1 Hl2.
  destruct (partial_send_run p (at_end d c) m (proj2 (Hidle d)) Hp Hok Hm Hlen Hfr)
    as (s1 & s2 & Hrun & Hs1 & Hi1 & Hrun2 & Hs2).
  destruct (Hidle (other d)) as (Hto & _ & Hso & _ & Hpo).
  set (bs := take 1 (frame p m)). assert (length bs = 1) as Hbs by (unfold bs; rewrite length_take; lia).
  assert (bs ≠ [] ∧ length bs ≤ recv_size) as [Hbs0 Hbsr] by (split; [intros E; by rewrite E in Hbs|unfold recv_size; lia]).
  destruct (arrive_part p (at_end (other d) c) r bs m) as (b' & Hrun3 & Hnew & Hsb);
    try done; [by exists (drop 1 (frame p m)); unfold bs; rewrite take_drop|lia|].
  set (c1 := set_end d s1 c). set (c2 := set_ops d (sent_one (ops d c1)) (set_end d s2 (set_transit d bs c1))).
  set (c3 := set_ops (other d) (received_one (ops (other d) c2)) (set_end (other d) b' (set_transit d [] c2))).
  assert (at_end d c1 = s1 ∧ transit d c1 = []) as [E1 T1] by by destruct (Hidle d), d.
  assert (at_end (other d) c2 = at_end (other d) c ∧ transit d c2 = bs ++ []) as [E2 T2]
    by (rewrite app_nil_r; by destruct d).
  assert (conn_step c (put d (content m)) c1) as St1 by by apply step_put.
  pose proof (all_in_hand_step _ _ _ Hc St1) as Hc1.
  assert (conn_step c1 (sent d (length (frame p m) - 1)) c2) as St2.
  { destruct (in_hand_flags c1 d Hc1) as [Hu _]. pose proof (step_complete d (frame p m) 1 c1 s2) as Hst.
    rewrite E1, T1 in Hst. rewrite E1, Hs1, Hi1 in Hu. apply Hst; [by rewrite Hu|lia|done]. }
  pose proof (all_in_hand_step _ _ _ Hc1 St2) as Hc2.
  assert (conn_step c2 (got d []) c3) as St3.
  { rewrite <-Hnew, <-E2. apply (step_arrive d bs [] c2 b'); [|done..|by rewrite E2].
    destruct (in_hand_flags c2 (other d) Hc2) as [_ ->]. lia. }
  pose proof (all_in_hand_step _ _ _ Hc2 St3) as Hc3.
  exists [put d (content m); sent d (length (frame p m) - 1); got d []], c3. split_and!.
  - eapply steps_cons; [exact St1|]. eapply steps_cons; [exact St2|]. eapply steps_cons; [exact St3|apply steps_nil].
  - by destruct d.
  - by intros []; destruct d.
  - apply nothing_under_way. intros e. destruct (in_hand_flags c3 e Hc3) as [-> _].
    assert (sending (at_end e c3) = false ∧ transit e c3 = []) as [-> ->]; [|done].
    destruct d, e; simpl in *; (split; [congruence|done]).
Qed.

Lemma connected_linked c : connected c → linked c ([], []).
Proof.
  intros (Ht1 & Ht2 & (Ho1 & Hs1 & Hu1 & Hp1) & (Ho2 & Hs2 & Hu2 & Hp2) & Hc & p & r & Hpn & Hpf & Hokp & Hokr & Hln & Hlf).
  split; [done|]. exists (λ d, match d with near => p | far => r end), (λ _, []). intros d.
  assert (∀ s, outgoing s = [] → acc s = [] ∧ in_flight s = []) as Hnil.
  { intros s [??]%app_nil. done. }
  destruct (Hnil _ Hu1), (Hnil _ Hu2).
  destruct d; (split; [|done]); simpl; rewrite ?Ht1, ?Ht2; split; simpl;
    try done; try (by left); try (by rewrite ?Hp1, ?Hp2, ?Hu1, ?Hu2);
    split; try done; try congruence; eexists; (split; [done|by apply same_sender_refl]).
Qed.
End duplex.

(** ** The protocols in both directions *)
Section instances.
Context `{Build} `{StreambufLaws} (n : nat).

#[local] Instance plain_Protocol_inst : Protocol := plain_protocol.plain_Protocol n.

Definition both_plain (p q : plain_protocol.state) : Prop := plain_ok p ∧ plain_ok q.

#[export] Instance plain_Duplex : @Duplex _ (plain_protocol.plain_Protocol n) (plain_Framing n) := {|
  same_sender := both_plain
|}.

#[export] Instance plain_DuplexLaws : @DuplexLaws _ (plain_protocol.plain_Protocol n) (plain_Framing n) plain_Duplex.
Proof.
  split; simpl; unfold both_plain; try naive_solver.
  intros p d Hp. assert ((plain_protocol.decode n d p).2 = p) as ->; [|done].
  destruct Hp as [_ Hc]. by rewrite plain_decode_spec; [case_decide|].
Qed.

End instances.

Section secure_instances.
Context `{Build} `{StreambufLaws} `{SodiumLaws} (n : nat).
Import secure_protocol.

#[local] Instance secure_Protocol_inst : Protocol := secure_Protocol n.

(** What sending depends on. *)
Definition same_tx (p q : secure_protocol.state) : Prop :=
  ∃ h k, cipher_handshake p = Some h ∧ cipher_handshake q = Some k ∧
    sodium_handshake.tx_key h = sodium_handshake.tx_key k ∧
    sodium_handshake.tx_nonce h = sodium_handshake.tx_nonce k.

Definition both_secure (p q : state) : Prop := secure_ok p ∧ secure_ok q ∧ same_tx p q.

#[export] Instance secure_Duplex : @Duplex _ (secure_Protocol n) (secure_Framing n) := {|
  same_sender := both_secure
|}.

Lemma secure_ok_handshake p : secure_ok p → is_Some (cipher_handshake p).
Proof. intros [He _]. unfold is_established in He. destruct (cipher_handshake p); [done|]. by rewrite andb_false_r in He. Qed.

(** Decoding changes the receiving half of the handshake at most. *)
Lemma secure_decode_keeps p d : secure_ok p →
  secure_ok (decode n d p).2 ∧ same_tx p (decode n d p).2.
Proof.
  intros Hok. destruct (secure_ok_handshake p Hok) as [h Hh].
  apply (preserves_elim (λ p', secure_ok p' ∧ same_tx p p')); [|split; [done|by exists h, h]].
  unfold decode, lift_pure. preserve; try (intros s Hs; exact Hs).
  intros s [[He Hc] (h' & k & Hh' & Hk & Hkey & Hnonce)]. unfold on_cipher_handshake. rewrite Hk.
  unfold sodium_cipher.decode, sodium_handshake.inc_rx_nonce. run.
  destruct (crypto_stream_chacha20_xor _ _ _); simpl; (split; [split; [|done]|by eexists _, _]);
    unfold is_established in *; rewrite Hk in He; exact He.
Qed.

Lemma same_tx_advance p q enc : same_tx p q → same_tx (secure_advance p enc) (secure_advance q enc).
Proof.
  intros (h & k & Hh & Hk & Hkey & Hnonce). unfold secure_advance. rewrite Hh, Hk.
  destruct enc; [|by exists h, k]. eexists _, _. split_and!; [done|done|done|]. simpl. by rewrite Hnonce.
Qed.

Lemma secure_advance_in_step tx p enc : secure_in_step tx p → secure_in_step tx (secure_advance p enc).
Proof.
  intros (Hc & ht & hr & Ht & Hr & Hkey & Hnonce). unfold secure_advance. rewrite Hr.
  destruct enc; (split; [done|]); eexists _, _; split_and!; done.
Qed.

Lemma secure_DuplexLaws : @DuplexLaws _ (secure_Protocol n) (secure_Framing n) secure_Duplex.
Proof.
  split; simpl; unfold both_secure.
  - intros p Hp. destruct (secure_ok_handshake p Hp) as [h Hh]. split_and!; [done|done|by exists h, h].
  - intros p q r (Hp & _ & h & k & Hh & Hk & ? & ?) (_ & Hr & k' & l & Hk' & Hl & ? & ?).
    split_and!; [done|done|]. exists h, l. rewrite Hk in Hk'. injection Hk' as <-. split_and!; congruence.
  - naive_solver.
  - intros p q m (_ & _ & h & k & Hh & Hk & Hkey & Hnonce). unfold secure_frame, secure_body.
    rewrite Hh, Hk. by rewrite Hkey, Hnonce.
  - intros p q m (Hp & Hq & Hs). split_and!; [by apply secure_advance_ok..|]. by apply same_tx_advance.
  - intros p d Hp. destruct (secure_decode_keeps p d Hp). done.
  - intros tx p m. apply secure_advance_in_step.
Qed.
End secure_instances.

(** ** Properties *)

(** C2. Two sessions at the ends of a connection are two FIFO queues of messages.
    Whatever the order in which the ends send, sends complete and any number of bytes
    arrive, as long as every completed send has transferred all its bytes, every step is a step
    of the queues: [send] puts its message at the end of
    one, a completion does nothing, an arrival takes messages from the front, the ones
    [on_receive] is called with.  At any time each end has asked the socket for one receive, and for one send,
    of the bytes to go next, when it is [sending_].  Nothing is lost, duplicated, reordered or made up in
    either direction, and no operation on the way fails; nor does the completion of a send that
    transferred less, but it ends the correspondence: the socket, used with [async_send],
    may do so, and the session has no provision for it ([partial_send_strands],
    [Session.partial_send_reorders]).  Errors of the socket and the closing of an end are
    not steps here. *)
Theorem connection_refines_fifo `{Build} `{Framing} `{!StreambufLaws} `{!FramingLaws} `{!Duplex} `{!DuplexLaws}
    (c c' : conn) (ls : list label) :
  connected c → steps conn_step c ls c' → sent_in_full ls →
  ∃ q, steps fifo_step ([], []) ls q ∧
    (∀ d, puts d ls = gots d ls ++ queue d q) ∧
    (∀ d m, sendable m → length (msg_payload m) < max_send_size →
       ∃ a', session.send (msg_topic m) (Some (msg_payload m)) (length (msg_payload m)) (msg_encrypt m) (at_end d c')
             = (Ret true, a')) ∧
    (∀ d len, session.sending (at_end d c') = true →
       ∃ a', session.handle_send false len (at_end d c') = (Ret tt, a')) ∧
    (∀ d, sends_under_way (ops d c') (at_end d c')
            = (if session.sending (at_end d c') then [in_flight (at_end d c')] else []) ∧
          receives_under_way (ops d c') (at_end d c') = 1) ∧
    (∀ d bs rest, transit d c' = bs ++ rest → length bs ≤ session.recv_size →
       ∃ b', session.handle_recv false bs (at_end (other d) c') = (Ret tt, b')).
Proof.
  intros Hc Hst Hfull. destruct (linked_steps c _ ls c' (connected_linked c Hc) Hst Hfull) as (q & Hq & Hh & Hl).
  exists q. split; [done|]. split; [|split; [|split; [|split]]].
  - intros d. rewrite <-(fifo_steps_queue _ _ _ d Hq). by destruct d.
  - intros d m Hm Hlen. destruct (flows_put c' q d m Hl Hm Hlen) as (a' & ? & _). by exists a'.
  - intros d len Hsd. destruct (handle_send_spec _ len Hsd) as (s1 & _ & _ & _ & _ & _ & _ & Hrun). by eexists.
  - intros d. by apply in_hand_flags.
  - intros d bs rest Ht Hlen. destruct (flows_arrive c' q d bs rest Hl Ht Hlen) as (b' & _ & _ & ? & _).
    by exists b'.
Qed.

(** C4. Everything sent is received, if every completed send has transferred all its bytes.
    Once nobody sends any more, every sequence of such
    completions and of arrivals ends, after at most [work] steps, and when no step is
    possible any more each end was notified of exactly the messages handed to the
    other, in order.  The condition is needed: from any such connection a message whose frame has more
    than one byte can be sent such that its send transfers only the first, after which nothing is
    under way any more and the message has not been received. *)
Theorem connection_delivers `{Build} `{Framing} `{!StreambufLaws} `{!FramingLaws} `{!Duplex} `{!DuplexLaws}
    (c c1 c2 : conn) (ls ls' : list label) :
  connected c → steps conn_step c ls c1 →
  steps conn_step c1 ls' c2 → forallb (λ l, negb (is_put l)) ls' = true →
  (sent_in_full (ls ++ ls') →
     length ls' ≤ work c1 ∧ (quiet c2 → ∀ d, gots d (ls ++ ls') = puts d (ls ++ ls'))) ∧
  (∀ d m p, session.protocol (at_end d c) = Some p → sendable m → length (msg_payload m) < max_send_size →
     1 < length (frame p m) →
     ∃ ls0 c0, steps conn_step c ls0 c0 ∧ puts d ls0 = [content m] ∧ (∀ e, gots e ls0 = []) ∧ quiet c0).
Proof.
  intros Hc Hst1 Hst2 Hp. split; [|intros d m p; by apply partial_send_strands].
  intros Hfull. pose proof (connected_linked c Hc) as Hl.
  pose proof Hfull as Hfull'. unfold sent_in_full in Hfull'. rewrite forallb_app in Hfull'.
  apply andb_true_iff in Hfull' as [Hfull1 Hfull2].
  destruct (linked_steps c _ ls c1 Hl Hst1 Hfull1) as (q1 & _ & Hl1). split.
  - pose proof (linked_work c1 q1 ls' c2 Hl1 Hst2 Hfull2 Hp). lia.
  - intros Hquiet d. destruct (linked_steps c _ _ c2 Hl (steps_app _ _ _ _ _ _ Hst1 Hst2) Hfull) as (q2 & Hq2 & Hl2).
    pose proof (fifo_steps_queue _ _ _ d Hq2) as Heq. rewrite (linked_quiet c2 q2 Hl2 Hquiet d), app_nil_r in Heq.
    by destruct d.
Qed.

(** One step after the other on given ends. *)
Section runs.
Context `{Build} `{Framing}.

Definition do_put (d : side) (m : message) (c : conn) : conn :=
  set_end d (session.send (msg_topic m) (Some (msg_payload m)) (length (msg_payload m)) (msg_encrypt m) (at_end d c)).2 c.
Definition do_complete (d : side) (c : conn) : conn :=
  let bs := default [] (head (sends_under_way (ops d c) (at_end d c))) in
  set_ops d (sent_one (ops d c)) (set_end d (session.handle_send false (length bs) (at_end d c)).2
    (set_transit d (transit d c ++ bs) c)).
Definition do_arrive (d : side) (n : nat) (c : conn) : conn :=
  set_ops (other d) (received_one (ops (other d) c))
    (set_end (other d) (session.handle_recv false (take n (transit d c)) (at_end (other d) c)).2
      (set_transit d (drop n (transit d c)) c)).

Lemma put_step d m c :
  sendable m → length (msg_payload m) < max_send_size →
  (session.send (msg_topic m) (Some (msg_payload m)) (length (msg_payload m)) (msg_encrypt m) (at_end d c)).1 = Ret true →
  conn_step c (put d (content m)) (do_put d m c).
Proof. intros Hm Hlen Hr. apply (step_put d m c); [done|done|by apply run_eq]. Qed.

Lemma complete_step d c :
  let bs := default [] (head (sends_under_way (ops d c) (at_end d c))) in
  0 < length bs → (session.handle_send false (length bs) (at_end d c)).1 = Ret tt →
  conn_step c (sent d 0) (do_complete d c).
Proof.
  intros bs Hl Hr. assert (head (sends_under_way (ops d c) (at_end d c)) = Some bs) as Hs
    by (unfold bs in *; by destruct (head _); [|simpl in Hl; lia]).
  pose proof (step_complete d bs (length bs) c _ Hs ltac:(lia) (run_eq _ _ _ Hr)) as Hst.
  rewrite Nat.sub_diag, take_ge in Hst by done. exact Hst.
Qed.

Lemma arrive_step d n c xs :
  0 < receives_under_way (ops (other d) c) (at_end (other d) c) →
  0 < length (take n (transit d c)) ≤ session.recv_size →
  (session.handle_recv false (take n (transit d c)) (at_end (other d) c)).1 = Ret tt →
  drop (length (received (session.events (at_end (other d) c)))) (received (session.events (at_end (other d) (do_arrive d n c)))) = xs →
  conn_step c (got d xs) (do_arrive d n c).
Proof.
  intros Hu Hlen Hr <-.
  set (b' := (session.handle_recv false (take n (transit d c)) (at_end (other d) c)).2).
  assert (at_end (other d) (do_arrive d n c) = b') as -> by by destruct d.
  unfold do_arrive. apply (step_arrive d (take n (transit d c)) (drop n (transit d c)) c b').
  - done.
  - by rewrite take_drop.
  - intros Heq. rewrite Heq in Hlen. simpl in Hlen. lia.
  - lia.
  - by apply run_eq.
Qed.
End runs.

(** Two sessions over [plain_protocol<uint16_t>]; a message of the near end arrives in
    two pieces. *)
Section witness.
#[local] Instance debug : Build := debug_build.
#[local] Instance P2 : Protocol := plain2.
#[local] Instance F2 : @Framing _ P2 := plain_Framing 2.
#[local] Instance FL2 : FramingLaws := plain_FramingLaws 2.
#[local] Instance D2 : @Duplex _ P2 F2 := plain_Duplex 2.
#[local] Instance DL2 : @DuplexLaws _ P2 F2 D2 := plain_DuplexLaws 2.

Definition hello : @message _ P2 := plain_message 258 [x41; x42].
Definition ends : conn := opened (plain_session true) (plain_session false).
Definition after_put : conn := do_put near hello ends.
Definition after_send : conn := do_complete near after_put.
Definition after_part : conn := do_arrive near 3 after_send.
Definition after_all : conn := do_arrive near 5 after_part.

Lemma ends_connected : connected ends.
Proof.
  split_and!; [done|done|split_and!; reflexivity|split_and!; reflexivity| |].
  { intros []; by split; [exists []|]. }
  eexists _, _. split_and!; [reflexivity|reflexivity|split; [reflexivity|by eexists]|split; [reflexivity|by eexists]| |].
  all: split; [reflexivity|]; eexists; split_and!; [reflexivity|reflexivity|by eexists].
Qed.

Lemma ends_put : conn_step ends (put near (content hello)) after_put.
Proof.
  unfold after_put. apply put_step; [by split_and!|unfold max_send_size; simpl length; lia|vm_compute; reflexivity].
Qed.

Lemma ends_arrive : steps conn_step after_put [sent near 0; got near []; got near [content hello]] after_all.
Proof.
  apply (steps_cons _ _ _ after_send); [unfold after_send; apply (complete_step near after_put); [apply Nat.ltb_lt|]; vm_compute; reflexivity|].
  apply (steps_cons _ _ _ after_part).
  { unfold after_part. apply (arrive_step near 3 after_send); [apply Nat.ltb_lt|split; [apply Nat.ltb_lt|apply Nat.leb_le]|..]; vm_compute; reflexivity. }
  apply (steps_cons _ _ _ after_all); [|apply steps_nil].
  unfold after_all. apply (arrive_step near 5 after_part); [apply Nat.ltb_lt|split; [apply Nat.ltb_lt|apply Nat.leb_le]|..]; vm_compute; reflexivity.
Qed.

Lemma connection_refines_fifo_witness :
  ∃ q, steps fifo_step ([], []) [put near (content hello)] q ∧ queue near q = [content hello] ∧
    session.sending (near_end after_put) = true.
Proof.
  destruct (connection_refines_fifo ends after_put [put near (content hello)] ends_connected (steps_cons _ _ _ _ _ _ ends_put (steps_nil _ _)) eq_refl)
    as (q & Hq & Hall & _). exists q. split; [exact Hq|]. split; [|vm_compute; reflexivity].
  symmetry. exact (Hall near).
Defined.

Lemma connection_delivers_witness :
  3 ≤ work after_put ∧
  (quiet after_all → gots near ([put near (content hello)] ++ [sent near 0; got near []; got near [content hello]]) = [content hello]) ∧
  ∃ ls c, steps conn_step ends ls c ∧ puts near ls = [content hello] ∧ (∀ e, gots e ls = []) ∧ quiet c.
Proof.
  destruct (connection_delivers ends after_put after_all [put near (content hello)]
    [sent near 0; got near []; got near [content hello]] ends_connected
    (steps_cons _ _ _ _ _ _ ends_put (steps_nil _ _)) ends_arrive eq_refl) as [Hd Hs].
  destruct (Hd eq_refl) as [Hw Hall].
  split; [etransitivity; [exact Hw|reflexivity]|]. split; [intros Hq; exact (Hall Hq near)|].
  apply (Hs near hello (plain_protocol.accepted (plain_protocol.make 5)).2).
  - reflexivity.
  - by split_and!.
  - unfold max_send_size. simpl length. lia.
  - vm_compute. lia.
Defined.
End witness.
