(* ===== verification/SecureConnection.v ===== *)
(** * Opening a connection over [secure_protocol]

    Both ends of a TCP connection start (play/net/session.ipp, [start]) with fresh
    [secure_protocol] objects; what they send each other brings them to the state
    [connected] of [Connection], from which the connection is two queues. *)

From S2P Require Import Prelude.
From S2P Require Import Serializer.
From S2P Require Import Streambuf.
From S2P Require Import LengthDelimited.
From S2P Require Import Protocol.
From S2P Require Import PlainProtocol.
From S2P Require Import Sodium.
From S2P Require Import SodiumHandshake.
From S2P Require Import SecureProtocol.
From S2P Require Import Session.
From S2P Require Import SecureSession.
From S2P Require Import UnderWay.
From S2P Require Import Connection.

Section opening.
Context `{Build} `{Protocol} `{!StreambufLaws}.
Import session.
Implicit Types s : state.

(** An end in its handshake that has nothing buffered and nothing to send. *)
Definition waiting (p : proto) s : Prop :=
  greeting p s ∧ pending s = [] ∧ sending s = false ∧ outgoing s = [].

(** The handshake bytes are handed to the socket. *)
Lemma complete_handshake p k s :
  greeting p s → pending s = [] → sending_only k s →
  ∃ s', handle_send false (length (in_flight s)) s = (Ret tt, s') ∧ waiting p s' ∧ events s' = events s.
Proof.
  intros (Ho & Hp & He & Hout) Hpd (Hs & Hf & Ha).
  destruct (handle_send_spec s (length (in_flight s)) Hs) as (s1 & Ho1 & Hp1 & Hs1 & He1 & Ha1 & Hf1 & Hrun).
  rewrite drop_all in Hf1. rewrite kick_idle in Hrun by congruence.
  pose proof (preserves_elim _ _ s (handle_send_keeps (recv_buf s) (received (events s))
    (length (in_flight s))) ltac:(done)) as [Hr _].
  rewrite Hrun in Hr. simpl in Hr. exists s1. split_and!; [done| |done].
  split_and!; [split_and!; [congruence|congruence|done|by rewrite Hr]|unfold pending; by rewrite Hr|done|].
  unfold outgoing. by rewrite Hf1, Ha1, Ha.
Qed.

(** A handshake message arrives in one completion. *)
Lemma arrive_handshake p p' bs reply s :
  waiting p s → length bs ≤ recv_size → proto_handshake bs p = (Ret (length bs, reply), p') →
  ∃ s', handle_recv false bs s = (Ret tt, s') ∧
    is_open s' = true ∧ protocol s' = Some p' ∧ length (sb_output (recv_buf s')) = recv_size ∧ pending s' = [] ∧
    (if decide (reply = []) then sending s' = false ∧ outgoing s' = [] else sending_only reply s') ∧
    (proto_is_established p' = true → on_established ∈ events s').
Proof.
  intros (Hg & Hpd & Hs & Hout) Hl Hhs. rewrite <-(app_nil_l bs), <-Hpd in Hhs at 1.
  destruct (handle_recv_handshake s p bs _ reply p' Hg Hl Hhs)
    as (s' & es & Hrun & _ & He & Hp' & Ho' & Hpd' & Hob & s1 & s2 & Hv1 & Ho1 & Hrun2 & Hv2).
  { intros _. rewrite Hpd. by rewrite drop_all. }
  exists s'. split_and!; [done|done|done|done|by rewrite Hpd', Hpd, drop_all| |].
  2:{ intros Hest. rewrite He, Hest. set_solver. }
  apply app_nil in Hout as [Hf Ha]. unfold send_view in *. injection Hv1 as Hb1 Hi1 Hs1.
  injection Hv2 as Hb2 Hi2 Hs2.
  assert (acc s1 = [] ∧ in_flight s1 = []) as [Ha1 Hf1].
  { unfold acc, in_flight, send_buf in *. rewrite Hb1, Hi1. done. }
  destruct (decide (reply = [])) as [->|Hne].
  - injection Hrun2 as <-. unfold outgoing. rewrite Hs2, Hs1.
    unfold acc, in_flight, send_buf in *. rewrite Hb2, Hi2. split; [done|]. by rewrite Ha1, Hf1.
  - destruct (send_handshake_first s1 reply) as (s2' & Hrun2' & _ & _ & _ & _ & Hso); [done|congruence|done..|].
    rewrite Hrun2 in Hrun2'. injection Hrun2' as <-. destruct Hso as (? & ? & ?).
    split_and!; [congruence| |]; unfold acc, in_flight, send_buf in *; by rewrite Hb2, Hi2.
Qed.
End opening.

Section secure.
Context `{Build} `{StreambufLaws} `{SodiumLaws} (n : nat).
#[local] Instance secure_P : Protocol := secure_protocol.secure_Protocol n.
Import session.

Lemma recv_size_enough k : k ≤ 202 → k ≤ recv_size.
Proof. unfold recv_size. lia. Qed.

Lemma fresh_not_established (acc : bool) (hd : nat) (r : rng) k p :
  (if acc then secure_protocol.accepted else secure_protocol.connected) (secure_protocol.make hd r) = (Ret k, p) →
  secure_protocol.is_established p = false.
Proof.
  intros Hrun. destruct (start_spec acc hd r) as (p' & h & Hst & (_ & _ & _ & Hh) & (_ & _ & _ & Hes & _) & _).
  rewrite Hrun in Hst. injection Hst as _ ->. unfold secure_protocol.is_established.
  rewrite Hh. unfold sodium_handshake.is_established. by rewrite Hes, andb_false_r.
Qed.

(** One end of the handshake, from [start] on: it sends its key, answers the key of its
    peer with its nonce, and is established when the nonce of its peer arrives. *)
Record opens (is_accepted : bool) (ep : str * str) hd r k nonce k' nonce' p (s : nat → state) : Prop := {
  opens_start : start (Some ep) (open_socket hd (make is_accepted r)) = (Ret tt, s 0);
  opens_key : sending (s 0) = true ∧ in_flight (s 0) = k;
  opens_key_sent : handle_send false (length (in_flight (s 0))) (s 0) = (Ret tt, s 1);
  opens_key_got : handle_recv false k' (s 1) = (Ret tt, s 2);
  opens_nonce : sending (s 2) = true ∧ in_flight (s 2) = nonce;
  opens_nonce_sent : handle_send false (length (in_flight (s 2))) (s 2) = (Ret tt, s 3);
  opens_nonce_got : handle_recv false nonce' (s 3) = (Ret tt, s 4);
  opens_idle : idle_end (s 4);
  opens_proto : protocol (s 4) = Some p;
  opens_prepared : length (sb_output (recv_buf (s 4))) = recv_size;
  opens_told : proto_is_established p = true → on_established ∈ events (s 4)
}.

Lemma handshake_end (is_accepted : bool) ep hd r k nonce k' nonce' (p1 p2 p3 : secure_protocol.state) :
  0 < hd → k ≠ [] → nonce ≠ [] → length k' ≤ 202 → length nonce' ≤ 202 →
  (if is_accepted then secure_protocol.accepted else secure_protocol.connected) (secure_protocol.make hd r) = (Ret k, p1) →
  secure_protocol.handshake k' p1 = (Ret (length k', nonce), p2) → secure_protocol.is_established p2 = false →
  secure_protocol.handshake nonce' p2 = (Ret (length nonce', []), p3) →
  ∃ s, opens is_accepted ep hd r k nonce k' nonce' p3 s.
Proof.
  intros Hhd Hk Hn Hk' Hn' Hst Hkey He2 Hnonce.
  destruct (@start_handshake _ _ secure_P _ is_accepted ep hd r k p1 Hhd Hk Hst (fresh_not_established is_accepted hd r k p1 Hst))
    as (s0 & R0 & G0 & P0 & _ & S0).
  destruct (@complete_handshake _ _ secure_P _ p1 k s0 G0 P0 S0) as (s1 & R1 & W1 & _).
  destruct (@arrive_handshake _ _ secure_P _ p1 p2 k' nonce s1 W1 (recv_size_enough _ Hk') Hkey) as (s2 & R2 & O2 & Q2 & B2 & P2 & S2 & _).
  rewrite decide_False in S2 by done.
  destruct (@complete_handshake _ _ secure_P _ p2 nonce s2 ltac:(by split_and!) P2 S2) as (s3 & R3 & W3 & _).
  destruct (@arrive_handshake _ _ secure_P _ p2 p3 nonce' [] s3 W3 (recv_size_enough _ Hn') Hnonce) as (s4 & R4 & O4 & Q4 & B4 & P4 & S4 & E4).
  rewrite decide_True in S4 by done. destruct S0 as (? & ? & _), S2 as (? & ? & _), S4.
  exists (λ i, nth i [s0; s1; s2; s3; s4] s4). by split; try split.
Qed.

(** What is under way at an end in its handshake. *)
Lemma opens_in_hand acc ep hd r k nonce k' nonce' p s :
  opens acc ep hd r k nonce k' nonce' p s →
  in_hand (Completed 0 0) (s 0) ∧ in_hand (Completed 1 0) (s 1) ∧ in_hand (Completed 1 1) (s 2) ∧
  in_hand (Completed 2 1) (s 3) ∧ in_hand (Completed 2 2) (s 4).
Proof.
  intros [R0 [S0 _] R1 R2 [S2 _] R3 R4 _ _ _ _]. pose proof (in_hand_start _ _ _ _ _ R0) as H0'.
  pose proof (in_hand_complete _ _ _ _ H0' S0 R1) as H1'. pose proof (in_hand_arrive _ _ _ _ H1' R2) as H2'.
  pose proof (in_hand_complete _ _ _ _ H2' S2 R3) as H3'. pose proof (in_hand_arrive _ _ _ _ H3' R4) as H4'.
  by split_and!.
Qed.

(** The message an end sends is on its way; then it has arrived. *)
Lemma step_complete_end d (c : conn) a' bs :
  in_hand (ops d c) (at_end d c) → sending (at_end d c) = true → in_flight (at_end d c) = bs → bs ≠ [] →
  handle_send false (length (in_flight (at_end d c))) (at_end d c) = (Ret tt, a') → transit d c = [] →
  conn_step c (sent d 0) (set_ops d (sent_one (ops d c)) (set_end d a' (set_transit d bs c))).
Proof.
  intros [Hu _]%in_hand_under_way Hs <- Hne Hrun Ht. rewrite Hs in Hu.
  assert (0 < length (in_flight (at_end d c))) by (destruct (in_flight _); simpl; [done|lia]).
  pose proof (step_complete d (in_flight (at_end d c)) (length (in_flight (at_end d c))) c a'
    ltac:(by rewrite Hu) ltac:(lia) Hrun) as Hst.
  rewrite Ht, Nat.sub_diag, take_ge in Hst by done. exact Hst.
Qed.

Lemma step_arrive_all d (c : conn) bs b' :
  in_hand (ops (other d) c) (at_end (other d) c) → transit d c = bs → bs ≠ [] → length bs ≤ recv_size →
  handle_recv false bs (at_end (other d) c) = (Ret tt, b') →
  conn_step c (got d (newly_received (at_end (other d) c) b'))
    (set_ops (other d) (received_one (ops (other d) c)) (set_end (other d) b' (set_transit d [] c))).
Proof. intros [_ Hu]%in_hand_under_way Ht. apply step_arrive; [rewrite Hu; lia|by rewrite app_nil_r]. Qed.

(** The two ends together. *)
Lemma handshake_steps acc epa ha ra acc' epb hb rb ka na kb nb pa pb (a b : nat → state) :
  opens acc epa ha ra ka na kb nb pa a → opens acc' epb hb rb kb nb ka na pb b →
  ka ≠ [] → kb ≠ [] → na ≠ [] → nb ≠ [] →
  length ka ≤ 202 → length kb ≤ 202 → length na ≤ 202 → length nb ≤ 202 →
  ∃ ls, steps conn_step (opened (a 0) (b 0)) ls (Conn (a 4) (b 4) [] [] (Completed 2 2) (Completed 2 2)) ∧
    sent_in_full ls ∧ ∀ d, puts d ls = [].
Proof.
  intros Oa Ob. destruct (opens_in_hand _ _ _ _ _ _ _ _ _ _ Oa) as (Ia0 & Ia1 & Ia2 & Ia3 & _).
  destruct (opens_in_hand _ _ _ _ _ _ _ _ _ _ Ob) as (Ib0 & Ib1 & Ib2 & Ib3 & _).
  destruct Oa as [_ [Ya0 Fa0] Ra1 Ra2 [Ya2 Fa2] Ra3 Ra4 _ _ _ _], Ob as [_ [Yb0 Fb0] Rb1 Rb2 [Yb2 Fb2] Rb3 Rb4 _ _ _ _].
  intros Hka Hkb Hna Hnb
    Zka%recv_size_enough Zkb%recv_size_enough Zna%recv_size_enough Znb%recv_size_enough.
  eexists. split.
  - eapply steps_cons; [exact (step_complete_end near (Conn (a 0) (b 0) [] [] (Completed 0 0) (Completed 0 0)) (a 1) ka Ia0 Ya0 Fa0 Hka Ra1 eq_refl)|].
    eapply steps_cons; [exact (step_complete_end far (Conn (a 1) (b 0) ka [] (Completed 1 0) (Completed 0 0)) (b 1) kb Ib0 Yb0 Fb0 Hkb Rb1 eq_refl)|].
    eapply steps_cons; [exact (step_arrive_all far (Conn (a 1) (b 1) ka kb (Completed 1 0) (Completed 1 0)) kb (a 2) Ia1 eq_refl Hkb Zkb Ra2)|].
    eapply steps_cons; [exact (step_arrive_all near (Conn (a 2) (b 1) ka [] (Completed 1 1) (Completed 1 0)) ka (b 2) Ib1 eq_refl Hka Zka Rb2)|].
    eapply steps_cons; [exact (step_complete_end near (Conn (a 2) (b 2) [] [] (Completed 1 1) (Completed 1 1)) (a 3) na Ia2 Ya2 Fa2 Hna Ra3 eq_refl)|].
    eapply steps_cons; [exact (step_complete_end far (Conn (a 3) (b 2) na [] (Completed 2 1) (Completed 1 1)) (b 3) nb Ib2 Yb2 Fb2 Hnb Rb3 eq_refl)|].
    eapply steps_cons; [exact (step_arrive_all far (Conn (a 3) (b 3) na nb (Completed 2 1) (Completed 2 1)) nb (a 4) Ia3 eq_refl Hnb Znb Ra4)|].
    eapply steps_cons; [exact (step_arrive_all near (Conn (a 4) (b 3) na [] (Completed 2 2) (Completed 2 1)) na (b 4) Ib3 eq_refl Hna Zna Rb4)|].
    apply steps_nil.
  - by split; [|intros []].
Qed.
End secure.

(** ** Properties *)

(** C6. From two fresh sockets to two queues.  An accepting and a connecting session over
    [secure_protocol], with any randomness, both start; when each of the four handshake
    messages is sent in full and arrives in a completion of its own, both are established and
    say so, no message was delivered, and the connection is [connected]. *)
Theorem secure_connection_opens `{Build} `{StreambufLaws} `{SodiumLaws} (n : nat)
    (epa epb : str * str) (ha hb : nat) (ra rb : rng) :
  0 < ha → 0 < hb →
  let P := secure_protocol.secure_Protocol n in
  ∃ (A B : @session.state _ P) ls c,
    session.start (Some epa) (session.open_socket ha (@session.make _ P true ra)) = (Ret tt, A) ∧
    session.start (Some epb) (session.open_socket hb (@session.make _ P false rb)) = (Ret tt, B) ∧
    steps conn_step (opened A B) ls c ∧ sent_in_full ls ∧ connected c ∧ (∀ d, puts d ls = []) ∧
    (∀ d, session.on_established ∈ session.events (at_end d c)).
Proof.
  intros Hha Hhb P.
  destruct (handshake_exchange ha hb ra rb)
    as (A1 & B1 & ka & kb & HA & HB & na & nb & (Hlkb & Hlnb & Hka) & (Hlka & Hlna & Hkb & Hna & Hnb) & Hall).
  destruct (Hall [] [] [] []) as (A2 & B2 & A3 & B3 & HA2 & HB2 & HeA2 & HeB2 & HA3 & HB3 & HokA & HokB & HinA & HinB).
  rewrite app_nil_r in HA2, HB2, HA3, HB3.
  destruct (handshake_end n true epa ha ra ka na kb nb A1 A2 A3) as [a Oa]; [(done || lia)..|].
  destruct (handshake_end n false epb hb rb kb nb ka na B1 B2 B3) as [b Ob]; [(done || lia)..|].
  destruct (handshake_steps n _ _ _ _ _ _ _ _ _ _ _ _ _ _ a b Oa Ob) as (ls & Hls & Hfull & Hputs); [(done || lia)..|].
  destruct (opens_in_hand n _ _ _ _ _ _ _ _ _ _ Oa) as (_ & _ & _ & _ & Ia).
  destruct (opens_in_hand n _ _ _ _ _ _ _ _ _ _ Ob) as (_ & _ & _ & _ & Ib).
  exists (a 0), (b 0), ls, (Conn (a 4) (b 4) [] [] (Completed 2 2) (Completed 2 2)).
  destruct Oa, Ob. split_and!; [done|done|done|done| |done|].
  - split_and!; try done; [by intros []|]. exists A3, B3. split_and!; try done.
    + split; [done|]. exists A3. split_and!; [done|apply HokA|done].
    + split; [done|]. exists B3. split_and!; [done|apply HokB|done].
  - intros []; [apply opens_told0, HokA|apply opens_told1, HokB].
Qed.

Lemma secure_connection_opens_witness :
  let _ := debug_build in
  let P := secure_protocol.secure_Protocol 2 in
  let ra : @rng toy_sodium := 5 in let rb : @rng toy_sodium := 9 in
  ∃ (A B : @session.state _ P) ls c,
    session.start (Some ($"127.0.0.1", $"7000")) (session.open_socket 7 (@session.make _ P true ra)) = (Ret tt, A) ∧
    session.start (Some ($"127.0.0.1", $"7001")) (session.open_socket 8 (@session.make _ P false rb)) = (Ret tt, B) ∧
    steps conn_step (opened A B) ls c ∧ sent_in_full ls ∧ connected c ∧ (∀ d, puts d ls = []) ∧
    (∀ d, session.on_established ∈ session.events (at_end d c)).
Proof.
  intros ? P ra rb. apply (secure_connection_opens 2 ($"127.0.0.1", $"7000") ($"127.0.0.1", $"7001") 7 8 ra rb); lia.
Defined.
