(* ===== verification/SessionHost.v ===== *)
(** * Hosting sessions

    Server and client own session objects through shared pointers and implement
    the interface their sessions notify (play/net/session_handler.hpp).  The
    objects live in a store under their identity; an operation on one of them is
    followed by the notifications it made, in the order it made them. *)

From S2P Require Import Prelude.
From S2P Require Import Serializer.
From S2P Require Import Streambuf.
From S2P Require Import Protocol.
From S2P Require Import Session.

(** A subscriber of a session's notifications: the subclass (the virtual
    [handle_...] members) or the bound pulse listener. *)
Inductive listener := subclass | pulse.

Section notifications.
Context `{Build} `{Protocol}.

Inductive notification :=
  | notify_established (to : listener) (se : nat)
  | notify_closed (to : listener) (se : nat)
  | notify_receive (to : listener) (se : nat) (pic : topic) (frame : bytes).

(** The notifications an operation added. *)
Definition new_events (before after : session.state) : list session.event :=
  drop (length (session.events before)) (session.events after).
(** What a notification of session [se] becomes. *)
Definition forwarded (bound : bool) (se : nat) (e : session.event) : list notification :=
  let to_pulse n := if bound then [n] else [] in
  match e with
  | session.on_established => notify_established subclass se :: to_pulse (notify_established pulse se)
  | session.on_closed => notify_closed subclass se :: to_pulse (notify_closed pulse se)
  | session.on_receive pic f =>
      to_pulse (notify_receive pulse se pic f) ++ [notify_receive subclass se pic f]
  | _ => []
  end.
End notifications.

(** The owner's part: where the objects are and what it does when notified. *)
Class SessionHost `{Protocol} (S : Type) := {
  objects : S → gmap nat session.state;
  set_objects : gmap nat session.state → S → S;
  on_session_event : nat → session.state → session.event → S → S
}.

Section host.
Context `{Build} `{Protocol} {S : Type} `{!SessionHost S}.

(** [se->m()] *)
Definition call {A} (se : nat) (m : M session.state A) : M S A := λ s,
  match objects s !! se with
  | None => (Undefined, s)
  | Some o =>
      let '(r, o') := m o in
      (r, foldl (λ s e, on_session_event se o' e s) (set_objects (<[se:=o']> (objects s)) s)
            (new_events o o'))
  end.

Lemma call_run {A} se (m : M session.state A) s o r o' es :
  objects s !! se = Some o → m o = (r, o') → session.events o' = session.events o ++ es →
  call se m s = (r, foldl (λ s e, on_session_event se o' e s)
    (set_objects (<[se:=o']> (objects s)) s) es).
Proof.
  intros Hse Hm He. unfold call, new_events. rewrite Hse, Hm, He. by rewrite drop_app_length.
Qed.
End host.
