(* ===== verification/Server.v ===== *)
(** * play/net/server.{hpp,ipp}

    Accepts connections, keeps the sessions in a map and forwards their
    notifications to the subclass and to the bound pulse listener. *)

From S2P Require Import Prelude.
From S2P Require Import Serializer.
From S2P Require Import Streambuf.
From S2P Require Import Protocol.
From S2P Require Import PlainProtocol.
From S2P Require Import Session.
From S2P Require Import SecureSession.
From S2P Require Import SessionHost.

Module server.
Section server.
Context `{Build} `{Protocol}.

(** [sessions_] maps handles to objects; [accepting] is the object of the
    pending [async_accept]; the acceptor and the listener are pointers of which
    only nullness matters.  [seeds] feeds the sessions' protocols. *)
Record state := State {
  acceptor : bool;
  listener_bound : bool;
  sessions : gmap nat nat;
  store : gmap nat session.state;
  next_object : nat;
  accepting : option nat;
  seeds : nat → entropy;
  notified : list notification
}.

Definition make (seeds : nat → entropy) : state :=
  State false false ∅ ∅ 0 None seeds [].

Definition set_acceptor (b : bool) (s : state) : state :=
  State b (listener_bound s) (sessions s) (store s) (next_object s) (accepting s) (seeds s) (notified s).
Definition set_listener (b : bool) (s : state) : state :=
  State (acceptor s) b (sessions s) (store s) (next_object s) (accepting s) (seeds s) (notified s).
Definition set_sessions (m : gmap nat nat) (s : state) : state :=
  State (acceptor s) (listener_bound s) m (store s) (next_object s) (accepting s) (seeds s) (notified s).
Definition set_store (m : gmap nat session.state) (s : state) : state :=
  State (acceptor s) (listener_bound s) (sessions s) m (next_object s) (accepting s) (seeds s) (notified s).
Definition set_accepting (o : option nat) (s : state) : state :=
  State (acceptor s) (listener_bound s) (sessions s) (store s) (next_object s) o (seeds s) (notified s).
Definition notify (ns : list notification) (s : state) : state :=
  State (acceptor s) (listener_bound s) (sessions s) (store s) (next_object s) (accepting s) (seeds s)
    (notified s ++ ns).

(** [std::make_shared<session>] for an accepting session *)
Definition new_session (s : state) : nat * state :=
  (next_object s,
   State (acceptor s) (listener_bound s) (sessions s)
     (<[next_object s := session.make true (seeds s (next_object s))]> (store s))
     (S (next_object s)) (accepting s) (seeds s) (notified s)).

(** What reaches the pulse, when one is bound. *)
Definition to_pulse (s : state) (n : notification) : list notification :=
  if listener_bound s then [n] else [].

(** [on_established(session)] *)
Definition on_established (se : nat) (s : state) : state :=
  notify (notify_established subclass se :: to_pulse s (notify_established pulse se)) s.

(** [on_closed(session, ec)] *)
Definition on_closed (se : nat) (handle : nat) (s : state) : state :=
  let s := set_sessions (delete handle (sessions s)) s in
  notify (notify_closed subclass se :: to_pulse s (notify_closed pulse se)) s.

(** [on_receive(session, topic, data, len)] *)
Definition on_receive (se : nat) (pic : topic) (frame : bytes) (s : state) : state :=
  notify (to_pulse s (notify_receive pulse se pic frame) ++ [notify_receive subclass se pic frame]) s.

#[export] Instance server_host : SessionHost state := {|
  objects := store;
  set_objects := set_store;
  on_session_event se o e s :=
    match e with
    | session.on_established => on_established se s
    | session.on_closed => on_closed se (session.handle o) s
    | session.on_receive pic frame => on_receive se pic frame s
    | _ => s
    end
|}.

(** [bind_pulse(listener)]: [false] is the null pointer *)
Definition bind_pulse (listener : bool) : M state unit :=
  _ ← PLAY_CHECK listener; modify (set_listener listener).

(** [get_session(handle)] *)
Definition get_session (handle : nat) (s : state) : option nat := sessions s !! handle.

(** [start_accept()]: starting the accept dereferences [acceptor_] *)
Definition start_accept : M state unit :=
  s ← get;
  let '(se, s') := new_session s in
  _ ← put s';
  s ← get (S:=state);
  if acceptor s then modify (set_accepting (Some se)) else undefined.

(** [on_start()] and [on_stop()] of the class itself *)
Definition on_start : M state bool := mret true.
Definition on_stop : M state unit := mret tt.

(** [start(port)]; [listening] tells whether opening, binding and listening
    succeed (they throw otherwise, with the acceptor already created). *)
Definition start (listening : bool) : M state bool :=
  started ← try_catch
    (_ ← modify (set_acceptor true);
     _ ← (if listening then mret tt else throw (std_exception $"bind"));
     _ ← start_accept;
     mret true)
    (λ _, mret false);
  if (started : bool) then on_start else mret false.

(** [stop()] *)
Definition stop : M state unit :=
  _ ← on_stop;
  s ← get;
  when (acceptor s) (modify (set_acceptor false)).

(** [handle_accept(se, ec)]: on success the socket of the session is open with
    descriptor [fd] and remote endpoint [ep]. *)
Definition handle_accept (se : nat) (ec : bool) (fd : nat) (ep : option (str * str)) : M state unit :=
  _ ← (if negb ec then
         _ ← call se (modify (session.open_socket fd));
         s ← get;
         o ← deref (store s !! se);
         _ ← modify (λ s, set_sessions
               (match sessions s !! session.handle o with
                | Some _ => sessions s                     (* insert does not overwrite *)
                | None => <[session.handle o := se]> (sessions s)
                end) s);
         call se (session.start ep)
       else mret tt);
  start_accept.

(** The pending [async_accept] completes: the handler runs with the object it
    captured. *)
Definition accept_completed (ec : bool) (fd : nat) (ep : option (str * str)) : M state unit :=
  s ← get;
  se ← deref (accepting s);
  _ ← modify (set_accepting None);
  handle_accept se ec fd ep.
End server.
End server.
#[export] Existing Instance server.server_host.

Section facts.
Context `{Build} `{Protocol}.
Import server.
Implicit Types s : state.

(** What the completions, the owner and the sessions do. *)
Inductive operation :=
  | op_start (listening : bool)
  | op_stop
  | op_bind_pulse (l : bool)
  | op_accepted (ec : bool) (fd : nat) (ep : option (str * str))
  | op_session (se : nat) (o : Session.operation).

Definition perform (o : operation) : M state unit :=
  match o with
  | op_start l => _ ← start l; mret tt
  | op_stop => stop
  | op_bind_pulse l => bind_pulse l
  | op_accepted ec fd ep => accept_completed ec fd ep
  | op_session se o => call se (Session.perform o)
  end.

(** Nobody but the server refers to the object of the pending accept. *)
Inductive server_step : state → operation → state → Prop :=
  server_does s o s' :
    (∀ se so, o = op_session se so → accepting s ≠ Some se) →
    s' = (perform o s).2 → server_step s o s'.

(** The registry only ever holds the key 0. *)
Definition registry_ok s : Prop :=
  (∀ h se, sessions s !! h = Some se → h = 0) ∧
  (∀ se, accepting s = Some se → ∃ o, store s !! se = Some o ∧ session.handle o = 0).

Lemma on_events_registry se o es s :
  registry_ok s → registry_ok (foldl (λ s e, on_session_event se o e s) s es).
Proof.
  revert s. induction es as [|e es IH]; intros s Hs; [done|]. simpl. apply IH.
  destruct e; try done; destruct Hs as [Hk Ha]; split; try done.
  simpl. intros h se' [_ Hse]%lookup_delete_Some. by eapply Hk.
Qed.

Lemma on_events_accepting se o es s :
  accepting (foldl (λ s e, on_session_event se o e s) s es) = accepting s.
Proof. revert s. induction es as [|e es IH]; intros s; [done|]. simpl. rewrite IH. by destruct e. Qed.

Lemma call_registry {A} se (m : M session.state A) s :
  accepting s ≠ Some se → registry_ok s → registry_ok (call se m s).2.
Proof.
  intros Hne [Hk Ha]. unfold call. simpl. destruct (store s !! se) as [o|]; [|done].
  destruct (m o) as [r o']. simpl. apply on_events_registry. split; [done|].
  simpl. intros se' Hse'. rewrite lookup_insert_ne by congruence. auto.
Qed.

Lemma start_accept_registry s : registry_ok s → registry_ok (start_accept s).2.
Proof.
  intros [Hk Ha]. unfold start_accept. run. destruct (acceptor s); simpl; split; simpl; try done.
  - intros se [= <-]. rewrite lookup_insert_eq. by eexists.
  - intros se Hse. destruct (decide (se = next_object s)) as [->|Hne].
    + rewrite lookup_insert_eq. by eexists.
    + rewrite lookup_insert_ne by done. auto.
Qed.

Lemma accept_completed_registry ec fd ep s :
  registry_ok s → registry_ok (accept_completed ec fd ep s).2.
Proof.
  intros [Hk Ha]. unfold accept_completed, handle_accept. unfold_M.
  destruct (accepting s) as [se|] eqn:Hse; [|split; [done|]; simpl; congruence]. simpl.
  destruct (Ha se eq_refl) as (o & Ho & Hh).
  set (s1 := set_accepting None s).
  assert (registry_ok s1) as Hs1 by (by split).
  destruct (negb ec); [|by apply start_accept_registry]. cbv beta iota.
  rewrite (call_run se _ s1 o (Ret tt) (session.open_socket fd o) []) by (done || by rewrite app_nil_r).
  simpl. rewrite lookup_insert_eq. simpl. rewrite Hh.
  match goal with |- context [call se (session.start ep) ?x] => set (s2 := x) end.
  assert (accepting s2 = None ∧ registry_ok s2) as [Ha2 Hs2].
  { subst s2. split; [done|]. split; [|done]. simpl.
    intros h se'. destruct (sessions s !! 0) eqn:Hz; [apply Hk|].
    intros [[<- _]|[_ ?]]%lookup_insert_Some; [done|by eapply Hk]. }
  assert (registry_ok (call se (session.start ep) s2).2) as Hs3
    by (apply call_registry; [by rewrite Ha2|done]).
  destruct (call se (session.start ep) s2) as [[] s3]; try done.
  by apply start_accept_registry.
Qed.

Lemma server_step_registry s o s' : server_step s o s' → registry_ok s → registry_ok s'.
Proof.
  intros [s0 o0 s0' Hop ->] Hs. destruct o0 as [l| |l|ec fd ep|se so]; simpl.
  - revert Hs. apply (preserves_elim _ (_ ← start l; mret tt)). unfold start, on_start. preserve.
    + done.
    + intros s1 Hs1. by apply start_accept_registry.
  - unfold stop, on_stop. unfold_M. by destruct (acceptor s0).
  - unfold bind_pulse, PLAY_CHECK. unfold_M. destruct l; [done|]. by destruct assertions.
  - by apply accept_completed_registry.
  - apply call_registry; [by eapply Hop|done].
Qed.

Lemma on_events_forward se o es s :
  let s' := foldl (λ s e, on_session_event se o e s) s es in
  listener_bound s' = listener_bound s ∧ store s' = store s ∧
  notified s' = notified s ++ flat_map (forwarded (listener_bound s) se) es ∧
  sessions s' = (if decide (closed_count es = 0) then sessions s
                 else delete (session.handle o) (sessions s)).
Proof.
  revert s. induction es as [|e es IH]; intros s.
  { simpl. rewrite app_nil_r. split_and!; try done. }
  cbn [foldl flat_map]. destruct (IH (on_session_event se o e s)) as (Hl & Hst & Hn & Hs).
  rewrite Hl, Hst, Hn, Hs. split_and!.
  - by destruct e.
  - by destruct e.
  - rewrite (assoc_L app). f_equal; [|by destruct e].
    destruct e; simpl; unfold to_pulse; by rewrite ?app_nil_r.
  - clear. unfold closed_count. destruct e; simpl; try done.
    destruct (decide _); [done|by rewrite delete_delete_eq].
Qed.

(** [session::start] when the peer is gone before its address is asked for. *)
Lemma start_no_endpoint `{!StreambufLaws} fd r k p :
  0 < fd → proto_accepted (proto_make fd r) = (Ret k, p) →
  ∃ o es, session.start None (session.open_socket fd (session.make true r))
    = (Throw (std_exception $"remote_endpoint"), o) ∧ session.events o = map session.async_send es.
Proof.
  intros Hfd Hacc.
  set (o0 := session.open_socket fd (session.make true r)). set (o1 := session.set_handle fd o0).
  set (o2 := session.set_protocol (Some (proto_make fd r)) o1).
  set (o3 := session.set_protocol (Some p) o2).
  destruct (send_handshake_quiet o3 k) as (o4 & Hrun & [es Hes] & _); [done|].
  exists o4, es. split; [|done].
  unfold session.start. rewrite (bind_run _ _ o0 o0 o0) by done.
  rewrite (bind_run _ _ o0 tt o0) by (by apply check_true).
  rewrite (bind_run _ _ o0 tt o1) by done.
  rewrite (bind_run _ _ o1 tt o1) by (by apply check_true, Nat.ltb_lt).
  rewrite (bind_run _ _ o1 tt o2) by done.
  rewrite (bind_run _ _ o2 tt o4); [done|].
  change (session.accepted o0) with true. cbv iota. rewrite (bind_run _ _ o2 k o3); [done|].
  unfold session.on_protocol. simpl. by rewrite Hacc.
Qed.

Lemma call_spec {A} se (m : M session.state A) s o es :
  store s !! se = Some o → session.events (m o).2 = session.events o ++ es →
  ∃ s', call se m s = ((m o).1, s') ∧ listener_bound s' = listener_bound s ∧
    accepting s' = accepting s ∧
    store s' = <[se:=(m o).2]> (store s) ∧
    notified s' = notified s ++ flat_map (forwarded (listener_bound s) se) es ∧
    sessions s' = (if decide (closed_count es = 0) then sessions s
                   else delete (session.handle (m o).2) (sessions s)).
Proof.
  intros Hse He. destruct (m o) as [r o'] eqn:Hm. simpl in *.
  rewrite (call_run se m s o r o' es) by done. eexists. split; [done|].
  destruct (on_events_forward se o' es (set_store (<[se:=o']> (store s)) s)) as (? & ? & ? & ?).
  split_and!; try done. by rewrite on_events_accepting.
Qed.
End facts.

(** ** Properties *)

(** C31. [handle_accept] registers a session under the handle it has before
    [session::start] assigns the real one, which is always 0.  Whatever the server,
    its sessions and its clients do, no session is ever found under its own handle,
    the registry holds at most the one session that was registered first, and
    erasing by the real handle never removes it. *)
Theorem server_registry_key `{Build} `{Protocol} (seeds : nat → entropy) ls s' :
  steps server_step (server.make seeds) ls s' →
  (∀ h se, server.sessions s' !! h = Some se → h = 0) ∧
  (∀ se o, server.store s' !! se = Some o → 0 < session.handle o →
     server.get_session (session.handle o) s' = None).
Proof.
  intros Hst.
  assert (registry_ok s') as [Hk _].
  { eapply (steps_invariant server_step registry_ok); [|exact Hst|].
    - intros s l s1. apply server_step_registry.
    - split; simpl; [intros h se Hl; by rewrite lookup_empty in Hl|done]. }
  split; [done|]. intros se o _ Hh. unfold server.get_session.
  destruct (server.sessions s' !! session.handle o) as [x|] eqn:Hl; [|done].
  apply Hk in Hl. lia.
Qed.

(** A server over the plain protocol that accepted one connection. *)
Definition example_server `{Build} : @server.state _ plain2 :=
  let s0 := @server.make _ plain2 (λ _, tt) in
  let s1 := (server.start true s0).2 in
  (server.accept_completed false 5 (Some ($"127.0.0.1", $"7000")) s1).2.

Lemma server_registry_key_witness :
  let _ := debug_build in
  (∀ h se, server.sessions example_server !! h = Some se → h = 0) ∧
  (∀ se o, server.store example_server !! se = Some o → 0 < session.handle o →
     server.get_session (session.handle o) example_server = None).
Proof.
  intros ?.
  apply (@server_registry_key _ _ plain2 (λ _, tt)
    [op_start true; op_accepted false 5 (Some ($"127.0.0.1", $"7000"))] example_server).
  eapply steps_cons; [by apply server_does|]. eapply steps_cons; [by apply server_does|].
  apply steps_nil.
Defined.

(** C16. Whatever operation runs on a session, its notifications reach the
    subclass and, when one is bound, the pulse listener: exactly once each, in the
    order they were made, [on_receive] at the pulse first and the other two at the
    subclass first.  A session that reports its end is erased under its handle; the
    operation's result is the session's own. *)
Theorem server_forwards `{Build} `{Protocol} {A} (se : nat) (m : M session.state A)
    (s : server.state) (o : session.state) (es : list session.event) :
  server.store s !! se = Some o → session.events (m o).2 = session.events o ++ es →
  (call se m s).1 = (m o).1 ∧
  server.store (call se m s).2 = <[se:=(m o).2]> (server.store s) ∧
  server.notified (call se m s).2
    = server.notified s ++ flat_map (forwarded (server.listener_bound s) se) es ∧
  server.get_session (session.handle (m o).2) (call se m s).2
    = (if decide (closed_count es = 0) then server.get_session (session.handle (m o).2) s else None).
Proof.
  intros Hse He. destruct (call_spec se m s o es Hse He) as (s' & -> & _ & _ & Hst & Hn & Hs).
  split_and!; [done..|]. unfold server.get_session. simpl. rewrite Hs.
  destruct (decide (closed_count es = 0)); [done|]. apply lookup_delete_eq.
Qed.

Lemma server_forwards_witness :
  let _ := debug_build in
  let o := plain_session true in
  let s := @server.State _ plain2 true true {[0:=0]} {[0:=o]} 1 None (λ _, tt) [] in
  let m := @session.handle_recv _ _ plain2 false [x02; x01; x02; x00; x00; x00; x41; x42] in
  (call 0 m s).1 = (m o).1 ∧
  server.store (call 0 m s).2 = <[0:=(m o).2]> (server.store s) ∧
  server.notified (call 0 m s).2 = server.notified s ++
    [@notify_receive _ plain2 pulse 0 258%Z [x41; x42];
     @notify_receive _ plain2 subclass 0 258%Z [x41; x42]] ∧
  server.get_session (session.handle (m o).2) (call 0 m s).2
    = server.get_session (session.handle (m o).2) s.
Proof.
  intros ? o s m.
  apply (@server_forwards _ _ plain2 _ 0 m s o
    [@session.on_receive _ plain2 258%Z [x41; x42]; session.async_receive]).
  - apply lookup_singleton_eq.
  - reflexivity.
Defined.

(** Two ways the accepting side ends.  A connection whose peer is already
    gone makes [session::start] throw when it asks for the remote address; the
    exception leaves [handle_accept] before the next [start_accept], so no accept
    is pending any more.  And after [stop] the completion of the cancelled accept
    calls [start_accept] on the null acceptor. *)
Theorem accept_hazards `{Build} `{Protocol} `{!StreambufLaws}
    (s : server.state) (se fd : nat) (r : entropy) (k : bytes) (p : proto) :
  server.accepting s = Some se → server.store s !! se = Some (session.make true r) →
  0 < fd → proto_accepted (proto_make fd r) = (Ret k, p) →
  (∃ s', server.accept_completed false fd None s
      = (Throw (std_exception $"remote_endpoint"), s') ∧ server.accepting s' = None) ∧
  (∃ s' s'', server.stop s = (Ret tt, s') ∧
     server.accept_completed true fd None s' = (Undefined, s'')).
Proof.
  intros Ha Hse Hfd Hacc. split.
  - set (s1 := server.set_accepting None s).
    destruct (call_spec se (modify (session.open_socket fd)) s1 _ [] Hse)
      as (s2 & Hc2 & _ & Ha2 & Hst2 & _ & Hs2); [by rewrite app_nil_r|]. simpl in Hst2.
    set (s3 := server.set_sessions (match server.sessions s2 !! 0 with
      | Some _ => server.sessions s2 | None => <[0:=se]> (server.sessions s2) end) s2).
    destruct (start_no_endpoint fd r k p Hfd Hacc) as (o & es & Hstart & He).
    destruct (call_spec se (session.start None) s3 (session.open_socket fd (session.make true r))
      (map session.async_send es)) as (s4 & Hc4 & _ & Ha4 & _).
    { simpl. by rewrite Hst2, lookup_insert_eq. }
    { rewrite Hstart. simpl. exact He. }
    rewrite Hstart in Hc4. simpl in Hc4. exists s4. split; [|by rewrite Ha4].
    unfold server.accept_completed, server.handle_accept.
    rewrite (bind_run _ _ s s s) by done. rewrite Ha. rewrite (bind_run _ _ s se s) by done.
    rewrite (bind_run _ _ s tt s1) by done. cbn [negb].
    rewrite (bind_stop _ _ s1 (Throw (std_exception $"remote_endpoint")) s4); [done| |done].
    rewrite (bind_run _ _ s1 tt s2) by done. rewrite (bind_run _ _ s2 s2 s2) by done.
    rewrite Hst2, lookup_insert_eq. rewrite (bind_run _ _ s2 _ s2) by done.
    rewrite (bind_run _ _ s2 tt s3) by done. exact Hc4.
  - exists (server.set_acceptor false s). eexists. split.
    + unfold server.stop, server.on_stop. run. destruct (server.acceptor s) eqn:Hac; [done|].
      destruct s; simpl in *; by rewrite Hac.
    + unfold server.accept_completed. run. rewrite Ha. run. done.
Qed.

Lemma accept_hazards_witness :
  let _ := debug_build in
  let s := (server.start true (@server.make _ plain2 (λ _, tt))).2 in
  (∃ s', server.accept_completed false 5 None s
      = (Throw (std_exception $"remote_endpoint"), s') ∧ server.accepting s' = None) ∧
  (∃ s' s'', server.stop s = (Ret tt, s') ∧
     server.accept_completed true 5 None s' = (Undefined, s'')).
Proof.
  intros ? s.
  eapply (@accept_hazards _ _ plain2 _ s 0 5 tt []); [reflexivity|reflexivity|lia|reflexivity].
Defined.
