(* ===== verification/Client.v ===== *)
(** * play/net/client.{hpp,ipp}

    Connects to a server, keeps the current session and forwards its notifications.
    A connect that failed is tried again on the same socket. *)

From S2P Require Import Prelude.
From S2P Require Import Serializer.
From S2P Require Import Streambuf.
From S2P Require Import Protocol.
From S2P Require Import PlainProtocol.
From S2P Require Import Session.
From S2P Require Import SessionHost.

Module client.
Section client.
Context `{Build} `{Protocol}.

(** [connecting] lists the objects a connect was started on. *)
Record state := State {
  addr : str;
  port : Z;
  endpoint : str * Z;
  current : option nat;         (** [session_] *)
  listener_bound : bool;
  store : gmap nat session.state;
  next_object : nat;
  seeds : nat → entropy;
  connecting : list nat;
  notified : list notification
}.

Definition make (seeds : nat → entropy) : state :=
  State [] 0 ([], 0%Z) None false ∅ 0 seeds [] [].

Definition set_address (a : str) (p : Z) (s : state) : state :=
  State a p (endpoint s) (current s) (listener_bound s) (store s) (next_object s) (seeds s)
    (connecting s) (notified s).
Definition set_endpoint (e : str * Z) (s : state) : state :=
  State (addr s) (port s) e (current s) (listener_bound s) (store s) (next_object s) (seeds s)
    (connecting s) (notified s).
Definition set_current (o : option nat) (s : state) : state :=
  State (addr s) (port s) (endpoint s) o (listener_bound s) (store s) (next_object s) (seeds s)
    (connecting s) (notified s).
Definition set_listener (b : bool) (s : state) : state :=
  State (addr s) (port s) (endpoint s) (current s) b (store s) (next_object s) (seeds s)
    (connecting s) (notified s).
Definition set_store (m : gmap nat session.state) (s : state) : state :=
  State (addr s) (port s) (endpoint s) (current s) (listener_bound s) m (next_object s) (seeds s)
    (connecting s) (notified s).
Definition set_connecting (l : list nat) (s : state) : state :=
  State (addr s) (port s) (endpoint s) (current s) (listener_bound s) (store s) (next_object s)
    (seeds s) l (notified s).
Definition notify (ns : list notification) (s : state) : state :=
  State (addr s) (port s) (endpoint s) (current s) (listener_bound s) (store s) (next_object s)
    (seeds s) (connecting s) (notified s ++ ns).

(** [std::make_shared<session>] for a connecting session *)
Definition new_session (s : state) : nat * state :=
  (next_object s,
   State (addr s) (port s) (endpoint s) (current s) (listener_bound s)
     (<[next_object s := session.make false (seeds s (next_object s))]> (store s))
     (S (next_object s)) (seeds s) (connecting s) (notified s)).

Definition to_pulse (s : state) (n : notification) : list notification :=
  if listener_bound s then [n] else [].

(** [on_established(session)] *)
Definition on_established (se : nat) (s : state) : state :=
  notify (notify_established subclass se :: to_pulse s (notify_established pulse se)) s.

(** [on_closed(session, ec)]: whichever session it is, the current one is reset *)
Definition on_closed (se : nat) (s : state) : state :=
  set_current None
    (notify (notify_closed subclass se :: to_pulse s (notify_closed pulse se)) s).

(** [on_receive(session, topic, data, len)] *)
Definition on_receive (se : nat) (pic : topic) (frame : bytes) (s : state) : state :=
  notify (to_pulse s (notify_receive pulse se pic frame) ++ [notify_receive subclass se pic frame]) s.

#[export] Instance client_host : SessionHost state := {|
  objects := store;
  set_objects := set_store;
  on_session_event se o e s :=
    match e with
    | session.on_established => on_established se s
    | session.on_closed => on_closed se s
    | session.on_receive pic frame => on_receive se pic frame s
    | _ => s
    end
|}.

(** [session_->is_open()] *)
Definition current_is_open : M state bool :=
  s ← get;
  se ← deref (current s);
  o ← deref (store s !! se);
  mret (session.is_open o).

(** [async_connect] on the socket of [se]: it opens the socket (descriptor [fd])
    if it is closed. *)
Definition async_connect (se fd : nat) : M state unit :=
  o ← gets (λ s, store s !! se);
  o ← deref o;
  _ ← (if session.is_open o then mret tt else call se (modify (session.open_socket fd)));
  modify (λ s, set_connecting (connecting s ++ [se]) s).

(** [connect(addr, port)]; [valid] tells whether [address::from_string] accepts
    the text (it throws otherwise). *)
Definition connect_to (a : str) (p : Z) (valid : bool) (fd : nat) : M state bool :=
  s ← get;
  open ← (if current s then current_is_open else mret false);
  if (open : bool) then mret false
  else
    _ ← modify (set_address a p);
    _ ← (if valid then mret tt else throw (std_exception $"from_string"));
    _ ← modify (set_endpoint (a, p));
    s ← get (S:=state);
    let '(se, s') := new_session s in
    _ ← put s';
    _ ← modify (set_current (Some se));
    _ ← async_connect se fd;
    mret true.

(** [connect()] *)
Definition connect (valid : bool) (fd : nat) : M state bool :=
  s ← get;
  _ ← PLAY_CHECK (bool_decide (addr s ≠ []));
  _ ← PLAY_CHECK (0 <? port s)%Z;
  connect_to (addr s) (port s) valid fd.

(** [get_session()] *)
Definition get_session (s : state) : option nat := current s.

(** [close()] *)
Definition close : M state unit :=
  open ← current_is_open;
  when open
    (s ← get;
     se ← deref (current s);
     _ ← call se session.close;
     modify (set_current None)).

(** [reconnect()] *)
Definition reconnect (fd : nat) : M state unit :=
  s ← get;
  _ ← PLAY_CHECK (bool_decide (is_Some (current s)));
  open ← current_is_open;
  _ ← PLAY_CHECK (negb open);
  se ← deref (current s);
  async_connect se fd.

(** [handle_connect(ec)] *)
Definition handle_connect (ec : bool) (ep : option (str * str)) (fd : nat) : M state unit :=
  if negb ec then
    s ← get;
    se ← deref (current s);
    call se (session.start ep)
  else reconnect fd.

(** [bind_pulse(pulse)] *)
Definition bind_pulse (pulse : bool) : M state unit :=
  _ ← PLAY_CHECK pulse; modify (set_listener pulse).
End client.
End client.
#[export] Existing Instance client.client_host.

Section facts.
Context `{Build} `{Protocol}.
Import client.
Implicit Types s : state.

Lemma client_events_forward se o es s :
  let s' := foldl (λ s e, on_session_event se o e s) s es in
  listener_bound s' = listener_bound s ∧ store s' = store s ∧ next_object s' = next_object s ∧
  notified s' = notified s ++ flat_map (forwarded (listener_bound s) se) es ∧
  current s' = (if decide (closed_count es = 0) then current s else None).
Proof.
  revert s. induction es as [|e es IH]; intros s.
  { simpl. rewrite app_nil_r. split_and!; try done. }
  cbn [foldl flat_map]. destruct (IH (on_session_event se o e s)) as (Hl & Hst & Hnx & Hn & Hs).
  rewrite Hl, Hst, Hnx, Hn, Hs. split_and!; try by destruct e.
  - rewrite (assoc_L app). f_equal; [|by destruct e].
    destruct e; simpl; unfold to_pulse; by rewrite ?app_nil_r.
  - unfold closed_count. destruct e; simpl; try done. by destruct (decide _).
Qed.

Lemma client_call_spec {A} se (m : M session.state A) s o es :
  store s !! se = Some o → session.events (m o).2 = session.events o ++ es →
  ∃ s', call se m s = ((m o).1, s') ∧ listener_bound s' = listener_bound s ∧
    store s' = <[se:=(m o).2]> (store s) ∧ next_object s' = next_object s ∧
    notified s' = notified s ++ flat_map (forwarded (listener_bound s) se) es ∧
    current s' = (if decide (closed_count es = 0) then current s else None).
Proof.
  intros Hse He. destruct (m o) as [r o'] eqn:Hm. simpl in *.
  rewrite (call_run se m s o r o' es) by done. eexists. split; [done|].
  by destruct (client_events_forward se o' es (set_store (<[se:=o']> (store s)) s))
    as (? & ? & ? & ? & ?).
Qed.

Lemma current_is_open_spec s se o :
  current s = Some se → store s !! se = Some o →
  current_is_open s = (Ret (session.is_open o), s).
Proof. intros Hc Ho. unfold current_is_open. run. by rewrite Hc, Ho. Qed.

(** A new connection from a client without an open session. *)
Lemma connect_to_spec s a p fd :
  (∀ se, current s = Some se → ∃ o, store s !! se = Some o ∧ session.is_open o = false) →
  ∃ s', connect_to a p true fd s = (Ret true, s') ∧ current s' = Some (next_object s) ∧
    store s' !! next_object s
      = Some (session.open_socket fd (session.make false (seeds s (next_object s)))) ∧
    connecting s' = connecting s ++ [next_object s] ∧ addr s' = a ∧ port s' = p ∧
    notified s' = notified s.
Proof.
  intros Hcur. set (se := next_object s). set (o := session.make false (seeds s se)).
  set (s1 := set_current (Some se) (new_session (set_endpoint (a, p) (set_address a p s))).2).
  assert (store s1 !! se = Some o) as Ho by apply lookup_insert_eq.
  assert (call se (modify (session.open_socket fd)) s1
    = (Ret tt, set_store (<[se:=session.open_socket fd o]> (store s1)) s1)) as Hc.
  { rewrite (call_run se _ s1 o (Ret tt) (session.open_socket fd o) []); [done..|].
    by rewrite app_nil_r. }
  eexists. split_and!.
  - unfold connect_to. rewrite (bind_run _ _ s s s) by done.
    rewrite (bind_run _ _ s false s); cycle 1.
    { destruct (current s) as [se'|] eqn:Hse; [|done].
      destruct (Hcur se' eq_refl) as (o' & Ho' & <-). by apply (current_is_open_spec s se'). }
    cbv iota. do 3 erewrite bind_run by done. erewrite bind_run by done.
    cbv beta iota zeta delta [new_session]. do 2 erewrite bind_run by done.
    erewrite bind_run; [done|]. unfold async_connect.
    rewrite (bind_run _ _ _ (Some o) s1) by (rewrite <-Ho; done).
    rewrite (bind_run _ _ _ o s1) by done. change (session.is_open o) with false. cbv iota.
    rewrite (bind_run _ _ _ _ _ Hc). done.
  - done.
  - simpl. by rewrite lookup_insert_eq.
  - done.
  - done.
  - done.
  - done.
Qed.
End facts.

(** ** Properties *)

(** C32. The life of a connection.  A client without an open session connects to
    a valid address: it gets a fresh session object on an open socket and refuses a
    second connect meanwhile; an address that does not parse throws without
    touching the session.  When the connection ends with an error the subclass and
    the pulse are told once each, the session is given up and the client can
    connect again. *)
Theorem client_connection_cycle `{Build} `{Protocol} (s : client.state) (a : str) (p : Z) (fd : nat) :
  client.current s = None →
  (client.connect_to a p false fd s).1 = Throw (std_exception $"from_string") ∧
  client.current (client.connect_to a p false fd s).2 = None ∧
  ∃ s1, client.connect_to a p true fd s = (Ret true, s1) ∧
    client.current s1 = Some (client.next_object s) ∧
    client.store s1 !! client.next_object s = Some
      (session.open_socket fd (session.make false (client.seeds s (client.next_object s)))) ∧
    client.connecting s1 = client.connecting s ++ [client.next_object s] ∧
    client.connect_to a p true fd s1 = (Ret false, s1) ∧
  ∀ s2 se o q q' bs,
    client.current s2 = Some se → client.store s2 !! se = Some o →
    session.is_open o = true → session.protocol o = Some q → proto_closed q = (Ret tt, q') →
    ∃ s3, call se (session.handle_recv true bs) s2 = (Ret tt, s3) ∧
      client.current s3 = None ∧
      client.notified s3 = client.notified s2 ++ notify_closed subclass se ::
        (if client.listener_bound s2 then [notify_closed pulse se] else []) ∧
      (client.connect_to a p true fd s3).1 = Ret true.
Proof.
  intros Hcur. split_and!.
  - unfold client.connect_to. run. by rewrite Hcur.
  - unfold client.connect_to. run. by rewrite Hcur.
  - destruct (connect_to_spec s a p fd) as (s1 & Hrun & Hc1 & Hst1 & Hcon & _); [by rewrite Hcur|].
    exists s1. split_and!; [done..| |].
    + unfold client.connect_to. rewrite (bind_run _ _ s1 s1 s1) by done. rewrite Hc1.
      by rewrite (bind_run _ _ s1 true s1) by (exact (current_is_open_spec s1 _ _ Hc1 Hst1)).
    + intros s2 se o q q' bs Hc Ho Hop Hp Hcl.
      pose proof (handle_close_notifies o q q' Hop Hp Hcl) as Hclose.
      destruct (client_call_spec se (session.handle_recv true bs) s2 o [session.on_closed])
        as (s3 & Hr3 & _ & _ & _ & Hn3 & Hc3); [done|by (unfold session.handle_recv; simpl; rewrite Hclose)|].
      unfold session.handle_recv in Hr3. simpl in Hr3. rewrite Hclose in Hr3. simpl in Hr3, Hc3.
      exists s3. split_and!; [exact Hr3|done|rewrite Hn3; simpl; by rewrite app_nil_r|].
      destruct (connect_to_spec s3 a p fd) as (s4 & -> & _); [by rewrite Hc3|done].
Qed.

Lemma client_connection_cycle_witness :
  let _ := debug_build in
  let s := @client.make _ plain2 (λ _, tt) in
  ∃ s1, client.connect_to $"127.0.0.1" 7000 true 5 s = (Ret true, s1) ∧
    client.current s1 = Some 0 ∧
    client.connect_to $"127.0.0.1" 7000 true 5 s1 = (Ret false, s1).
Proof.
  intros ? s.
  destruct (@client_connection_cycle _ _ plain2 s $"127.0.0.1" 7000 5 eq_refl)
    as (_ & _ & s1 & Hr & Hc & _ & _ & Hagain & _).
  by exists s1.
Defined.

(** Calls the client does not survive.  [close] without a session
    dereferences a null pointer, and this is the state after every lost
    connection.  A client closed while it connects forgets the session, and the
    completion of the connect then dereferences it (or stops at the check when
    assertions are on).  And a connect that fails leaves the socket open, which
    [reconnect] checks against: with assertions a failed connect stops the program,
    without them it starts the next attempt on the same object. *)
Theorem client_hazards `{Build} `{Protocol} (s : client.state) (se : nat) (o : session.state)
    (ep : option (str * str)) (fd : nat) :
  client.current s = Some se → client.store s !! se = Some o → session.is_open o = true →
  (client.close (client.set_current None s)).1 = Undefined ∧
  (∃ s', client.close s = (Ret tt, s') ∧
     (client.handle_connect false ep fd s').1 = Undefined ∧
     (client.handle_connect true ep fd s').1 = (if assertions then Aborted else Undefined)) ∧
  (assertions = true → (client.handle_connect true ep fd s).1 = Aborted) ∧
  (assertions = false →
     client.handle_connect true ep fd s
     = (Ret tt, client.set_connecting (client.connecting s ++ [se]) s)).
Proof.
  intros Hc Ho Hop. pose proof (current_is_open_spec s se o Hc Ho) as Hio. rewrite Hop in Hio.
  split_and!; [done| | |].
  - destruct (client_call_spec se session.close s o []) as (s1 & Hr1 & _ & Hst1 & _ & _ & Hc1); [done| |].
    { unfold session.close. run. rewrite Hop. simpl. by rewrite app_nil_r. }
    assert ((session.close o).1 = Ret tt) as Hcl by (unfold session.close; run; by rewrite Hop).
    rewrite Hcl in Hr1. exists (client.set_current None s1). split_and!.
    + unfold client.close. rewrite (bind_run _ _ _ _ _ Hio). cbn [when].
      rewrite (bind_run _ _ s s s) by done. rewrite Hc. rewrite (bind_run _ _ s se s) by done.
      by rewrite (bind_run _ _ s tt s1).
    + done.
    + unfold client.handle_connect, client.reconnect, PLAY_CHECK. run. by destruct assertions.
  - intros Ha. unfold client.handle_connect, client.reconnect. cbn [negb].
    rewrite (bind_run _ _ s s s) by done. rewrite (bind_run _ _ s tt s); cycle 1.
    { apply check_true, bool_decide_eq_true. by exists se. }
    rewrite (bind_run _ _ _ _ _ Hio). by rewrite (bind_stop _ _ s Aborted s) by (by rewrite ?check_fails).
  - intros Ha. unfold client.handle_connect, client.reconnect. cbn [negb].
    rewrite (bind_run _ _ s s s) by done.
    rewrite (bind_run _ _ s tt s) by (by apply check_release).
    rewrite (bind_run _ _ _ _ _ Hio). rewrite (bind_run _ _ s tt s) by (by apply check_release).
    rewrite Hc. rewrite (bind_run _ _ s se s) by done.
    unfold client.async_connect. rewrite (bind_run _ _ s (Some o) s) by (rewrite <-Ho; done).
    rewrite (bind_run _ _ s o s) by done. rewrite Hop. by rewrite (bind_run _ _ s tt s).
Qed.

Lemma client_hazards_witness :
  let _ := release_build in
  let s := (client.connect_to $"127.0.0.1" 7000 true 5 (@client.make _ plain2 (λ _, tt))).2 in
  (client.close (client.set_current None s)).1 = Undefined ∧
  (∃ s', client.close s = (Ret tt, s') ∧
     (client.handle_connect false None 6 s').1 = Undefined ∧
     (client.handle_connect true None 6 s').1 = (if assertions then Aborted else Undefined)) ∧
  (assertions = true → (client.handle_connect true None 6 s).1 = Aborted) ∧
  (assertions = false →
     client.handle_connect true None 6 s
     = (Ret tt, client.set_connecting (client.connecting s ++ [0]) s)).
Proof.
  intros ? s. eapply (@client_hazards _ _ plain2 s 0 _ None 6); reflexivity.
Defined.
