(* ===== verification/ObjectPool.v ===== *)
(** * play/base/object_pool.hpp

    A free list under [std::shared_ptr]: the deleter destroys the object and gives
    its memory back, [construct] builds the next object in the oldest free memory. *)

From S2P Require Import Prelude.
From S2P Require Import Serializer.
From S2P Require Import StringUtil.

(** Memory obtained from [new]: an object in its lifetime or what is left after
    its destructor ran. *)
Inductive cell (T : Type) : Type := Alive (v : T) | Destroyed.
Arguments Alive {T} v.
Arguments Destroyed {T}.

Module object_pool.
Section object_pool.
Context {T : Type}.

(** [memory] is the heap the pool allocates from; [next] the next address [new]
    returns.  The counters are [size_t]. *)
Record state := State {
  pool : list nat;
  alloc_count : Z;
  free_count : Z;
  pool_size : Z;
  memory : gmap nat (cell T);
  next : nat
}.

Definition make : state := State [] 0 0 0 ∅ 0.

(** [release(p)] *)
Definition release (p : nat) : M state unit :=
  modify (λ s, State (pool s ++ [p]) (alloc_count s) (u64 (free_count s + 1))
    (u64 (Z.of_nat (length (pool s ++ [p])))) (memory s) (next s)).

(** [construct(args...)]; [ctor] is what the constructor of [T] makes of the
    arguments, [None] when it throws. *)
Definition construct (ctor : option T) : M state nat :=
  _ ← modify (λ s, State (pool s) (u64 (alloc_count s + 1)) (free_count s) (pool_size s)
        (memory s) (next s));
  s ← get;
  match pool s with
  | [] =>
      match ctor with
      | None => throw (std_exception $"constructor")
      | Some v =>
          _ ← put (State (pool s) (alloc_count s) (free_count s) (pool_size s)
                (<[next s := Alive v]> (memory s)) (S (next s)));
          mret (next s)
      end
  | p :: rest =>
      match ctor with
      | None => throw (std_exception $"constructor")
      | Some v =>
          _ ← put (State rest (alloc_count s) (free_count s) (pool_size s)
                (<[p := Alive v]> (memory s)) (next s));
          mret p
      end
  end.

(** [obj->~T()]: outside the object's lifetime it is undefined. *)
Definition destruct_object (p : nat) : M state T :=
  s ← get;
  match memory s !! p with
  | Some (Alive v) =>
      _ ← put (State (pool s) (alloc_count s) (free_count s) (pool_size s)
            (<[p := Destroyed]> (memory s)) (next s));
      mret v
  | _ => undefined
  end.

(** [deleter::operator()(obj)] *)
Definition deleter (p : nat) : M state T :=
  v ← destruct_object p;
  _ ← release p;
  mret v.

(** [~object_pool()]: [delete p] runs the destructor and frees the memory. *)
Definition destroy : M state unit :=
  s ← get;
  for_each (pool s) (λ p, _ ← destruct_object p; mret tt).

Definition get_alloc_count (s : state) : Z := alloc_count s.
Definition get_free_count (s : state) : Z := free_count s.
Definition get_pool_size (s : state) : Z := pool_size s.
End object_pool.
Arguments state : clear implicits.
End object_pool.

Section facts.
Context {T : Type}.
Import object_pool.
Implicit Types s : state T.

(** The addresses of the objects in use. *)
Definition in_use (c : cell T) : option T := match c with Alive v => Some v | Destroyed => None end.
Definition live s : gset nat := dom (omap in_use (memory s)).

(** The pool's invariant: the free list has no duplicates and holds exactly the
    memory whose object was destroyed; the counters agree with it. *)
Record pool_ok s : Prop := {
  ok_nodup : NoDup (pool s);
  ok_free p : p ∈ pool s ↔ memory s !! p = Some Destroyed;
  ok_next p : is_Some (memory s !! p) → p < next s;
  ok_counts : ∃ k, (alloc_count s = free_count s + Z.of_nat (size (live s)) + k * 2 ^ 64)%Z
}.

Lemma elem_of_live p s : p ∈ live s ↔ ∃ v, memory s !! p = Some (Alive v).
Proof.
  unfold live. rewrite elem_of_dom, lookup_omap. split.
  - intros [v Hv]. destruct (memory s !! p) as [[v'|]|]; simpl in *; [by exists v'|done..].
  - intros [v ->]. by exists v.
Qed.

Lemma u64_shift x : ∃ k, (u64 x = x + k * 2 ^ 64)%Z.
Proof.
  exists (- (x / 2 ^ 64))%Z. unfold u64, wrap. change (2 ^ (8 * Z.of_nat 8))%Z with (2 ^ 64)%Z.
  rewrite Z.mod_eq by lia. lia.
Qed.

Lemma make_ok : pool_ok make.
Proof.
  split; simpl.
  - constructor.
  - intros p. rewrite lookup_empty. set_solver.
  - intros p [? Hp]. by rewrite lookup_empty in Hp.
  - exists 0%Z. done.
Qed.

(** Where the next object goes. *)
Definition next_address s : nat := match pool s with [] => next s | p :: _ => p end.

Lemma next_address_free s : pool_ok s → next_address s ∉ live s.
Proof.
  intros Hok. rewrite elem_of_live. intros [v Hv]. unfold next_address in Hv.
  destruct (pool s) as [|p rest] eqn:Hp.
  - pose proof (ok_next _ Hok (next s) ltac:(by exists (Alive v))). lia.
  - assert (memory s !! p = Some Destroyed) as Hd by (apply (ok_free _ Hok); rewrite Hp; set_solver).
    congruence.
Qed.

Lemma construct_spec s v :
  pool_ok s →
  ∃ s', construct (Some v) s = (Ret (next_address s), s') ∧ pool_ok s' ∧
    memory s' = <[next_address s := Alive v]> (memory s) ∧
    live s' = {[next_address s]} ∪ live s ∧ pool s' = tail (pool s) ∧
    next s' = (if decide (pool s = []) then S (next s) else next s) ∧ pool_size s' = pool_size s.
Proof.
  intros Hok. pose proof (next_address_free s Hok) as Hfree.
  set (p := next_address s) in *.
  set (s' := State (tail (pool s)) (u64 (alloc_count s + 1)) (free_count s) (pool_size s)
    (<[p := Alive v]> (memory s)) (if decide (pool s = []) then S (next s) else next s)).
  assert (live s' = {[p]} ∪ live s) as Hlive.
  { apply set_eq. intros q. rewrite elem_of_union, elem_of_singleton, !elem_of_live. simpl.
    destruct (decide (q = p)) as [->|Hq].
    - rewrite lookup_insert_eq. naive_solver.
    - rewrite lookup_insert_ne by done. naive_solver. }
  exists s'. split_and!; [| |done|done|done|done|done].
  - unfold construct. run. subst s' p. unfold next_address.
    destruct (pool s) as [|p rest] eqn:Hp; simpl; by rewrite ?Hp.
  - destruct Hok as [Hnd Hfr Hnx [k Hk]]. split; simpl.
    + destruct (pool s); simpl; [done|]. by apply NoDup_cons in Hnd as [_ ?].
    + intros q. destruct (decide (q = p)) as [->|Hq].
      * rewrite lookup_insert_eq. split; [|done]. subst p. unfold next_address.
        destruct (pool s) as [|p rest] eqn:Hp; simpl; [set_solver|].
        intros ?. by apply NoDup_cons in Hnd as [? _].
      * rewrite lookup_insert_ne by done. rewrite <-Hfr. unfold p, next_address in Hq.
        destruct (pool s); simpl; set_solver.
    + intros q Hq. destruct (decide (q = p)) as [->|Hqp].
      * unfold p, next_address. destruct (pool s) as [|p' rest] eqn:Hp; simpl; [lia|].
        apply Hnx. exists Destroyed. apply Hfr. set_solver.
      * rewrite lookup_insert_ne in Hq by done. apply Hnx in Hq. destruct (decide _); lia.
    + rewrite Hlive, size_union, size_singleton by set_solver.
      destruct (u64_shift (alloc_count s + 1)) as [j ->]. exists (k + j)%Z. lia.
Qed.

Lemma construct_throws s :
  pool_ok s → ∃ s', construct None s = (Throw (std_exception $"constructor"), s') ∧
    memory s' = memory s ∧ pool s' = pool s.
Proof.
  intros Hok. unfold construct. run. destruct (pool s); eexists; by split_and!.
Qed.

Lemma deleter_spec s p v :
  pool_ok s → memory s !! p = Some (Alive v) →
  ∃ s', deleter p s = (Ret v, s') ∧ pool_ok s' ∧
    memory s' = <[p := Destroyed]> (memory s) ∧ live s' = live s ∖ {[p]} ∧
    pool s' = pool s ++ [p] ∧ next s' = next s ∧
    pool_size s' = u64 (Z.of_nat (length (pool s'))).
Proof.
  intros Hok Hp.
  set (s' := State (pool s ++ [p]) (alloc_count s) (u64 (free_count s + 1))
    (u64 (Z.of_nat (length (pool s ++ [p])))) (<[p := Destroyed]> (memory s)) (next s)).
  assert (live s' = live s ∖ {[p]}) as Hlive.
  { apply set_eq. intros q. rewrite elem_of_difference, elem_of_singleton, !elem_of_live. simpl.
    destruct (decide (q = p)) as [->|Hq].
    - rewrite lookup_insert_eq. naive_solver.
    - rewrite lookup_insert_ne by done. naive_solver. }
  exists s'. split_and!; [| |done|done|done|done|done].
  - unfold deleter, destruct_object, release. run. by rewrite Hp.
  - destruct Hok as [Hnd Hfr Hnx [k Hk]]. split; simpl.
    + apply NoDup_app. split_and!; [done| |apply NoDup_singleton].
      intros q Hq Hqp%list_elem_of_singleton. subst q. apply Hfr in Hq. congruence.
    + intros q. rewrite elem_of_app, list_elem_of_singleton.
      destruct (decide (q = p)) as [->|Hq]; [rewrite lookup_insert_eq; naive_solver|].
      rewrite lookup_insert_ne by done. rewrite <-Hfr. naive_solver.
    + intros q Hq. apply Hnx. destruct (decide (q = p)) as [->|]; [by exists (Alive v)|].
      by rewrite lookup_insert_ne in Hq.
    + assert (p ∈ live s) as Hin by (apply elem_of_live; by exists v).
      rewrite Hlive, size_difference, size_singleton by set_solver.
      assert (size (C:=gset nat) {[p]} ≤ size (live s)) as Hsz by (apply subseteq_size; set_solver).
      rewrite size_singleton in Hsz.
      destruct (u64_shift (free_count s + 1)) as [j ->]. exists (k - j)%Z. lia.
Qed.

(** What the program does with a pool: objects are only deleted in their
    lifetime, when the last reference goes. *)
Inductive pool_step : state T → option nat → state T → Prop :=
  | step_construct s v p s' : construct (Some v) s = (Ret p, s') → pool_step s (Some p) s'
  | step_delete s p v s' : memory s !! p = Some (Alive v) → deleter p s = (Ret v, s') →
      pool_step s None s'.

Lemma pool_step_ok s l s' : pool_step s l s' → pool_ok s → pool_ok s'.
Proof.
  intros [s0 v p s0' Hc|s0 p v s0' Hv Hd] Hok.
  - destruct (construct_spec s0 v Hok) as (s1 & Hr & Hok1 & _). congruence.
  - destruct (deleter_spec s0 p v Hok Hv) as (s1 & Hr & Hok1 & _). congruence.
Qed.
End facts.

(** ** Properties *)

(** C29. The pool hands out memory safely.  In every state reached by
    constructing and deleting objects, [construct] returns an address no living
    object has, reusing the memory freed first and allocating only when none is
    free; the other objects keep their values; deleting a living object succeeds,
    makes exactly its memory available again and reports the number of free
    blocks.  The two counters differ by the number of living objects, modulo 2^64. *)
Theorem object_pool_safe {T : Type} (ls : list (option nat)) (s : object_pool.state T) :
  steps pool_step object_pool.make ls s →
  (∀ v, ∃ s', object_pool.construct (Some v) s = (Ret (next_address s), s') ∧
     next_address s ∉ live s ∧ live s' = {[next_address s]} ∪ live s ∧
     object_pool.memory s' = <[next_address s := Alive v]> (object_pool.memory s) ∧
     (object_pool.pool s ≠ [] → object_pool.next s' = object_pool.next s)) ∧
  (∀ p v, object_pool.memory s !! p = Some (Alive v) → ∃ s',
     object_pool.deleter p s = (Ret v, s') ∧ live s' = live s ∖ {[p]} ∧
     object_pool.pool s' = object_pool.pool s ++ [p] ∧
     object_pool.get_pool_size s' = u64 (Z.of_nat (length (object_pool.pool s')))) ∧
  (∃ k, object_pool.get_alloc_count s
     = object_pool.get_free_count s + Z.of_nat (size (live s)) + k * 2 ^ 64)%Z.
Proof.
  intros Hst.
  assert (pool_ok s) as Hok
    by (eapply (steps_invariant pool_step pool_ok); [apply pool_step_ok|exact Hst|apply make_ok]).
  split_and!.
  - intros v. destruct (construct_spec s v Hok) as (s' & Hr & _ & Hm & Hl & Hp & Hn & _).
    exists s'. split_and!; [done|by apply next_address_free|done|done|].
    intros Hne. by rewrite Hn, decide_False.
  - intros p v Hv. destruct (deleter_spec s p v Hok Hv) as (s' & Hr & _ & _ & Hl & Hp & _ & Hs).
    by exists s'.
  - apply (ok_counts _ Hok).
Qed.

Lemma object_pool_safe_witness :
  let s1 := (object_pool.construct (Some 10) object_pool.make).2 in
  let s2 := (object_pool.deleter 0 s1).2 in
  (∃ s', object_pool.construct (Some 20) s2 = (Ret 0, s') ∧ object_pool.next s' = object_pool.next s2).
Proof.
  intros s1 s2. destruct (object_pool_safe [Some 0; None] s2) as (Hc & _ & _).
  - eapply steps_cons; [by apply (step_construct _ 10)|].
    eapply steps_cons; [by apply (step_delete _ 0 10)|]. apply steps_nil.
  - destruct (Hc 20) as (s' & Hr & _ & _ & _ & Hn). exists s'. split; [exact Hr|]. by apply Hn.
Defined.

(** [~object_pool] deletes objects whose destructor the deleter already
    ran: as soon as one object was given back, destroying the pool runs a
    destructor outside the object's lifetime. *)
Theorem object_pool_double_destruction {T : Type} (ls : list (option nat)) (s : object_pool.state T) :
  steps pool_step object_pool.make ls s →
  (object_pool.destroy s).1 = (if decide (object_pool.pool s = []) then Ret tt else Undefined).
Proof.
  intros Hst.
  assert (pool_ok s) as Hok
    by (eapply (steps_invariant pool_step pool_ok); [apply pool_step_ok|exact Hst|apply make_ok]).
  unfold object_pool.destroy, object_pool.destruct_object. run.
  destruct (object_pool.pool s) as [|p rest] eqn:Hp; [done|]. simpl. run.
  assert (object_pool.memory s !! p = Some Destroyed) as ->; [|done].
  apply (ok_free _ Hok). rewrite Hp. set_solver.
Qed.

Lemma object_pool_double_destruction_witness :
  let s1 := (object_pool.construct (Some 10) object_pool.make).2 in
  let s2 := (object_pool.deleter 0 s1).2 in
  (object_pool.destroy s2).1 = Undefined.
Proof.
  intros s1 s2. apply (object_pool_double_destruction [Some 0; None] s2).
  eapply steps_cons; [by apply (step_construct _ 10)|].
  eapply steps_cons; [by apply (step_delete _ 0 10)|]. apply steps_nil.
Defined.
