(* ===== verification/Timer.v ===== *)
(** * play/net/runner/timer_service.{hpp,ipp}

    One-shot and repeating timers over asio's [steady_timer], allocated from an
    object pool.  A started wait is a record in [waiting]; cancelling (or setting a
    new expiry) moves the waits of that timer to [aborted], from where asio calls
    their handler with [operation_aborted].  User handlers are named by numbers and
    interpreted by a parameter; [called] records each call with the timer's address
    and whether the timer object was still alive. *)

From S2P Require Import Prelude.
From S2P Require Import Serializer.
From S2P Require Import StringUtil.
From S2P Require Import ObjectPool.

Module timer.
(** The object.  [strand_] is a pointer, [ms_] is only initialised. *)
Record state := State {
  strand : option nat;
  ms : Z;
  is_set : bool;
  is_once : bool;
  is_repeat : bool
}.

(** The two constructors. *)
Definition make (strand : option nat) : state := State strand 0 false false false.

(** A pending [async_wait]: its timer, the strand it is bound to, the interval
    when it goes to [repeat_call] and the user's handler. *)
Record wait := Wait {
  wait_timer : nat;
  wait_strand : option nat;
  wait_repeat : option Z;
  wait_handler : nat
}.
End timer.

Module timer_service.
Import timer.

Record state := State {
  pool : object_pool.state timer.state;
  waiting : list wait;
  aborted : list wait;
  called : list (nat * nat * bool)
}.

Definition make : state := State object_pool.make [] [] [].

Definition set_pool (p : object_pool.state timer.state) (s : state) : state :=
  State p (waiting s) (aborted s) (called s).
Definition set_waits (w a : list wait) (s : state) : state :=
  State (pool s) w a (called s).
Definition record_call (h p : nat) (alive : bool) (s : state) : state :=
  State (pool s) (waiting s) (aborted s) (called s ++ [(h, p, alive)]).

(** A member access through [this], undefined outside the object's lifetime. *)
Definition this (p : nat) : M state timer.state :=
  s ← get;
  match object_pool.memory (pool s) !! p with
  | Some (Alive t) => mret t
  | _ => undefined
  end.

Definition is_alive (p : nat) (s : state) : bool :=
  match object_pool.memory (pool s) !! p with Some (Alive _) => true | _ => false end.

Definition store (p : nat) (t : timer.state) : M state unit :=
  modify (λ s, set_pool (object_pool.State (object_pool.pool (pool s))
    (object_pool.alloc_count (pool s)) (object_pool.free_count (pool s))
    (object_pool.pool_size (pool s)) (<[p := Alive t]> (object_pool.memory (pool s)))
    (object_pool.next (pool s))) s).

(** [timer_.cancel()]: the waits of the timer complete with an error. *)
Definition cancel_waits (p : nat) : M state unit :=
  modify (λ s, set_waits (filter (λ w, wait_timer w ≠ p) (waiting s))
    (aborted s ++ filter (λ w, wait_timer w = p) (waiting s)) s).

(** [timer_.expires_from_now(ms)] cancels what was waiting. *)
Definition expires_from_now (p : nat) : M state unit := cancel_waits p.

(** [timer_.async_wait(handler)] *)
Definition async_wait (w : wait) : M state unit :=
  modify (λ s, set_waits (waiting s ++ [w]) (aborted s) s).

Section timer_service.
Context `{Build}.
(** The user's handlers, given the timer's address. *)
Context (handler : nat → nat → M state unit).

(** [handler( *this)] *)
Definition call_handler (h p : nat) : M state unit :=
  _ ← modify (λ s, record_call h p (is_alive p s) s); handler h p.

(** [timer::once(ms, handler)] *)
Definition timer_once (p : nat) (ms : Z) (h : nat) : M state unit :=
  t ← this p;
  _ ← PLAY_CHECK (negb (is_set t));
  _ ← store p (timer.State (strand t) (timer.ms t) true true false);
  _ ← expires_from_now p;
  match strand t with
  | Some st => async_wait (Wait p (Some st) None h)
  | None => async_wait (Wait p None None h)
  end.

(** [timer::repeat(interval_ms, handler)] *)
Definition timer_repeat (p : nat) (interval_ms : Z) (h : nat) : M state unit :=
  t ← this p;
  _ ← store p (timer.State (strand t) (timer.ms t) true false true);
  _ ← expires_from_now p;
  match strand t with
  | Some st => async_wait (Wait p (Some st) None h)
  | None => async_wait (Wait p None (Some interval_ms) h)
  end.

(** [timer::cancel()] *)
Definition timer_cancel (p : nat) : M state unit :=
  t ← this p;
  when (is_set t)
    (_ ← cancel_waits p;
     store p (timer.State (strand t) (timer.ms t) false (is_once t) (is_repeat t))).

(** [timer::repeat_call(interval_ms, handler, ec)] *)
Definition repeat_call (p : nat) (interval_ms : Z) (h : nat) : M state unit :=
  _ ← call_handler h p;
  t ← this p;
  when (is_set t)
    (_ ← expires_from_now p;
     match strand t with
     | Some st => async_wait (Wait p (Some st) (Some interval_ms) h)
     | None => async_wait (Wait p None (Some interval_ms) h)
     end).

(** The completion of a wait; neither lambda looks at the error code. *)
Definition complete (w : wait) : M state unit :=
  match wait_repeat w with
  | None => call_handler (wait_handler w) (wait_timer w)
  | Some interval => repeat_call (wait_timer w) interval (wait_handler w)
  end.

(** The wait at position [i] expires. *)
Definition expire (i : nat) : M state unit :=
  s ← get;
  w ← deref (waiting s !! i);
  _ ← modify (set_waits (delete i (waiting s)) (aborted s));
  complete w.

(** The first cancelled wait completes. *)
Definition run_aborted : M state unit :=
  s ← get;
  match aborted s with
  | [] => mret tt
  | w :: rest => _ ← modify (set_waits (waiting s) rest); complete w
  end.

(** [timer_service::once] and [repeat], on a strand or not *)
Definition once (st : option nat) (ms : Z) (h : nat) : M state nat :=
  ref ← zoom pool set_pool (object_pool.construct (Some (timer.make st)));
  _ ← timer_once ref ms h;
  mret ref.

Definition repeat (st : option nat) (ms : Z) (h : nat) : M state nat :=
  ref ← zoom pool set_pool (object_pool.construct (Some (timer.make st)));
  _ ← timer_repeat ref ms h;
  mret ref.

(** The last [timer::ref] goes: [~timer()] cancels, the memory returns to the pool. *)
Definition release (p : nat) : M state unit :=
  _ ← timer_cancel p;
  _ ← zoom pool set_pool (object_pool.deleter p);
  mret tt.
End timer_service.
End timer_service.

Section facts.
Context `{Build} (handler : nat → nat → M timer_service.state unit).
Import timer timer_service.
Implicit Types s : timer_service.state.

(** No wait of the timer at [p] is pending. *)
Definition idle (p : nat) (ws : list wait) : Prop := Forall (λ w, wait_timer w ≠ p) ws.

Lemma idle_filter p ws :
  idle p ws → filter (λ w, wait_timer w ≠ p) ws = ws ∧ filter (λ w, wait_timer w = p) ws = [].
Proof.
  induction 1 as [|w ws Hw _ [IH1 IH2]]; [done|].
  rewrite !filter_cons, (decide_True _ _ Hw), (decide_False _ _ Hw). by rewrite IH1, IH2.
Qed.

(** The timer at [p] and the lists of waits. *)
Definition timer_at s (p : nat) (t : timer.state) (ws as_ : list wait) : Prop :=
  object_pool.memory (pool s) !! p = Some (Alive t) ∧ waiting s = ws ∧ aborted s = as_.

Lemma this_spec s p t ws as_ : timer_at s p t ws as_ → this p s = (Ret t, s).
Proof. intros (Hm & _). unfold this. run. by rewrite Hm. Qed.

Lemma store_spec s p t t' ws as_ :
  timer_at s p t ws as_ →
  ∃ s', store p t' s = (Ret tt, s') ∧ timer_at s' p t' ws as_ ∧ called s' = called s.
Proof.
  intros (Hm & Hw & Ha). eexists. split; [done|]. split; [|done]. split_and!; [|done|done].
  simpl. by rewrite lookup_insert_eq.
Qed.

Lemma cancel_waits_spec s p t ws w as_ :
  timer_at s p t (ws ++ w) as_ → idle p ws → Forall (λ x, wait_timer x = p) w →
  ∃ s', cancel_waits p s = (Ret tt, s') ∧ timer_at s' p t ws (as_ ++ w) ∧
    called s' = called s ∧ pool s' = pool s.
Proof.
  intros (Hm & Hw & Ha) Hi Hp. eexists. split; [done|]. split; [|done].
  split_and!; [done| |]; simpl; rewrite ?Hw, ?Ha.
  - destruct (idle_filter p ws Hi) as [Hf _]. rewrite filter_app, Hf.
    rewrite <-(app_nil_r ws) at 2. f_equal. clear -Hp. induction Hp as [|x w Hx _ IH]; [done|].
    by rewrite filter_cons, decide_False by auto.
  - destruct (idle_filter p ws Hi) as [_ Hf]. rewrite filter_app, Hf. f_equal. simpl.
    clear -Hp. induction Hp as [|x w Hx _ IH]; [done|]. by rewrite filter_cons, decide_True, IH.
Qed.

Lemma async_wait_spec s p t ws as_ w :
  timer_at s p t ws as_ →
  ∃ s', async_wait w s = (Ret tt, s') ∧ timer_at s' p t (ws ++ [w]) as_ ∧
    called s' = called s ∧ pool s' = pool s.
Proof.
  intros (Hm & Hw & Ha). eexists. split; [done|]. split; [|done].
  split_and!; [done|simpl; by rewrite Hw|done].
Qed.

(** Setting an expiry when nothing is pending and waiting. *)
Lemma expire_and_wait s p t ws as_ w :
  timer_at s p t ws as_ → idle p ws →
  ∃ s', (_ ← expires_from_now p; async_wait w) s = (Ret tt, s') ∧
    timer_at s' p t (ws ++ [w]) as_ ∧ called s' = called s.
Proof.
  intros Ht Hi. rewrite <-(app_nil_r ws) in Ht.
  destruct (cancel_waits_spec s p t ws [] as_ Ht Hi) as (s1 & Hr1 & Ht1 & Hc1 & _); [done|].
  rewrite app_nil_r in Ht1.
  destruct (async_wait_spec s1 p t ws as_ w Ht1) as (s2 & Hr2 & Ht2 & Hc2 & _).
  exists s2. split_and!; [|done|congruence]. unfold expires_from_now.
  by rewrite (bind_run _ _ _ _ _ Hr1).
Qed.

Lemma construct_timer s st :
  pool_ok (pool s) →
  ∃ s', zoom pool set_pool (object_pool.construct (Some (timer.make st))) s
      = (Ret (next_address (pool s)), s') ∧
    timer_at s' (next_address (pool s)) (timer.make st) (waiting s) (aborted s) ∧
    called s' = called s.
Proof.
  intros Hok. destruct (construct_spec (pool s) (timer.make st) Hok) as (p' & Hr & _ & Hm & _).
  unfold zoom. rewrite Hr. eexists. split; [done|]. split; [|done].
  split_and!; [|done|done]. simpl. by rewrite Hm, lookup_insert_eq.
Qed.

Lemma once_spec s st ms h :
  let p := next_address (pool s) in
  pool_ok (pool s) → idle p (waiting s) →
  ∃ s' t, once st ms h s = (Ret p, s') ∧ is_set t = true ∧ strand t = st ∧
    timer_at s' p t (waiting s ++ [Wait p st None h]) (aborted s) ∧ called s' = called s.
Proof.
  intros p Hok Hi. destruct (construct_timer s st Hok) as (s1 & Hr1 & Ht1 & Hc1). fold p in Hr1, Ht1.
  set (t := timer.State st 0 true true false).
  destruct (store_spec s1 p _ t _ _ Ht1) as (s2 & Hr2 & Ht2 & Hc2).
  destruct (expire_and_wait s2 p t _ _ (Wait p st None h) Ht2 Hi) as (s3 & Hr3 & Ht3 & Hc3).
  exists s3, t. split_and!; [|done|done|done|congruence].
  unfold once. rewrite (bind_run _ _ _ _ _ Hr1). rewrite (bind_run _ _ s1 tt s3); [done|].
  unfold timer_once. rewrite (bind_run _ _ _ _ _ (this_spec _ _ _ _ _ Ht1)).
  rewrite (bind_run _ _ s1 tt s1) by (by apply check_true). simpl strand.
  rewrite (bind_run _ _ _ _ _ Hr2). rewrite <-Hr3. by destruct st.
Qed.

Lemma repeat_spec s st ms h :
  let p := next_address (pool s) in
  pool_ok (pool s) → idle p (waiting s) →
  ∃ s' t, repeat st ms h s = (Ret p, s') ∧ is_set t = true ∧ strand t = st ∧
    timer_at s' p t (waiting s ++ [Wait p st (if st then None else Some ms) h]) (aborted s) ∧
    called s' = called s.
Proof.
  intros p Hok Hi. destruct (construct_timer s st Hok) as (s1 & Hr1 & Ht1 & Hc1). fold p in Hr1, Ht1.
  set (t := timer.State st 0 true false true).
  destruct (store_spec s1 p _ t _ _ Ht1) as (s2 & Hr2 & Ht2 & Hc2).
  destruct (expire_and_wait s2 p t _ _ (Wait p st (if st then None else Some ms) h) Ht2 Hi)
    as (s3 & Hr3 & Ht3 & Hc3).
  exists s3, t. split_and!; [|done|done|done|congruence].
  unfold repeat. rewrite (bind_run _ _ _ _ _ Hr1). rewrite (bind_run _ _ s1 tt s3); [done|].
  unfold timer_repeat. rewrite (bind_run _ _ _ _ _ (this_spec _ _ _ _ _ Ht1)). simpl strand.
  rewrite (bind_run _ _ _ _ _ Hr2). rewrite <-Hr3. by destruct st.
Qed.

(** An expiry removes the wait and completes it. *)
Lemma expire_spec s p t ws w as_ :
  timer_at s p t (ws ++ [w]) as_ →
  ∃ s', expire handler (length ws) s = complete handler w s' ∧
    timer_at s' p t ws as_ ∧ called s' = called s.
Proof.
  intros (Hm & Hw & Ha). exists (set_waits ws (aborted s) s). split_and!; [|split_and!; done|done].
  unfold expire. rewrite (bind_run _ _ s s s) by done.
  rewrite Hw, list_lookup_middle by done. rewrite (bind_run _ _ s w s) by done.
  rewrite delete_middle, app_nil_r. done.
Qed.

Lemma call_handler_spec s p t ws as_ h :
  timer_at s p t ws as_ → (∀ q, handler h q = mret tt) →
  ∃ s', call_handler handler h p s = (Ret tt, s') ∧ timer_at s' p t ws as_ ∧
    called s' = called s ++ [(h, p, true)].
Proof.
  intros (Hm & Hw & Ha) Hq. unfold call_handler. rewrite Hq. eexists. split; [done|].
  split; [by split_and!|]. simpl. unfold is_alive. by rewrite Hm.
Qed.

(** A repeating timer without a strand is armed again by its own expiry. *)
Lemma repeat_expires s p t ws as_ ms h :
  timer_at s p t (ws ++ [Wait p None (Some ms) h]) as_ → idle p ws → is_set t = true →
  strand t = None → (∀ q, handler h q = mret tt) →
  ∃ s', expire handler (length ws) s = (Ret tt, s') ∧
    timer_at s' p t (ws ++ [Wait p None (Some ms) h]) as_ ∧ called s' = called s ++ [(h, p, true)].
Proof.
  intros Ht Hi Hset Hst Hq. destruct (expire_spec s p t ws _ as_ Ht) as (s1 & -> & Ht1 & Hc1).
  destruct (call_handler_spec s1 p t ws as_ h Ht1 Hq) as (s2 & Hr2 & Ht2 & Hc2).
  destruct (expire_and_wait s2 p t ws as_ (Wait p None (Some ms) h) Ht2 Hi) as (s3 & Hr3 & Ht3 & Hc3).
  exists s3. split_and!; [|done|congruence]. unfold complete, repeat_call. simpl.
  rewrite (bind_run _ _ _ _ _ Hr2), (bind_run _ _ _ _ _ (this_spec _ _ _ _ _ Ht2)).
  rewrite Hset, Hst. exact Hr3.
Qed.

Lemma cancel_spec s p t ws w as_ :
  timer_at s p t (ws ++ [w]) as_ → idle p ws → wait_timer w = p → is_set t = true →
  ∃ s' t', timer_cancel p s = (Ret tt, s') ∧ timer_at s' p t' ws (as_ ++ [w]) ∧
    is_set t' = false ∧ called s' = called s.
Proof.
  intros Ht Hi Hw Hset.
  destruct (cancel_waits_spec s p t ws [w] as_ Ht Hi) as (s1 & Hr1 & Ht1 & Hc1 & _); [by constructor|].
  set (t' := timer.State (strand t) (timer.ms t) false (is_once t) (is_repeat t)).
  destruct (store_spec s1 p t t' _ _ Ht1) as (s2 & Hr2 & Ht2 & Hc2).
  exists s2, t'. split_and!; [|done|done|congruence]. unfold timer_cancel.
  rewrite (bind_run _ _ _ _ _ (this_spec _ _ _ _ _ Ht)), Hset. simpl when.
  by rewrite (bind_run _ _ _ _ _ Hr1).
Qed.

Lemma release_spec s p t ws w as_ :
  timer_at s p t (ws ++ [w]) as_ → idle p ws → wait_timer w = p → is_set t = true →
  ∃ s', release p s = (Ret tt, s') ∧ object_pool.memory (pool s') !! p = Some Destroyed ∧
    waiting s' = ws ∧ aborted s' = as_ ++ [w] ∧ called s' = called s.
Proof.
  intros Ht Hi Hw Hset.
  destruct (cancel_spec s p t ws w as_ Ht Hi Hw Hset) as (s1 & t' & Hr1 & (Hm & Hw1 & Ha1) & _ & Hc1).
  unfold release. rewrite (bind_run _ _ _ _ _ Hr1).
  unfold object_pool.deleter, object_pool.destruct_object, object_pool.release. run. rewrite Hm. simpl.
  eexists. split_and!; [done| |done|done|done]. simpl. by rewrite lookup_insert_eq.
Qed.
End facts.

(** ** Properties *)

(** C35. A timer started with [once] or [repeat] and left alone.  [once] calls
    its handler exactly once when it expires, on the living timer, and waits no
    more; [repeat] without a strand is armed again by each expiry, so [n] expiries
    are [n] calls and the wait is still pending.  Other timers' waits are not
    touched. *)
Theorem timer_fires `{Build} (handler : nat → nat → M timer_service.state unit)
    (s : timer_service.state) (st : option nat) (ms : Z) (h n : nat) :
  let p := next_address (timer_service.pool s) in
  pool_ok (timer_service.pool s) → idle p (timer_service.waiting s) →
  (∀ q, handler h q = mret tt) →
  (∃ s1 s2, timer_service.once st ms h s = (Ret p, s1) ∧
     timer_service.expire handler (length (timer_service.waiting s)) s1 = (Ret tt, s2) ∧
     timer_service.called s2 = timer_service.called s ++ [(h, p, true)] ∧
     timer_service.waiting s2 = timer_service.waiting s) ∧
  (∃ s1 s2, timer_service.repeat None ms h s = (Ret p, s1) ∧
     for_each (replicate n (length (timer_service.waiting s))) (timer_service.expire handler) s1
       = (Ret tt, s2) ∧
     timer_service.called s2 = timer_service.called s ++ replicate n (h, p, true) ∧
     timer_service.waiting s2 = timer_service.waiting s ++ [timer.Wait p None (Some ms) h]).
Proof.
  intros p Hok Hi Hq. split.
  - destruct (once_spec s st ms h Hok Hi) as (s1 & t & Hr1 & _ & _ & Ht1 & Hc1). fold p in Hr1, Ht1.
    destruct (expire_spec handler s1 p t _ _ _ Ht1) as (s2 & Hr2 & Ht2 & Hc2).
    destruct (call_handler_spec handler s2 p t _ _ h Ht2 Hq) as (s3 & Hr3 & (_ & Hw3 & _) & Hc3).
    exists s1, s3. split_and!; [done| |congruence|done]. rewrite Hr2. exact Hr3.
  - destruct (repeat_spec s None ms h Hok Hi) as (s1 & t & Hr1 & Hset & Hst & Ht1 & Hc1).
    fold p in Hr1, Ht1. rewrite <-Hc1. clear Hok. revert s1 Hr1 Ht1 Hc1.
    assert (∀ s1, timer_at s1 p t (timer_service.waiting s ++ [timer.Wait p None (Some ms) h])
        (timer_service.aborted s) → ∃ s2,
      for_each (replicate n (length (timer_service.waiting s))) (timer_service.expire handler) s1
        = (Ret tt, s2) ∧
      timer_service.called s2 = timer_service.called s1 ++ replicate n (h, p, true) ∧
      timer_service.waiting s2 = timer_service.waiting s ++ [timer.Wait p None (Some ms) h]) as Hloop.
    { induction n as [|k IH]; intros s1 Ht1; simpl.
      - exists s1. rewrite app_nil_r. destruct Ht1 as (_ & ? & _). done.
      - destruct (repeat_expires handler s1 p t _ _ ms h Ht1 Hi Hset Hst Hq) as (s2 & Hr2 & Ht2 & Hc2).
        destruct (IH s2 Ht2) as (s3 & Hr3 & Hc3 & Hw3). exists s3.
        rewrite (bind_run _ _ _ _ _ Hr2). split_and!; [done| |done].
        rewrite Hc3, Hc2, <-(assoc_L app). done. }
    intros s1 Hr1 Ht1 Hc1. destruct (Hloop s1 Ht1) as (s2 & Hr2 & Hc2 & Hw2). by exists s1, s2.
Qed.

Lemma timer_fires_witness :
  let _ := debug_build in
  let handler (h p : nat) : M timer_service.state unit := mret tt in
  ∃ s1 s2, timer_service.repeat None 100 7 timer_service.make = (Ret 0, s1) ∧
     for_each (replicate 3 0) (timer_service.expire handler) s1 = (Ret tt, s2) ∧
     timer_service.called s2 = [(7, 0, true); (7, 0, true); (7, 0, true)] ∧
     timer_service.waiting s2 = [timer.Wait 0 None (Some 100%Z) 7].
Proof.
  intros ? handler.
  apply (timer_fires handler timer_service.make None 100 7 3); [apply make_ok|constructor|done].
Defined.

(** What the timer does not do.  A repeating timer on a strand fires once:
    the lambda of that branch calls the handler without arming the timer again.
    Cancelling a one-shot timer does not keep its handler from running, since the
    error code is ignored; and when the last reference is dropped the handler runs
    on the destroyed timer, while for a repeating timer [repeat_call] goes on to
    read the destroyed object. *)
Theorem timer_surprises `{Build} (handler : nat → nat → M timer_service.state unit)
    (s : timer_service.state) (st : nat) (ms : Z) (h : nat) :
  let p := next_address (timer_service.pool s) in
  pool_ok (timer_service.pool s) → idle p (timer_service.waiting s) →
  timer_service.aborted s = [] → (∀ q, handler h q = mret tt) →
  (∃ s1 s2, timer_service.repeat (Some st) ms h s = (Ret p, s1) ∧
     timer_service.expire handler (length (timer_service.waiting s)) s1 = (Ret tt, s2) ∧
     timer_service.called s2 = timer_service.called s ++ [(h, p, true)] ∧
     timer_service.waiting s2 = timer_service.waiting s ∧ timer_service.aborted s2 = []) ∧
  (∃ s1 s2 s3, timer_service.once None ms h s = (Ret p, s1) ∧
     timer_service.timer_cancel p s1 = (Ret tt, s2) ∧
     timer_service.run_aborted handler s2 = (Ret tt, s3) ∧
     timer_service.called s3 = timer_service.called s ++ [(h, p, true)]) ∧
  (∃ s1 s2 s3, timer_service.once None ms h s = (Ret p, s1) ∧
     timer_service.release p s1 = (Ret tt, s2) ∧
     timer_service.run_aborted handler s2 = (Ret tt, s3) ∧
     timer_service.called s3 = timer_service.called s ++ [(h, p, false)]) ∧
  (∃ s1 s2, timer_service.repeat None ms h s = (Ret p, s1) ∧
     timer_service.release p s1 = (Ret tt, s2) ∧
     (timer_service.run_aborted handler s2).1 = Undefined).
Proof.
  intros p Hok Hi Hab Hq.
  destruct (once_spec s None ms h Hok Hi) as (o1 & t & Ho1 & Hset & Hst & Hto & Hco).
  destruct (repeat_spec s None ms h Hok Hi) as (r1 & t' & Hr1 & Hset' & Hst' & Htr & Hcr).
  fold p in Ho1, Hto, Hr1, Htr. rewrite Hab in Hto, Htr. split_and!.
  - destruct (repeat_spec s (Some st) ms h Hok Hi) as (s1 & t1 & Hs1 & _ & _ & Ht1 & Hc1).
    fold p in Hs1, Ht1. destruct (expire_spec handler s1 p t1 _ _ _ Ht1) as (s2 & Hr2 & Ht2 & Hc2).
    destruct (call_handler_spec handler s2 p t1 _ _ h Ht2 Hq) as (s3 & Hr3 & (_ & Hw3 & Ha3) & Hc3).
    exists s1, s3. split_and!; [done| |congruence|done|congruence]. rewrite Hr2. exact Hr3.
  - destruct (cancel_spec o1 p t _ _ _ Hto Hi eq_refl Hset) as (s2 & t2 & Hs2 & Ht2 & _ & Hc2).
    destruct Ht2 as (Hm2 & Hw2 & Ha2). eexists o1, s2, _. split_and!; [done|done| |].
    + unfold timer_service.run_aborted, timer_service.complete, timer_service.call_handler.
      run. rewrite Ha2. run. by rewrite Hq.
    + simpl. unfold timer_service.is_alive. simpl. by rewrite Hm2, Hc2, Hco.
  - destruct (release_spec o1 p t _ _ _ Hto Hi eq_refl Hset) as (s2 & Hs2 & Hm2 & Hw2 & Ha2 & Hc2).
    eexists o1, s2, _. split_and!; [done|done| |].
    + unfold timer_service.run_aborted, timer_service.complete, timer_service.call_handler.
      run. rewrite Ha2. run. by rewrite Hq.
    + simpl. unfold timer_service.is_alive. simpl. by rewrite Hm2, Hc2, Hco.
  - destruct (release_spec r1 p t' _ _ _ Htr Hi eq_refl Hset') as (s2 & Hs2 & Hm2 & Hw2 & Ha2 & Hc2).
    exists r1, s2. split_and!; [done|done|]. unfold timer_service.run_aborted, timer_service.complete,
      timer_service.repeat_call, timer_service.call_handler. run. rewrite Ha2. run. rewrite Hq. run. unfold timer_service.this. run. by rewrite Hm2.
Qed.

Lemma timer_surprises_witness :
  let _ := debug_build in
  let handler (h p : nat) : M timer_service.state unit := mret tt in
  let s1 := (timer_service.repeat None 100 7 timer_service.make).2 in
  let s2 := (timer_service.release 0 s1).2 in
  (timer_service.run_aborted handler s2).1 = Undefined.
Proof.
  intros ? handler s1 s2.
  destruct (timer_surprises handler timer_service.make 3 100 7) as (_ & _ & _ & t1 & t2 & H1 & H2 & H3);
    [apply make_ok|constructor|done|done|].
  pose proof (f_equal snd H1 : s1 = t1) as <-. pose proof (f_equal snd H2 : s2 = t2) as <-.
  exact H3.
Defined.
