(* ===== verification/Runner.v ===== *)
(** * play/net/runner.{hpp,cpp}, runner/thread_runner.{hpp,cpp}, base/dynamic_snowflake.hpp

    The task queue with its strands, the threads that run it, and the generator of
    identifiers.  asio's [io_context] is represented by the tasks handed to it. *)

From S2P Require Import Prelude.
From S2P Require Import Serializer.
From S2P Require Import StringUtil.
From S2P Require Import ObjectPool.
From S2P Require Import Timer.

Module runner.
Section runner.
Context `{Build} {task : Type}.

(** Strands are named by their position in [strands_]; a posted task carries the
    strand it was posted to. *)
Record state := State {
  name : str;
  timers : timer_service.state;
  strands : list nat;
  posted : list (option nat * task)
}.

Definition set_timers (t : timer_service.state) (s : state) : state :=
  State (name s) t (strands s) (posted s).
Definition enqueue (st : option nat) (t : task) (s : state) : state :=
  State (name s) (timers s) (strands s) (posted s ++ [(st, t)]).

(** [make_strands(strand_count)] *)
Fixpoint make_strands (i : nat) (strand_count : nat) (s : state) : state :=
  match strand_count with
  | 0 => s
  | S rest => make_strands (S i) rest
                (State (name s) (timers s) (strands s ++ [i]) (posted s))
  end.

(** The constructor; 64 strands unless told otherwise. *)
Definition make (name : str) (strand_count : nat) : state :=
  make_strands 0 strand_count (State name timer_service.make [] []).
Definition default_strand_count : nat := 64.

(** [get_strand(strand_key)]: without strands the remainder is undefined *)
Definition get_strand (strand_key : nat) : M state nat :=
  s ← get;
  if decide (length (strands s) = 0) then undefined
  else deref (strands s !! (strand_key mod length (strands s))).

(** [post(handler)] and [post(strand_key, handler)] *)
Definition post (t : task) : M state unit := modify (enqueue None t).
Definition post_strand (strand_key : nat) (t : task) : M state unit :=
  strand ← get_strand strand_key;
  modify (enqueue (Some strand) t).

(** [once] and [repeat], without and with a strand key *)
Definition once (ms : Z) (h : nat) : M state nat :=
  zoom timers set_timers (timer_service.once None ms h).
Definition repeat (ms : Z) (h : nat) : M state nat :=
  zoom timers set_timers (timer_service.repeat None ms h).
Definition once_strand (strand_key : nat) (ms : Z) (h : nat) : M state nat :=
  strand ← get_strand strand_key;
  zoom timers set_timers (timer_service.once (Some strand) ms h).
Definition repeat_strand (strand_key : nat) (ms : Z) (h : nat) : M state nat :=
  strand ← get_strand strand_key;
  zoom timers set_timers (timer_service.repeat (Some strand) ms h).
End runner.
Arguments state : clear implicits.
End runner.

Module thread_runner.
(** The runner as its owner sees it, its threads in one step; [ThreadRunner] has the steps. *)
Record state := State {
  thread_count : nat;
  stop_flag : bool;
  work_guard : bool;
  ioc_stopped : bool;
  joined : nat
}.

(** The constructor: 0 threads asks for the hardware's concurrency. *)
Definition make (thread_count hardware : nat) : state :=
  State (if decide (thread_count = 0) then hardware else thread_count) false true false 0.

(** [stop()] *)
Definition stop (s : state) : state :=
  if stop_flag s then s
  else State (thread_count s) true false true (joined s + thread_count s).
End thread_runner.

Module dynamic_snowflake.
(** [seq_] is a 32-bit counter in static storage, initially 0. *)
Definition state := Z.
Definition make : state := 0%Z.

(** [next()]; [elapsed] is the number of milliseconds since the start.  The
    variable [seq] that is masked is not the one used in the result. *)
Definition next (elapsed : Z) : M state Z :=
  let half := Z.land (Z.shiftl elapsed 24) 0xFFFFFFFF in
  _ ← modify (λ seq, u32 (seq + 1));
  seq ← get;
  mret (Z.lor half seq).
End dynamic_snowflake.
#[global] Arguments dynamic_snowflake.next : simpl never.

Section facts.
Context `{Build} {task : Type}.
Import runner.
Implicit Types s : runner.state task.

Lemma make_strands_spec i n s :
  make_strands i n s = State (name s) (timers s) (strands s ++ seq i n) (posted s).
Proof.
  revert i s. induction n as [|n IH]; intros i s; simpl.
  - rewrite app_nil_r. by destruct s.
  - rewrite IH. simpl. by rewrite <-(assoc_L app).
Qed.

(** A runner with [n] strands. *)
Definition has_strands (n : nat) s : Prop := 0 < n ∧ strands s = seq 0 n.

Lemma post_strand_spec n s key t :
  has_strands n s →
  post_strand key t s = (Ret tt, enqueue (Some (key mod n)) t s).
Proof.
  intros [Hn Hs]. unfold post_strand, get_strand. run. rewrite Hs, length_seq.
  rewrite decide_False by lia. rewrite lookup_seq_lt by (apply Nat.mod_upper_bound; lia). done.
Qed.

Lemma post_all n s ps :
  has_strands n s →
  ∃ s', for_each ps (λ p, post_strand p.1 p.2) s = (Ret tt, s') ∧ has_strands n s' ∧
    posted s' = posted s ++ map (λ p, (Some (p.1 mod n), p.2)) ps.
Proof.
  revert s. induction ps as [|[k t] ps IH]; intros s Hs; simpl.
  { exists s. by rewrite app_nil_r. }
  rewrite (bind_run _ _ _ _ _ (post_strand_spec n s k t Hs)).
  destruct (IH (enqueue (Some (k mod n)) t s)) as (s' & Hr & Hs' & Hp); [done|].
  exists s'. split_and!; [done|done|]. rewrite Hp. simpl. by rewrite <-(assoc_L app).
Qed.
End facts.

Section snowflake.
Import dynamic_snowflake.

Lemma next_spec e seq :
  (0 ≤ seq < 2 ^ 32 - 1)%Z →
  next e seq = (Ret (Z.lor (Z.land (Z.shiftl e 24) 0xFFFFFFFF) (seq + 1)), (seq + 1)%Z).
Proof.
  intros Hs. unfold next. run. rewrite u32_small by lia. done.
Qed.

(** The low 24 bits of an identifier are those of the sequence number. *)
Lemma next_low e seq :
  (0 ≤ seq)%Z → (Z.lor (Z.land (Z.shiftl e 24) 0xFFFFFFFF) seq mod 2 ^ 24 = seq mod 2 ^ 24)%Z.
Proof.
  intros Hs. rewrite <-!Z.land_ones by lia. rewrite Z.land_lor_distr_l.
  replace (Z.land (Z.land (Z.shiftl e 24) 4294967295) (Z.ones 24)) with 0%Z; [by rewrite Z.lor_0_l|].
  symmetry. apply Z.bits_inj'. intros i Hi. rewrite !Z.land_spec, Z.bits_0, Z.testbit_ones by lia.
  destruct (Z.ltb_spec i 24); [|by rewrite !andb_false_r].
  by rewrite Z.shiftl_spec_low by lia.
Qed.

(** The identifiers of successive calls. *)
Fixpoint ids (seq : Z) (es : list Z) : list Z :=
  match es with
  | [] => []
  | e :: es => Z.lor (Z.land (Z.shiftl e 24) 0xFFFFFFFF) (seq + 1) :: ids (seq + 1) es
  end.

Lemma ids_elem seq es x :
  (0 ≤ seq)%Z → x ∈ ids seq es →
  ∃ k, (seq < k ≤ seq + Z.of_nat (length es) ∧ x mod 2 ^ 24 = k mod 2 ^ 24)%Z.
Proof.
  revert seq. induction es as [|e es IH]; intros seq Hs; simpl; [set_solver|].
  intros [->|Hx]%elem_of_cons.
  - exists (seq + 1)%Z. split; [lia|]. apply next_low. lia.
  - destruct (IH (seq + 1)%Z) as (k & ? & ?); [lia|done|]. exists k. split; [lia|done].
Qed.

Lemma ids_nodup seq es :
  (0 ≤ seq ∧ seq + Z.of_nat (length es) < 2 ^ 24)%Z → NoDup (ids seq es).
Proof.
  revert seq. induction es as [|e es IH]; intros seq Hs; simpl in *; [constructor|].
  constructor; [|apply IH; lia]. intros (k & Hk & Heq)%ids_elem; [|lia].
  rewrite next_low in Heq by lia. rewrite !Z.mod_small in Heq by lia. lia.
Qed.

Lemma ids_run seq es :
  (0 ≤ seq)%Z → (seq + Z.of_nat (length es) < 2 ^ 32)%Z →
  ∀ i e, es !! i = Some e →
  (next e (seq + Z.of_nat i)%Z).1 = Ret (default 0%Z (ids seq es !! i)).
Proof.
  revert seq. induction es as [|e0 es IH]; intros seq Hs Hl i e He; [done|]. simpl in Hl.
  destruct i as [|i].
  - injection He as ->. rewrite Z.add_0_r, next_spec by lia. done.
  - replace (seq + Z.of_nat (S i))%Z with (seq + 1 + Z.of_nat i)%Z by lia.
    change (ids seq (e0 :: es) !! S i) with (ids (seq + 1) es !! i).
    apply IH; [lia|lia|done].
Qed.
End snowflake.

(** ** Properties *)

(** Strands.  On a runner made with at least one strand, the tasks posted
    under keys are all queued in the order they were posted, those of one key (and
    of any key with the same remainder) on one and the same strand; without strands
    posting under a key is undefined. *)
Theorem runner_strands `{Build} {task : Type} (name : str) (n : nat) (ps : list (nat * task)) :
  (0 < n → ∃ s', for_each ps (λ p, runner.post_strand p.1 p.2) (runner.make name n) = (Ret tt, s') ∧
     map snd (runner.posted s') = map snd ps ∧
     ∀ k, map snd (filter (λ q, q.1 = Some (k mod n)) (runner.posted s'))
       = map snd (filter (λ p, p.1 mod n = k mod n) ps)) ∧
  (n = 0 → ∀ k t, (runner.post_strand (task:=task) k t (runner.make name n)).1 = Undefined).
Proof.
  split.
  - intros Hn. destruct (post_all n (runner.make name n) ps) as (s' & Hr & _ & Hp).
    { split; [done|]. unfold runner.make. by rewrite make_strands_spec. }
    unfold runner.make in Hp. rewrite make_strands_spec in Hp. simpl in Hp.
    exists s'. rewrite Hp. split_and!; [done|by rewrite map_map|]. intros k. clear.
    induction ps as [|[j t] ps IH]; [done|]. simpl. rewrite !filter_cons. simpl.
    destruct (decide (j mod n = k mod n)) as [He|He].
    + rewrite decide_True by congruence. simpl. by rewrite IH.
    + rewrite decide_False by congruence. done.
  - intros -> k t. done.
Qed.

Lemma runner_strands_witness :
  let _ := debug_build in
  ∃ s', for_each [(3, 10); (4, 20); (67, 30)] (λ p, runner.post_strand p.1 p.2)
      (runner.make $"default" 64) = (Ret tt, s') ∧
    map snd (filter (λ q, q.1 = Some 3) (runner.posted s')) = [10; 30].
Proof.
  intros ?.
  destruct (runner_strands $"default" 64 [(3, 10); (4, 20); (67, 30)]) as [Hok _].
  destruct (Hok ltac:(lia)) as (s' & Hr & _ & Hk). exists s'. split; [exact Hr|]. exact (Hk 3).
Defined.

(** C36. Identifiers.  Whatever the clock says, the first 2^24 - 1 calls of
    [next] return pairwise different identifiers.  After that the sequence number
    overlaps the clock's bits: a call made 1 ms after the start and one made
    2^24 calls later, 256 ms after the start, return the same identifier. *)
Theorem snowflake_unique (es : list Z) :
  (Z.of_nat (length es) < 2 ^ 24)%Z →
  (∃ xs, NoDup xs ∧ length xs = length es ∧
     ∀ i e, es !! i = Some e →
       (dynamic_snowflake.next e (Z.of_nat i)).1 = Ret (default 0%Z (xs !! i)) ∧
       (dynamic_snowflake.next e (Z.of_nat i)).2 = Z.of_nat (S i)) ∧
  (dynamic_snowflake.next 1 0%Z).1 = (dynamic_snowflake.next 256 (2 ^ 24)%Z).1.
Proof.
  intros Hl. split; [|reflexivity]. exists (ids 0 es). split_and!.
  - apply ids_nodup. lia.
  - clear. generalize 0%Z. induction es as [|e es IH]; intros z; simpl; [done|]. by rewrite IH.
  - intros i e He. pose proof (lookup_lt_Some _ _ _ He). split.
    + apply (ids_run 0 es); [lia|lia|done].
    + rewrite next_spec by lia. simpl. lia.
Qed.

Lemma snowflake_unique_witness :
  (dynamic_snowflake.next 1 0%Z).1 = Ret 16777217%Z ∧
  (dynamic_snowflake.next 1 0%Z).1 = (dynamic_snowflake.next 256 (2 ^ 24)%Z).1.
Proof.
  split; [reflexivity|]. apply (snowflake_unique [1%Z]). simpl. lia.
Defined.
