(* ===== verification/ThreadRunner.v ===== *)
(** * play/net/runner/thread_runner.{hpp,cpp}, poll_runner.hpp

    The threads of a runner: each calls [io_context::run] until [stop_] is set, and
    [stop] waits for them.  The threads take turns in single steps, so every
    interleaving of them, of the callers of [stop] and of the handlers is a
    sequence of steps.  asio's [io_context] is third-party code: the class
    [IoContext] has what the runners use of it, with its documented behaviour in
    [IoContextLaws]. *)

From S2P Require Import Prelude.

(** [ioc_guard] and [ioc_release] make and reset a work guard; [ioc_take] is the next handler
    that is ready, and [ioc_done] what [run] does when it has returned; [ioc_drained] says that
    there is no work left. *)
Class IoContext (task : Type) := {
  ioc : Type;
  ioc_make : ioc;
  ioc_post : task → ioc → ioc;
  ioc_guard : ioc → ioc;
  ioc_release : ioc → ioc;
  ioc_guarded : ioc → bool;
  ioc_take : ioc → option (task * ioc);
  ioc_done : ioc → ioc;
  ioc_drained : ioc → bool;
  ioc_stop : ioc → ioc;
  ioc_restart : ioc → ioc;
  ioc_stopped : ioc → bool
}.

(** A stopped context hands out no handler; a guarded one has work and does not stop by itself. *)
Class IoContextLaws (task : Type) `{IoContext task} := {
  make_stopped : ioc_stopped ioc_make = false;
  guard_guarded i : ioc_guarded (ioc_guard i) = true;
  guard_stopped i : ioc_stopped (ioc_guard i) = ioc_stopped i;
  guarded_drained i : ioc_guarded i = true → ioc_drained i = false;
  post_guarded t i : ioc_guarded (ioc_post t i) = ioc_guarded i;
  post_stopped t i : ioc_stopped (ioc_post t i) = ioc_stopped i;
  take_stopped i : ioc_stopped i = true → ioc_take i = None;
  take_guarded t i i' : ioc_take i = Some (t, i') → ioc_guarded i' = ioc_guarded i ∧ ioc_stopped i' = ioc_stopped i;
  done_guarded i : ioc_guarded (ioc_done i) = ioc_guarded i;
  done_running i : ioc_guarded i = true → ioc_stopped (ioc_done i) = ioc_stopped i;
  done_stopped i : ioc_stopped i = true → ioc_stopped (ioc_done i) = true;
  release_stopped i : ioc_stopped i = true → ioc_stopped (ioc_release i) = true;
  stop_stopped i : ioc_stopped (ioc_stop i) = true;
  restart_stopped i : ioc_stopped (ioc_restart i) = false;
  restart_guarded i : ioc_guarded (ioc_restart i) = ioc_guarded i
}.

Module runner_threads.
Section thread_runner.
Context {task : Type} `{IoContext task}.

(** What a handler does to the runner that runs it. *)
Inductive action := posts (t : task) | throws | calls_stop.

(** Where a call of [stop] is. *)
Inductive stop_pc := entry | storing | resetting | stopping | joining (i : nat).

(** Where a thread of the runner is: at the condition of the loop; inside [ioc.run()], with the
    handlers run so far; in a handler; in a handler's call of [stop]; in [sleep]; out of [run]. *)
Inductive worker :=
  | checking
  | running (count : nat)
  | executing (count : nat) (rest : list action)
  | in_stop (count : nat) (pc : stop_pc) (rest : list action)
  | sleeping
  | finished.

(** Another thread that calls [stop]. *)
Inductive caller := calling (pc : stop_pc) | back | failed.

(** The members; [joinable] is [threads_[i].joinable()]. *)
Record state := State {
  stop_ : bool;
  ioc_ : ioc;
  threads_ : list worker;
  joinable : list bool;
  callers : list caller
}.

Definition set_ioc (i : ioc) (s : state) : state := State (stop_ s) i (threads_ s) (joinable s) (callers s).
Definition set_stop (s : state) : state := State true (ioc_ s) (threads_ s) (joinable s) (callers s).
Definition set_thread (i : nat) (w : worker) (s : state) : state :=
  State (stop_ s) (ioc_ s) (<[i := w]> (threads_ s)) (joinable s) (callers s).
Definition set_joined (i : nat) (s : state) : state :=
  State (stop_ s) (ioc_ s) (threads_ s) (<[i := false]> (joinable s)) (callers s).
Definition set_caller (j : nat) (c : caller) (s : state) : state :=
  State (stop_ s) (ioc_ s) (threads_ s) (joinable s) (<[j := c]> (callers s)).

(** The constructor: 0 threads asks for the concurrency of the hardware.  Nobody can post
    before it returns, so the threads it has started do nothing else meanwhile. *)
Definition make (thread_count hardware : nat) : state :=
  let n := if decide (thread_count = 0) then hardware else thread_count in
  State false (ioc_guard ioc_make) (replicate n checking) (replicate n true) [].

(** One step of [stop()] in the thread [self] of the runner, or in another one.  [join] waits,
    and throws for the calling thread and for one that has been joined. *)
Inductive progress := at_ (pc : stop_pc) | returned | threw.
Definition stop_step (self : option nat) (pc : stop_pc) (s : state) : option (progress * state) :=
  match pc with
  | entry => Some (if stop_ s then returned else at_ storing, s)
  | storing => Some (at_ resetting, set_stop s)
  | resetting => Some (at_ stopping, set_ioc (ioc_release (ioc_ s)) s)
  | stopping => Some (at_ (joining 0), set_ioc (ioc_stop (ioc_ s)) s)
  | joining i =>
      match threads_ s !! i, joinable s !! i with
      | Some w, Some true =>
          if decide (self = Some i) then Some (threw, s)
          else match w with
               | finished => Some (at_ (joining (S i)), set_joined i s)
               | _ => None
               end
      | Some _, _ => Some (threw, s)
      | None, _ => Some (returned, s)
      end
  end.

Context (body : task → list action).

(** The end of a handler. *)
Definition handled (i : nat) (w : worker) (s : state) : state :=
  set_thread i w (set_ioc (ioc_done (ioc_ s)) s).

(** One step of [run()] in the thread [i]: exceptions of a handler are caught outside
    [ioc.run()] and logged. *)
Definition run_step (i : nat) (s : state) : option state :=
  match threads_ s !! i with
  | Some checking => Some (set_thread i (if stop_ s then finished else running 0) s)
  | Some (running count) =>
      if ioc_stopped (ioc_ s) || ioc_drained (ioc_ s)
      then Some (set_thread i (if count =? 0 then sleeping else checking) s)
      else match ioc_take (ioc_ s) with
           | Some (t, io) => Some (set_thread i (executing (S count) (body t)) (set_ioc io s))
           | None => None
           end
  | Some (executing count []) => Some (handled i (running count) s)
  | Some (executing count (posts t :: rest)) =>
      Some (set_thread i (executing count rest) (set_ioc (ioc_post t (ioc_ s)) s))
  | Some (executing count (throws :: _)) => Some (handled i checking s)
  | Some (executing count (calls_stop :: rest)) => Some (set_thread i (in_stop count entry rest) s)
  | Some (in_stop count pc rest) =>
      match stop_step (Some i) pc s with
      | Some (at_ pc, s) => Some (set_thread i (in_stop count pc rest) s)
      | Some (returned, s) => Some (set_thread i (executing count rest) s)
      | Some (threw, s) => Some (handled i checking s)
      | None => None
      end
  | Some sleeping => Some (set_thread i checking s)
  | Some finished => None
  | None => None
  end.

(** One step of another thread in [stop()]. *)
Definition caller_step (j : nat) (s : state) : option state :=
  match callers s !! j with
  | Some (calling pc) =>
      match stop_step None pc s with
      | Some (at_ pc, s) => Some (set_caller j (calling pc) s)
      | Some (returned, s) => Some (set_caller j back s)
      | Some (threw, s) => Some (set_caller j failed s)
      | None => None
      end
  | _ => None
  end.

(** The steps: of a thread of the runner, of a caller of [stop], a new call of [stop], and a task
    posted from outside. *)
Inductive label := thread (i : nat) | caller_ (j : nat) | call | post (t : task).
Definition step (l : label) (s : state) : option state :=
  match l with
  | thread i => run_step i s
  | caller_ j => caller_step j s
  | call => Some (State (stop_ s) (ioc_ s) (threads_ s) (joinable s) (callers s ++ [calling entry]))
  | post t => Some (set_ioc (ioc_post t (ioc_ s)) s)
  end.

(** The destructor: [stop()], then the threads; [std::terminate] when one can be joined still. *)
Definition destroyed {S} (s : state) : M S unit :=
  λ st, (if existsb id (joinable s) then Aborted else Ret tt, st).
End thread_runner.
Arguments action : clear implicits.
Arguments worker : clear implicits.
Arguments state : clear implicits.
Arguments state _ {_}.
Arguments label : clear implicits.
End runner_threads.

(** ** poll_runner

    It runs the handlers in the thread that calls it. *)
Module poll_runner.
Section poll_runner.
Context {task : Type} `{IoContext task} (body : task → list (runner_threads.action task)).
Import runner_threads.

(** A handler; here it is the context that it can stop. *)
Definition perform (a : action task) : M ioc unit :=
  match a with
  | posts t => modify (ioc_post t)
  | throws => throw (std_exception $"handler")
  | calls_stop => modify ioc_stop
  end.
Definition handle (t : task) : M ioc unit :=
  _ ← try_catch (for_each (body t) perform) (λ e, _ ← modify ioc_done; throw e);
  modify ioc_done.

(** [io_context::run()] over at most [fuel] handlers: [None] when it has not returned, because
    there are more handlers or because it waits for one. *)
Fixpoint run_loop (fuel count : nat) : M ioc (option nat) :=
  io ← get;
  if ioc_stopped io || ioc_drained io then _ ← modify ioc_stop; mret (Some count)
  else match fuel, ioc_take io with
       | S fuel, Some (t, io) => _ ← put io; _ ← handle t; run_loop fuel (S count)
       | _, _ => mret None
       end.

(** [poll()] *)
Definition poll (fuel : nat) : M ioc (option nat) := _ ← modify ioc_restart; run_loop fuel 0.

(** [poll_one()], with [io_context::poll_one()], which does not wait *)
Definition poll_one : M ioc nat :=
  _ ← modify ioc_restart;
  io ← get;
  if ioc_stopped io || ioc_drained io then _ ← modify ioc_stop; mret 0
  else match ioc_take io with
       | Some (t, io) => _ ← put io; _ ← handle t; mret 1
       | None => mret 0
       end.
End poll_runner.
End poll_runner.

(** ** An instance: a queue *)
Record queue (task : Type) := Queue {
  ready : list task;
  guards : nat;
  in_progress : nat;
  halted : bool
}.
Arguments Queue {_}.
Arguments ready {_}.
Arguments guards {_}.
Arguments in_progress {_}.
Arguments halted {_}.

Definition no_work {task} (q : queue task) : bool :=
  match ready q with [] => (guards q =? 0) && (in_progress q =? 0) | _ => false end.
Definition halt_if_idle {task} (q : queue task) : queue task :=
  Queue (ready q) (guards q) (in_progress q) (halted q || no_work q).

#[export] Instance queue_ioc (task : Type) : IoContext task := {|
  ioc := queue task;
  ioc_make := Queue [] 0 0 false;
  ioc_post t q := Queue (ready q ++ [t]) (guards q) (in_progress q) (halted q);
  ioc_guard q := Queue (ready q) (S (guards q)) (in_progress q) (halted q);
  ioc_release q := halt_if_idle (Queue (ready q) (pred (guards q)) (in_progress q) (halted q));
  ioc_guarded q := 0 <? guards q;
  ioc_take q := if halted q then None
    else match ready q with
         | [] => None
         | t :: l => Some (t, Queue l (guards q) (S (in_progress q)) (halted q))
         end;
  ioc_done q := halt_if_idle (Queue (ready q) (guards q) (pred (in_progress q)) (halted q));
  ioc_drained := no_work;
  ioc_stop q := Queue (ready q) (guards q) (in_progress q) true;
  ioc_restart q := Queue (ready q) (guards q) (in_progress q) false;
  ioc_stopped := halted
|}.

#[export] Instance queue_ioc_laws (task : Type) : IoContextLaws task.
Proof.
  assert (∀ q : queue task, (0 <? guards q) = true → no_work q = false) as Hg.
  { intros [r g p h]. unfold no_work. simpl. destruct g; [done|]. by destruct r. }
  split; simpl; try done.
  - by intros i ->.
  - intros t i i'. destruct (halted i) eqn:Hh; [done|]. destruct (ready i); [done|]. by intros [= <- <-].
  - intros i Hi. rewrite (Hg (Queue _ _ _ _)) by done. by rewrite orb_false_r.
  - by intros i ->.
  - by intros i ->.
Qed.

(** ** Lemmas *)
Section facts.
Context {task : Type} `{IoContextLaws task} (body : task → list (runner_threads.action task)).
Import runner_threads.
Implicit Types (s : state task) (w : worker task).

(** A worker that has not met [stop_]. *)
Definition alive w : Prop :=
  match w with
  | checking | running _ | executing _ _ | in_stop _ (entry | storing) _ => True
  | _ => False
  end.

(** Before [stop_] is set: every thread is in its loop, the guard keeps the context from
    stopping, and calls of [stop] have not got beyond their first steps. *)
Record unstopped (n : nat) s : Prop := {
  un_stop : stop_ s = false;
  un_guarded : ioc_guarded (ioc_ s) = true;
  un_ioc : ioc_stopped (ioc_ s) = false;
  un_length : length (threads_ s) = n;
  un_alive : Forall alive (threads_ s);
  un_joinable : joinable s = replicate n true;
  un_callers : Forall (λ c, c = calling entry ∨ c = calling storing) (callers s)
}.

Lemma make_unstopped count hw :
  unstopped (if decide (count = 0) then hw else count) (make (task:=task) count hw).
Proof.
  unfold make. split; simpl; try done.
  - apply guard_guarded.
  - rewrite guard_stopped. apply make_stopped.
  - apply length_replicate.
  - by apply Forall_replicate.
Qed.

(** The step of a thread, by what it does to the thread and to the context. *)
Lemma unstopped_set n s i w io :
  unstopped n s → ioc_guarded io = true → ioc_stopped io = false → alive w →
  unstopped n (set_thread i w (set_ioc io s)).
Proof.
  intros [? ? ? ? Ha ? ?] Hg Hst Hw. split; simpl; try done; [by rewrite length_insert|].
  by apply Forall_insert.
Qed.

Lemma set_ioc_self s : set_ioc (ioc_ s) s = s.
Proof. by destruct s. Qed.

Lemma unstopped_run n i s s' :
  unstopped n s → run_step body i s = Some s' → unstopped n s' ∨ stop_ s' = true.
Proof.
  intros Hun Hs. pose proof Hun as [Hstop Hg Hio Hl Ha Hj Hc]. unfold run_step in Hs.
  destruct (threads_ s !! i) as [w|] eqn:Hw; [|done]. pose proof (Forall_lookup_1 _ _ _ _ Ha Hw) as Hwa.
  destruct w as [|k|k [|[t| |] rest]|k pc rest| |]; simplify_eq; try done.
  - left. rewrite Hstop. rewrite <-(set_ioc_self s) at 1. by apply unstopped_set.
  - rewrite Hio, (guarded_drained _ Hg) in Hs. simpl in Hs.
    destruct (ioc_take (ioc_ s)) as [[t io]|] eqn:Ht; [|done]. simplify_eq. left.
    destruct (take_guarded _ _ _ Ht) as [Hg' Hst']. apply unstopped_set; [done|congruence|congruence|done].
  - left. apply unstopped_set; [done| | |done]; [by rewrite done_guarded|by rewrite done_running].
  - left. apply unstopped_set; [done| | |done]; [by rewrite post_guarded|by rewrite post_stopped].
  - left. apply unstopped_set; [done| | |done]; [by rewrite done_guarded|by rewrite done_running].
  - left. rewrite <-(set_ioc_self s) at 1. by apply unstopped_set.
  - destruct pc; try done; simpl in Hs; [rewrite Hstop in Hs; simpl in Hs|]; simplify_eq.
    + left. rewrite <-(set_ioc_self s) at 1. by apply unstopped_set.
    + by right.
Qed.

Lemma unstopped_step n l s s' :
  unstopped n s → step body l s = Some s' → unstopped n s' ∨ stop_ s' = true.
Proof.
  intros Hun Hs. pose proof Hun as [Hstop Hg Hio Hl Ha Hj Hc].
  destruct l as [i|j| |t]; simpl in Hs; [by eapply unstopped_run| | |]; simplify_eq.
  - unfold caller_step in Hs. destruct (callers s !! j) as [[pc| |]|] eqn:Hcj; try done.
    destruct (Forall_lookup_1 _ _ _ _ Hc Hcj) as [[= ->]|[= ->]]; simpl in Hs; [rewrite Hstop in Hs|]; simplify_eq.
    + left. split; simpl; try done. apply Forall_insert; [done|by right].
    + by right.
  - left. split; simpl; try done. apply Forall_app. split; [done|]. by repeat constructor.
  - left. split; simpl; try done; [by rewrite post_guarded|by rewrite post_stopped].
Qed.

Lemma stop_stays l s s' : step body l s = Some s' → stop_ s = true → stop_ s' = true.
Proof.
  assert (∀ self pc s r s', stop_step self pc s = Some (r, s') → stop_ s = true → stop_ s' = true) as Hst.
  { intros self pc s0 r s1 Hs Hstop. destruct pc; simpl in Hs; simplify_eq; try done.
    destruct (threads_ s0 !! i) as [w|]; [|by simplify_eq]. destruct (joinable s0 !! i) as [[]|]; simplify_eq; try done.
    destruct (decide _); [by simplify_eq|]. by destruct w; simplify_eq. }
  intros Hs Hstop. destruct l as [i|j| |t]; simpl in Hs; simplify_eq; try done.
  - unfold run_step in Hs. destruct (threads_ s !! i) as [w|]; [|done].
    destruct w as [|k|k [|[t| |] rest]|k pc rest| |]; simplify_eq; try done.
    + destruct (_ || _); [by simplify_eq|]. destruct (ioc_take _) as [[]|]; by simplify_eq.
    + destruct (stop_step (Some i) pc s) as [[[] s1]|] eqn:Hp; simplify_eq; by apply Hst in Hp.
  - unfold caller_step in Hs. destruct (callers s !! j) as [[pc| |]|]; try done.
    destruct (stop_step None pc s) as [[[] s1]|] eqn:Hp; simplify_eq; by apply Hst in Hp.
Qed.

Definition moves s l s' : Prop := step body l s = Some s'.

Lemma unstopped_steps n s ls s' :
  unstopped n s → steps moves s ls s' → stop_ s' = false → unstopped n s'.
Proof.
  intros Hun Hs Hstop. assert (unstopped n s' ∨ stop_ s' = true) as [?|?]; [|done|congruence].
  apply (steps_invariant moves (λ s, unstopped n s ∨ stop_ s = true)) with (s := s) (ls := ls); [|done|by left].
  intros s1 l s2 Hm [?|?]; [by eapply unstopped_step|]. right. by eapply stop_stays.
Qed.

(** When all threads wait there is no handler to run. *)
Lemma unstopped_idle n s i w :
  unstopped n s → threads_ s !! i = Some w → run_step body i s = None →
  (∃ k, w = running k) ∧ ioc_take (ioc_ s) = None ∨ ∃ k pc rest, w = in_stop k pc rest.
Proof.
  intros [Hstop Hg Hio Hl Ha Hj Hc] Hw Hs. pose proof (Forall_lookup_1 _ _ _ _ Ha Hw) as Hwa.
  unfold run_step in Hs. rewrite Hw in Hs. destruct w as [|k|k [|[t| |] rest]|k pc rest| |]; try done.
  - rewrite Hio, (guarded_drained _ Hg) in Hs. simpl in Hs. left. split; [by exists k|].
    by destruct (ioc_take (ioc_ s)) as [[]|].
  - right. by eexists _, _, _.
Qed.

(** ** From the first call of [stop]

    Handlers do not call it, and another call comes when the first has set [stop_]. *)
Context (Hbody : ∀ t, calls_stop ∉ body t).

Definition polite s l s' : Prop :=
  step body l s = Some s' ∧ match l with call => callers s = [] ∨ stop_ s = true | _ => True end.

Definition no_stop w : Prop :=
  match w with executing _ acts => calls_stop ∉ acts | in_stop _ _ _ => False | _ => True end.

(** How much a thread does before it ends, once [stop_] is set and the context is stopped. *)
Definition weight w : nat :=
  match w with
  | finished => 0 | checking => 1 | sleeping => 2 | running _ => 3
  | executing _ acts => 4 + length acts
  | in_stop _ _ _ => 0
  end.

(** What a step of a thread changes: itself and the context. *)
Lemma run_step_spec s i s' :
  Forall no_stop (threads_ s) → run_step body i s = Some s' →
  ∃ w w' io, threads_ s !! i = Some w ∧ s' = set_thread i w' (set_ioc io s) ∧ w ≠ finished ∧ no_stop w' ∧
    (ioc_stopped (ioc_ s) = true → ioc_stopped io = true) ∧
    (stop_ s = true → ioc_stopped (ioc_ s) = true → weight w' < weight w).
Proof.
  intros Hno Hs. unfold run_step in Hs. destruct (threads_ s !! i) as [w|] eqn:Hw; [|done].
  pose proof (Forall_lookup_1 _ _ _ _ Hno Hw) as Hwn. exists w. revert Hs.
  destruct w as [|k|k [|[t| |] rest]|k pc rest| |]; simpl; try done; intros Hs.
  - injection Hs as <-. eexists _, (ioc_ s). rewrite set_ioc_self. split_and!; try done; [by destruct (stop_ s)|].
    intros -> _. simpl. lia.
  - destruct (_ || _) eqn:Hd.
    + injection Hs as <-. eexists _, (ioc_ s). rewrite set_ioc_self. split_and!; try done; [by destruct (k =? 0)|].
      intros _ _. destruct (k =? 0); simpl; lia.
    + destruct (ioc_take (ioc_ s)) as [[t io]|] eqn:Ht; [|done]. injection Hs as <-. exists (executing (S k) (body t)), io.
      apply orb_false_iff in Hd as [Hd _]. split_and!; try done; [apply Hbody|congruence|congruence].
  - injection Hs as <-. eexists _, _. split_and!; try done; [apply done_stopped|]. simpl. lia.
  - injection Hs as <-. eexists _, _. split_and!; try done; [set_solver|by rewrite post_stopped|]. simpl. lia.
  - injection Hs as <-. eexists _, _. split_and!; try done; [apply done_stopped|]. simpl. lia.
  - exfalso. apply Hwn. by left.
  - injection Hs as <-. eexists _, (ioc_ s). rewrite set_ioc_self. split_and!; try done. simpl. lia.
Qed.

(** The first [k] of [n] threads have been joined. *)
Record joined (n k : nat) s : Prop := {
  jo_length : length (threads_ s) = n;
  jo_bound : k ≤ n;
  jo_joinable : joinable s = replicate k false ++ replicate (n - k) true;
  jo_finished m : m < k → threads_ s !! m = Some finished
}.

(** Where the call that set [stop_] is. *)
Definition first_at (n k : nat) (stopped : bool) (c : caller) : Prop :=
  match c with
  | calling resetting | calling stopping => k = 0
  | calling (joining i) => k = i ∧ stopped = true
  | back => k = n ∧ stopped = true
  | _ => False
  end.
Definition later (c : caller) : Prop := c = calling entry ∨ c = back.

Record stopping_from (n k : nat) (first : caller) (others : list caller) s : Prop := {
  sf_stop : stop_ s = true;
  sf_callers : callers s = first :: others;
  sf_later : Forall later others;
  sf_joined : joined n k s;
  sf_first : first_at n k (ioc_stopped (ioc_ s)) first;
  sf_no_stop : Forall no_stop (threads_ s)
}.

(** Before and after. *)
Definition polite_inv (n : nat) s : Prop :=
  (unstopped n s ∧ Forall no_stop (threads_ s) ∧
     (callers s = [] ∨ callers s = [calling entry] ∨ callers s = [calling storing])) ∨
  ∃ k first others, stopping_from n k first others s.

Lemma joined_thread n k s i w w' io :
  joined n k s → threads_ s !! i = Some w → w ≠ finished → joined n k (set_thread i w' (set_ioc io s)).
Proof.
  intros [Hl Hb Hj Hf] Hw Hne. split; simpl; try done; [by rewrite length_insert|].
  intros m Hm. destruct (decide (m = i)) as [->|Hmi].
  - rewrite (Hf i Hm) in Hw. by simplify_eq.
  - rewrite list_lookup_insert_ne by done. by apply Hf.
Qed.

Lemma stopping_thread n k first others s i s' :
  stopping_from n k first others s → run_step body i s = Some s' → stopping_from n k first others s'.
Proof.
  intros [Hstop Hc Hla Hj Hf Hno] Hs.
  destruct (run_step_spec s i s' Hno Hs) as (w & w' & io & Hw & -> & Hne & Hno' & Hst & _).
  split; simpl; try done.
  - by eapply joined_thread.
  - destruct first as [[]| |]; simpl in *; naive_solver.
  - by apply Forall_insert.
Qed.

Lemma joined_next n k s :
  joined n k s → threads_ s !! k = Some finished → joined n (S k) (set_joined k s) ∧ joinable s !! k = Some true.
Proof.
  intros [Hl Hb Hj Hf] Hk. pose proof (lookup_lt_Some _ _ _ Hk).
  assert (n - k = S (n - S k)) as Hn by lia. rewrite Hn in Hj. split.
  - split; simpl; [done|lia| |].
    + rewrite Hj. rewrite insert_app_r_alt by (by rewrite length_replicate). rewrite length_replicate, Nat.sub_diag.
      change (false :: replicate k false ++ replicate (n - S k) true) with (replicate (S k) false ++ replicate (n - S k) true).
      by rewrite (replicate_S_end k false), <-(assoc_L app).
    + intros m Hm. destruct (decide (m = k)) as [->|]; [done|]. apply Hf. lia.
  - rewrite Hj, lookup_app_r by (by rewrite length_replicate). by rewrite length_replicate, Nat.sub_diag.
Qed.

(** A step of the call that set [stop_]. *)
Lemma stop_step_first n k pc others s r s' :
  stopping_from n k (calling pc) others s → stop_step None pc s = Some (r, s') →
  match r with
  | at_ pc' => ∃ k', stopping_from n k' (calling pc') others (set_caller 0 (calling pc') s')
  | returned => stopping_from n k back others (set_caller 0 back s') ∧ k = n
  | threw => False
  end.
Proof.
  intros [Hstop Hc Hla Hj Hf Hno] Hs. destruct pc as [| | | |i]; simpl in Hf; try done; simpl in Hs.
  - injection Hs as <- <-. exists k. split; simpl; try done; [by rewrite Hc|]. by destruct Hj.
  - injection Hs as <- <-. exists k. split; simpl; try done; [by rewrite Hc| |]; [by destruct Hj|].
    by rewrite stop_stopped.
  - destruct Hf as [<- Hst]. destruct (threads_ s !! k) as [w|] eqn:Hw.
    + destruct Hj as [Hl Hb Hjo Hfin]. pose proof (lookup_lt_Some _ _ _ Hw) as Hlt.
      assert (joinable s !! k = Some true) as Hjk.
      { rewrite Hjo, lookup_app_r by (by rewrite length_replicate). rewrite length_replicate, Nat.sub_diag.
        apply lookup_replicate. split; [done|lia]. }
      rewrite Hjk in Hs. destruct (decide (None = Some k)) as [|_]; [done|]. destruct w; try done. injection Hs as <- <-.
      destruct (joined_next n k s) as [Hj' _]; [by split|done|]. exists (S k).
      split; simpl; try done; [by rewrite Hc|by destruct Hj'].
    + injection Hs as <- <-. apply lookup_ge_None in Hw. destruct Hj as [Hl Hb Hjo Hfin].
      assert (k = n) as -> by lia. split; [|done]. split; simpl; try done. by rewrite Hc.
Qed.

Lemma polite_step n s l s' : polite_inv n s → polite s l s' → polite_inv n s'.
Proof.
  intros Hinv [Hs Hl]. destruct Hinv as [(Hun & Hno & Hc)|(k & first & others & Hsf)].
  - pose proof (unstopped_step n l s s' Hun Hs) as Hor. pose proof (un_stop _ _ Hun) as Hstop.
    destruct l as [i|j| |t]; simpl in Hs.
    + destruct (run_step_spec s i s' Hno Hs) as (w & w' & io & Hw & -> & _ & Hno' & _).
      destruct Hor as [Hun'|Hst]; [|simpl in Hst; congruence]. left. split; [done|]. split; [by apply Forall_insert|done].
    + unfold caller_step in Hs. destruct (callers s !! j) as [c|] eqn:Hcj; [|done].
      destruct Hc as [Hc|[Hc|Hc]]; rewrite Hc in Hcj; [done|..]; (destruct j; [|done]);
        injection Hcj as <-; simpl in Hs.
      * rewrite Hstop in Hs. injection Hs as <-. left. destruct Hor as [Hun'|Hst]; [|simpl in Hst; congruence].
        split; [done|]. split; [done|]. right. right. simpl. by rewrite Hc.
      * injection Hs as <-. right. exists 0, (calling resetting), []. destruct Hun. split; simpl; try done; [by rewrite Hc|].
        split; simpl; try done; [lia|by rewrite Nat.sub_0_r|lia].
    + destruct Hl as [Hl|Hl]; [|congruence]. simplify_eq. left. destruct Hor as [Hun'|Hst]; [|simpl in Hst; congruence].
      split; [done|]. split; [done|]. right. left. simpl. by rewrite Hl.
    + simplify_eq. left. destruct Hor as [Hun'|Hst]; [|simpl in Hst; congruence]. by split.
  - right. destruct l as [i|j| |t]; simpl in Hs.
    + exists k, first, others. by eapply stopping_thread.
    + unfold caller_step in Hs. destruct Hsf as [Hstop Hc Hla Hj Hf Hno]. rewrite Hc in Hs. destruct j as [|j]; simpl in Hs.
      * destruct first as [pc| |]; try done. destruct (stop_step None pc s) as [[r s1]|] eqn:Hp; [|done].
        pose proof (stop_step_first n k pc others s r s1 ltac:(by split) Hp) as Hr.
        destruct r as [pc'| |]; [|destruct Hr as [Hr _]|done]; simplify_eq.
        -- destruct Hr as [k' Hr]. by exists k', (calling pc'), others.
        -- by exists k, back, others.
      * destruct (others !! j) as [c|] eqn:Hcj; [|done]. destruct (Forall_lookup_1 _ _ _ _ Hla Hcj) as [->| ->]; [|done].
        simpl in Hs. rewrite Hstop in Hs. simplify_eq. exists k, first, (<[j:=back]> others).
        split; simpl; try done; [by rewrite Hc| |by destruct Hj]. apply Forall_insert; [done|by right].
    + simplify_eq. exists k, first, (others ++ [calling entry]). destruct Hsf as [Hstop Hc Hla Hj Hf Hno].
      split; simpl; try done; [by rewrite Hc| |by destruct Hj]. apply Forall_app. split; [done|]. repeat constructor.
    + simplify_eq. exists k, first, others. destruct Hsf as [Hstop Hc Hla Hj Hf Hno].
      split; simpl; try done; [by destruct Hj|by rewrite post_stopped].
Qed.

Lemma polite_reach count hw ls s :
  steps polite (make count hw) ls s → polite_inv (if decide (count = 0) then hw else count) s.
Proof.
  intros Hs. apply (steps_invariant polite (polite_inv _)) with (s := make count hw) (ls := ls); [|done|].
  - intros s1 l s2 Hp Hi. by eapply polite_step.
  - left. split; [apply make_unstopped|]. split; [|by left]. by apply Forall_replicate.
Qed.

(** ** The end: every step counts *)
Definition caller_weight (n : nat) (c : caller) : nat :=
  match c with
  | calling entry => 1
  | calling resetting => n + 3
  | calling stopping => n + 2
  | calling (joining i) => S (n - i)
  | _ => 0
  end.
Definition steps_left s : nat :=
  sum_list_with weight (threads_ s) + sum_list_with (caller_weight (length (threads_ s))) (callers s).

Definition own (l : label task) : Prop := match l with thread _ | caller_ _ => True | call | post _ => False end.

Lemma caller_less n k first others s j s' :
  stopping_from n k first others s → caller_step j s = Some s' →
  threads_ s' = threads_ s ∧ ∃ c c', callers s !! j = Some c ∧ callers s' = <[j:=c']> (callers s) ∧
    caller_weight n c' < caller_weight n c.
Proof.
  intros [Hstop Hc Hla Hj Hf Hno] Hs. unfold caller_step in Hs.
  destruct (callers s !! j) as [c|] eqn:Hcj; [|done]. destruct c as [pc| |]; try done.
  destruct (stop_step None pc s) as [[r s1]|] eqn:Hp; [|done]. rewrite Hc in Hcj. destruct j as [|j]; simpl in Hcj.
  - injection Hcj as ->. pose proof (stop_step_first n k pc others s r s1 ltac:(by split) Hp) as Hr.
    destruct pc as [| | | |i]; simpl in Hf; try done; simpl in Hp;
      [injection Hp as <- <-; simplify_eq; split; [done|]; eexists _, _; (split; [done|split; [done|]]); simpl; lia..|].
    destruct Hf as [<- _]. destruct (threads_ s !! k) as [w|] eqn:Hw.
    + apply lookup_lt_Some in Hw. rewrite (jo_length _ _ _ Hj) in Hw.
      destruct (joinable s !! k) as [[]|]; [|simplify_eq; by destruct Hr..].
      destruct (decide (None = Some k)); [done|]. destruct w; try done. injection Hp as <- <-. simplify_eq.
      split; [done|]. eexists _, _. split; [done|split; [done|]]. simpl. lia.
    + injection Hp as <- <-. simplify_eq. split; [done|]. eexists _, _. split; [done|split; [done|]]. simpl. lia.
  - pose proof (Forall_lookup_1 _ _ _ _ Hla Hcj) as Hl. destruct Hl as [[= ->]|Hl]; [|done]. simpl in Hp.
    rewrite Hstop in Hp. injection Hp as <- <-. simplify_eq. split; [done|]. eexists _, _. split; [done|split; [done|]].
    simpl. lia.
Qed.

Lemma stop_step_stopped self pc s r s' :
  stop_step self pc s = Some (r, s') → ioc_stopped (ioc_ s) = true → ioc_stopped (ioc_ s') = true.
Proof.
  intros Hs Hst. destruct pc as [| | | |i]; simpl in Hs; simplify_eq; simpl; try done.
  - by apply release_stopped.
  - apply stop_stopped.
  - destruct (threads_ s !! i) as [w|]; [|by simplify_eq]. destruct (joinable s !! i) as [[]|]; simplify_eq; try done.
    destruct (decide _); [by simplify_eq|]. by destruct w; simplify_eq.
Qed.

Lemma own_step_less n k first others s l s' :
  stopping_from n k first others s → ioc_stopped (ioc_ s) = true → own l → polite s l s' →
  steps_left s' < steps_left s ∧ ioc_stopped (ioc_ s') = true.
Proof.
  intros Hsf Hst Hown [Hs _]. pose proof (sf_joined _ _ _ _ _ Hsf) as Hj. destruct l as [i|j| |t]; try done; simpl in Hs.
  - destruct (run_step_spec s i s' (sf_no_stop _ _ _ _ _ Hsf) Hs) as (w & w' & io & Hw & -> & _ & _ & Hio & Hless).
    split; [|by apply Hio]. specialize (Hless (sf_stop _ _ _ _ _ Hsf) Hst). unfold steps_left. simpl. rewrite length_insert.
    pose proof (sum_list_with_insert weight (threads_ s) i w w' Hw). lia.
  - destruct (caller_less n k first others s j s' Hsf Hs) as (Ht & c & c' & Hcj & Hc' & Hless). split.
    + unfold steps_left. rewrite Ht, Hc', (jo_length _ _ _ Hj).
      pose proof (sum_list_with_insert (caller_weight n) (callers s) j c c' Hcj). lia.
    + unfold caller_step in Hs. destruct (callers s !! j) as [[pc| |]|]; try done.
      destruct (stop_step None pc s) as [[r s1]|] eqn:Hp; [|done].
      pose proof (stop_step_stopped _ _ _ _ _ Hp Hst). by destruct r; simplify_eq.
Qed.

Lemma own_steps_bounded n k first others s ls s' :
  stopping_from n k first others s → ioc_stopped (ioc_ s) = true →
  steps (λ s l s', own l ∧ polite s l s') s ls s' →
  length ls + steps_left s' ≤ steps_left s ∧ ioc_stopped (ioc_ s') = true ∧
  ∃ k' first' others', stopping_from n k' first' others' s'.
Proof.
  intros Hsf Hst Hs. revert k first others Hsf Hst. induction Hs as [s|s l s1 ls s2 [Hown Hp] Hs IH]; intros k first others Hsf Hst.
  - split; [simpl; lia|]. split; [done|by exists k, first, others].
  - destruct (own_step_less n k first others s l s1 Hsf Hst Hown Hp) as [Hless Hst1].
    assert (polite_inv n s1) as [(Hun & _ & _)|(k1 & f1 & o1 & Hsf1)].
    { apply (polite_step n s l); [right; by eexists _, _, _|done]. }
    + exfalso. pose proof (un_ioc _ _ Hun). congruence.
    + destruct (IH k1 f1 o1 Hsf1 Hst1) as (Hb & ? & ?). split; [simpl; lia|done].
Qed.

(** When nothing can go on, all is over. *)
Lemma stuck_is_over n k first others s :
  stopping_from n k first others s → ioc_stopped (ioc_ s) = true →
  (∀ l, own l → step body l s = None) →
  Forall (eq finished) (threads_ s) ∧ Forall (eq back) (callers s) ∧ joinable s = replicate n false.
Proof.
  intros [Hstop Hc Hla Hj Hf Hno] Hst Hstuck.
  assert (∀ i w, threads_ s !! i = Some w → w = finished) as Hfin.
  { intros i w Hw. specialize (Hstuck (thread i) I). simpl in Hstuck. unfold run_step in Hstuck. rewrite Hw in Hstuck.
    pose proof (Forall_lookup_1 _ _ _ _ Hno Hw) as Hwn.
    destruct w as [|c|c [|[t| |] rest]|c pc rest| |]; simpl in Hstuck; try done. by rewrite Hst in Hstuck. }
  assert (first = back ∧ k = n) as [-> ->].
  { specialize (Hstuck (caller_ 0) I). simpl in Hstuck. unfold caller_step in Hstuck. rewrite Hc in Hstuck. simpl in Hstuck.
    destruct first as [[| | | |i]| |]; simpl in Hf; try done; [|by destruct Hf as [-> _]].
    destruct Hf as [-> _]. simpl in Hstuck. destruct (threads_ s !! i) as [w|] eqn:Hw; [|done].
    pose proof (Hfin i w Hw) as ->. destruct (joined_next n i s Hj Hw) as [_ Hji]. by rewrite Hji in Hstuck. }
  split_and!.
  - apply Forall_lookup. intros i w Hw. symmetry. by apply (Hfin i).
  - rewrite Hc. constructor; [done|]. apply Forall_lookup. intros j c Hcj.
    destruct (Forall_lookup_1 _ _ _ _ Hla Hcj) as [->| ->]; [|done]. exfalso.
    specialize (Hstuck (caller_ (S j)) I). simpl in Hstuck. unfold caller_step in Hstuck. rewrite Hc in Hstuck. simpl in Hstuck.
    rewrite Hcj in Hstuck. simpl in Hstuck. by rewrite Hstop in Hstuck.
  - rewrite (jo_joinable _ _ _ Hj), Nat.sub_diag. by rewrite app_nil_r.
Qed.
End facts.

(** ** poll_runner *)
Section poll.
Context {task : Type} `{IoContextLaws task} (body : task → list (runner_threads.action task)).
Context (Hposts : ∀ t, Forall (λ a, ∃ u, a = runner_threads.posts u) (body t)).
Import poll_runner.

Lemma handle_posts (io : ioc) t :
  ioc_guarded io = true → ioc_stopped io = false →
  ∃ io', handle body t io = (Ret tt, io') ∧ ioc_guarded io' = true ∧ ioc_stopped io' = false.
Proof.
  intros Hg Hst.
  assert (∃ io1, for_each (body t) perform io = (Ret tt, io1) ∧ ioc_guarded io1 = true ∧ ioc_stopped io1 = false)
    as (io1 & Hr & Hg1 & Hst1).
  { revert io Hg Hst. induction (Hposts t) as [|a l [u ->] _ IH]; intros io Hg Hst; [by exists io|]. cbn [for_each].
    unfold perform at 1. rewrite (bind_run _ _ io tt (ioc_post u io)) by done.
    apply IH; [by rewrite post_guarded|by rewrite post_stopped]. }
  exists (ioc_done io1). split; [|by rewrite done_guarded, done_running].
  unfold handle. rewrite (bind_run _ _ io tt io1); [done|]. unfold try_catch. by rewrite Hr.
Qed.

(** While something is outstanding [poll] does not return, whatever handlers there are. *)
Lemma run_loop_waits fuel count (io : ioc) :
  ioc_guarded io = true → ioc_stopped io = false → (run_loop body fuel count io).1 = Ret None.
Proof.
  revert count io. induction fuel as [|fuel IH]; intros count io Hg Hst; cbn [run_loop];
    rewrite (bind_run _ _ io io io) by done; rewrite Hst, (guarded_drained _ Hg); simpl; [done|].
  destruct (ioc_take io) as [[t io1]|] eqn:Ht; [|done]. destruct (take_guarded _ _ _ Ht) as [Hg1 Hst1].
  rewrite (bind_run _ _ io tt io1) by done.
  destruct (handle_posts io1 t) as (io2 & Hr & Hg2 & Hst2); [congruence..|].
  rewrite (bind_run _ _ io1 tt io2) by done. by apply IH.
Qed.
End poll.

(** The handlers of a queue, when those they post are of smaller size. *)
Section poll_queue.
Context {task : Type} (children : task → list task) (size : task → nat).
Context (Hsize : ∀ t, size t = S (sum_list_with size (children t))).
Import poll_runner.

Definition posting (t : task) : list (runner_threads.action task) := map runner_threads.posts (children t).

Lemma handle_queue (q : queue task) t :
  in_progress q = 1 → guards q = 0 → halted q = false →
  handle (H := queue_ioc task) posting t q
  = (Ret tt, halt_if_idle (Queue (ready q ++ children t) 0 0 false)).
Proof.
  intros Hp Hg Hh. unfold handle.
  assert (∀ l (q : queue task), for_each (map runner_threads.posts l) (perform (H := queue_ioc task)) q
    = (Ret tt, Queue (ready q ++ l) (guards q) (in_progress q) (halted q))) as Hl.
  { induction l as [|u l IH]; intros q0; simpl; [by rewrite app_nil_r; destruct q0|].
    rewrite (bind_run _ _ q0 tt (ioc_post (IoContext := queue_ioc task) u q0)) by done. rewrite IH. simpl. by rewrite <-(assoc_L app). }
  rewrite (bind_run _ _ q tt (Queue (ready q ++ children t) 0 1 false)).
  - done.
  - unfold try_catch, posting. rewrite Hl. by rewrite Hp, Hg, Hh.
Qed.

Lemma run_loop_queue fuel count (l : list task) :
  sum_list_with size l ≤ fuel →
  run_loop (H := queue_ioc task) posting fuel count (halt_if_idle (Queue l 0 0 false))
  = (Ret (Some (count + sum_list_with size l)), Queue [] 0 0 true).
Proof.
  revert count l. induction fuel as [|fuel IH]; intros count l Hf.
  - destruct l as [|t l]; [|simpl in Hf; rewrite Hsize in Hf; lia]. simpl. by rewrite Nat.add_0_r.
  - destruct l as [|t l]; [simpl; by rewrite Nat.add_0_r|]. cbn [run_loop].
    rewrite (bind_run _ _ _ (Queue (t :: l) 0 0 false) (Queue (t :: l) 0 0 false)) by done. simpl.
    rewrite (bind_run _ _ _ tt (Queue l 0 1 false)) by done.
    rewrite (bind_run _ _ _ _ _ (handle_queue (Queue l 0 1 false) t eq_refl eq_refl eq_refl)). simpl ready.
    assert (sum_list_with size (l ++ children t) + 1 = sum_list_with size (t :: l)) as Hsum.
    { rewrite sum_list_with_app. simpl. rewrite (Hsize t). lia. }
    simpl in Hf, Hsum. rewrite IH by lia. do 3 f_equal. lia.
Qed.
End poll_queue.

(** ** Runs by labels *)
Section runs.
Context {task : Type} `{IoContext task} (body : task → list (runner_threads.action task)).
Fixpoint run_labels (ls : list (runner_threads.label task)) (s : runner_threads.state task) :
    option (runner_threads.state task) :=
  match ls with
  | [] => Some s
  | l :: ls => match runner_threads.step body l s with Some s => run_labels ls s | None => None end
  end.

Lemma run_labels_steps ls s s' : run_labels ls s = Some s' → steps (moves body) s ls s'.
Proof.
  revert s. induction ls as [|l ls IH]; intros s; simpl; [intros [= <-]; constructor|].
  destruct (runner_threads.step body l s) as [s1|] eqn:Hs; [|done]. intros Hr.
  apply steps_cons with s1; [exact Hs|by apply IH].
Qed.

(** One call of [stop]. *)
Lemma run_labels_polite ls s s' :
  run_labels ls s = Some s' → Forall own ls → steps (polite body) s ls s'.
Proof.
  revert s. induction ls as [|l ls IH]; intros s; simpl; [intros [= <-] _; constructor|].
  destruct (runner_threads.step body l s) as [s1|] eqn:Hs; [|done]. intros Hr [Hl Hls]%Forall_cons.
  apply steps_cons with s1; [|by apply IH]. split; [done|by destruct l].
Qed.
End runs.

(** ** Properties *)

(** C34. The threads of a runner survive.  As long as nobody has set [stop_], in every
    interleaving of the threads, of posts from outside, and of handlers that
    post, throw or begin to stop the runner: the runner has the threads it was made with, none
    of them has left its loop or sleeps, the context is not stopped, and when
    no thread can take a step all of them wait inside [run] and no handler is ready. *)
Theorem runner_threads_survive {task : Type} `{IoContextLaws task}
    (body : task → list (runner_threads.action task)) (thread_count hardware : nat)
    (ls : list (runner_threads.label task)) (s : runner_threads.state task) :
  steps (moves body) (runner_threads.make thread_count hardware) ls s →
  runner_threads.stop_ s = false →
  length (runner_threads.threads_ s) = (if decide (thread_count = 0) then hardware else thread_count) ∧
  (∀ i w, runner_threads.threads_ s !! i = Some w →
     w ≠ runner_threads.finished ∧ w ≠ runner_threads.sleeping) ∧
  ioc_stopped (runner_threads.ioc_ s) = false ∧
  (0 < length (runner_threads.threads_ s) →
     (∀ i, runner_threads.run_step body i s = None) →
     ioc_take (runner_threads.ioc_ s) = None ∧
     ∀ i w, runner_threads.threads_ s !! i = Some w → ∃ count, w = runner_threads.running count).
Proof.
  intros Hs Hstop.
  pose proof (unstopped_steps body _ _ _ _ (make_unstopped thread_count hardware) Hs Hstop) as Hun.
  split_and!.
  - by apply un_length.
  - intros i w Hw. pose proof (Forall_lookup_1 _ _ _ _ (un_alive _ _ Hun) Hw). by destruct w.
  - by apply (un_ioc _ _ Hun).
  - intros Hn Hidle.
    assert (∀ i w, runner_threads.threads_ s !! i = Some w →
      (∃ count, w = runner_threads.running count) ∧ ioc_take (runner_threads.ioc_ s) = None) as Hall.
    { intros i w Hw. destruct (unstopped_idle body _ s i w Hun Hw (Hidle i)) as [?|(k & pc & rest & ->)]; [done|].
      exfalso. pose proof (Forall_lookup_1 _ _ _ _ (un_alive _ _ Hun) Hw) as Ha. specialize (Hidle i).
      unfold runner_threads.run_step in Hidle. rewrite Hw in Hidle. destruct pc; simpl in Ha; try done; simpl in Hidle;
        try done. by destruct (runner_threads.stop_ s). }
    split.
    + destruct (runner_threads.threads_ s) as [|w l] eqn:Ht; [simpl in Hn; lia|]. by apply (Hall 0 w).
    + intros i w Hw. by apply (Hall i w).
Qed.

(** C33. Stopping a runner ends it.  When no handler calls [stop], and callers other than the
    first come when [stop_] is set: until the first call has stopped the context, that call
    can always go on; and from then on the threads and the callers take a bounded number of
    steps, whatever is posted and however they take turns, and when none of them can take a step, all
    threads have left [run], all calls of [stop] have returned, every thread has
    been joined and the destructor is safe. *)
Theorem runner_stops {task : Type} `{IoContextLaws task}
    (body : task → list (runner_threads.action task)) (thread_count hardware : nat)
    (ls : list (runner_threads.label task)) (s : runner_threads.state task) :
  (∀ t, runner_threads.calls_stop ∉ body t) →
  steps (polite body) (runner_threads.make thread_count hardware) ls s →
  (runner_threads.stop_ s = true → ioc_stopped (runner_threads.ioc_ s) = false →
     is_Some (runner_threads.step body (runner_threads.caller_ 0) s)) ∧
  (ioc_stopped (runner_threads.ioc_ s) = true →
   ∀ ls' s', steps (λ s l s', own l ∧ polite body s l s') s ls' s' →
     length ls' ≤ steps_left s ∧
     ((∀ l, own l → runner_threads.step body l s' = None) →
      Forall (eq runner_threads.finished) (runner_threads.threads_ s') ∧
      Forall (eq runner_threads.back) (runner_threads.callers s') ∧
      ∀ (st : unit), runner_threads.destroyed s' st = (Ret tt, st))).
Proof.
  intros Hbody Hs. pose proof (polite_reach body Hbody _ _ _ _ Hs) as Hinv. split.
  - intros Hstop Hst. destruct Hinv as [(Hun & _ & _)|(k & first & others & [_ Hc _ _ Hf _])].
    { pose proof (un_stop _ _ Hun). congruence. }
    simpl. unfold runner_threads.caller_step. rewrite Hc. simpl.
    destruct first as [[| | | |i]| |]; simpl in Hf; try done; [by destruct Hf; congruence|by destruct Hf; congruence].
  - intros Hst ls' s' Hs'. destruct Hinv as [(Hun & _ & _)|(k & first & others & Hsf)].
    { pose proof (un_ioc _ _ Hun). congruence. }
    destruct (own_steps_bounded body Hbody _ _ _ _ _ _ _ Hsf Hst Hs') as (Hb & Hst' & k' & f' & o' & Hsf').
    split; [lia|]. intros Hstuck. destruct (stuck_is_over body _ _ _ _ _ Hsf' Hst' Hstuck) as (? & ? & Hj).
    split; [done|split; [done|]]. intros st. unfold runner_threads.destroyed. rewrite Hj.
    assert (∀ n, existsb id (replicate n false) = false) as -> by (intros n; by induction n). done.
Qed.

(** Three handlers: one throws, one posts it, one stops the runner. *)
Definition toy_handler (t : nat) : list (runner_threads.action nat) :=
  match t with
  | 0 => [runner_threads.throws]
  | 1 => [runner_threads.posts 0]
  | _ => [runner_threads.calls_stop]
  end.
Definition toy_runner : runner_threads.state nat := runner_threads.make 2 8.

(** A handler posts one that throws, and both threads are back in [run]. *)
Definition toy_labels : list (runner_threads.label nat) :=
  [runner_threads.thread 0; runner_threads.post 1; runner_threads.thread 0; runner_threads.thread 1;
   runner_threads.thread 0; runner_threads.thread 1; runner_threads.thread 1; runner_threads.thread 0;
   runner_threads.thread 1].

Lemma runner_threads_survive_witness :
  ∃ s, run_labels toy_handler toy_labels toy_runner = Some s ∧
    ioc_take (runner_threads.ioc_ s) = None ∧
    runner_threads.threads_ s = [runner_threads.running 1; runner_threads.running 0].
Proof.
  destruct (run_labels toy_handler toy_labels toy_runner) as [s|] eqn:Hr; [|vm_compute in Hr; discriminate].
  exists s. split; [reflexivity|].
  assert (runner_threads.stop_ s = false ∧ runner_threads.threads_ s = [runner_threads.running 1; runner_threads.running 0])
    as [Hstop Ht] by (vm_compute in Hr; injection Hr as <-; split; reflexivity).
  destruct (runner_threads_survive toy_handler 2 8 toy_labels s) as (_ & _ & _ & Hidle).
  - by apply run_labels_steps.
  - exact Hstop.
  - split; [|exact Ht]. apply Hidle.
    + rewrite Ht. simpl. lia.
    + intros i. vm_compute in Hr. injection Hr as <-. by destruct i as [|[|i]].
Defined.

(** One call of [stop], while a handler runs and another is queued. *)
Definition toy_posting (t : nat) : list (runner_threads.action nat) :=
  match t with 0 => [] | _ => [runner_threads.posts 0] end.
Definition toy_before : list (runner_threads.label nat) :=
  [runner_threads.thread 0; runner_threads.post 1; runner_threads.thread 0; runner_threads.call].
Definition toy_stop : list (runner_threads.label nat) := replicate 4 (runner_threads.caller_ 0).
Definition toy_after : list (runner_threads.label nat) :=
  [runner_threads.thread 0; runner_threads.thread 0; runner_threads.thread 1; runner_threads.thread 0;
   runner_threads.thread 0; runner_threads.caller_ 0; runner_threads.caller_ 0; runner_threads.caller_ 0].

Lemma runner_stops_witness :
  ∃ s s', run_labels toy_posting (toy_before ++ toy_stop) toy_runner = Some s ∧
    run_labels toy_posting toy_after s = Some s' ∧ length toy_after ≤ steps_left s ∧
    Forall (eq runner_threads.back) (runner_threads.callers s') ∧
    runner_threads.destroyed s' tt = (Ret tt, tt).
Proof.
  assert (∀ t, runner_threads.calls_stop ∉ toy_posting t) as Hbody.
  { intros [|t]; simpl; [by apply not_elem_of_nil|]. by intros [?|?%elem_of_nil]%elem_of_cons. }
  destruct (run_labels toy_posting toy_before toy_runner) as [s0|] eqn:H0; [|vm_compute in H0; discriminate].
  assert (run_labels toy_posting (toy_before ++ toy_stop) toy_runner = run_labels toy_posting toy_stop s0) as Happ
    by (vm_compute in H0; injection H0 as <-; vm_compute; reflexivity).
  rewrite Happ. destruct (run_labels toy_posting toy_stop s0) as [s|] eqn:Hr;
    [|vm_compute in H0; injection H0 as <-; vm_compute in Hr; discriminate].
  destruct (run_labels toy_posting toy_after s) as [s'|] eqn:Hr';
    [|vm_compute in H0; injection H0 as <-; vm_compute in Hr; injection Hr as <-; vm_compute in Hr'; discriminate].
  exists s, s'. split; [reflexivity|]. split; [exact Hr'|].
  assert (steps (polite toy_posting) toy_runner toy_before s0) as Hp0.
  { vm_compute in H0. injection H0 as <-. unfold toy_before, toy_runner.
    do 4 (eapply steps_cons; [split; [vm_compute; reflexivity|vm_compute; by auto]|]). constructor. }
  destruct (runner_stops toy_posting 2 8 (toy_before ++ toy_stop) s Hbody) as [_ Hend].
  - eapply steps_app; [exact Hp0|]. apply run_labels_polite; [exact Hr|]. by repeat constructor.
  - destruct (Hend ltac:(vm_compute in H0; injection H0 as <-; vm_compute in Hr; injection Hr as <-; reflexivity)
      toy_after s') as [Hb Hover].
    + assert (∀ ls s1 s2, run_labels toy_posting ls s1 = Some s2 → Forall own ls →
        steps (λ s l s', own l ∧ polite toy_posting s l s') s1 ls s2) as Hown.
      { induction ls as [|l ls IH]; intros s1 s2; simpl; [intros [= <-] _; constructor|].
        destruct (runner_threads.step toy_posting l s1) as [s3|] eqn:Hs; [|done]. intros Hrl [Hl Hls]%Forall_cons.
        apply steps_cons with s3; [|by apply IH]. split; [done|]. split; [done|by destruct l]. }
      apply Hown; [exact Hr'|]. by repeat constructor.
    + split; [exact Hb|].
      destruct Hover as (_ & Hc & Hd); [|split; [exact Hc|exact (Hd tt)]].
      vm_compute in H0; injection H0 as <-; vm_compute in Hr; injection Hr as <-; vm_compute in Hr'; injection Hr' as <-.
      intros [i|j| |t] Hown; try done; [by destruct i as [|[|i]]|by destruct j as [|j]].
Defined.

(** Stopping goes wrong in two ways.  A handler that calls [stop] joins its own thread: [join] throws, so
    [stop] never returns there, a later call returns at once since [stop_] is set, and the
    destructor ends the program.  And two callers that both read [stop_] before either has set it
    both join the threads: the second [join] of a thread throws. *)
Theorem runner_stop_hazards :
  (∃ s, run_labels toy_handler ([runner_threads.post 2] ++ replicate 3 (runner_threads.thread 0) ++
      replicate 6 (runner_threads.thread 0) ++ [runner_threads.call; runner_threads.caller_ 0]) (runner_threads.make 1 8)
      = Some s ∧
    runner_threads.callers s = [runner_threads.back] ∧ runner_threads.joinable s = [true] ∧
    (runner_threads.destroyed s tt).1 = Aborted) ∧
  (∃ s, run_labels toy_handler ([runner_threads.call; runner_threads.call; runner_threads.caller_ 0;
      runner_threads.caller_ 1] ++ replicate 3 (runner_threads.caller_ 0) ++ [runner_threads.thread 0; runner_threads.caller_ 0] ++
      replicate 4 (runner_threads.caller_ 1)) (runner_threads.make 1 8) = Some s ∧
    runner_threads.callers s !! 1 = Some runner_threads.failed).
Proof. split; eexists; vm_compute; repeat split. Qed.

(** [poll] of a [poll_runner] runs until there is no work: with ready handlers only, which post
    others of smaller size, it runs them all, counts them and returns; but while anything is outstanding
    it waits, whatever number of handlers it is given.  [poll_one] runs one handler at most and returns. *)
Theorem poll_runs_or_waits {task : Type} `{IoContextLaws task} (children : task → list task) (size : task → nat) :
  (∀ t, size t = S (sum_list_with size (children t))) →
  (∀ fuel (l : list task), sum_list_with size l ≤ fuel →
     poll_runner.poll (H := queue_ioc task) (posting children) fuel (Queue l 0 0 true)
     = (Ret (Some (sum_list_with size l)), Queue [] 0 0 true)) ∧
  (∀ fuel (io : ioc), ioc_guarded io = true →
     (poll_runner.poll (posting children) fuel io).1 = Ret None) ∧
  (∀ (io : ioc), ioc_guarded io = true → ∃ n, (poll_runner.poll_one (posting children) io).1 = Ret n ∧ n ≤ 1).
Proof.
  intros Hsize. assert (∀ t, Forall (λ a, ∃ u, a = runner_threads.posts u) (posting children t)) as Hposts.
  { intros t. apply Forall_fmap, Forall_true. intros u. by exists u. }
  split_and!.
  - intros fuel l Hf. pose proof (run_loop_queue children size Hsize fuel 0 l Hf) as Hr.
    unfold poll_runner.poll. rewrite (bind_run _ _ _ tt (Queue l 0 0 false)) by done.
    destruct l as [|t l]; [by destruct fuel|exact Hr].
  - intros fuel io Hg. unfold poll_runner.poll. rewrite (bind_run _ _ io tt (ioc_restart io)) by done.
    apply run_loop_waits; [done|by rewrite restart_guarded|apply restart_stopped].
  - intros io Hg. unfold poll_runner.poll_one. rewrite (bind_run _ _ io tt (ioc_restart io)) by done.
    set (io1 := ioc_restart io). assert (ioc_guarded io1 = true) as Hg1 by (unfold io1; by rewrite restart_guarded).
    rewrite (bind_run _ _ io1 io1 io1) by done.
    assert (ioc_stopped io1 = false) as Hst by apply restart_stopped. rewrite Hst, (guarded_drained _ Hg1). simpl.
    destruct (ioc_take io1) as [[t io2]|] eqn:Ht; [|exists 0; split; [done|lia]].
    destruct (take_guarded _ _ _ Ht) as [Hg2 Hst2]. rewrite (bind_run _ _ io1 tt io2) by done.
    destruct (handle_posts _ Hposts io2 t) as (io3 & Hr & _); [congruence|congruence|].
    rewrite (bind_run _ _ io2 tt io3) by done. exists 1. split; [done|lia].
Qed.

Lemma poll_runs_or_waits_witness :
  let children (t : nat) := match t with 0 => [] | _ => [0; 0] end in
  poll_runner.poll (H := queue_ioc nat) (posting children) 9 (Queue [1; 0; 1] 0 0 true) = (Ret (Some 7), Queue [] 0 0 true).
Proof.
  intros children. destruct (poll_runs_or_waits children (λ t, match t with 0 => 1 | _ => 3 end)) as [Hp _].
  - by intros [|t].
  - apply Hp. simpl. lia.
Defined.
