(* ===== verification/Logger.v ===== *)
(** * play/base/logger.{hpp,cpp}, stop_watch.hpp

    The one logger of the program, made by the first call of [get], by however many
    threads; the dump of bytes; and the stop watch.  spdlog's registry of
    loggers is third-party code: the class [Spdlog], with its documented behaviour
    in [SpdlogLaws]. *)

From S2P Require Import Prelude.
From S2P Require Import Serializer.
From Stdlib.Strings Require Import Ascii.
Import (notations) Ascii.

(** [find_logger] is [spdlog::get]; [register_logger] is [None] when it throws, since there is a
    logger of that name; [new_logger] is [std::make_shared]. *)
Class Spdlog := {
  registry : Type;
  log_object : Type;
  no_loggers : registry;
  find_logger : str → registry → option log_object;
  register_logger : str → log_object → registry → option registry;
  new_logger : str → log_object
}.

Class SpdlogLaws `{Spdlog} := {
  find_none n : find_logger n no_loggers = None;
  register_fresh n l r : find_logger n r = None →
    ∃ r', register_logger n l r = Some r' ∧ find_logger n r' = Some l ∧
      ∀ m, m ≠ n → find_logger m r' = find_logger m r;
  register_again n l r k : find_logger n r = Some k → register_logger n l r = None
}.

Module logger.
Section get.
Context `{Spdlog}.

(** Where a thread is in [get()]: at the test of [initialized_], at the three steps of [setup()] that others
    see (a logger is registered under the name it was made with), and at [spdlog::get]; then it has a result, or an exception. *)
Inductive pc :=
  | testing
  | claiming
  | building
  | registering (n : str) (l : log_object)
  | looking_up
  | got (l : option log_object)
  | threw.

Record state := State {
  name : str;
  initialized_ : bool;
  registry_ : registry;
  threads : list pc
}.
Definition make (name : str) : state := State name false no_loggers [].

(** A step of [get()], with [setup()]: the logger is marked initialized before it is made. *)
Definition get_step (i : nat) (s : state) : option state :=
  let set p s := State (name s) (initialized_ s) (registry_ s) (<[i := p]> (threads s)) in
  match threads s !! i with
  | Some testing => Some (set (if initialized_ s then looking_up else claiming) s)
  | Some claiming => Some (set building (State (name s) true (registry_ s) (threads s)))
  | Some building => Some (set (registering (name s) (new_logger (name s))) s)
  | Some (registering n l) =>
      match register_logger n l (registry_ s) with
      | Some r => Some (set looking_up (State (name s) (initialized_ s) r (threads s)))
      | None => Some (set threw s)
      end
  | Some looking_up => Some (set (got (find_logger (name s) (registry_ s))) s)
  | _ => None
  end.

(** The steps: of a call, a new call in another thread, and an assignment to [logger::name]. *)
Inductive label := thread (i : nat) | call | rename (n : str).
Definition step (s : state) (l : label) (s' : state) : Prop :=
  match l with
  | thread i => get_step i s = Some s'
  | call => s' = State (name s) (initialized_ s) (registry_ s) (threads s ++ [testing])
  | rename n => s' = State n (initialized_ s) (registry_ s) (threads s)
  end.
End get.

(** [dump_hex(lvl, m, data, len)], the part that is logged behind the message: two columns for
    every byte, filled with blanks, and a bar. *)
Definition hex_digit (v : Z) : ascii :=
  ascii_of_nat (Z.to_nat (if decide (v < 10)%Z then 48 + v else 87 + v)).
Definition setw2_hex (v : Z) : str :=
  if decide (v < 16)%Z then [" "%char; hex_digit v] else [hex_digit (v / 16); hex_digit (v mod 16)].
Definition dump_hex (data : bytes) : str :=
  concat (map (λ b, setw2_hex (Z.land (u32 (Z_of_char b)) 0xFF) ++ ["|"%char]) data).
End logger.

(** The clock in nanoseconds; [stop] is [get_elapsed], and stops nothing. *)
Module stop_watch.
Definition state := Z.
Definition make (now : Z) : state := now.
Definition get_elapsed (now : Z) (start_ : state) : Z := u64 (Z.quot (now - start_) 1000000).
Definition stop (now : Z) (start_ : state) : Z := get_elapsed now start_.
End stop_watch.

(** ** Lemmas *)
Section facts.
Context `{SpdlogLaws}.
Import logger.
Implicit Types (s : logger.state) (l : log_object).

(** The logger is registered, and no thread is on the way to make it again. *)
Definition serves l (p : pc) : Prop := p = testing ∨ p = looking_up ∨ p = got (Some l).
Record settled l s : Prop := {
  se_initialized : initialized_ s = true;
  se_found : find_logger (name s) (registry_ s) = Some l;
  se_threads : Forall (serves l) (threads s)
}.

Lemma settled_step l s la s' : settled l s → (∀ n, la ≠ rename n) → step s la s' → settled l s'.
Proof.
  intros [Hi Hf Ht] Hla Hs. destruct la as [i| |n]; simpl in Hs; [|subst s'|by destruct (Hla n)].
  - unfold get_step in Hs. destruct (threads s !! i) as [p|] eqn:Hp; [|done].
    destruct (Forall_lookup_1 _ _ _ _ Ht Hp) as [->|[->| ->]]; [| |done]; injection Hs as <-; split; simpl; try done;
      (apply Forall_insert; [done|]).
    + rewrite Hi. right. by left.
    + rewrite Hf. right. by right.
  - split; simpl; try done. apply Forall_app. split; [done|]. constructor; [by left|constructor].
Qed.

Lemma settled_steps l s ls s' :
  settled l s → Forall (λ la, ∀ n, la ≠ rename n) ls → steps step s ls s' → settled l s'.
Proof.
  intros Hse Hls Hs. revert Hse Hls. induction Hs as [s|s la s1 ls s2 Hla Hs IH]; [done|].
  intros Hse [Hl Hls]%Forall_cons. apply IH; [|done]. by eapply settled_step.
Qed.

(** The first call, with no other thread. *)
Definition first_call : list label := call :: replicate 5 (thread 0).
Lemma first_call_settles n :
  ∃ s, steps step (logger.make n) first_call s ∧ settled (new_logger n) s ∧
    (∀ m, m ≠ n → find_logger m (registry_ s) = None) ∧ threads s = [got (Some (new_logger n))].
Proof.
  destruct (register_fresh n (new_logger n) no_loggers (find_none n)) as (r & Hr & Hf & Hother).
  exists (State n true r [got (Some (new_logger n))]). split.
  - do 4 (eapply steps_cons; [reflexivity|]). eapply steps_cons; [simpl; unfold get_step; simpl; by rewrite Hr|].
    eapply steps_cons; [simpl; unfold get_step; simpl; by rewrite Hf|]. constructor.
  - split; [|split; [|done]].
    + split; simpl; try done. constructor; [right; by right|constructor].
    + intros m Hm. simpl. by rewrite Hother, find_none.
Qed.
End facts.

(** Reading a dump. *)
Definition hex_value (c : ascii) : Z :=
  let v := Z.of_nat (nat_of_ascii c) in
  if decide (v = 32)%Z then 0 else if decide (v < 58)%Z then (v - 48)%Z else (v - 87)%Z.
Fixpoint undump (s : str) : bytes :=
  match s with
  | a :: b :: _ :: s => byte_of_Z (16 * hex_value a + hex_value b) :: undump s
  | _ => []
  end.

Lemma undump_byte (b : byte) s :
  undump ((logger.setw2_hex (Z.land (u32 (Z_of_char b)) 0xFF) ++ ["|"%char]) ++ s) = b :: undump s.
Proof. by destruct b. Qed.

(** ** Properties *)

(** C40. The logger.  When the first call of [get] ends before another begins, it and every later one, in
    however many threads and in any order of their steps, give the logger that it registered.  But [setup]
    marks the logger initialized before it registers it: a thread that calls [get] meanwhile
    gets a null pointer; of two threads that both see it unset, the second to register throws;
    and once [logger::name] is assigned, [get] gives a null pointer. *)
Theorem logger_get `{SpdlogLaws} (n : str) :
  (∃ s, steps logger.step (logger.make n) first_call s ∧
     logger.threads s = [logger.got (Some (new_logger n))] ∧
     ∀ ls s', Forall (λ l, ∀ m, l ≠ logger.rename m) ls → steps logger.step s ls s' →
       (∀ i o, logger.threads s' !! i = Some (logger.got o) → o = Some (new_logger n)) ∧
       logger.threw ∉ logger.threads s') ∧
  (∃ ls s, steps logger.step (logger.make n) ls s ∧ logger.threads s !! 1 = Some (logger.got None)) ∧
  (∃ ls s, steps logger.step (logger.make n) ls s ∧ logger.threads s !! 1 = Some logger.threw) ∧
  (∀ m, m ≠ n → ∃ ls s, steps logger.step (logger.make n) (first_call ++ logger.rename m :: ls) s ∧
     logger.threads s !! 1 = Some (logger.got None)).
Proof.
  destruct (register_fresh n (new_logger n) no_loggers (find_none n)) as (r & Hr & Hf & _). split_and!.
  - destruct (first_call_settles n) as (s & Hs & Hse & _ & Ht). exists s. split; [done|split; [done|]].
    intros ls s' Hls Hs'. destruct (settled_steps _ _ _ _ Hse Hls Hs') as [_ _ Hall]. split.
    + intros i o Ho. destruct (Forall_lookup_1 _ _ _ _ Hall Ho) as [|[|]]; by simplify_eq.
    + intros Hin. rewrite Forall_forall in Hall. by destruct (Hall _ Hin) as [|[|]].
  - exists [logger.call; logger.call; logger.thread 0; logger.thread 0; logger.thread 1; logger.thread 1]. eexists. split.
    + do 5 (eapply steps_cons; [reflexivity|]). eapply steps_cons; [|constructor].
      simpl. unfold logger.get_step. simpl. by rewrite find_none.
    + done.
  - exists [logger.call; logger.call; logger.thread 0; logger.thread 1; logger.thread 0; logger.thread 1;
      logger.thread 0; logger.thread 1; logger.thread 0; logger.thread 1]. eexists. split.
    + do 8 (eapply steps_cons; [reflexivity|]).
      eapply steps_cons; [simpl; unfold logger.get_step; simpl; by rewrite Hr|].
      eapply steps_cons; [simpl; unfold logger.get_step; simpl; by rewrite (register_again _ _ _ _ Hf)|]. constructor.
    + done.
  - intros m Hm. destruct (first_call_settles n) as ([nm init reg ths] & Hs & [Hi _ _] & Hnone & Ht).
    simpl in Hi, Hnone, Ht. subst init ths.
    exists [logger.call; logger.thread 1; logger.thread 1]. eexists. split.
    + eapply steps_app; [exact Hs|]. do 2 (eapply steps_cons; [reflexivity|]).
      do 2 (eapply steps_cons; [reflexivity|]). constructor.
    + simpl. by rewrite (Hnone m Hm).
Qed.

(** An instance: a map. *)
#[export] Instance map_Spdlog : Spdlog := {|
  registry := gmap str nat;
  log_object := nat;
  no_loggers := ∅;
  find_logger n r := r !! n;
  register_logger n l r := match r !! n with Some _ => None | None => Some (<[n := l]> r) end;
  new_logger n := length n
|}.
#[export] Instance map_SpdlogLaws : SpdlogLaws.
Proof.
  split; simpl.
  - intros n. apply lookup_empty.
  - intros n l r Hn. exists (<[n:=l]> r). rewrite Hn. split; [done|]. split; [apply lookup_insert_eq|].
    intros m Hm. by apply lookup_insert_ne.
  - intros n l r k Hk. by rewrite Hk.
Qed.

Lemma logger_get_witness :
  ∃ s, steps logger.step (logger.make $"system") first_call s ∧ logger.threads s = [logger.got (Some 6)].
Proof.
  destruct (logger_get $"system") as [(s & Hs & Ht & _) _]. exists s. split; [exact Hs|exact Ht].
Defined.

(** A dump shows every byte: it has three characters for each, and can be read back. *)
Theorem dump_hex_reads_back (data : bytes) :
  length (logger.dump_hex data) = 3 * length data ∧ undump (logger.dump_hex data) = data.
Proof.
  unfold logger.dump_hex. induction data as [|b data [IHl IHr]]; [done|]. split.
  - cbn [map concat]. rewrite length_app, IHl.
    assert (length (logger.setw2_hex (Z.land (u32 (Z_of_char b)) 0xFF) ++ ["|"%char]) = 3) as -> by (by destruct b).
    simpl. lia.
  - cbn [map concat]. rewrite undump_byte. by f_equal.
Qed.
