(* ===== verification/Db.v ===== *)
(** * play/db/nanodbc.{h,cpp}: connections and transactions

    [connection_impl] keeps the ODBC handles of a connection and counts the transactions
    that are open on it; [transaction_impl] takes part in that count and ends the
    transaction of the database when it is the last.  The ODBC driver is a parameter
    ([Odbc]); what is documented of it is [OdbcLaws].  Statements and results are not
    modelled; what a statement does to the database is a numbered piece of work. *)

From S2P Require Import Prelude.

(** A pointer to a handle is its number, 0 the null handle. *)
Abbreviation sql_handle := nat (only parsing).

(** [RETCODE] *)
Inductive retcode :=
  | SQL_SUCCESS | SQL_SUCCESS_WITH_INFO | SQL_STILL_EXECUTING | SQL_NO_DATA | SQL_ERROR | SQL_INVALID_HANDLE.
#[export] Instance retcode_eq_dec : EqDecision retcode.
Proof. solve_decision. Defined.

(** [success(rc)] *)
Definition success (rc : retcode) : bool :=
  match rc with SQL_SUCCESS | SQL_SUCCESS_WITH_INFO => true | _ => false end.

(** What [connect] is given: a data source, or a connection string. *)
Inductive target := data_source (dsn user pass : str) | connection_string (s : str).

(** [connection::attribute]: [value_ptr_] is a number disguised as a pointer, or points
    to data. *)
Inductive attribute_value := number (z : Z) | data (s : str).
Record attribute := Attribute { attribute_ : Z; string_length_ : Z; value_ptr_ : attribute_value }.
Definition SQL_ATTR_LOGIN_TIMEOUT : Z := 103.
Definition SQL_IS_UINTEGER : Z := -5.
Definition SQL_ATTR_ASYNC_DBC_FUNCTIONS_ENABLE : Z := 117.
Definition SQL_ASYNC_DBC_ENABLE_ON : Z := 1.

(** The calls of the ODBC interface. *)
Inductive odbc_call :=
  | SQLAllocHandle_env
  | SQLSetEnvAttr_version (env : sql_handle)
  | SQLAllocHandle_dbc (env : sql_handle)
  | SQLFreeHandle (h : sql_handle)
  | SQLSetConnectAttr (dbc : sql_handle) (a : attribute)
  | SQLSetConnectAttr_autocommit (dbc : sql_handle) (on : bool)
  | SQLConnect (dbc : sql_handle) (t : target)
  | SQLDisconnect (dbc : sql_handle)
  | SQLEndTran (dbc : sql_handle) (commit : bool)
  | SQLExecute (dbc : sql_handle) (work : nat).

(** The driver answers a call, for an allocation with a handle; and it describes its
    last error. *)
Class Odbc := {
  driver : Type;
  odbc : odbc_call → driver → retcode * sql_handle * driver;
  SQLGetDiagRec : sql_handle → driver → str
}.

Module connection_impl.
Section connection_impl.
Context `{Build} `{Odbc}.

(** The data members, with the transactions on the connection under their address (each
    keeps [committed_]) and the driver. *)
Record state := State {
  env_ : sql_handle;
  dbc_ : sql_handle;
  connected_ : bool;
  transactions_ : nat;
  rollback_ : bool;
  txs : gmap nat bool;
  drv : driver
}.

(** [connection_impl()] *)
Definition make (d : driver) : state := State 0 0 false 0 false ∅ d.

Definition set_env (h : sql_handle) (s : state) : state :=
  State h (dbc_ s) (connected_ s) (transactions_ s) (rollback_ s) (txs s) (drv s).
Definition set_dbc (h : sql_handle) (s : state) : state :=
  State (env_ s) h (connected_ s) (transactions_ s) (rollback_ s) (txs s) (drv s).
Definition set_connected (b : bool) (s : state) : state :=
  State (env_ s) (dbc_ s) b (transactions_ s) (rollback_ s) (txs s) (drv s).
Definition set_transactions (n : nat) (s : state) : state :=
  State (env_ s) (dbc_ s) (connected_ s) n (rollback_ s) (txs s) (drv s).
Definition set_rollback (b : bool) (s : state) : state :=
  State (env_ s) (dbc_ s) (connected_ s) (transactions_ s) b (txs s) (drv s).
Definition set_txs (m : gmap nat bool) (s : state) : state :=
  State (env_ s) (dbc_ s) (connected_ s) (transactions_ s) (rollback_ s) m (drv s).
Definition set_drv (d : driver) (s : state) : state :=
  State (env_ s) (dbc_ s) (connected_ s) (transactions_ s) (rollback_ s) (txs s) d.

(** [NANODBC_CALL_RC], [NANODBC_THROW_DATABASE_ERROR], [NANODBC_ASSERT] *)
Definition call (c : odbc_call) : M state (retcode * sql_handle) := λ s,
  let '(rc, h, d) := odbc c (drv s) in (Ret (rc, h), set_drv d s).
Definition throw_database_error {A} (h : sql_handle) : M state A := λ s,
  (Throw (std_exception (SQLGetDiagRec h (drv s))), s).
Definition NANODBC_ASSERT (b : bool) : M state unit := λ s,
  if b then (Ret tt, s) else if assertions then (Aborted, s) else (Ret tt, s).

(** [if (!success(rc)) NANODBC_THROW_DATABASE_ERROR(...)] *)
Definition checked (c : odbc_call) (h : sql_handle) : M state unit :=
  r ← call c; if success r.1 then mret tt else throw_database_error h.

(** [deallocate_handle(handle, type)], for the two handles *)
Definition deallocate_env : M state unit :=
  s ← get;
  if env_ s =? 0 then mret tt
  else _ ← checked (SQLFreeHandle (env_ s)) (env_ s); modify (set_env 0).
Definition deallocate_dbc : M state unit :=
  s ← get;
  if dbc_ s =? 0 then mret tt
  else _ ← checked (SQLFreeHandle (dbc_ s)) (dbc_ s); modify (set_dbc 0).

(** [allocate_env_handle(env_)] *)
Definition allocate_env_handle : M state unit :=
  s ← get;
  if negb (env_ s =? 0) then mret tt
  else
    r ← call SQLAllocHandle_env;
    _ ← modify (set_env r.2);
    if negb (success r.1) then throw_database_error r.2
    else
      try_catch (checked (SQLSetEnvAttr_version r.2) r.2)
        (λ e, _ ← deallocate_env; throw e).

(** [allocate_dbc_handle(dbc_, env_)] *)
Definition allocate_dbc_handle : M state unit :=
  s ← get;
  _ ← NANODBC_ASSERT (negb (env_ s =? 0));
  if negb (dbc_ s =? 0) then mret tt
  else
    try_catch
      (r ← call (SQLAllocHandle_dbc (env_ s));
       _ ← modify (set_dbc r.2);
       if success r.1 then mret tt else throw_database_error (env_ s))
      (λ e, _ ← deallocate_dbc; throw e).

(** [allocate()] and [deallocate()] *)
Definition allocate : M state unit := _ ← allocate_env_handle; allocate_dbc_handle.
Definition deallocate : M state unit := _ ← deallocate_dbc; deallocate_env.

(** [disconnect()] *)
Definition disconnect : M state unit :=
  s ← get;
  _ ← (if connected_ s then checked (SQLDisconnect (dbc_ s)) (dbc_ s) else mret tt);
  modify (set_connected false).

(** [set_attribute(attr, size, buffer)], and the loop of [connect] over the attributes:
    null pointers are skipped *)
Definition set_attribute (a : attribute) : M state unit :=
  s ← get; checked (SQLSetConnectAttr (dbc_ s) a) (dbc_ s).
Definition is_null (v : attribute_value) : bool := match v with number z => (z =? 0)%Z | data _ => false end.
Definition set_attributes (attributes : list attribute) : M state unit :=
  for_each attributes (λ a, if is_null (value_ptr_ a) then mret tt else set_attribute a).
Definition asks_async (a : attribute) : bool :=
  (attribute_ a =? SQL_ATTR_ASYNC_DBC_FUNCTIONS_ENABLE)%Z &&
  match value_ptr_ a with number z => (z =? SQL_ASYNC_DBC_ENABLE_ON)%Z | data _ => false end.

(** [connect(dsn, user, pass, attributes)] and [connect(connection_string, attributes)] *)
Definition connect_attributes (t : target) (attributes : list attribute) : M state retcode :=
  _ ← allocate_env_handle;
  _ ← disconnect;
  _ ← deallocate_dbc;
  _ ← allocate_dbc_handle;
  _ ← set_attributes attributes;
  s ← get;
  r ← call (SQLConnect (dbc_ s) t);
  if negb (success r.1) &&
     (negb (existsb asks_async attributes) || negb (bool_decide (r.1 = SQL_STILL_EXECUTING)))
  then throw_database_error (dbc_ s)
  else _ ← modify (set_connected (success r.1)); mret r.1.

(** The overloads with a timeout in seconds, without an event handle *)
Definition connect (t : target) (timeout : Z) : M state retcode :=
  connect_attributes t (if (timeout =? 0)%Z then [] else [Attribute SQL_ATTR_LOGIN_TIMEOUT SQL_IS_UINTEGER (number timeout)]).

(** The constructors that connect: [allocate] is outside their [try]. *)
Definition construct (t : target) (timeout : Z) : M state unit :=
  _ ← allocate;
  try_catch (_ ← connect t timeout; mret tt) (λ e, _ ← deallocate; throw e).

(** [~connection_impl()] *)
Definition destroy : M state unit :=
  _ ← try_catch disconnect (λ _, mret tt);
  try_catch deallocate (λ _, mret tt).

(** [transactions()], [ref_transaction()], [unref_transaction()], [rollback(onoff)] *)
Definition ref_transaction : M state nat :=
  _ ← modify (λ s, set_transactions (S (transactions_ s)) s); gets transactions_.
Definition unref_transaction : M state nat :=
  _ ← modify (λ s, if 0 <? transactions_ s then set_transactions (pred (transactions_ s)) s else s);
  gets transactions_.
Definition rollback (onoff : bool) : M state unit := modify (set_rollback onoff).
End connection_impl.
End connection_impl.

Module transaction_impl.
Section transaction_impl.
Context `{Build} `{Odbc}.
Import connection_impl.

Definition committed (a : nat) : M state bool := s ← get; deref (txs s !! a).
Definition set_committed (a : nat) (b : bool) : M state unit := modify (λ s, set_txs (<[a := b]> (txs s)) s).

(** [transaction_impl(conn)], at the address [a] *)
Definition construct (a : nat) : M state unit :=
  s ← get;
  _ ← (if (transactions_ s =? 0) && connected_ s
       then checked (SQLSetConnectAttr_autocommit (dbc_ s) false) (dbc_ s) else mret tt);
  _ ← ref_transaction;
  set_committed a false.

(** [commit()] *)
Definition commit (a : nat) : M state unit :=
  done ← committed a;
  if (done : bool) then mret tt
  else
    _ ← set_committed a true;
    n ← unref_transaction;
    s ← get;
    if (n =? 0) && connected_ s then checked (SQLEndTran (dbc_ s) true) (dbc_ s) else mret tt.

(** [rollback()] *)
Definition rollback (a : nat) : M state unit :=
  done ← committed a; if (done : bool) then mret tt else connection_impl.rollback true.

(** [~transaction_impl()]: the return codes are not looked at *)
Definition destroy (a : nat) : M state unit :=
  done ← committed a;
  _ ← (if (done : bool) then mret tt
       else _ ← connection_impl.rollback true; _ ← unref_transaction; mret tt);
  s ← get;
  _ ← (if (transactions_ s =? 0) && connected_ s then
         _ ← (if rollback_ s then
                _ ← call (SQLEndTran (dbc_ s) false); connection_impl.rollback false
              else mret tt);
         _ ← call (SQLSetConnectAttr_autocommit (dbc_ s) true);
         mret tt
       else mret tt);
  modify (λ s, set_txs (delete a (txs s)) s).
End transaction_impl.
End transaction_impl.

Section calls.
Context `{Odbc}.
Import connection_impl.

Lemma odbc_run c (s : state) :
  ∃ rc x d, odbc c (drv s) = (rc, x, d) ∧ call c s = (Ret (rc, x), set_drv d s).
Proof. unfold call. destruct (odbc c (drv s)) as [[rc x] d]. by exists rc, x, d. Qed.


Lemma checked_run c k (s : state) rc x d :
  odbc c (drv s) = (rc, x, d) → success rc = true → checked c k s = (Ret tt, set_drv d s).
Proof.
  intros Hc Hs. unfold checked. rewrite (bind_run _ _ s (rc, x) (set_drv d s)); [by simpl; rewrite Hs|].
  unfold call. by rewrite Hc.
Qed.
End calls.

(** ** The database behind the driver *)

(** What is documented of the calls that end well, for the work of one connection: how it
    is in the database for good or waits for the end of the transaction.  Setting
    autocommit on commits the work of an open transaction. *)
Record view := View { autocommit : bool; durable : list nat; open_work : list nat }.

Class OdbcLaws `{Odbc} := {
  odbc_view : sql_handle → driver → view;
  law_autocommit_off h d rc x d' :
    odbc (SQLSetConnectAttr_autocommit h false) d = (rc, x, d') → success rc = true →
    odbc_view h d' = View false (durable (odbc_view h d)) (open_work (odbc_view h d));
  law_autocommit_on h d rc x d' :
    odbc (SQLSetConnectAttr_autocommit h true) d = (rc, x, d') → success rc = true →
    odbc_view h d' = View true (durable (odbc_view h d) ++ open_work (odbc_view h d)) [];
  law_commit h d rc x d' :
    odbc (SQLEndTran h true) d = (rc, x, d') → success rc = true →
    odbc_view h d' = View (autocommit (odbc_view h d)) (durable (odbc_view h d) ++ open_work (odbc_view h d)) [];
  law_rollback h d rc x d' :
    odbc (SQLEndTran h false) d = (rc, x, d') → success rc = true →
    odbc_view h d' = View (autocommit (odbc_view h d)) (durable (odbc_view h d)) [];
  law_execute h n d rc x d' :
    odbc (SQLExecute h n) d = (rc, x, d') → success rc = true →
    odbc_view h d' =
      let v := odbc_view h d in
      if autocommit v then View true (durable v ++ [n]) (open_work v)
      else View false (durable v) (open_work v ++ [n])
}.

(** What a program does on a connection: statements, and blocks that begin with the
    construction of a transaction and end with its destruction, [commits] telling whether
    the block commits it last; [mark] calls [rollback()] of the innermost one. *)
Inductive script :=
  | finish
  | execute (n : nat) (next : script)
  | mark (next : script)
  | scope (body : script) (commits : bool) (next : script).

Fixpoint run_script `{Build} `{Odbc} (depth : nat) (sc : script) : M connection_impl.state unit :=
  match sc with
  | finish => mret tt
  | execute n next =>
      s ← get;
      _ ← connection_impl.checked (SQLExecute (connection_impl.dbc_ s) n) (connection_impl.dbc_ s);
      run_script depth next
  | mark next =>
      _ ← (if depth =? 0 then mret tt else transaction_impl.rollback (pred depth));
      run_script depth next
  | scope body commits next =>
      _ ← transaction_impl.construct depth;
      _ ← run_script (S depth) body;
      _ ← (if (commits : bool) then transaction_impl.commit depth else mret tt);
      _ ← transaction_impl.destroy depth;
      run_script depth next
  end.

(** What it means: all the work of an outermost transaction or none. *)
Fixpoint works (sc : script) : list nat :=
  match sc with
  | finish => []
  | execute n next => n :: works next
  | mark next => works next
  | scope body _ next => works body ++ works next
  end.
Fixpoint committed_works (sc : script) : list nat :=
  match sc with
  | finish => []
  | execute n next => n :: committed_works next
  | mark next => committed_works next
  | scope body commits next => (if (commits : bool) then works body else []) ++ committed_works next
  end.

Section transactions.
Context `{Build} `{OdbcLaws} (h : sql_handle).
Import connection_impl.
Implicit Types s : state.

Definition db s : view := odbc_view h (drv s).

(** The calls on the connection that concern transactions end well. *)
Definition reliable : Prop := ∀ d,
  (∀ on, success (odbc (SQLSetConnectAttr_autocommit h on) d).1.1 = true) ∧
  (∀ c, success (odbc (SQLEndTran h c) d).1.1 = true) ∧
  (∀ n, success (odbc (SQLExecute h n) d).1.1 = true).

(** Connected, with no transaction. *)
Record quiet s : Prop := {
  quiet_connected : connected_ s = true;
  quiet_dbc : dbc_ s = h;
  quiet_count : transactions_ s = 0;
  quiet_mark : rollback_ s = false;
  quiet_txs : txs s = ∅;
  quiet_auto : autocommit (db s) = true;
  quiet_open : open_work (db s) = []
}.

(** In [depth] transactions, one within the other. *)
Record within_txs (depth : nat) s : Prop := {
  in_connected : connected_ s = true;
  in_dbc : dbc_ s = h;
  in_count : transactions_ s = depth;
  in_txs a : txs s !! a = if decide (a < depth) then Some false else None;
  in_auto : autocommit (db s) = false
}.

Section reliable.
Context (Hrel : reliable).

Lemma set_autocommit_run on s :
  dbc_ s = h → ∃ d, checked (SQLSetConnectAttr_autocommit h on) h s = (Ret tt, set_drv d s) ∧
    (∃ r, call (SQLSetConnectAttr_autocommit h on) s = (Ret r, set_drv d s)) ∧
    odbc_view h d = if on then View true (durable (db s) ++ open_work (db s)) []
                    else View false (durable (db s)) (open_work (db s)).
Proof.
  intros Hd. destruct (Hrel (drv s)) as (Ha & _). specialize (Ha on).
  destruct (odbc_run (SQLSetConnectAttr_autocommit h on) s) as (rc & x & d & Hc & Hr). rewrite Hc in Ha. exists d.
  split_and!; [by apply (checked_run _ _ _ rc x)|by eexists|].
  destruct on; [by eapply law_autocommit_on|by eapply law_autocommit_off].
Qed.

Lemma end_tran_run c s :
  ∃ d, checked (SQLEndTran h c) h s = (Ret tt, set_drv d s) ∧
    (∃ r, call (SQLEndTran h c) s = (Ret r, set_drv d s)) ∧
    odbc_view h d = View (autocommit (db s)) (durable (db s) ++ if c then open_work (db s) else []) [].
Proof.
  destruct (Hrel (drv s)) as (_ & He & _). specialize (He c).
  destruct (odbc_run (SQLEndTran h c) s) as (rc & x & d & Hc & Hr). rewrite Hc in He. exists d.
  split_and!; [by apply (checked_run _ _ _ rc x)|by eexists|].
  destruct c; [by eapply law_commit|rewrite app_nil_r; by eapply law_rollback].
Qed.

Lemma execute_run n s :
  ∃ d, checked (SQLExecute h n) h s = (Ret tt, set_drv d s) ∧
    odbc_view h d = if autocommit (db s) then View true (durable (db s) ++ [n]) (open_work (db s))
                    else View false (durable (db s)) (open_work (db s) ++ [n]).
Proof.
  destruct (Hrel (drv s)) as (_ & _ & He). specialize (He n).
  destruct (odbc_run (SQLExecute h n) s) as (rc & x & d & Hc & Hr). rewrite Hc in He. exists d.
  split; [by apply (checked_run _ _ _ rc x)|]. by eapply law_execute.
Qed.

(** The first transaction switches autocommit off. *)
Lemma construct_first s :
  quiet s → ∃ s', transaction_impl.construct 0 s = (Ret tt, s') ∧ within_txs 1 s' ∧ rollback_ s' = false ∧
    durable (db s') = durable (db s) ∧ open_work (db s') = [].
Proof.
  intros [Hc Hd Ht Hm Hx Ha Ho]. destruct (set_autocommit_run false s Hd) as (d & Hr & _ & Hv).
  unfold transaction_impl.construct. rewrite (bind_run _ _ s s s) by done. rewrite Ht, Hc, Hd. simpl.
  rewrite (bind_run _ _ _ _ _ Hr). eexists. split; [done|].
  split_and!; [split; simpl; try done|done|unfold db at 1; simpl; by rewrite Hv|unfold db; simpl; by rewrite Hv].
  - by rewrite Ht.
  - intros a. rewrite Hx. destruct (decide (a < 1)).
    + assert (a = 0) as -> by lia. by rewrite lookup_insert_eq.
    + by rewrite lookup_insert_ne by lia.
  - unfold db. simpl. by rewrite Hv.
Qed.

(** Those within it are only counted. *)
Lemma construct_within depth s :
  within_txs depth s → 0 < depth →
  ∃ s', transaction_impl.construct depth s = (Ret tt, s') ∧ within_txs (S depth) s' ∧ rollback_ s' = rollback_ s ∧
    db s' = db s.
Proof.
  intros [Hc Hd Ht Hx Ha] Hp. unfold transaction_impl.construct. rewrite (bind_run _ _ s s s) by done.
  rewrite Ht, (proj2 (Nat.eqb_neq _ _)) by lia. simpl. eexists. split; [done|].
  split_and!; [split; simpl; try done|done|done].
  - by rewrite Ht.
  - intros a. destruct (decide (a = depth)) as [->|Hn].
    + rewrite lookup_insert_eq. by rewrite decide_True by lia.
    + rewrite lookup_insert_ne, Hx by done. repeat destruct (decide _); (done || lia).
Qed.

(** The end of a transaction within another: nothing happens to the database. *)
Lemma end_within depth s (commits : bool) :
  within_txs (S depth) s → 0 < depth →
  ∃ s', (_ ← (if commits then transaction_impl.commit depth else mret tt); transaction_impl.destroy depth) s = (Ret tt, s') ∧
    within_txs depth s' ∧ db s' = db s.
Proof.
  intros [Hc Hd Ht Hx Ha] Hp. pose proof (Hx depth) as Hxd. rewrite decide_True in Hxd by lia.
  assert (∀ b a, delete depth (<[depth := b]> (txs s)) !! a = if decide (a < depth) then Some false else None) as Hdel.
  { intros b a. destruct (decide (a = depth)) as [->|Hn]; [by rewrite lookup_delete_eq, decide_False by lia|].
    rewrite lookup_delete_ne, lookup_insert_ne, Hx by done. repeat destruct (decide _); (done || lia). }
  assert ((S depth =? 0) = false ∧ (depth =? 0) = false) as [_ Hz] by (split; [done|apply Nat.eqb_neq; lia]).
  destruct commits.
  - eexists. split.
    { unfold transaction_impl.commit, transaction_impl.destroy, transaction_impl.committed, transaction_impl.set_committed,
        unref_transaction. run. rewrite Hxd. run. rewrite Ht. simpl. rewrite Hz. simpl.
      rewrite lookup_insert_eq. run. rewrite Hz. run. done. }
    split; [by split; simpl|done].
  - eexists. split.
    { unfold transaction_impl.destroy, transaction_impl.committed, unref_transaction, rollback. run. rewrite Hxd. run.
      rewrite Ht. simpl. rewrite Hz. run. done. }
    split; [split; simpl; try done|done]. intros a. rewrite <-(Hdel false a).
    by rewrite insert_id.
Qed.
(** The destructor of the last transaction rolls back what is marked, and switches
    autocommit on. *)
Lemma destroy_last a s (b : bool) :
  txs s !! a = Some b → connected_ s = true → dbc_ s = h → transactions_ s = (if b then 0 else 1) →
  ∃ s', transaction_impl.destroy a s = (Ret tt, s') ∧ connected_ s' = true ∧ dbc_ s' = h ∧ transactions_ s' = 0 ∧
    rollback_ s' = false ∧ txs s' = delete a (txs s) ∧
    db s' = View true (durable (db s) ++ if negb b || rollback_ s then [] else open_work (db s)) [].
Proof.
  intros Hx Hc Hd Ht.
  set (s1 := if b then s else set_transactions 0 (set_rollback true s)).
  assert (transactions_ s1 = 0 ∧ connected_ s1 = true ∧ dbc_ s1 = h ∧ txs s1 = txs s ∧ db s1 = db s ∧
    rollback_ s1 = negb b || rollback_ s) as (Ht1 & Hc1 & Hd1 & Hx1 & Hdb1 & Hr1) by by destruct b.
  destruct (end_tran_run false s1) as (d & _ & (r & Hend) & Hv). rewrite app_nil_r in Hv.
  set (s2 := if rollback_ s1 then set_rollback false (set_drv d s1) else s1).
  assert (connected_ s2 = true ∧ dbc_ s2 = h ∧ transactions_ s2 = 0 ∧ rollback_ s2 = false ∧ txs s2 = txs s ∧
    durable (db s2) = durable (db s) ∧ open_work (db s2) = if negb b || rollback_ s then [] else open_work (db s))
    as (Hc2 & Hd2 & Ht2 & Hr2 & Hx2 & Hu2 & Ho2).
  { rewrite <-Hr1, <-Hdb1. unfold s2. destruct (rollback_ s1) eqn:Hr; [|by split_and!].
    split_and!; try done; unfold db; simpl; by rewrite Hv. }
  destruct (set_autocommit_run true s2 Hd2) as (d' & _ & (r' & Hauto) & Hv').
  exists (set_txs (delete a (txs s)) (set_drv d' s2)). split_and!; try done.
  - unfold transaction_impl.destroy, transaction_impl.committed.
    rewrite (bind_run _ _ s b s) by (run; by rewrite Hx).
    rewrite (bind_run _ _ s tt s1) by (unfold s1, unref_transaction, rollback; destruct b; [done|]; run; by rewrite Ht).
    rewrite (bind_run _ _ s1 s1 s1) by done. rewrite Ht1, Hc1, Hd1. simpl.
    rewrite (bind_run _ _ s1 tt (set_drv d' s2)); [unfold modify; simpl; by rewrite Hx2|].
    rewrite (bind_run _ _ s1 tt s2); [by rewrite (bind_run _ _ _ _ _ Hauto)|].
    unfold s2. destruct (rollback_ s1); [|done]. by rewrite (bind_run _ _ _ _ _ Hend).
  - unfold db at 1. simpl. by rewrite Hv', Hu2, Ho2.
Qed.

(** The end of an outermost transaction: its work is in the database or gone. *)
Lemma end_outermost s (commits : bool) :
  within_txs 1 s →
  ∃ s', (_ ← (if commits then transaction_impl.commit 0 else mret tt); transaction_impl.destroy 0) s = (Ret tt, s') ∧
    quiet s' ∧ durable (db s') = durable (db s) ++ if commits then open_work (db s) else [].
Proof.
  intros [Hc Hd Ht Hx Ha]. pose proof (Hx 0) as Hx0. rewrite decide_True in Hx0 by lia.
  assert (∀ b, delete 0 (<[0 := b]> (txs s)) = ∅) as Hempty.
  { intros b. apply map_eq. intros a. destruct (decide (a = 0)) as [->|Hn]; [by rewrite lookup_delete_eq|].
    rewrite lookup_delete_ne, lookup_insert_ne, Hx by done. by rewrite decide_False by lia. }
  set (s1 := set_transactions 0 (set_txs (<[0 := true]> (txs s)) s)).
  destruct (end_tran_run true s1) as (d & Hend & _ & Hv). change (db s1) with (db s) in Hv.
  set (s2 := if commits then set_drv d s1 else s).
  destruct (destroy_last 0 s2 commits) as (s3 & Hrun & Hc3 & Hd3 & Ht3 & Hr3 & Hx3 & Hdb3).
  { unfold s2. destruct commits; [apply lookup_insert_eq|done]. }
  { by unfold s2; destruct commits. } { by unfold s2; destruct commits. } { by unfold s2; destruct commits. }
  exists s3. split_and!.
  - rewrite (bind_run _ _ s tt s2); [done|]. unfold s2. destruct commits; [|done].
    unfold transaction_impl.commit, transaction_impl.committed, transaction_impl.set_committed.
    rewrite (bind_run _ _ s false s) by (run; by rewrite Hx0).
    rewrite (bind_run _ _ s tt (set_txs (<[0 := true]> (txs s)) s)) by done.
    rewrite (bind_run _ _ _ 0 s1) by (unfold unref_transaction; run; by rewrite Ht).
    rewrite (bind_run _ _ s1 s1 s1) by done. unfold s1 at 1 2. simpl. rewrite Hc, Hd. exact Hend.
  - split; try done; [| |by rewrite Hdb3].
    + rewrite Hx3. unfold s2. destruct commits; [apply Hempty|]. rewrite <-(Hempty false). by rewrite insert_id.
    + by rewrite Hdb3.
  - rewrite Hdb3. unfold s2. destruct commits; simpl; [|by rewrite app_nil_r].
    unfold db at 1 2. simpl. rewrite Hv. simpl. by destruct (rollback_ s); rewrite app_nil_r.
Qed.

(** Everything in between adds to the open work. *)
Lemma script_within sc : ∀ depth s, within_txs depth s → 0 < depth →
  ∃ s', run_script depth sc s = (Ret tt, s') ∧ within_txs depth s' ∧
    durable (db s') = durable (db s) ∧ open_work (db s') = open_work (db s) ++ works sc.
Proof.
  induction sc as [|n next IH|next IH|body IHb commits next IH]; intros depth s Hin Hp; cbn [run_script works].
  - exists s. by rewrite app_nil_r.
  - destruct (execute_run n s) as (d & Hr & Hv). rewrite (in_auto _ _ Hin) in Hv.
    rewrite (bind_run _ _ s s s), (in_dbc _ _ Hin), (bind_run _ _ _ _ _ Hr) by done.
    destruct (IH depth (set_drv d s)) as (s' & Hrun & Hin' & Hdu & Ho); [|done|].
    { destruct Hin. split; try done. unfold db. simpl. by rewrite Hv. }
    exists s'. split_and!; [done|done| |]; unfold db at 2; simpl.
    + rewrite Hdu. unfold db at 1. simpl. by rewrite Hv.
    + rewrite Ho. unfold db at 1. simpl. rewrite Hv. simpl. by rewrite <-(assoc_L app).
  - pose proof (in_txs _ _ Hin (pred depth)) as Hx. rewrite decide_True in Hx by lia.
    rewrite (bind_run _ _ s tt (set_rollback true s)).
    2:{ rewrite (proj2 (Nat.eqb_neq _ _)) by lia. unfold transaction_impl.rollback, transaction_impl.committed, rollback.
        run. by rewrite Hx. }
    destruct (IH depth (set_rollback true s)) as (s' & Hrun & ? & ? & ?); [by destruct Hin|done|]. by exists s'.
  - destruct (construct_within depth s Hin Hp) as (s1 & R1 & In1 & _ & Hdb1).
    destruct (IHb (S depth) s1 In1) as (s2 & R2 & In2 & Hdu2 & Ho2); [lia|].
    destruct (end_within depth s2 commits In2 Hp) as (s3 & R3 & In3 & Hdb3).
    destruct (IH depth s3 In3 Hp) as (s4 & R4 & In4 & Hdu4 & Ho4). exists s4.
    split_and!; [|done|congruence|by rewrite Ho4, Hdb3, Ho2, Hdb1, <-(assoc_L app)].
    rewrite (bind_run _ _ _ _ _ R1), (bind_run _ _ _ _ _ R2). by rewrite <-bind_bind, (bind_run _ _ _ _ _ R3).
Qed.

(** A script from the outside. *)
Lemma script_outside sc : ∀ s, quiet s →
  ∃ s', run_script 0 sc s = (Ret tt, s') ∧ quiet s' ∧ durable (db s') = durable (db s) ++ committed_works sc.
Proof.
  induction sc as [|n next IH|next IH|body _ commits next IH]; intros s Hq; cbn [run_script committed_works].
  - exists s. by rewrite app_nil_r.
  - destruct (execute_run n s) as (d & Hr & Hv). rewrite (quiet_auto _ Hq), (quiet_open _ Hq) in Hv.
    rewrite (bind_run _ _ s s s), (quiet_dbc _ Hq), (bind_run _ _ _ _ _ Hr) by done.
    destruct (IH (set_drv d s)) as (s' & Hrun & Hq' & Hdu).
    { destruct Hq. split; try done; unfold db; simpl; by rewrite Hv. }
    exists s'. split_and!; [done|done|]. rewrite Hdu. unfold db at 1. simpl. rewrite Hv. simpl. by rewrite <-(assoc_L app).
  - apply IH. done.
  - destruct (construct_first s Hq) as (s1 & R1 & In1 & _ & Hdu1 & Ho1).
    destruct (script_within body 1 s1 In1) as (s2 & R2 & In2 & Hdu2 & Ho2); [lia|].
    destruct (end_outermost s2 commits In2) as (s3 & R3 & Hq3 & Hdu3).
    destruct (IH s3 Hq3) as (s4 & R4 & Hq4 & Hdu4). exists s4. split_and!; [|done|].
    + rewrite (bind_run _ _ _ _ _ R1), (bind_run _ _ _ _ _ R2). by rewrite <-bind_bind, (bind_run _ _ _ _ _ R3).
    + rewrite Hdu4, Hdu3, Hdu2, Hdu1, Ho2, Ho1, (assoc_L app). by destruct commits.
Qed.
End reliable.
End transactions.

(** ** The handles *)

(** What is documented of handles: those that are allocated are new, those that are freed
    are gone. *)
Class HandleLaws `{Odbc} := {
  handles : driver → gset sql_handle;
  law_alloc c d rc x d' :
    (c = SQLAllocHandle_env ∨ ∃ env, c = SQLAllocHandle_dbc env) → odbc c d = (rc, x, d') →
    if success rc then x ≠ 0 ∧ x ∉ handles d ∧ handles d' = {[x]} ∪ handles d else x = 0 ∧ handles d' = handles d;
  law_free h d rc x d' :
    odbc (SQLFreeHandle h) d = (rc, x, d') →
    handles d' = if success rc then handles d ∖ {[h]} else handles d;
  law_keeps c d rc x d' :
    odbc c d = (rc, x, d') →
    match c with SQLAllocHandle_env | SQLAllocHandle_dbc _ | SQLFreeHandle _ => True | _ => handles d' = handles d end
}.

Section handles.
Context `{Build} `{HandleLaws} (base : gset sql_handle).
Import connection_impl.
Implicit Types s : state.

(** Apart from [base], exactly the handles of the connection are allocated. *)
Definition own s : gset sql_handle := {[env_ s; dbc_ s]} ∖ {[0]}.
Definition owns s : Prop :=
  handles (drv s) = own s ∪ base ∧ own s ## base ∧ (env_ s = dbc_ s → env_ s = 0).

Lemma call_keeps_owns c :
  match c with SQLAllocHandle_env | SQLAllocHandle_dbc _ | SQLFreeHandle _ => False | _ => True end →
  preserves owns (call c).
Proof.
  intros Hc s Hs. unfold call. destruct (odbc c (drv s)) as [[rc x] d] eqn:Ho. pose proof (law_keeps _ _ _ _ _ Ho) as Hk.
  unfold owns, own in *. simpl in *. destruct c; try done; by rewrite Hk.
Qed.

Lemma throw_keeps_owns {A} k : preserves owns (throw_database_error (A:=A) k).
Proof. by intros s Hs. Qed.

Lemma checked_keeps_owns c k :
  match c with SQLAllocHandle_env | SQLAllocHandle_dbc _ | SQLFreeHandle _ => False | _ => True end →
  preserves owns (checked c k).
Proof. intros Hc. unfold checked. preserve; [by apply call_keeps_owns|apply throw_keeps_owns]. Qed.

Lemma deallocate_env_owns : preserves owns deallocate_env.
Proof.
  intros s Hs. unfold deallocate_env. run. destruct (env_ s =? 0) eqn:He; [done|]. apply Nat.eqb_neq in He.
  unfold checked, call. run. destruct (odbc _ (drv s)) as [[rc x] d] eqn:Ho. pose proof (law_free _ _ _ _ _ Ho) as Hf.
  destruct Hs as (Hh & Hb & Hne). unfold owns, own in *. simpl. destruct (success rc); simpl; rewrite Hf, Hh.
  - split_and!; [|set_solver|done].
    assert (env_ s ∉ base) by set_solver. assert (env_ s ≠ dbc_ s) by (intros Heq; by apply He, Hne). set_solver.
  - by split_and!.
Qed.

Lemma deallocate_dbc_owns : preserves owns deallocate_dbc.
Proof.
  intros s Hs. unfold deallocate_dbc. run. destruct (dbc_ s =? 0) eqn:He; [done|]. apply Nat.eqb_neq in He.
  unfold checked, call. run. destruct (odbc _ (drv s)) as [[rc x] d] eqn:Ho. pose proof (law_free _ _ _ _ _ Ho) as Hf.
  destruct Hs as (Hh & Hb & Hne). unfold owns, own in *. simpl. destruct (success rc); simpl; rewrite Hf, Hh.
  - split_and!; [|set_solver|done].
    assert (dbc_ s ∉ base) by set_solver. assert (env_ s ≠ dbc_ s) by (intros Heq; apply He; rewrite <-Heq; by apply Hne).
    set_solver.
  - by split_and!.
Qed.

Lemma preserves_rethrow {A} (m : M state A) (cleanup : M state unit) :
  preserves owns m → preserves owns cleanup → preserves owns (try_catch m (λ e, _ ← cleanup; throw e)).
Proof. intros Hm Hc. apply preserves_try; [done|]. intros e. preserve. Qed.

(** Where an allocation leaves the connection. *)
Lemma alloc_env_owned s rc x d :
  owns s → env_ s = 0 → odbc SQLAllocHandle_env (drv s) = (rc, x, d) → owns (set_env x (set_drv d s)).
Proof.
  intros (Hh & Hb & Hne) He Ho. pose proof (law_alloc _ _ _ _ _ (or_introl eq_refl) Ho) as Ha.
  unfold owns, own in *. simpl. destruct (success rc).
  - destruct Ha as (Hx & Hn & ->). rewrite Hh in Hn |- *. split_and!; set_solver.
  - destruct Ha as (-> & ->). rewrite Hh, He in *. by split_and!.
Qed.

Lemma alloc_dbc_owned s env rc x d :
  owns s → dbc_ s = 0 → odbc (SQLAllocHandle_dbc env) (drv s) = (rc, x, d) → owns (set_dbc x (set_drv d s)).
Proof.
  intros (Hh & Hb & Hne) He Ho. pose proof (law_alloc _ _ _ _ _ (or_intror (ex_intro _ _ eq_refl)) Ho) as Ha.
  unfold owns, own in *. simpl. destruct (success rc).
  - destruct Ha as (Hx & Hn & ->). rewrite Hh in Hn |- *. split_and!; set_solver.
  - destruct Ha as (-> & ->). rewrite Hh, He in *. by split_and!.
Qed.

Lemma allocate_env_owns : preserves owns allocate_env_handle.
Proof.
  intros s Hs. unfold allocate_env_handle. rewrite (bind_run _ _ s s s) by done.
  destruct (env_ s =? 0) eqn:He; simpl; [|done]. apply Nat.eqb_eq in He.
  destruct (odbc SQLAllocHandle_env (drv s)) as [[rc x] d] eqn:Ho.
  rewrite (bind_run _ _ s (rc, x) (set_drv d s)) by (unfold call; by rewrite Ho).
  rewrite (bind_run _ _ _ tt (set_env x (set_drv d s))) by done. simpl.
  pose proof (alloc_env_owned _ _ _ _ Hs He Ho) as Hs1. revert Hs1. apply preserves_elim.
  destruct (success rc); simpl; [|apply throw_keeps_owns].
  apply preserves_rethrow; [by apply checked_keeps_owns|apply deallocate_env_owns].
Qed.

Lemma allocate_dbc_owns : preserves owns allocate_dbc_handle.
Proof.
  intros s Hs. unfold allocate_dbc_handle. rewrite (bind_run _ _ s s s) by done.
  assert (NANODBC_ASSERT (negb (env_ s =? 0)) s = (Ret tt, s) ∨ NANODBC_ASSERT (negb (env_ s =? 0)) s = (Aborted, s)) as [Ha|Ha]
    by (unfold NANODBC_ASSERT; destruct (negb _), assertions; auto);
    [|by rewrite (bind_stop _ _ _ _ _ Ha)].
  rewrite (bind_run _ _ _ _ _ Ha). destruct (dbc_ s =? 0) eqn:He; simpl; [|done]. apply Nat.eqb_eq in He.
  destruct (odbc (SQLAllocHandle_dbc (env_ s)) (drv s)) as [[rc x] d] eqn:Ho.
  pose proof (alloc_dbc_owned _ _ _ _ _ Hs He Ho) as Hs1. unfold try_catch.
  rewrite (bind_run _ _ s (rc, x) (set_drv d s)) by (unfold call; by rewrite Ho).
  rewrite (bind_run _ _ _ tt (set_dbc x (set_drv d s))) by done. simpl.
  destruct (success rc); [done|]. unfold throw_database_error. revert Hs1. apply preserves_elim.
  preserve. apply deallocate_dbc_owns.
Qed.

Lemma disconnect_owns : preserves owns disconnect.
Proof. unfold disconnect. preserve; [by apply checked_keeps_owns|by intros s Hs]. Qed.

Lemma set_attributes_owns l : preserves owns (set_attributes l).
Proof. unfold set_attributes, set_attribute. preserve. by apply checked_keeps_owns. Qed.

Lemma connect_owns t timeout : preserves owns (connect t timeout).
Proof.
  unfold connect, connect_attributes. preserve;
    try (apply allocate_env_owns || apply disconnect_owns || apply deallocate_dbc_owns || apply allocate_dbc_owns ||
         apply set_attributes_owns || (by apply call_keeps_owns) || apply throw_keeps_owns || (by intros s Hs)).
Qed.

Lemma construct_owns t timeout : preserves owns (construct t timeout).
Proof.
  unfold construct, allocate, deallocate. apply preserves_bind.
  - preserve; [apply allocate_env_owns|apply allocate_dbc_owns].
  - intros _. apply preserves_rethrow; preserve;
      [apply connect_owns|apply deallocate_dbc_owns|apply deallocate_env_owns].
Qed.

Lemma destroy_owns : preserves owns destroy.
Proof.
  unfold destroy, deallocate. preserve; [apply disconnect_owns|apply deallocate_dbc_owns|apply deallocate_env_owns].
Qed.

Lemma allocate_env_connected : preserves (λ s, connected_ s = false) allocate_env_handle.
Proof.
  assert (∀ c, preserves (λ s, connected_ s = false) (call c)) as Hcall
    by (intros c s Hs; unfold call; by destruct (odbc c (drv s)) as [[]]).
  unfold allocate_env_handle, deallocate_env, checked. preserve; try apply Hcall; by intros s Hs.
Qed.

(** ** How the operations end, when handles can be freed *)
Section freeing.
Context (Hfree : ∀ k d, success (odbc (SQLFreeHandle k) d).1.1 = true).

(** Nothing but the driver changes. *)
Definition same_members s s' : Prop := env_ s' = env_ s ∧ dbc_ s' = dbc_ s ∧ connected_ s' = connected_ s.

Lemma checked_cases c k s :
  ∃ s', same_members s s' ∧ (checked c k s = (Ret tt, s') ∨ ∃ e, checked c k s = (Throw e, s')).
Proof.
  unfold checked, call. run. destruct (odbc c (drv s)) as [[rc x] d]. exists (set_drv d s). split; [done|].
  simpl. destruct (success rc); [by left|right; by eexists].
Qed.

Lemma deallocate_env_run s : ∃ s', deallocate_env s = (Ret tt, s') ∧ env_ s' = 0 ∧ dbc_ s' = dbc_ s.
Proof.
  unfold deallocate_env. rewrite (bind_run _ _ s s s) by done. destruct (env_ s =? 0) eqn:He.
  { exists s. by apply Nat.eqb_eq in He. }
  destruct (odbc (SQLFreeHandle (env_ s)) (drv s)) as [[rc x] d] eqn:Ho. pose proof (Hfree (env_ s) (drv s)) as Hs.
  rewrite Ho in Hs. exists (set_env 0 (set_drv d s)).
  by rewrite (bind_run _ _ _ _ _ (checked_run _ _ _ _ _ _ Ho Hs)).
Qed.

Lemma deallocate_dbc_run s :
  ∃ s', deallocate_dbc s = (Ret tt, s') ∧ dbc_ s' = 0 ∧ env_ s' = env_ s ∧ connected_ s' = connected_ s.
Proof.
  unfold deallocate_dbc. rewrite (bind_run _ _ s s s) by done. destruct (dbc_ s =? 0) eqn:He.
  { exists s. by apply Nat.eqb_eq in He. }
  destruct (odbc (SQLFreeHandle (dbc_ s)) (drv s)) as [[rc x] d] eqn:Ho. pose proof (Hfree (dbc_ s) (drv s)) as Hs.
  rewrite Ho in Hs. exists (set_dbc 0 (set_drv d s)).
  by rewrite (bind_run _ _ _ _ _ (checked_run _ _ _ _ _ _ Ho Hs)).
Qed.

Lemma allocate_env_cases s :
  ∃ s', dbc_ s' = dbc_ s ∧ (env_ s ≠ 0 → s' = s) ∧
    (allocate_env_handle s = (Ret tt, s') ∧ env_ s' ≠ 0 ∨ ∃ e, allocate_env_handle s = (Throw e, s') ∧ env_ s' = 0).
Proof.
  unfold allocate_env_handle. rewrite (bind_run _ _ s s s) by done. destruct (env_ s =? 0) eqn:He; simpl.
  2:{ exists s. apply Nat.eqb_neq in He. split_and!; [done|done|by left]. }
  apply Nat.eqb_eq in He. destruct (odbc SQLAllocHandle_env (drv s)) as [[rc x] d] eqn:Ho.
  pose proof (law_alloc _ _ _ _ _ (or_introl eq_refl) Ho) as Ha.
  rewrite (bind_run _ _ s (rc, x) (set_drv d s)) by (unfold call; by rewrite Ho).
  rewrite (bind_run _ _ _ tt (set_env x (set_drv d s))) by done. set (s1 := set_env x _). simpl.
  destruct (success rc); simpl.
  - destruct Ha as [Hx _]. destruct (checked_cases (SQLSetEnvAttr_version x) x s1) as (s2 & (E2 & D2 & _) & [Hr|[e Hr]]);
      unfold try_catch; rewrite Hr.
    + exists s2. split_and!; [done|congruence|left]. split; [done|]. by rewrite E2.
    + destruct (deallocate_env_run s2) as (s3 & Hr3 & E3 & D3). exists s3. split_and!; [by rewrite D3, D2|done|right].
      exists e. by rewrite (bind_run _ _ _ _ _ Hr3).
  - destruct Ha as [-> _]. exists s1. split_and!; [done|congruence|right]. by eexists.
Qed.

Lemma allocate_dbc_cases s :
  env_ s ≠ 0 →
  ∃ s', env_ s' = env_ s ∧ connected_ s' = connected_ s ∧
    (allocate_dbc_handle s = (Ret tt, s') ∧ dbc_ s' ≠ 0 ∨
     ∃ e, allocate_dbc_handle s = (Throw e, s') ∧ dbc_ s' = 0 ∧
       ∃ d, success (odbc (SQLAllocHandle_dbc (env_ s)) d).1.1 = false).
Proof.
  intros Henv. unfold allocate_dbc_handle. rewrite (bind_run _ _ s s s) by done.
  rewrite (bind_run _ _ s tt s) by (unfold NANODBC_ASSERT; by rewrite (proj2 (Nat.eqb_neq _ _))).
  destruct (dbc_ s =? 0) eqn:He; simpl.
  2:{ exists s. apply Nat.eqb_neq in He. split_and!; [done|done|by left]. }
  destruct (odbc (SQLAllocHandle_dbc (env_ s)) (drv s)) as [[rc x] d] eqn:Ho.
  pose proof (law_alloc _ _ _ _ _ (or_intror (ex_intro _ _ eq_refl)) Ho) as Ha. unfold try_catch.
  rewrite (bind_run _ _ s (rc, x) (set_drv d s)) by (unfold call; by rewrite Ho).
  rewrite (bind_run _ _ _ tt (set_dbc x (set_drv d s))) by done. set (s1 := set_dbc x _). simpl.
  destruct (success rc) eqn:Hrc.
  - destruct Ha as [Hx _]. exists s1. split_and!; [done|done|by left].
  - destruct Ha as [-> _]. exists s1. split_and!; [done|done|right]. unfold throw_database_error.
    eexists. split; [|split; [done|exists (drv s); by rewrite Ho]].
    unfold deallocate_dbc. by rewrite (bind_run _ _ s1 tt s1).
Qed.

Lemma set_attributes_cases l s :
  ∃ s', same_members s s' ∧ (set_attributes l s = (Ret tt, s') ∨ ∃ e, set_attributes l s = (Throw e, s')).
Proof.
  unfold set_attributes. revert s. induction l as [|a l IH]; intros s; simpl; [exists s; split; [done|by left]|].
  destruct (is_null (value_ptr_ a)).
  { destruct (IH s) as (s' & Hs' & Hr). exists s'. split; [done|]. by rewrite (bind_run _ _ s tt s). }
  destruct (checked_cases (SQLSetConnectAttr (dbc_ s) a) (dbc_ s) s) as (s1 & (E1 & D1 & C1) & [Hr|[e Hr]]).
  - destruct (IH s1) as (s' & (E' & D' & C') & Hr'). exists s'. split; [split_and!; congruence|].
    by rewrite (bind_run _ _ _ tt s1).
  - exists s1. split; [done|]. right. exists e. rewrite (bind_stop _ _ s (Throw e) s1); [done| |done].
    unfold set_attribute. by rewrite (bind_run _ _ s s s).
Qed.

(** [connect] connects or throws. *)
Lemma connect_cases t timeout s :
  env_ s ≠ 0 → connected_ s = false →
  ∃ s', env_ s' = env_ s ∧ (connect t timeout s = (Ret SQL_SUCCESS, s') ∧ connected_ s' = true ∧ dbc_ s' ≠ 0 ∨
    connect t timeout s = (Ret SQL_SUCCESS_WITH_INFO, s') ∧ connected_ s' = true ∧ dbc_ s' ≠ 0 ∨
    ∃ e, connect t timeout s = (Throw e, s')).
Proof.
  intros Henv Hcon. unfold connect. set (attributes := if (timeout =? 0)%Z then [] else _).
  assert (existsb asks_async attributes = false) as Hasync by (unfold attributes; by destruct (timeout =? 0)%Z).
  clearbody attributes. unfold connect_attributes.
  destruct (allocate_env_cases s) as (s0 & _ & Hs0 & [[R0 _]|(e & _ & He)]); [|by rewrite Hs0 in He by done].
  rewrite (Hs0 Henv) in R0. rewrite (bind_run _ _ _ _ _ R0).
  rewrite (bind_run _ _ s tt (set_connected false s)) by (unfold disconnect; run; by rewrite Hcon).
  destruct (deallocate_dbc_run (set_connected false s)) as (s1 & R1 & D1 & E1 & C1). rewrite (bind_run _ _ _ _ _ R1).
  destruct (allocate_dbc_cases s1) as (s2 & E2 & C2 & [[R2 D2]|(e & R2 & _)]); [by rewrite E1| |].
  2:{ exists s2. split; [by rewrite E2, E1|]. right; right. exists e. by rewrite (bind_stop _ _ _ _ _ R2). }
  rewrite (bind_run _ _ _ _ _ R2).
  destruct (set_attributes_cases attributes s2) as (s3 & (E3 & D3 & C3) & [R3|[e R3]]).
  2:{ exists s3. split; [by rewrite E3, E2, E1|]. right; right. exists e. by rewrite (bind_stop _ _ _ _ _ R3). }
  rewrite (bind_run _ _ _ _ _ R3), (bind_run _ _ s3 s3 s3) by done.
  destruct (odbc (SQLConnect (dbc_ s3) t) (drv s3)) as [[rc x] d] eqn:Ho.
  rewrite (bind_run _ _ s3 (rc, x) (set_drv d s3)) by (unfold call; by rewrite Ho). rewrite Hasync. simpl.
  assert (env_ s3 = env_ s) as Henv3 by by rewrite E3, E2, E1.
  assert (dbc_ s3 ≠ 0) as Hd3 by by rewrite D3.
  destruct (success rc) eqn:Hrc; simpl.
  - exists (set_connected true (set_drv d s3)). split; [done|].
    destruct rc; try done; [by left|by right; left].
  - exists (set_drv d s3). split; [done|]. right; right. by eexists.
Qed.

(** The constructor connects, or throws and gives back what it allocated, unless [allocate]
    did not get the second handle. *)
Lemma construct_cases t timeout d :
  let r := construct t timeout (make d) in
  let s := r.2 in
  (r.1 = Ret tt ∧ connected_ s = true ∧ env_ s ≠ 0 ∧ dbc_ s ≠ 0) ∨
  (∃ e, r.1 = Throw e ∧ (env_ s = 0 ∧ dbc_ s = 0 ∨
     env_ s ≠ 0 ∧ dbc_ s = 0 ∧ ∃ d', success (odbc (SQLAllocHandle_dbc (env_ s)) d').1.1 = false)).
Proof.
  unfold construct, allocate.
  destruct (allocate_env_cases (make d)) as (s1 & D1 & _ & [[R1 E1]|(e & R1 & E1)]).
  2:{ rewrite (bind_stop _ _ (make d) (Throw e) s1); [|by rewrite (bind_stop _ _ _ _ _ R1)|done].
      right. exists e. split; [done|by left]. }
  assert (connected_ s1 = false) as C1.
  { pose proof (preserves_elim (λ s, connected_ s = false) _ (make d) allocate_env_connected eq_refl) as Hp. by rewrite R1 in Hp. }
  destruct (allocate_dbc_cases s1 E1) as (s2 & E2 & C2 & [[R2 D2]|(e & R2 & D2 & Hno)]).
  2:{ rewrite (bind_stop _ _ (make d) (Throw e) s2); [|by rewrite (bind_run _ _ _ _ _ R1)|done].
      right. exists e. split; [done|right]. simpl. rewrite E2. by split_and!. }
  rewrite (bind_run _ _ (make d) tt s2) by by rewrite (bind_run _ _ _ _ _ R1).
  destruct (connect_cases t timeout s2) as (s3 & E3 & [(R3 & C3 & D3)|[(R3 & C3 & D3)|[e R3]]]); [congruence|congruence|..].
  - left. unfold try_catch. rewrite (bind_run _ _ _ _ _ R3). simpl. split_and!; congruence.
  - left. unfold try_catch. rewrite (bind_run _ _ _ _ _ R3). simpl. split_and!; congruence.
  - right. exists e. unfold try_catch. rewrite (bind_stop _ _ _ _ _ R3) by done. unfold deallocate.
    destruct (deallocate_dbc_run s3) as (s4 & R4 & D4 & E4 & _). destruct (deallocate_env_run s4) as (s5 & R5 & E5 & D5).
    rewrite (bind_run _ _ s3 tt s5) by by rewrite (bind_run _ _ _ _ _ R4). split; [done|left]. simpl. split; congruence.
Qed.

(** The destructor frees both. *)
Lemma destroy_run s : ∃ s', destroy s = (Ret tt, s') ∧ env_ s' = 0 ∧ dbc_ s' = 0.
Proof.
  unfold destroy. destruct (try_catch disconnect (λ _, mret tt) s) as [o s1] eqn:Hd.
  assert (o = Ret tt) as ->.
  { revert Hd. unfold try_catch, disconnect. rewrite (bind_run _ _ s s s) by done.
    destruct (connected_ s); [|by intros [= <- _]].
    destruct (checked_cases (SQLDisconnect (dbc_ s)) (dbc_ s) s) as (s' & _ & [Hr|[e Hr]]).
    - rewrite (bind_run _ _ _ _ _ Hr). by intros [= <- _].
    - rewrite (bind_stop _ _ _ _ _ Hr) by done. by intros [= <- _]. }
  destruct (deallocate_dbc_run s1) as (s2 & R2 & D2 & _). destruct (deallocate_env_run s2) as (s3 & R3 & E3 & D3).
  exists s3. split_and!; [|done|congruence]. rewrite (bind_run _ _ _ _ _ Hd). unfold try_catch, deallocate.
  by rewrite (bind_run _ _ _ _ _ R2), R3.
Qed.
End freeing.
End handles.

(** ** A driver that keeps the laws

    It refuses the calls it is told to refuse, and has one database. *)
Record toy_driver := ToyDriver { live : gset sql_handle; contents : view }.
Definition toy_call (c : odbc_call) (d : toy_driver) : sql_handle * toy_driver :=
  let v := contents d in
  match c with
  | SQLAllocHandle_env | SQLAllocHandle_dbc _ =>
      let x := fresh ({[0]} ∪ live d) in (x, ToyDriver ({[x]} ∪ live d) v)
  | SQLFreeHandle k => (0, ToyDriver (live d ∖ {[k]}) v)
  | SQLSetConnectAttr_autocommit _ true => (0, ToyDriver (live d) (View true (durable v ++ open_work v) []))
  | SQLSetConnectAttr_autocommit _ false => (0, ToyDriver (live d) (View false (durable v) (open_work v)))
  | SQLEndTran _ true => (0, ToyDriver (live d) (View (autocommit v) (durable v ++ open_work v) []))
  | SQLEndTran _ false => (0, ToyDriver (live d) (View (autocommit v) (durable v) []))
  | SQLExecute _ n =>
      (0, ToyDriver (live d) (if autocommit v then View true (durable v ++ [n]) (open_work v)
                              else View false (durable v) (open_work v ++ [n])))
  | _ => (0, d)
  end.
Definition toy_odbc (refuse : odbc_call → bool) : Odbc := {|
  driver := toy_driver;
  odbc c d := if refuse c then (SQL_ERROR, 0, d) else let r := toy_call c d in (SQL_SUCCESS, r.1, r.2);
  SQLGetDiagRec _ _ := $"HY000"
|}.

Definition toy_odbc_laws (refuse : odbc_call → bool) : @OdbcLaws (toy_odbc refuse).
Proof.
  apply (@Build_OdbcLaws (toy_odbc refuse) (λ _ d, contents d));
    simpl; intros *; destruct (refuse _); intros [= <- <- <-]; done || intros _; done.
Defined.

Definition toy_handle_laws (refuse : odbc_call → bool) : @HandleLaws (toy_odbc refuse).
Proof.
  apply (@Build_HandleLaws (toy_odbc refuse) live).
  - intros c d rc x d' Hc. simpl. destruct (refuse c); intros [= <- <- <-]; simpl; [done|].
    assert (fresh ({[0]} ∪ live d) ∉ {[0]} ∪ live d) as Hf by apply is_fresh.
    destruct Hc as [->|[env ->]]; simpl; split_and!; set_solver.
  - intros k d rc x d'. simpl. destruct (refuse _); by intros [= <- <- <-].
  - intros c d rc x d'. simpl. destruct (refuse c); intros [= <- <- <-]; destruct c as [| | | | |? []| | |? []|]; done.
Defined.

(** ** Properties *)

(** C28. Transactions nest, and the outermost decides.  On a reliable connection that is
    not in a transaction, a program of statements and of blocks with a transaction each,
    one within the other in any way and marked for rollback anywhere, ends well; a
    statement outside every block is in the database at once, the statements of an
    outermost block are, in their order, when that block commits, and none of them when
    it does not; then there is no transaction any more, nothing is open, and autocommit
    is on again.  The transactions within do not matter: what one of them did is
    committed with the outermost although it was not committed itself. *)
Theorem transactions_nest `{Build} `{OdbcLaws} (h : sql_handle) (s : connection_impl.state) (sc : script) :
  reliable h → quiet h s →
  ∃ s', run_script 0 sc s = (Ret tt, s') ∧ quiet h s' ∧
    durable (db h s') = durable (db h s) ++ committed_works sc.
Proof. intros Hrel. by apply script_outside. Qed.

Definition toy_connected (o : Odbc) (d : @driver o) : @connection_impl.state o :=
  connection_impl.State 1 2 true 0 false ∅ d.

Lemma transactions_nest_witness :
  let o := toy_odbc (λ _, false) in
  let l := toy_odbc_laws (λ _, false) in
  let s : @connection_impl.state o := toy_connected o (ToyDriver {[1; 2]} (View true [] [])) in
  let sc := execute 1 (scope (execute 2 (scope (execute 3 finish) false (execute 4 finish))) true
    (scope (execute 5 finish) false finish)) in
  ∃ s', @run_script debug_build o 0 sc s = (Ret tt, s') ∧ durable (db 2 s') = [1; 2; 3; 4].
Proof.
  intros o l s sc.
  destruct (@transactions_nest debug_build o l 2 s sc) as (s' & Hrun & _ & Hd); [intros d; by split_and!|by split|].
  exists s'. split; [exact Hrun|exact Hd].
Defined.

(** A transaction whose end fails is committed all the same.  When the driver refuses
    the commit of the last transaction of a connection and leaves its work open, [commit]
    throws and a second [commit] does nothing, but the destructor switches autocommit on,
    which commits; and when it refuses the rollback in the destructor, whose return code
    is not looked at, the same call commits what was to be rolled back. *)
Theorem failed_end_commits `{Build} `{OdbcLaws} (h : sql_handle) (s : connection_impl.state) :
  within_txs h 1 s → connection_impl.rollback_ s = false →
  (∀ d, success (odbc (SQLSetConnectAttr_autocommit h true) d).1.1 = true) →
  (∀ rc x d, odbc (SQLEndTran h true) (connection_impl.drv s) = (rc, x, d) → success rc = false →
     durable (odbc_view h d) = durable (db h s) → open_work (odbc_view h d) = open_work (db h s) →
     ∃ s1 s2, transaction_impl.commit 0 s = (Throw (std_exception (SQLGetDiagRec h d)), s1) ∧
       transaction_impl.commit 0 s1 = (Ret tt, s1) ∧ transaction_impl.destroy 0 s1 = (Ret tt, s2) ∧
       durable (db h s2) = durable (db h s) ++ open_work (db h s)) ∧
  (∀ rc x d, odbc (SQLEndTran h false) (connection_impl.drv s) = (rc, x, d) → success rc = false →
     durable (odbc_view h d) = durable (db h s) → open_work (odbc_view h d) = open_work (db h s) →
     ∃ s2, transaction_impl.destroy 0 s = (Ret tt, s2) ∧
       durable (db h s2) = durable (db h s) ++ open_work (db h s)).
Proof.
  intros [Hc Hd Ht Hx Ha] Hm Hauto. pose proof (Hx 0) as Hx0. rewrite decide_True in Hx0 by lia. split.
  - intros rc x d Ho Hrc Hdu Hop.
    set (s1 := connection_impl.set_drv d (connection_impl.set_transactions 0
      (connection_impl.set_txs (<[0 := true]> (connection_impl.txs s)) s))).
    destruct (odbc (SQLSetConnectAttr_autocommit h true) d) as [[rc' x'] d'] eqn:Ho'. pose proof (Hauto d) as Hs.
    rewrite Ho' in Hs. pose proof (law_autocommit_on _ _ _ _ _ Ho' Hs) as Hv.
    exists s1, (connection_impl.set_txs (delete 0 (connection_impl.txs s1)) (connection_impl.set_drv d' s1)). split_and!.
    + unfold transaction_impl.commit, transaction_impl.committed, transaction_impl.set_committed,
        connection_impl.unref_transaction, connection_impl.checked, connection_impl.call. run. rewrite Hx0. run.
      rewrite Ht. simpl. rewrite Hc, Hd. run. rewrite Ho. simpl. by rewrite Hrc.
    + unfold transaction_impl.commit, transaction_impl.committed. run. by rewrite lookup_insert_eq.
    + unfold transaction_impl.destroy, transaction_impl.committed, connection_impl.call. run. rewrite lookup_insert_eq. run.
      rewrite Hc, Hm, Hd. run. by rewrite Ho'.
    + unfold db at 1. simpl. by rewrite Hv, Hdu, Hop.
  - intros rc x d Ho Hrc Hdu Hop.
    destruct (odbc (SQLSetConnectAttr_autocommit h true) d) as [[rc' x'] d'] eqn:Ho'. pose proof (Hauto d) as Hs.
    rewrite Ho' in Hs. pose proof (law_autocommit_on _ _ _ _ _ Ho' Hs) as Hv. eexists. split.
    + unfold transaction_impl.destroy, transaction_impl.committed, connection_impl.rollback, connection_impl.unref_transaction,
        connection_impl.call. run. rewrite Hx0. run. rewrite Ht. simpl. rewrite Hc, Hd. run. rewrite Ho. run.
      rewrite Ho'. done.
    + unfold db at 1. simpl. by rewrite Hv, Hdu, Hop.
Qed.

Lemma failed_end_commits_witness :
  let refuse c := match c with SQLEndTran _ _ => true | _ => false end in
  let o := toy_odbc refuse in
  let l := toy_odbc_laws refuse in
  let s : @connection_impl.state o :=
    @connection_impl.State o 1 2 true 1 false {[0 := false]} (ToyDriver {[1; 2]} (View false [1] [2; 3])) in
  (∃ s1 s2, transaction_impl.commit 0 s = (Throw (std_exception $"HY000"), s1) ∧
    transaction_impl.destroy 0 s1 = (Ret tt, s2) ∧ durable (db 2 s2) = [1; 2; 3]) ∧
  (∃ s2, transaction_impl.destroy 0 s = (Ret tt, s2) ∧ durable (db 2 s2) = [1; 2; 3]).
Proof.
  intros refuse o l s. destruct (@failed_end_commits debug_build o l 2 s) as [Hcommit Hdestroy].
  - split; try done. intros a. destruct (decide (a < 1)) as [Ha|Ha].
    + assert (a = 0) as -> by lia. reflexivity.
    + simpl. by rewrite lookup_singleton_ne by lia.
  - reflexivity.
  - intros d. reflexivity.
  - split.
    + destruct (Hcommit SQL_ERROR 0 (connection_impl.drv s)) as (s1 & s2 & H1 & _ & H2 & H3); [reflexivity..|].
      exists s1, s2. split; [exact H1|]. split; [exact H2|exact H3].
    + destruct (Hdestroy SQL_ERROR 0 (connection_impl.drv s)) as (s2 & H2 & H3); [reflexivity..|].
      exists s2. split; [exact H2|exact H3].
Defined.

(** A connection keeps account of its handles.  The constructor that connects either
    gives a connected object that holds exactly the two handles it allocated, and its
    destructor frees both; or it throws, and nothing is left allocated unless the
    driver refused the handle of the connection: [allocate] runs outside of the [try], and the
    handle of the environment is lost, since no destructor runs for an object whose
    constructor threw. *)
Theorem connection_handles `{Build} `{HandleLaws} (d : driver) (t : target) (timeout : Z) :
  (∀ k d, success (odbc (SQLFreeHandle k) d).1.1 = true) →
  let r := connection_impl.construct t timeout (connection_impl.make d) in
  let s := r.2 in
  (r.1 = Ret tt ∧ connection_impl.connected_ s = true ∧
     connection_impl.env_ s ≠ 0 ∧ connection_impl.dbc_ s ≠ 0 ∧
     handles (connection_impl.drv s) = {[connection_impl.env_ s; connection_impl.dbc_ s]} ∪ handles d ∧
     {[connection_impl.env_ s; connection_impl.dbc_ s]} ## handles d ∧
     (connection_impl.destroy s).1 = Ret tt ∧
     handles (connection_impl.drv (connection_impl.destroy s).2) = handles d) ∨
  (∃ e, r.1 = Throw e ∧
     (handles (connection_impl.drv s) = handles d ∨
      connection_impl.env_ s ∉ handles d ∧
      handles (connection_impl.drv s) = {[connection_impl.env_ s]} ∪ handles d ∧
      ∃ d', success (odbc (SQLAllocHandle_dbc (connection_impl.env_ s)) d').1.1 = false)).
Proof.
  intros Hfree. cbv zeta. assert (owns (handles d) (connection_impl.make d)) as Hm.
  { unfold owns, own. simpl. split_and!; [set_solver|set_solver|done]. }
  pose proof (preserves_elim _ _ _ (construct_owns (handles d) t timeout) Hm) as Ho.
  destruct (construct_cases Hfree t timeout d) as [(Hr & Hc & He & Hd)|(e & Hr & [[He Hd]|(He & Hd & Hno)])];
    set (s := (connection_impl.construct t timeout (connection_impl.make d)).2) in *;
    destruct Ho as (Hh & Hb & Hne); unfold own in Hh, Hb.
  - left. split_and!; try done; [rewrite Hh; set_solver|set_solver| |].
    + by destruct (destroy_run Hfree s) as (s' & -> & _).
    + destruct (destroy_run Hfree s) as (s' & Hrun & He' & Hd').
      pose proof (preserves_elim _ _ _ (destroy_owns (handles d)) (conj Hh (conj Hb Hne) : owns (handles d) s)) as (Hh' & _).
      rewrite Hrun in Hh' |- *. simpl in *. rewrite Hh'. unfold own. rewrite He', Hd'. set_solver.
  - right. exists e. split; [done|left]. rewrite Hh, He, Hd. set_solver.
  - right. exists e. split; [done|right]. split_and!; [set_solver|rewrite Hh, Hd; set_solver|done].
Qed.

Lemma connection_handles_witness :
  let o (b : bool) := toy_odbc (λ c, match c with SQLAllocHandle_dbc _ => b | _ => false end) in
  let run b := @connection_impl.construct debug_build (o b) (connection_string $"DSN=play") 5
    (@connection_impl.make (o b) (ToyDriver ∅ (View true [] []))) in
  (run false).1 = Ret tt ∧ connection_impl.connected_ (run false).2 = true ∧
  (run true).1 = Throw (std_exception $"HY000") ∧ live (connection_impl.drv (run true).2) = {[1]}.
Proof.
  intros o run.
  destruct (@connection_handles debug_build (o false) (toy_handle_laws _) (ToyDriver ∅ (View true [] []))
    (connection_string $"DSN=play") 5 (λ _ _, eq_refl)) as [(Hr & Hc & _)|(e & Hr & _)]; [|by vm_compute in Hr].
  split; [exact Hr|]. split; [exact Hc|]. split; vm_compute; reflexivity.
Defined.
