(* ===== verification/Pulse.v ===== *)
(** * play/net/pulse.{hpp,ipp}

    The publish/subscribe tree over sessions.  A root pulse sits on a server or a
    client and gets the notifications; child pulses subscribe to topics, optionally
    of one session, and register their interest at the root; a dispatched frame is
    posted to the runner once for every subscriber it concerns.  Child pulses also
    keep the calls that wait for a reply.

    Pulses point at each other, so the state is a store of pulses under their
    address (0 is the null pointer; a destroyed pulse is not in the store), with
    the list of tasks posted to the runners.  Sessions are addresses too.  Receivers
    are either the user's (numbered) or one of the two the pulse subscribes itself. *)

From S2P Require Import Prelude.
From S2P Require Import Serializer.
From S2P Require Import StringUtil.

(** Children are visited in the order of their addresses, as [std::map] does. *)
Definition in_order (X : gset nat) : list nat := merge_sort Nat.le (elements X).

Module pulse.
Section pulse.
Context `{Build} {frame : Type}.
(** [unpack], implemented by the subclass *)
Context (unpack : Z → bytes → option frame).

Abbreviation topic := Z (only parsing).
Definition topic_established : topic := 1.
Definition topic_closed : topic := 2.

Inductive mode := mode_none | mode_server | mode_client | mode_child | mode_independent.
#[export] Instance mode_eq_dec : EqDecision mode.
Proof. solve_decision. Defined.

(** What [subscribe] is given: a function of the user, or the lambda of
    [call_subscribe_reply] or [call_subscribe_closed] capturing its pulse. *)
Inductive receiver :=
  | user_receiver (id : nat)
  | reply_receiver (p : nat) (pic : topic)
  | closed_receiver (p : nat).

Record subscription := Subscription { session_key : nat; cb : receiver }.
Record caller := Caller { call_id : nat; call_cb : nat }.
Record topic_calls := TopicCalls { call_index : nat; reply_index : nat; callers : list caller }.

(** The data members; of the server and client only presence matters here. *)
Record state := State {
  mode_ : mode;
  final_ : bool;
  subscriptions : gmap topic (list subscription);
  interests : gmap (nat * topic) (gset nat);
  self_interests : gset (nat * topic);
  runner_ : option nat;
  stop_ : bool;
  server_ : bool;
  client_ : bool;
  parent_ : option nat;
  childs : gset nat;
  port_ : Z;
  addr_ : str;
  session_ : nat;
  strand_key : nat;
  calls : gmap topic topic_calls;
  call_pairs : gmap topic topic
}.

(** [pulse()] *)
Definition make : state :=
  State mode_none false ∅ ∅ ∅ None false false false None ∅ 0 [] 0 0 ∅ ∅.

Definition set_mode (x : mode) (s : state) : state :=
  State x (final_ s) (subscriptions s) (interests s) (self_interests s) (runner_ s) (stop_
    s) (server_ s) (client_ s) (parent_ s) (childs s) (port_ s) (addr_ s) (session_ s)
    (strand_key s) (calls s) (call_pairs s).
Definition set_final (x : bool) (s : state) : state :=
  State (mode_ s) x (subscriptions s) (interests s) (self_interests s) (runner_ s) (stop_
    s) (server_ s) (client_ s) (parent_ s) (childs s) (port_ s) (addr_ s) (session_ s)
    (strand_key s) (calls s) (call_pairs s).
Definition set_subscriptions (x : gmap topic (list subscription)) (s : state) : state :=
  State (mode_ s) (final_ s) x (interests s) (self_interests s) (runner_ s) (stop_ s)
    (server_ s) (client_ s) (parent_ s) (childs s) (port_ s) (addr_ s) (session_ s)
    (strand_key s) (calls s) (call_pairs s).
Definition set_interests (x : gmap (nat * topic) (gset nat)) (s : state) : state :=
  State (mode_ s) (final_ s) (subscriptions s) x (self_interests s) (runner_ s) (stop_ s)
    (server_ s) (client_ s) (parent_ s) (childs s) (port_ s) (addr_ s) (session_ s)
    (strand_key s) (calls s) (call_pairs s).
Definition set_self_interests (x : gset (nat * topic)) (s : state) : state :=
  State (mode_ s) (final_ s) (subscriptions s) (interests s) x (runner_ s) (stop_ s)
    (server_ s) (client_ s) (parent_ s) (childs s) (port_ s) (addr_ s) (session_ s)
    (strand_key s) (calls s) (call_pairs s).
Definition set_runner (x : option nat) (s : state) : state :=
  State (mode_ s) (final_ s) (subscriptions s) (interests s) (self_interests s) x (stop_
    s) (server_ s) (client_ s) (parent_ s) (childs s) (port_ s) (addr_ s) (session_ s)
    (strand_key s) (calls s) (call_pairs s).
Definition set_stop (x : bool) (s : state) : state :=
  State (mode_ s) (final_ s) (subscriptions s) (interests s) (self_interests s) (runner_
    s) x (server_ s) (client_ s) (parent_ s) (childs s) (port_ s) (addr_ s) (session_ s)
    (strand_key s) (calls s) (call_pairs s).
Definition set_server (x : bool) (s : state) : state :=
  State (mode_ s) (final_ s) (subscriptions s) (interests s) (self_interests s) (runner_
    s) (stop_ s) x (client_ s) (parent_ s) (childs s) (port_ s) (addr_ s) (session_ s)
    (strand_key s) (calls s) (call_pairs s).
Definition set_client (x : bool) (s : state) : state :=
  State (mode_ s) (final_ s) (subscriptions s) (interests s) (self_interests s) (runner_
    s) (stop_ s) (server_ s) x (parent_ s) (childs s) (port_ s) (addr_ s) (session_ s)
    (strand_key s) (calls s) (call_pairs s).
Definition set_parent (x : option nat) (s : state) : state :=
  State (mode_ s) (final_ s) (subscriptions s) (interests s) (self_interests s) (runner_
    s) (stop_ s) (server_ s) (client_ s) x (childs s) (port_ s) (addr_ s) (session_ s)
    (strand_key s) (calls s) (call_pairs s).
Definition set_childs (x : gset nat) (s : state) : state :=
  State (mode_ s) (final_ s) (subscriptions s) (interests s) (self_interests s) (runner_
    s) (stop_ s) (server_ s) (client_ s) (parent_ s) x (port_ s) (addr_ s) (session_ s)
    (strand_key s) (calls s) (call_pairs s).
Definition set_port (x : Z) (s : state) : state :=
  State (mode_ s) (final_ s) (subscriptions s) (interests s) (self_interests s) (runner_
    s) (stop_ s) (server_ s) (client_ s) (parent_ s) (childs s) x (addr_ s) (session_ s)
    (strand_key s) (calls s) (call_pairs s).
Definition set_addr (x : str) (s : state) : state :=
  State (mode_ s) (final_ s) (subscriptions s) (interests s) (self_interests s) (runner_
    s) (stop_ s) (server_ s) (client_ s) (parent_ s) (childs s) (port_ s) x (session_ s)
    (strand_key s) (calls s) (call_pairs s).
Definition set_session (x : nat) (s : state) : state :=
  State (mode_ s) (final_ s) (subscriptions s) (interests s) (self_interests s) (runner_
    s) (stop_ s) (server_ s) (client_ s) (parent_ s) (childs s) (port_ s) (addr_ s) x
    (strand_key s) (calls s) (call_pairs s).
Definition set_strand_key (x : nat) (s : state) : state :=
  State (mode_ s) (final_ s) (subscriptions s) (interests s) (self_interests s) (runner_
    s) (stop_ s) (server_ s) (client_ s) (parent_ s) (childs s) (port_ s) (addr_ s)
    (session_ s) x (calls s) (call_pairs s).
Definition set_calls (x : gmap topic topic_calls) (s : state) : state :=
  State (mode_ s) (final_ s) (subscriptions s) (interests s) (self_interests s) (runner_
    s) (stop_ s) (server_ s) (client_ s) (parent_ s) (childs s) (port_ s) (addr_ s)
    (session_ s) (strand_key s) x (call_pairs s).
Definition set_call_pairs (x : gmap topic topic) (s : state) : state :=
  State (mode_ s) (final_ s) (subscriptions s) (interests s) (self_interests s) (runner_
    s) (stop_ s) (server_ s) (client_ s) (parent_ s) (childs s) (port_ s) (addr_ s)
    (session_ s) (strand_key s) (calls s) x.

(** What is posted to a runner. *)
Inductive task :=
  | run_receiver (r : receiver) (se : nat) (f : option frame)
  | run_call (cb : nat)
  | run_user (id : nat).

(** What a pulse asks of its server, its client and the timers, and what the
    subclass [pulse_fb] does at once: to send on a session and to call back. *)
Inductive effect :=
  | session_sent (se : nat) (pic : topic) (data : bytes) (encrypt : bool)
  | called_back (cb : nat)
  | server_started (p : nat) (port : Z)
  | server_stopped (p : nat)
  | client_connected (p : nat) (addr : str)
  | client_closed (p : nat)
  | timer_once (runner : nat) (strand : option nat) (ms : Z) (h : nat)
  | timer_repeat (runner : nat) (strand : option nat) (ms : Z) (h : nat).

(** A posted task with its runner and strand key. *)
Record posting := Posting { on_runner : nat; on_strand : option nat; what : task }.

Record world := World {
  pulses : gmap nat state;
  posted : list posting;
  effects : list effect
}.

Definition set_pulses (ps : gmap nat state) (w : world) : world := World ps (posted w) (effects w).
Definition enqueue (l : list posting) (w : world) : world :=
  World (pulses w) (posted w ++ l) (effects w).
Definition emit (e : effect) (w : world) : world := World (pulses w) (posted w) (effects w ++ [e]).

(** A member access through a pointer to a pulse. *)
Definition at_ (p : nat) : M world state := w ← get; deref (pulses w !! p).
Definition update (p : nat) (f : state → state) : M world unit :=
  s ← at_ p; modify (λ w, set_pulses (<[p := f s]> (pulses w)) w).

(** [is_root()], [get_root()] and [get_runner()]: the two recursions go up the
    chain of parents, with fuel for as many pulses as there are. *)
Definition is_root (s : state) : bool := bool_decide (parent_ s = None).

Fixpoint get_root_fuel (fuel p : nat) : M world nat :=
  match fuel with
  | 0 => undefined
  | S fuel =>
      s ← at_ p;
      match parent_ s with None => mret p | Some q => get_root_fuel fuel q end
  end.
Definition get_root (p : nat) : M world nat := w ← get; get_root_fuel (S (size (pulses w))) p.

Fixpoint get_runner_fuel (fuel p : nat) : M world (option nat) :=
  match fuel with
  | 0 => undefined
  | S fuel =>
      s ← at_ p;
      match runner_ s with
      | Some r => mret (Some r)
      | None =>
          _ ← PLAY_CHECK (bool_decide (is_Some (parent_ s)));
          q ← deref (parent_ s);
          get_runner_fuel fuel q
      end
  end.
Definition get_runner (p : nat) : M world (option nat) :=
  w ← get; get_runner_fuel (S (size (pulses w))) p.

(** [as_server], [as_client], [as_independent]; [None] is the null runner *)
Definition as_server (p : nat) (runner : option nat) (port : Z) : M world unit :=
  _ ← PLAY_CHECK (bool_decide (is_Some runner));
  update p (λ s, set_port port (set_mode mode_server (set_runner runner s))).
Definition as_client (p : nat) (runner : option nat) (addr : str) : M world unit :=
  _ ← PLAY_CHECK (bool_decide (is_Some runner));
  update p (λ s, set_addr addr (set_mode mode_client (set_runner runner s))).
Definition as_independent (p : nat) (runner : option nat) : M world unit :=
  _ ← PLAY_CHECK (bool_decide (is_Some runner));
  update p (λ s, set_mode mode_independent (set_runner runner s)).

(** [bind_child(child)] *)
Definition bind_child (p child : nat) : M world unit :=
  s ← at_ p;
  _ ← PLAY_CHECK (negb (final_ s));
  _ ← PLAY_CHECK (negb (child =? 0));
  if final_ s then throw (play_error $"final pulse cannot have a child")
  else update p (λ s, set_childs ({[child]} ∪ childs s) s).

(** [as_child(parent)] *)
Definition as_child (p parent : nat) : M world unit :=
  _ ← PLAY_CHECK (negb (parent =? 0));
  _ ← update p (λ s, set_parent (if decide (parent = 0) then None else Some parent)
                       (set_mode mode_child s));
  bind_child parent p.

(** [with_strand], [with_session], [mark_final] *)
Definition with_strand (p key : nat) : M world unit := update p (set_strand_key key).
Definition with_session (p se : nat) : M world unit := update p (set_session se).
Definition mark_final (p : nat) : M world unit := update p (set_final true).

(** [inherit_session()]: the nearest ancestor with a session.  The function ends
    without its [return *this]. *)
Fixpoint nearest_session (fuel : nat) (q : option nat) : M world nat :=
  match fuel, q with
  | 0, _ => undefined
  | _, None => mret 0
  | S fuel, Some q =>
      s ← at_ q;
      if decide (session_ s ≠ 0) then mret (session_ s) else nearest_session fuel (parent_ s)
  end.
Definition inherit_session (p : nat) : M world unit :=
  s ← at_ p;
  _ ← PLAY_CHECK (session_ s =? 0);
  w ← get;
  se ← nearest_session (S (size (pulses w))) (parent_ s);
  _ ← (if decide (se ≠ 0) then update p (set_session se) else mret tt);
  s ← at_ p;
  _ ← PLAY_CHECK (negb (session_ s =? 0));
  undefined.

(** [start()]; [ok] is what starting the server or the client answers. *)
Definition start (p : nat) (ok : bool) : M world bool :=
  s ← at_ p;
  _ ← PLAY_CHECK (bool_decide (mode_ s ≠ mode_none));
  r ← get_runner p;
  _ ← PLAY_CHECK (bool_decide (is_Some r));
  match mode_ s with
  | mode_server =>
      if runner_ s then
        _ ← update p (set_server true);
        _ ← modify (emit (server_started p (port_ s)));
        mret ok
      else mret false
  | mode_client =>
      if runner_ s then
        _ ← update p (set_client true);
        _ ← modify (emit (client_connected p (addr_ s)));
        mret ok
      else mret false
  | mode_child => mret (bool_decide (is_Some (parent_ s)))
  | mode_independent => mret true
  | mode_none => mret false
  end.

(** [unbind_child(child)]: the interests of the child are dropped at the parent,
    when that is the root. *)
Definition unbind_child (p child : nat) : M world unit :=
  s ← at_ p;
  _ ← PLAY_CHECK (negb (final_ s));
  _ ← PLAY_CHECK (negb (child =? 0));
  _ ← update p (λ s, set_childs (childs s ∖ {[child]}) s);
  if is_root s then
    c ← at_ child;
    for_each (elements (self_interests c)) (λ k,
      update p (λ s, set_interests (alter (λ cm, cm ∖ {[child]}) k (interests s)) s))
  else mret tt.

(** [stop()] *)
Definition stop (p : nat) : M world unit :=
  s ← at_ p;
  if stop_ s then mret tt
  else
    _ ← update p (set_stop true);
    if decide (childs s ≠ ∅) then
      throw (play_error $"pulse should not have any child bound when stop")
    else
      match mode_ s with
      | mode_server => if server_ s then modify (emit (server_stopped p)) else undefined
      | mode_client => if client_ s then modify (emit (client_closed p)) else undefined
      | mode_child => q ← deref (parent_ s); unbind_child q p
      | mode_independent | mode_none => mret tt
      end.

(** [~pulse()]: an exception that leaves a destructor ends the program. *)
Definition destroy (p : nat) : M world unit := λ w,
  match stop p w with
  | (Ret _, w') => (Ret tt, set_pulses (delete p (pulses w')) w')
  | (Throw _, w') => (Aborted, w')
  | r => r
  end.

(** The strand of a pulse: none for key 0. *)
Definition strand_of (s : state) : option nat :=
  if decide (0 < strand_key s) then Some (strand_key s) else None.

(** [post(handler)], [once] and [repeat] *)
Definition post_task (p : nat) (t : task) : M world unit :=
  r ← get_runner p;
  _ ← PLAY_CHECK (bool_decide (is_Some r));
  s ← at_ p;
  r ← deref r;
  modify (enqueue [Posting r (strand_of s) t]).
Definition post (p id : nat) : M world unit := post_task p (run_user id).
Definition once (p : nat) (ms : Z) (h : nat) : M world unit :=
  r ← get_runner p;
  _ ← PLAY_CHECK (bool_decide (is_Some r));
  s ← at_ p;
  r ← deref r;
  modify (emit (timer_once r (strand_of s) ms h)).
Definition repeat (p : nat) (ms : Z) (h : nat) : M world unit :=
  r ← get_runner p;
  _ ← PLAY_CHECK (bool_decide (is_Some r));
  s ← at_ p;
  r ← deref r;
  modify (emit (timer_repeat r (strand_of s) ms h)).

(** [show_interest(child, skey, pic)] *)
Definition show_interest (p child skey : nat) (pic : topic) : M world unit :=
  s ← at_ p;
  _ ← PLAY_CHECK (is_root s);
  update p (λ s, set_interests
    (<[(skey, pic) := {[child]} ∪ default ∅ (interests s !! (skey, pic))]> (interests s)) s).

(** [subscribe(topic, cb)] *)
Definition subscribe (p : nat) (pic : topic) (r : receiver) : M world unit :=
  s ← at_ p;
  _ ← PLAY_CHECK (bool_decide (mode_ s ≠ mode_none));
  let skey := session_ s in
  _ ← update p (λ s, set_subscriptions
        (<[pic := default [] (subscriptions s !! pic) ++ [Subscription skey r]]> (subscriptions s)) s);
  if is_root s then mret tt
  else
    _ ← update p (λ s, set_self_interests ({[(skey, pic)]} ∪ self_interests s) s);
    root ← get_root p;
    show_interest root p skey pic.

(** [has_subscription(topic)] *)
Definition has_subscription (p : nat) (pic : topic) : M world bool :=
  s ← at_ p; mret (bool_decide (is_Some (subscriptions s !! pic))).

(** [is_target(sub_key, key, from_root)] *)
Definition is_target (sub_key key : nat) (from_root : bool) : bool :=
  if from_root then sub_key =? key else (sub_key =? 0) || (sub_key =? key).

(** The first block of [dispatch]: the pulse's own subscribers.  Both branches of
    the code post to the strand of the pulse, when it has one. *)
Definition dispatch_subscribers (p se : nat) (pic : topic) (f : option frame) (from_root : bool)
    : M world unit :=
  s ← at_ p;
  match subscriptions s !! pic with
  | None => mret tt
  | Some subs =>
      for_each subs (λ sub,
        when (is_target (session_key sub) se from_root)
          (r ← get_runner p;
           r ← deref r;
           modify (enqueue [Posting r (strand_of s) (run_receiver (cb sub) se f)])))
  end.

(** [dispatch(se, pic, frame, from_root)].  Only a root goes on to the children,
    and these are no roots, so the recursion is two calls deep. *)
Fixpoint dispatch_fuel (fuel : nat) (p se : nat) (pic : topic) (f : option frame) (from_root : bool)
    : M world unit :=
  match fuel with
  | 0 => undefined
  | S fuel =>
      _ ← dispatch_subscribers p se pic f from_root;
      s ← at_ p;
      if is_root s then
        _ ← match interests s !! (0, pic) with
            | Some cmap => for_each (in_order cmap) (λ c, dispatch_fuel fuel c 0 pic f true)
            | None => mret tt
            end;
        if decide (se ≠ 0) then
          match interests s !! (se, pic) with
          | Some cmap => for_each (in_order cmap) (λ c, dispatch_fuel fuel c se pic f true)
          | None => mret tt
          end
        else mret tt
      else mret tt
  end.
Definition dispatch (p se : nat) (pic : topic) (f : option frame) : M world unit :=
  dispatch_fuel 2 p se pic f false.

(** [publish], and the notifications of the server or client *)
Definition publish := dispatch.
Definition on_receive (p se : nat) (pic : topic) (data : bytes) : M world unit :=
  _ ← PLAY_CHECK (bool_decide (pic ≠ topic_established));
  _ ← PLAY_CHECK (bool_decide (pic ≠ topic_closed));
  match unpack pic data with
  | None => mret tt
  | Some f => dispatch p se pic (Some f)
  end.
Definition on_established (p se : nat) : M world unit := dispatch p se topic_established None.
Definition on_closed (p se : nat) : M world unit := dispatch p se topic_closed None.

(** [connect()]; [ok] is the client's answer *)
Definition connect (p : nat) (ok : bool) : M world bool :=
  s ← at_ p;
  _ ← PLAY_CHECK (bool_decide (mode_ s = mode_client));
  if client_ s then
    _ ← modify (emit (client_connected p (addr_ s)));
    mret ok
  else undefined.

(** [call_subscribe_reply(pic)] and [call_subscribe_closed()] *)
Definition call_subscribe_reply (p : nat) (pic : topic) : M world unit :=
  s ← at_ p;
  _ ← PLAY_CHECK (negb (is_root s));
  _ ← PLAY_CHECK (negb (session_ s =? 0));
  has ← has_subscription p pic;
  if (has : bool) then mret tt else subscribe p pic (reply_receiver p pic).
Definition call_subscribe_closed (p : nat) : M world unit :=
  s ← at_ p;
  _ ← PLAY_CHECK (negb (is_root s));
  _ ← PLAY_CHECK (negb (session_ s =? 0));
  has ← has_subscription p topic_closed;
  if (has : bool) then mret tt else subscribe p topic_closed (closed_receiver p).

(** The bookkeeping of [call] on the two maps. *)
Definition new_topic_calls : topic_calls := TopicCalls 0 0 [].
Definition add_call (req res : topic) (c : nat) (s : state) : state :=
  let tc := default new_topic_calls (calls s !! req) in
  let index := S (call_index tc) in
  set_call_pairs (<[res := req]> (call_pairs s))
    (set_calls (<[req := TopicCalls index (reply_index tc) (callers tc ++ [Caller index c])]> (calls s)) s).

(** [call(request, response, cb)] *)
Definition call (p : nat) (request response : topic) (c : nat) : M world unit :=
  s ← at_ p;
  _ ← PLAY_CHECK (bool_decide (mode_ s = mode_child));
  _ ← PLAY_CHECK (negb (session_ s =? 0));
  _ ← PLAY_CHECK (negb (is_root s));
  _ ← call_subscribe_closed p;
  _ ← call_subscribe_reply p response;
  update p (add_call request response c).

(** [call_closed(se)]: every waiting callback is posted *)
Definition call_closed (p se : nat) : M world unit :=
  s ← at_ p;
  _ ← PLAY_CHECK (bool_decide (mode_ s = mode_child));
  _ ← PLAY_CHECK (negb (is_root s));
  _ ← PLAY_CHECK (negb (session_ s =? 0));
  if decide (se ≠ session_ s) then mret tt
  else
    let callbacks := concat (map (λ kv, map call_cb (callers kv.2)) (entries_in_order (calls s))) in
    _ ← update p (set_calls ∅);
    for_each callbacks (λ c,
      r ← get_runner p;
      r ← deref r;
      modify (enqueue [Posting r (strand_of s) (run_call c)])).

(** [call_receive(se, pic)]: [front] and [pop_front] of an empty queue are
    undefined. *)
Definition call_receive (p se : nat) (pic : topic) : M world unit :=
  s ← at_ p;
  _ ← PLAY_CHECK (bool_decide (mode_ s = mode_child));
  _ ← PLAY_CHECK (negb (is_root s));
  _ ← PLAY_CHECK (negb (session_ s =? 0));
  match call_pairs s !! pic with
  | None => mret tt
  | Some req =>
      match calls s !! req with
      | None => mret tt
      | Some tc =>
          let tc := TopicCalls (call_index tc) (S (reply_index tc)) (callers tc) in
          _ ← update p (λ s, set_calls (<[req := tc]> (calls s)) s);
          _ ← PLAY_CHECK (negb (length (callers tc) =? 0));
          c ← deref (head (callers tc));
          _ ← PLAY_CHECK (call_id c =? reply_index tc);
          update p (λ s, set_calls
            (<[req := TopicCalls (call_index tc) (reply_index tc) (tail (callers tc))]> (calls s)) s)
      end
  end.

(** Running a posted task: the two internal receivers call back into the pulse
    they captured; user code is outside. *)
Definition run_task (t : task) : M world unit :=
  match t with
  | run_receiver (reply_receiver p pic) se _ => call_receive p se pic
  | run_receiver (closed_receiver p) se _ => call_closed p se
  | _ => mret tt
  end.

(** [get_session()] *)
Definition get_session (p : nat) : M world nat := s ← at_ p; mret (session_ s).
End pulse.
End pulse.
