(* ===== verification/PulseTree.v ===== *)
(** * The tree of pulses

    What a dispatched frame is posted as, and what subscribing, attaching and detaching keep. *)

From S2P Require Import Prelude.
From S2P Require Import Serializer.
From S2P Require Import StringUtil.
From S2P Require Import Pulse.

(** ** The tree *)
Section tree.
Context `{Build} {frame : Type}.
Import pulse.
Implicit Types w : world (frame:=frame).

(** [below w root x d p]: [d] parents up from [p] is the root, whose runner is
    [x]; no pulse on the way has a runner of its own. *)
Inductive below w (root x : nat) : nat → nat → Prop :=
  | below_root s : pulses w !! root = Some s → parent_ s = None → runner_ s = Some x →
      below w root x 0 root
  | below_child p s q d : pulses w !! p = Some s → parent_ s = Some q → runner_ s = None →
      below w root x d q → below w root x (S d) p.

Lemma below_depth w root x d1 p :
  below w root x d1 p → ∀ d2, below w root x d2 p → d1 = d2.
Proof.
  induction 1 as [s Hs Hp Hr|p s q d Hs Hp Hr Hq IH]; intros d2 H2.
  - inversion H2; [done|congruence].
  - inversion H2 as [|? s' q' d' Hs' Hp']; [congruence|].
    f_equal. apply IH. congruence.
Qed.

(** The chain of parents is shorter than the number of pulses, so the fuel of
    [get_root] and [get_runner] is enough. *)
Lemma below_size w root x d p : below w root x d p → d < size (pulses w).
Proof.
  intros Hb. assert (∃ l, length l = S d ∧ NoDup l ∧
    ∀ q, q ∈ l → q ∈ dom (pulses w) ∧ ∃ e, e ≤ d ∧ below w root x e q) as (l & Hl & Hnd & Hin).
  { induction Hb as [s Hs Hp Hr|p s q d Hs Hp Hr Hq IH].
    - exists [root]. split_and!; [done|apply NoDup_singleton|].
      intros q ->%list_elem_of_singleton. split; [by apply elem_of_dom_2 in Hs|].
      exists 0. split; [done|]. by eapply below_root.
    - destruct IH as (l & Hl & Hnd & Hin). exists (p :: l). split_and!; [simpl; by rewrite Hl| |].
      + constructor; [|done]. intros Hpl. destruct (Hin p Hpl) as (_ & e & He & Hbe).
        assert (below w root x (S d) p) as Hb by by eapply below_child.
        pose proof (below_depth _ _ _ _ _ Hbe _ Hb). lia.
      + intros q' [->|Hq']%elem_of_cons.
        * split; [by apply elem_of_dom_2 in Hs|]. exists (S d). split; [done|]. by eapply below_child.
        * destruct (Hin q' Hq') as (? & e & ? & ?). split; [done|]. exists e. split; [lia|done]. }
  rewrite <-size_dom. assert (size (list_to_set (C:=gset nat) l) ≤ size (dom (pulses w))) as Hsz.
  { apply subseteq_size. intros q Hq%elem_of_list_to_set. by apply Hin. }
  rewrite size_list_to_set in Hsz by done. lia.
Qed.

Lemma at_spec w p s : pulses w !! p = Some s → at_ p w = (Ret s, w).
Proof. intros Hs. unfold at_. run. by rewrite Hs. Qed.

Lemma update_spec w p s f :
  pulses w !! p = Some s → update p f w = (Ret tt, set_pulses (<[p := f s]> (pulses w)) w).
Proof. intros Hs. unfold update. by rewrite (bind_run _ _ _ _ _ (at_spec _ _ _ Hs)). Qed.

Lemma has_subscription_spec w p s pic :
  pulses w !! p = Some s → has_subscription p pic w = (Ret (bool_decide (is_Some (subscriptions s !! pic))), w).
Proof. intros Hs. unfold has_subscription. by rewrite (bind_run _ _ _ _ _ (at_spec _ _ _ Hs)). Qed.

Lemma get_root_spec w root x d p : below w root x d p → get_root p w = (Ret root, w).
Proof.
  intros Hb. unfold get_root. rewrite (bind_run _ _ w w w) by done.
  pose proof (below_size _ _ _ _ _ Hb) as Hd. revert Hd.
  generalize (size (pulses w)) as n. induction Hb as [s Hs Hp Hr|p s q d Hs Hp Hr Hq IH]; intros n Hn.
  - cbn [get_root_fuel]. by rewrite (bind_run _ _ _ _ _ (at_spec _ _ _ Hs)), Hp.
  - destruct n as [|n]; [lia|]. change (get_root_fuel (S (S n)) p w = (Ret root, w)).
    cbn [get_root_fuel]. rewrite (bind_run _ _ _ _ _ (at_spec _ _ _ Hs)), Hp. apply IH. lia.
Qed.

Lemma get_runner_spec w root x d p : below w root x d p → get_runner p w = (Ret (Some x), w).
Proof.
  intros Hb. unfold get_runner. rewrite (bind_run _ _ w w w) by done.
  pose proof (below_size _ _ _ _ _ Hb) as Hd. revert Hd.
  generalize (size (pulses w)) as n. induction Hb as [s Hs Hp Hr|p s q d Hs Hp Hr Hq IH]; intros n Hn.
  - cbn [get_runner_fuel]. by rewrite (bind_run _ _ _ _ _ (at_spec _ _ _ Hs)), Hr.
  - destruct n as [|n]; [lia|]. change (get_runner_fuel (S (S n)) p w = (Ret (Some x), w)).
    cbn [get_runner_fuel]. rewrite (bind_run _ _ _ _ _ (at_spec _ _ _ Hs)), Hr, Hp.
    rewrite (bind_run _ _ w tt w) by (apply check_true, bool_decide_eq_true; by eexists).
    rewrite (bind_run _ _ w q w) by done. apply IH. lia.
Qed.

(** What a pulse posts for a dispatched frame. *)
Definition deliveries (x : nat) (s : state) (se : nat) (pic : Z) (f : option frame)
    (from_root : bool) : list posting :=
  flat_map (λ sub, if is_target (session_key sub) se from_root
    then [Posting x (strand_of s) (run_receiver (cb sub) se f)] else [])
    (default [] (subscriptions s !! pic)).

Lemma below_enqueue w root x d p l : below w root x d p → below (enqueue l w) root x d p.
Proof. induction 1; [by eapply below_root|by eapply below_child]. Qed.

Lemma enqueue_app l1 l2 w : enqueue l2 (enqueue l1 w) = enqueue (l1 ++ l2) w.
Proof. unfold enqueue. simpl. by rewrite (assoc_L app). Qed.

Lemma enqueue_nil w : enqueue [] w = w.
Proof. unfold enqueue. rewrite app_nil_r. by destruct w. Qed.

Lemma dispatch_subscribers_spec w root x d p s se pic f fr :
  below w root x d p → pulses w !! p = Some s →
  dispatch_subscribers p se pic f fr w = (Ret tt, enqueue (deliveries x s se pic f fr) w).
Proof.
  intros Hb Hs. unfold dispatch_subscribers, deliveries.
  rewrite (bind_run _ _ _ _ _ (at_spec _ _ _ Hs)).
  destruct (subscriptions s !! pic) as [subs|]; simpl; [|by rewrite enqueue_nil].
  revert w Hb Hs. induction subs as [|sub subs IH]; intros w Hb Hs; simpl; [by rewrite enqueue_nil|].
  destruct (is_target (session_key sub) se fr); simpl.
  - rewrite (bind_run _ _ w tt (enqueue [Posting x (strand_of s) (run_receiver (cb sub) se f)] w)).
    + rewrite IH by (done || by apply below_enqueue). by rewrite enqueue_app.
    + rewrite (bind_run _ _ _ _ _ (get_runner_spec _ _ _ _ _ Hb)). done.
  - rewrite (bind_run _ _ w tt w) by done. by apply IH.
Qed.

(** The pulses of the children an interest names, in the order of the map. *)
Definition child_deliveries w (x : nat) (cmap : gset nat) (se : nat) (pic : Z)
    (f : option frame) : list posting :=
  flat_map (λ c, match pulses w !! c with
                 | Some s => deliveries x s se pic f true | None => [] end) (in_order cmap).

(** All named children are pulses below the root. *)
Definition all_below w (root x : nat) (cmap : gset nat) : Prop :=
  ∀ c, c ∈ cmap → ∃ s d, pulses w !! c = Some s ∧ below w root x (S d) c.

Lemma in_order_elem c X : c ∈ in_order X ↔ c ∈ X.
Proof. unfold in_order. rewrite merge_sort_Permutation. apply elem_of_elements. Qed.

Lemma below_child_parent w root x d c s :
  below w root x (S d) c → pulses w !! c = Some s → is_root s = false.
Proof.
  inversion 1 as [|? s' q ? Hs' Hp]; subst. intros Hs. rewrite Hs in Hs'. injection Hs' as <-.
  unfold is_root. apply bool_decide_false. by rewrite Hp.
Qed.

Lemma dispatch_children_spec w root x cmap se pic f :
  all_below w root x cmap →
  for_each (in_order cmap) (λ c, dispatch_fuel 1 c se pic f true) w
  = (Ret tt, enqueue (child_deliveries w x cmap se pic f) w).
Proof.
  intros Hall. unfold child_deliveries.
  assert (∀ c, c ∈ in_order cmap → ∃ s d, pulses w !! c = Some s ∧ below w root x (S d) c) as Hl
    by (intros c Hc; by apply Hall, in_order_elem).
  clear Hall. revert w Hl. generalize (in_order cmap) as l.
  induction l as [|c l IH]; intros w Hl; simpl; [by rewrite enqueue_nil|].
  destruct (Hl c) as (s & d & Hs & Hb); [set_solver|].
  set (w1 := enqueue (deliveries x s se pic f true) w).
  rewrite (bind_run _ _ w tt w1); cycle 1.
  { rewrite (bind_run _ _ _ _ _ (dispatch_subscribers_spec _ _ _ _ _ _ se pic f true Hb Hs)).
    fold w1. rewrite (bind_run _ _ w1 s w1) by (by apply at_spec).
    by rewrite (below_child_parent _ _ _ _ _ _ Hb Hs). }
  rewrite IH; cycle 1.
  { intros c' Hc'. destruct (Hl c') as (s' & d' & ? & ?); [set_solver|].
    exists s', d'. split; [done|by apply below_enqueue]. }
  unfold w1. rewrite enqueue_app, Hs. done.
Qed.

(** Interests of the root, as a set. *)
Definition interested (s : state) (k : nat) (pic : Z) : gset nat := default ∅ (interests s !! (k, pic)).

Lemma dispatch_fuel_S fuel p se pic (f : option frame) fr :
  dispatch_fuel (S fuel) p se pic f fr =
  (_ ← dispatch_subscribers p se pic f fr;
   s ← at_ p;
   if is_root s then
     _ ← match interests s !! (0, pic) with
         | Some cmap => for_each (in_order cmap) (λ c, dispatch_fuel fuel c 0 pic f true)
         | None => mret tt
         end;
     if decide (se ≠ 0) then
       match interests s !! (se, pic) with
       | Some cmap => for_each (in_order cmap) (λ c, dispatch_fuel fuel c se pic f true)
       | None => mret tt
       end
     else mret tt
   else mret tt).
Proof. reflexivity. Qed.

(** A dispatch at the root: its own subscribers, the children interested in the
    topic alone, with the null session, and those interested in the session. *)
Lemma dispatch_spec w root x s se pic f :
  below w root x 0 root → pulses w !! root = Some s →
  all_below w root x (interested s 0 pic) → all_below w root x (interested s se pic) →
  dispatch root se pic f w = (Ret tt, enqueue
    (deliveries x s se pic f false ++ child_deliveries w x (interested s 0 pic) 0 pic f ++
     (if decide (se ≠ 0) then child_deliveries w x (interested s se pic) se pic f else [])) w).
Proof.
  intros Hb Hs H0 Hse. unfold dispatch. rewrite dispatch_fuel_S.
  rewrite (bind_run _ _ _ _ _ (dispatch_subscribers_spec _ _ _ _ _ _ se pic f false Hb Hs)).
  set (w1 := enqueue (deliveries x s se pic f false) w).
  rewrite (bind_run _ _ w1 s w1) by (by apply at_spec).
  assert (is_root s = true) as ->.
  { inversion Hb as [s' Hs' Hp|]. unfold is_root. apply bool_decide_true. congruence. }
  assert (∀ k w', pulses w' = pulses w → all_below w root x (interested s k pic) →
    match interests s !! (k, pic) with
    | Some cmap => for_each (in_order cmap) (λ c, dispatch_fuel 1 c k pic f true)
    | None => mret tt
    end w' = (Ret tt, enqueue (child_deliveries w x (interested s k pic) k pic f) w')) as Hgroup.
  { intros k w' Hw' Hall. unfold interested in *. destruct (interests s !! (k, pic)) as [cmap|].
    - rewrite (dispatch_children_spec w' root x cmap).
      + unfold child_deliveries. by rewrite Hw'.
      + intros c Hc. destruct (Hall c Hc) as (sc & d & Hsc & Hbc). exists sc, d. rewrite Hw'.
        split; [done|]. clear -Hbc Hw'.
        induction Hbc; [eapply below_root|eapply below_child]; rewrite ?Hw'; eauto.
    - unfold child_deliveries, in_order. cbn [from_option]. rewrite elements_empty. simpl. by rewrite enqueue_nil. }
  rewrite (bind_run _ _ _ _ _ (Hgroup 0 w1 eq_refl H0)).
  destruct (decide (se ≠ 0)).
  - rewrite Hgroup by done. unfold w1. by rewrite !enqueue_app, ?(assoc_L app).
  - unfold w1. rewrite enqueue_app, app_nil_r. done.
Qed.

(** What the operations of the tree maintain. *)
Record tree_ok w (root x : nat) : Prop := {
  tree_root : ∃ s, pulses w !! root = Some s ∧ parent_ s = None ∧ runner_ s = Some x;
  tree_below c s : pulses w !! c = Some s → c ≠ root → ∃ d, below w root x (S d) c;
  tree_childs c s q : pulses w !! c = Some s → parent_ s = Some q →
    ∃ sq, pulses w !! q = Some sq ∧ c ∈ childs sq;
  tree_registered rs c s pic sub : pulses w !! root = Some rs → pulses w !! c = Some s → c ≠ root →
    sub ∈ default [] (subscriptions s !! pic) → c ∈ interested rs (session_key sub) pic;
  tree_interests rs k pic c : pulses w !! root = Some rs → c ∈ interested rs k pic →
    c ≠ root ∧ ∃ s, pulses w !! c = Some s ∧ (k, pic) ∈ self_interests s
}.

Lemma tree_all_below w root x rs k pic :
  tree_ok w root x → pulses w !! root = Some rs → all_below w root x (interested rs k pic).
Proof.
  intros Hok Hrs c Hc. destruct (tree_interests _ _ _ Hok rs k pic c Hrs Hc) as (Hne & s & Hs & _).
  destruct (tree_below _ _ _ Hok c s Hs Hne) as [d Hd]. by exists s, d.
Qed.

Lemma tree_below_root w root x : tree_ok w root x → below w root x 0 root.
Proof. intros Hok. destruct (tree_root _ _ _ Hok) as (s & ? & ? & ?). by eapply below_root. Qed.

(** [flat_map] over a duplicate-free list and over a larger one, when the
    function is empty outside the first. *)
Lemma flat_map_subset {A B} `{EqDecision A} (g : A → list B) (l1 l2 : list A) :
  NoDup l1 → NoDup l2 → (∀ a, a ∈ l1 → a ∈ l2) → (∀ a, a ∈ l2 → a ∉ l1 → g a = []) →
  flat_map g l1 ≡ₚ flat_map g l2.
Proof.
  intros H1 H2 Hsub Hout. revert l1 H1 Hsub Hout.
  induction H2 as [|a l2 Ha _ IH]; intros l1 H1 Hsub Hout.
  { destruct l1 as [|b l1]; [done|]. exfalso. specialize (Hsub b). set_solver. }
  simpl. destruct (decide (a ∈ l1)) as [Hin|Hin].
  - apply elem_of_Permutation in Hin as [l1' Hl1]. rewrite Hl1 in H1. apply NoDup_cons in H1 as [Ha1 H1].
    transitivity (flat_map g (a :: l1')).
    { clear -Hl1. induction Hl1; simpl; [done|by f_equiv| |by etrans].
      rewrite !(assoc_L app). f_equiv. apply Permutation_app_comm. }
    simpl. f_equiv. apply IH; [done| |].
    + intros b Hb. assert (b ∈ a :: l2) as [->|?]%elem_of_cons; [|done|done].
      apply Hsub. rewrite Hl1. set_solver.
    + intros b Hb Hnb. apply Hout; [set_solver|]. rewrite Hl1. set_solver.
  - rewrite (Hout a) by set_solver. simpl. apply IH; [done| |].
    + intros b Hb. assert (b ∈ a :: l2) as [->|?]%elem_of_cons; [by apply Hsub|done|done].
    + intros b Hb. apply Hout. set_solver.
Qed.

Lemma flat_map_app_fun {A B} (g h : A → list B) l :
  flat_map (λ a, g a ++ h a) l ≡ₚ flat_map g l ++ flat_map h l.
Proof.
  induction l as [|a l IH]; simpl; [done|]. rewrite IH, <-!(assoc_L app). f_equiv.
  rewrite !(assoc_L app). f_equiv. apply Permutation_app_comm.
Qed.

(** The children other than the root, in some order. *)
Definition children w (root : nat) : list (nat * state) := map_to_list (delete root (pulses w)).

Lemma deliveries_nil x s k pic f :
  (∀ sub, sub ∈ default [] (subscriptions s !! pic) → session_key sub ≠ k) →
  deliveries x s k pic f true = [].
Proof.
  unfold deliveries. induction (default [] (subscriptions s !! pic)) as [|sub subs IH]; intros Hs; [done|].
  simpl. rewrite (proj2 (Nat.eqb_neq _ _)) by (apply Hs; set_solver). apply IH. set_solver.
Qed.

Lemma child_deliveries_all w root x rs k pic f :
  tree_ok w root x → pulses w !! root = Some rs →
  child_deliveries w x (interested rs k pic) k pic f
  ≡ₚ flat_map (λ cs, deliveries x cs.2 k pic f true) (children w root).
Proof.
  intros Hok Hrs. unfold child_deliveries.
  set (g := λ c, match pulses w !! c with Some s => deliveries x s k pic f true | None => [] end).
  transitivity (flat_map g (map fst (children w root))).
  - apply flat_map_subset.
    + unfold in_order. rewrite merge_sort_Permutation. apply NoDup_elements.
    + apply NoDup_fst_map_to_list.
    + intros c Hc%in_order_elem.
      destruct (tree_interests _ _ _ Hok rs k pic c Hrs Hc) as (Hne & s & Hs & _).
      apply list_elem_of_fmap. exists (c, s). split; [done|]. unfold children.
      apply elem_of_map_to_list. by rewrite lookup_delete_ne.
    + intros c Hc Hnc. rewrite in_order_elem in Hnc. unfold g.
      destruct (pulses w !! c) as [s|] eqn:Hs; [|done]. apply deliveries_nil.
      intros sub Hsub Hk. apply Hnc. rewrite <-Hk.
      apply (tree_registered _ _ _ Hok rs c s); try done. intros ->.
      apply list_elem_of_fmap in Hc as ([c' s'] & Heq & Hc). simpl in Heq. subst c'.
      apply elem_of_map_to_list in Hc. by rewrite lookup_delete_eq in Hc.
  - enough (flat_map g (map fst (children w root))
      = flat_map (λ cs, deliveries x cs.2 k pic f true) (children w root)) as -> by done.
    assert (∀ cs, cs ∈ children w root → pulses w !! cs.1 = Some cs.2) as Hin.
    { intros [c s] Hc. apply elem_of_map_to_list, lookup_delete_Some in Hc. by destruct Hc. }
    revert Hin. induction (children w root) as [|[c s] l IH]; intros Hin; [done|]. simpl.
    f_equal; [|apply IH; set_solver]. unfold g.
    assert (pulses w !! c = Some s) as Hcs by (apply (Hin (c, s)); set_solver).
    by rewrite Hcs.
Qed.

(** Changes that keep parents and runners keep the paths to the root. *)
Lemma below_mono w w' root x d p :
  (∀ q s, pulses w !! q = Some s → ∃ s', pulses w' !! q = Some s' ∧
     parent_ s' = parent_ s ∧ runner_ s' = runner_ s) →
  below w root x d p → below w' root x d p.
Proof.
  intros Hm. induction 1 as [s Hs Hp Hr|p s q d Hs Hp Hr Hq IH].
  - destruct (Hm _ _ Hs) as (s' & ? & ? & ?). eapply below_root; [done|congruence|congruence].
  - destruct (Hm _ _ Hs) as (s' & ? & ? & ?). eapply (below_child _ _ _ _ s' q); [done|congruence|congruence|done].
Qed.

(** The tree of [w'] has the pulses of [w], and maybe new ones below them: parents and runners
    are kept, children and interests added, and what is subscribed is registered. *)
Lemma tree_ok_extend w w' root x :
  tree_ok w root x →
  (∀ q t, pulses w !! q = Some t → ∃ t', pulses w' !! q = Some t' ∧ parent_ t' = parent_ t ∧
     runner_ t' = runner_ t ∧ childs t ⊆ childs t' ∧ self_interests t ⊆ self_interests t') →
  (∀ c t', pulses w' !! c = Some t' → is_Some (pulses w !! c) ∨
     ∃ q d sq, parent_ t' = Some q ∧ runner_ t' = None ∧ below w root x d q ∧
       pulses w' !! q = Some sq ∧ c ∈ childs sq) →
  (∀ rs rs' k pc, pulses w !! root = Some rs → pulses w' !! root = Some rs' →
     interested rs k pc ⊆ interested rs' k pc ∧
     ∀ c, c ∈ interested rs' k pc → c ∈ interested rs k pc ∨
       c ≠ root ∧ ∃ t', pulses w' !! c = Some t' ∧ (k, pc) ∈ self_interests t') →
  (∀ rs' c t' pc sub, pulses w' !! root = Some rs' → pulses w' !! c = Some t' → c ≠ root →
     sub ∈ default [] (subscriptions t' !! pc) →
     (∃ t, pulses w !! c = Some t ∧ sub ∈ default [] (subscriptions t !! pc)) ∨ c ∈ interested rs' (session_key sub) pc) →
  tree_ok w' root x.
Proof.
  intros Hok Hkeep Hnew Hint Hreg. destruct (tree_root _ _ _ Hok) as (rs & Hrs & Hp & Hr).
  destruct (Hkeep _ _ Hrs) as (rs' & Hrs' & Hp' & Hr' & _).
  assert (∀ d p, below w root x d p → below w' root x d p) as Hb.
  { intros d p. apply below_mono. intros q t Ht. destruct (Hkeep q t Ht) as (t' & ? & ? & ? & _). by exists t'. }
  split.
  - exists rs'. split_and!; congruence.
  - intros c t' Hc Hcr. destruct (Hnew c t' Hc) as [[t Ht]|(q & d & sq & Hq & Hn & Hd & _)].
    + destruct (tree_below _ _ _ Hok c t Ht Hcr) as [d Hd]. exists d. by apply Hb.
    + exists d. apply (below_child _ _ _ c t' q); [done|done|done|by apply Hb].
  - intros c t' q Hc Hq. destruct (Hnew c t' Hc) as [[t Ht]|(q' & d & sq & Hq' & _ & _ & Hsq & Hin)].
    + destruct (Hkeep c t Ht) as (t1 & Ht1 & Hpt & _). destruct (tree_childs _ _ _ Hok c t q Ht) as (sq & Hsq & Hin); [congruence|].
      destruct (Hkeep q sq Hsq) as (sq' & Hsq' & _ & _ & Hch & _). exists sq'. split; [done|by apply Hch].
    + exists sq. split; [congruence|done].
  - intros r c t' pc sub Hr0 Hc Hcr Hsub. destruct (Hreg r c t' pc sub Hr0 Hc Hcr Hsub) as [(t & Ht & Hin)|]; [|done].
    apply (proj1 (Hint rs r (session_key sub) pc Hrs Hr0)). by apply (tree_registered _ _ _ Hok rs c t).
  - intros r k pc c Hr0 Hc. destruct (proj2 (Hint rs r k pc Hrs Hr0) c Hc) as [Hin|]; [|done].
    destruct (tree_interests _ _ _ Hok rs k pc c Hrs Hin) as (Hcr & t & Ht & Hk). split; [done|].
    destruct (Hkeep c t Ht) as (t' & ? & _ & _ & _ & Hs). exists t'. split; [done|by apply Hs].
Qed.

(** One pulse has changed, other than the root's interests. *)
Lemma tree_ok_member w w' root x p s s' :
  tree_ok w root x → pulses w !! p = Some s → pulses w' = <[p := s']> (pulses w) →
  parent_ s' = parent_ s → runner_ s' = runner_ s → childs s' = childs s → interests s' = interests s →
  (p ≠ root → subscriptions s' = subscriptions s) →
  self_interests s ⊆ self_interests s' → tree_ok w' root x.
Proof.
  intros Hok Hs Hw' Hp Hr Hc Hi Hsub Hself.
  assert (∀ q, pulses w' !! q = if decide (q = p) then Some s' else pulses w !! q) as Hlook.
  { intros q. rewrite Hw'. destruct (decide (q = p)) as [->|]; [apply lookup_insert_eq|by apply lookup_insert_ne]. }
  apply (tree_ok_extend w); [done| | | |].
  - intros q t Ht. rewrite Hlook. destruct (decide (q = p)) as [->|]; [|by exists t].
    assert (t = s) as -> by congruence. exists s'. split_and!; [done..|by rewrite Hc|done].
  - intros q t. rewrite Hlook. destruct (decide (q = p)) as [->|]; intros Ht; left; by eexists.
  - intros r r' k pc Hr0. rewrite Hlook. intros Hr1. assert (interested r' k pc = interested r k pc) as ->; [|by split; [|left]].
    unfold interested. destruct (decide (root = p)) as [->|]; [|congruence]. assert (r = s) as -> by congruence.
    assert (r' = s') as -> by congruence. by rewrite Hi.
  - intros r q t pc sub _ Ht Hqr Hin. left. rewrite Hlook in Ht. destruct (decide (q = p)) as [->|]; [|by exists t].
    exists s. assert (t = s') as -> by congruence. by rewrite <-(Hsub Hqr).
Qed.

(** A subscription [sub] of [p], registered at the root. *)
Lemma tree_ok_subscribe w w' root x p s rs pic sub :
  tree_ok w root x → p ≠ root → pulses w !! p = Some s → pulses w !! root = Some rs →
  pulses w' = <[root := set_interests (<[(session_key sub, pic) := {[p]} ∪ interested rs (session_key sub) pic]>
                 (interests rs)) rs]>
    (<[p := set_self_interests ({[(session_key sub, pic)]} ∪ self_interests s)
             (set_subscriptions (<[pic := default [] (subscriptions s !! pic) ++ [sub]]> (subscriptions s)) s)]>
      (pulses w)) →
  tree_ok w' root x.
Proof.
  intros Hok Hne Hs Hrs Hw'. set (rs' := set_interests _ rs) in Hw'. set (s' := set_self_interests _ _) in Hw'.
  assert (∀ q, pulses w' !! q = if decide (q = root) then Some rs' else if decide (q = p) then Some s' else pulses w !! q) as Hlook.
  { intros q. rewrite Hw'. destruct (decide (q = root)) as [->|]; [apply lookup_insert_eq|]. rewrite lookup_insert_ne by done.
    destruct (decide (q = p)) as [->|]; [apply lookup_insert_eq|by apply lookup_insert_ne]. }
  assert (∀ k pc, interested rs' k pc = if decide ((k, pc) = (session_key sub, pic))
    then {[p]} ∪ interested rs k pc else interested rs k pc) as Hint.
  { intros k pc. unfold interested at 1. simpl. destruct (decide _) as [Heq|Hk].
    - injection Heq as -> ->. by rewrite lookup_insert_eq.
    - by rewrite lookup_insert_ne. }
  apply (tree_ok_extend w); [done| | | |].
  - intros q t Ht. rewrite Hlook. destruct (decide (q = root)) as [->|]; [assert (t = rs) as -> by congruence; by exists rs'|].
    destruct (decide (q = p)) as [->|]; [|by exists t]. assert (t = s) as -> by congruence. exists s'.
    split_and!; try done. simpl. set_solver.
  - intros q t. rewrite Hlook. repeat destruct (decide _) as [->|]; intros Ht; left; by eexists.
  - intros r r' k pc Hr Hr'. rewrite Hlook, decide_True in Hr' by done. assert (r = rs) as -> by congruence.
    injection Hr' as <-. rewrite Hint. split; [destruct (decide _); set_solver|]. intros c Hc.
    assert (c = p ∧ (k, pc) = (session_key sub, pic) ∨ c ∈ interested rs k pc) as [[-> Hk]|] by (destruct (decide _); set_solver).
    + right. split; [done|]. exists s'. rewrite Hlook, decide_False, decide_True, Hk by done. split; [done|]. simpl. set_solver.
    + by left.
  - intros r c t pc sub' Hr Ht Hcr Hin. rewrite Hlook, decide_True in Hr by done. injection Hr as <-.
    rewrite Hlook, decide_False in Ht by done. destruct (decide (c = p)) as [->|]; [|left; by exists t].
    injection Ht as <-. simpl in Hin. destruct (decide (pc = pic)) as [->|].
    + rewrite lookup_insert_eq in Hin. apply elem_of_app in Hin as [Hin| ->%list_elem_of_singleton]; [left; by exists s|].
      right. rewrite Hint, decide_True by done. set_solver.
    + rewrite lookup_insert_ne in Hin by done. left. by exists s.
Qed.

(** The members the calls of a pulse depend on. *)
Definition call_state_same (s s' : state) : Prop :=
  session_ s' = session_ s ∧ strand_key s' = strand_key s ∧ mode_ s' = mode_ s ∧
  parent_ s' = parent_ s ∧ calls s' = calls s ∧ call_pairs s' = call_pairs s.

(** [subscribe] anywhere in the tree. *)
Lemma subscribe_spec w root x p s pic r :
  tree_ok w root x → pulses w !! p = Some s → mode_ s ≠ mode_none →
  ∃ w' s', subscribe p pic r w = (Ret tt, w') ∧ tree_ok w' root x ∧ posted w' = posted w ∧
    pulses w' !! p = Some s' ∧ call_state_same s s' ∧
    subscriptions s' = <[pic := default [] (subscriptions s !! pic) ++ [Subscription (session_ s) r]]>
      (subscriptions s).
Proof.
  intros Hok Hs Hm. set (sub := Subscription (session_ s) r).
  set (s1 := set_subscriptions (<[pic := default [] (subscriptions s !! pic) ++ [sub]]> (subscriptions s)) s).
  set (w1 := set_pulses (<[p := s1]> (pulses w)) w).
  unfold subscribe. rewrite (bind_run _ _ _ _ _ (at_spec _ _ _ Hs)).
  rewrite (bind_run _ _ w tt w) by (by apply check_true, bool_decide_eq_true).
  rewrite (bind_run _ _ _ _ _ (update_spec _ _ _ _ Hs)). fold sub s1 w1.
  assert (pulses w1 !! p = Some s1) as Hs1 by apply lookup_insert_eq.
  destruct (decide (p = root)) as [->|Hpr].
  - exists w1, s1. destruct (tree_root _ _ _ Hok) as (rs0 & Hr0 & Hp0 & _).
    assert (is_root s = true) as -> by (apply bool_decide_true; congruence).
    split_and!; try done. by eapply (tree_ok_member w w1 root x root s s1).
  - destruct (tree_below _ _ _ Hok p s Hs Hpr) as [d Hd].
    rewrite (below_child_parent _ _ _ _ _ _ Hd Hs).
    rewrite (bind_run _ _ _ _ _ (update_spec _ _ _ _ Hs1)).
    set (s2 := set_self_interests _ s1). set (w2 := set_pulses _ w1).
    assert (pulses w2 = <[p := s2]> (pulses w)) as Hw2 by (unfold w2; simpl; by rewrite insert_insert_eq).
    assert (posted w2 = posted w) as Hposted by done. clearbody w2.
    destruct (tree_root _ _ _ Hok) as (rs & Hrs & Hp0 & Hx0).
    assert (pulses w2 !! root = Some rs) as Hrs2 by (by rewrite Hw2, lookup_insert_ne).
    assert (below w2 root x (S d) p) as Hd2.
    { eapply below_mono; [|exact Hd]. intros q t Ht. rewrite Hw2.
      destruct (decide (q = p)) as [->|Hq].
      - rewrite lookup_insert_eq. exists s2. assert (t = s) as -> by congruence. done.
      - rewrite lookup_insert_ne by done. by exists t. }
    rewrite (bind_run _ _ _ _ _ (get_root_spec _ _ _ _ _ Hd2)).
    unfold show_interest. rewrite (bind_run _ _ _ _ _ (at_spec _ _ _ Hrs2)).
    rewrite (bind_run _ _ w2 tt w2) by (by apply check_true, bool_decide_true).
    rewrite (update_spec _ _ _ _ Hrs2). eexists _, s2. split; [done|]. split; [|split; [done|split; [|by split]]].
    + eapply (tree_ok_subscribe w _ root x p s rs pic sub); try done. simpl. by rewrite Hw2.
    + simpl. rewrite Hw2, lookup_insert_ne by done. apply lookup_insert_eq.
Qed.

(** A new pulse under an existing one. *)
Definition attached_child (q : nat) : state := set_parent (Some q) (set_mode mode_child make).

Lemma tree_ok_attach w w' root x c q sq :
  tree_ok w root x → pulses w !! c = None → pulses w !! q = Some sq →
  pulses w' = <[q := set_childs ({[c]} ∪ childs sq) sq]> (<[c := attached_child q]> (pulses w)) → tree_ok w' root x.
Proof.
  intros Hok Hc Hq Hw'. assert (q ≠ c) as Hqc by congruence. set (sq' := set_childs _ sq) in Hw'.
  assert (∀ p, pulses w' !! p = if decide (p = q) then Some sq' else if decide (p = c) then Some (attached_child q) else pulses w !! p) as Hlook.
  { intros p. rewrite Hw'. destruct (decide (p = q)) as [->|]; [apply lookup_insert_eq|]. rewrite lookup_insert_ne by done.
    destruct (decide (p = c)) as [->|]; [apply lookup_insert_eq|by apply lookup_insert_ne]. }
  assert (∀ p t, pulses w !! p = Some t → ∃ t', pulses w' !! p = Some t' ∧ parent_ t' = parent_ t ∧ runner_ t' = runner_ t ∧
    childs t ⊆ childs t' ∧ self_interests t = self_interests t' ∧ interests t' = interests t ∧ subscriptions t' = subscriptions t) as Hkeep.
  { intros p t Ht. rewrite Hlook. destruct (decide (p = q)) as [->|].
    - assert (t = sq) as -> by congruence. exists sq'. split_and!; try done. simpl. set_solver.
    - rewrite decide_False by congruence. by exists t. }
  apply (tree_ok_extend w); [done| | | |].
  - intros p t Ht. destruct (Hkeep p t Ht) as (t' & ? & ? & ? & ? & -> & _). by exists t'.
  - intros p t Ht. rewrite Hlook in Ht. destruct (decide (p = q)) as [->|]; [left; by exists sq|].
    destruct (decide (p = c)) as [->|]; [right|left; by exists t]. injection Ht as <-.
    assert (∃ d, below w root x d q) as [d Hd].
    { destruct (decide (q = root)) as [->|Hqr]; [exists 0; by apply tree_below_root|].
      destruct (tree_below _ _ _ Hok q sq Hq Hqr) as [d ?]. by exists (S d). }
    exists q, d, sq'. rewrite Hlook, decide_True by done. split_and!; try done. simpl. set_solver.
  - intros r r' k pc Hr Hr'. destruct (Hkeep _ _ Hr) as (t & Ht & _ & _ & _ & _ & Hi & _).
    assert (t = r') as -> by congruence. unfold interested. rewrite Hi. by split; [|left].
  - intros r p t pc sub _ Ht _ Hin. destruct (pulses w !! p) as [t0|] eqn:Ht0.
    + left. exists t0. split; [done|]. destruct (Hkeep _ _ Ht0) as (t1 & Ht1 & _ & _ & _ & _ & _ & <-).
      by assert (t1 = t) as -> by congruence.
    + exfalso. rewrite Hlook, decide_False in Ht by congruence. destruct (decide (p = c)); [|congruence].
      injection Ht as <-. simpl in Hin. rewrite lookup_empty in Hin. by apply elem_of_nil in Hin.
Qed.

Lemma attach_spec w root x c q sq :
  tree_ok w root x → pulses w !! c = None → c ≠ 0 → q ≠ 0 → pulses w !! q = Some sq →
  final_ sq = false →
  ∃ w', as_child c q (set_pulses (<[c := make]> (pulses w)) w) = (Ret tt, w') ∧ tree_ok w' root x ∧
    posted w' = posted w ∧ pulses w' !! c = Some (attached_child q).
Proof.
  intros Hok Hc Hc0 Hq0 Hq Hf. assert (q ≠ c) as Hqc by congruence.
  set (w0 := set_pulses (<[c := make]> (pulses w)) w). set (sq' := set_childs ({[c]} ∪ childs sq) sq).
  set (w1 := set_pulses (<[c := attached_child q]> (pulses w0)) w0).
  assert (pulses w1 !! q = Some sq) as Hq1 by (simpl; by rewrite !lookup_insert_ne).
  set (w' := set_pulses (<[q := sq']> (pulses w1)) w1).
  assert (pulses w' = <[q := sq']> (<[c := attached_child q]> (pulses w))) as Hw'
    by (unfold w', w1, w0; simpl; by rewrite insert_insert_eq).
  exists w'. split_and!; [|by apply (tree_ok_attach w w' root x c q sq)|done|by rewrite Hw', lookup_insert_ne, lookup_insert_eq].
  unfold as_child. rewrite (bind_run _ _ w0 tt w0) by (apply check_true; by rewrite (proj2 (Nat.eqb_neq _ _))).
  rewrite decide_False by done.
  rewrite (bind_run _ _ w0 tt w1) by (rewrite (update_spec _ _ make); [done|apply lookup_insert_eq]).
  unfold bind_child. rewrite (bind_run _ _ _ _ _ (at_spec _ _ _ Hq1)).
  rewrite (bind_run _ _ w1 tt w1) by (apply check_true; by rewrite Hf).
  rewrite (bind_run _ _ w1 tt w1) by (apply check_true; by rewrite (proj2 (Nat.eqb_neq _ _))).
  rewrite Hf. by rewrite (update_spec _ _ sq).
Qed.

(** The loop of [unbind_child] over the interests of the child. *)
Lemma drop_interests w p s c ks :
  pulses w !! p = Some s →
  ∃ J, for_each ks (λ k, update p (λ s, set_interests (alter (λ cm, cm ∖ {[c]}) k (interests s)) s)) w
      = (Ret tt, set_pulses (<[p := set_interests J s]> (pulses w)) w) ∧
    ∀ k, default ∅ (J !! k) = if decide (k ∈ ks) then default ∅ (interests s !! k) ∖ {[c]}
                              else default ∅ (interests s !! k).
Proof.
  revert w s. induction ks as [|k ks IH]; intros w s Hs; simpl.
  - exists (interests s). split; [|done]. rewrite insert_id by (rewrite Hs; by destruct s).
    by destruct w.
  - rewrite (bind_run _ _ _ _ _ (update_spec _ _ _ _ Hs)).
    set (s1 := set_interests _ s). set (w1 := set_pulses _ w).
    destruct (IH w1 s1) as (J & Hr & HJ); [apply lookup_insert_eq|]. exists J. split.
    + rewrite Hr. unfold w1, set_pulses. simpl. by rewrite insert_insert_eq.
    + intros k'. rewrite HJ. simpl. destruct (decide (k' = k)) as [->|Hk].
      * rewrite lookup_alter_eq. rewrite (decide_True (P:=k ∈ k :: ks)) by set_solver.
        destruct (interests s !! k) as [cm|]; simpl; destruct (decide _); set_solver.
      * rewrite lookup_alter_ne by done. destruct (decide (k' ∈ ks)), (decide (k' ∈ k :: ks)); set_solver.
Qed.

(** The end of a child [c] of [q] without children of its own: what [stop] and the destructor do.
    Only a parent that is the root drops the interests. *)
Lemma detach_run w c s q sq :
  pulses w !! q = Some sq → pulses w !! c = Some s → c ≠ 0 → c ≠ q →
  parent_ s = Some q → mode_ s = mode_child → childs s = ∅ → stop_ s = false → final_ sq = false →
  ∃ w' J, destroy c w = (Ret tt, w') ∧ posted w' = posted w ∧
    pulses w' = delete c (<[q := set_interests J (set_childs (childs sq ∖ {[c]}) sq)]> (pulses w)) ∧
    ∀ k, default ∅ (J !! k) = if decide (parent_ sq = None ∧ k ∈ self_interests s)
                              then default ∅ (interests sq !! k) ∖ {[c]} else default ∅ (interests sq !! k).
Proof.
  intros Hq Hs Hc0 Hcq Hpar Hmode Hch Hstop Hfin.
  set (s1 := set_stop true s). set (w1 := set_pulses (<[c := s1]> (pulses w)) w).
  assert (pulses w1 !! q = Some sq) as Hq1 by (simpl; by rewrite lookup_insert_ne).
  set (sq1 := set_childs (childs sq ∖ {[c]}) sq). set (w2 := set_pulses (<[q := sq1]> (pulses w1)) w1).
  assert (pulses w2 !! c = Some s1) as Hs2 by (simpl; rewrite lookup_insert_ne by done; apply lookup_insert_eq).
  assert (∃ J, stop c w = (Ret tt, set_pulses (<[q := set_interests J sq1]> (pulses w2)) w2) ∧
    ∀ k, default ∅ (J !! k) = if decide (parent_ sq = None ∧ k ∈ self_interests s)
      then default ∅ (interests sq !! k) ∖ {[c]} else default ∅ (interests sq !! k)) as (J & Hst & HJ).
  { unfold stop. rewrite (bind_run _ _ _ _ _ (at_spec _ _ _ Hs)), Hstop.
    rewrite (bind_run _ _ _ _ _ (update_spec _ _ _ _ Hs)). fold s1 w1.
    rewrite decide_False by (intros Hn; by apply Hn). rewrite Hmode.
    rewrite (bind_run _ _ w1 q w1) by (by rewrite Hpar).
    unfold unbind_child. rewrite (bind_run _ _ _ _ _ (at_spec _ _ _ Hq1)).
    rewrite (bind_run _ _ w1 tt w1) by (apply check_true; by rewrite Hfin).
    rewrite (bind_run _ _ w1 tt w1) by (apply check_true; by rewrite (proj2 (Nat.eqb_neq _ _))).
    rewrite (bind_run _ _ _ _ _ (update_spec _ _ _ _ Hq1)). fold sq1 w2.
    unfold is_root. destruct (decide (parent_ sq = None)) as [Hp|Hp].
    - rewrite bool_decide_true by done. rewrite (bind_run _ _ _ _ _ (at_spec _ _ _ Hs2)).
      destruct (drop_interests w2 q sq1 c (elements (self_interests s1))) as (J & Hloop & HJ); [apply lookup_insert_eq|].
      exists J. split; [exact Hloop|]. intros k. rewrite HJ.
      destruct (decide (_ ∈ _)) as [Hk|Hk]; rewrite elem_of_elements in Hk; destruct (decide _); naive_solver.
    - rewrite bool_decide_false by done. exists (interests sq). split.
      + replace (set_interests (interests sq) sq1) with sq1 by (by destruct sq).
        unfold w2, set_pulses. simpl. by rewrite insert_insert_eq.
      + intros k. by rewrite decide_False by naive_solver. }
  eexists _, J. split_and!; [unfold destroy; rewrite Hst; done|done| |done].
  simpl. rewrite insert_insert_eq. apply map_eq. intros p.
  destruct (decide (p = c)) as [->|]; [by rewrite !lookup_delete_eq|]. rewrite !lookup_delete_ne by done.
  destruct (decide (p = q)) as [->|]; [by rewrite !lookup_insert_eq|]. by rewrite !lookup_insert_ne.
Qed.

(** [c], without children, is gone, and with it what was registered for it. *)
Lemma tree_ok_remove w w' root x c s :
  tree_ok w root x → pulses w !! c = Some s → c ≠ root → childs s = ∅ → pulses w' !! c = None →
  (∀ p t, p ≠ c → pulses w !! p = Some t → ∃ t', pulses w' !! p = Some t' ∧ parent_ t' = parent_ t ∧
     runner_ t' = runner_ t ∧ subscriptions t' = subscriptions t ∧ self_interests t' = self_interests t ∧
     childs t ∖ {[c]} ⊆ childs t') →
  (∀ p t', pulses w' !! p = Some t' → is_Some (pulses w !! p)) →
  (∀ rs rs' k pc, pulses w !! root = Some rs → pulses w' !! root = Some rs' →
     interested rs' k pc = interested rs k pc ∖ {[c]}) →
  tree_ok w' root x.
Proof.
  intros Hok Hs Hcr Hch Hgone Hkeep Hback Hint. destruct (tree_root _ _ _ Hok) as (rs & Hrs & Hp & Hx).
  destruct (Hkeep root rs) as (rs' & Hrs' & Hp' & Hx' & _); [done..|].
  assert (∀ p t', pulses w' !! p = Some t' → p ≠ c ∧ ∃ t, pulses w !! p = Some t ∧ parent_ t' = parent_ t ∧
    subscriptions t' = subscriptions t) as Hold.
  { intros p t' Ht'. assert (p ≠ c) as Hpc by (intros ->; congruence). split; [done|].
    destruct (Hback p t' Ht') as [t Ht]. exists t. destruct (Hkeep p t Hpc Ht) as (t0 & ? & ? & _ & ? & _).
    by simplify_eq. }
  assert (∀ d p, below w root x d p → p ≠ c → below w' root x d p) as Hb.
  { intros d p Hd. induction Hd as [t Ht Hpt Hr|p t q d Ht Hpt Hr Hq IH]; intros Hpc.
    - eapply below_root; [exact Hrs'|congruence|congruence].
    - destruct (Hkeep p t Hpc Ht) as (t' & Ht' & ? & ? & _).
      eapply (below_child _ _ _ p t' q); [done|congruence|congruence|]. apply IH. intros ->.
      destruct (tree_childs _ _ _ Hok p t c Ht Hpt) as (sc & Hsc & Hin).
      assert (sc = s) as -> by congruence. rewrite Hch in Hin. set_solver. }
  split.
  - exists rs'. split_and!; congruence.
  - intros p t' Ht' Hpr. destruct (Hold p t' Ht') as (Hpc & t & Ht & _).
    destruct (tree_below _ _ _ Hok p t Ht Hpr) as [d Hd]. exists d. by apply Hb.
  - intros p t' q Ht' Hq. destruct (Hold p t' Ht') as (Hpc & t & Ht & Hpt & _).
    destruct (tree_childs _ _ _ Hok p t q Ht) as (sq & Hsq & Hin); [congruence|].
    assert (q ≠ c) as Hqc by (intros ->; assert (sq = s) as -> by congruence; set_solver).
    destruct (Hkeep q sq Hqc Hsq) as (sq' & Hsq' & _ & _ & _ & _ & Hsub). exists sq'. split; [done|]. set_solver.
  - intros r p t' pc sub Hr Ht' Hpr Hsub. destruct (Hold p t' Ht') as (Hpc & t & Ht & _ & Hst). rewrite Hst in Hsub.
    rewrite (Hint rs r) by done. pose proof (tree_registered _ _ _ Hok rs p t pc sub Hrs Ht Hpr Hsub). set_solver.
  - intros r k pc p Hr Hin. rewrite (Hint rs r) in Hin by done. apply elem_of_difference in Hin as [Hin Hpc].
    destruct (tree_interests _ _ _ Hok rs k pc p Hrs Hin) as (Hpr & t & Ht & Hself). split; [done|].
    destruct (Hkeep p t) as (t' & Ht' & _ & _ & _ & Hsi & _); [set_solver|done|]. exists t'. by rewrite Hsi.
Qed.

(** A pulse without children is destroyed: the tree stays well-formed exactly when its
    parent is the root or it had nothing registered there. *)
Lemma detach_spec w root x c s q sq :
  tree_ok w root x → pulses w !! c = Some s → c ≠ 0 → parent_ s = Some q → pulses w !! q = Some sq →
  mode_ s = mode_child → childs s = ∅ → stop_ s = false → final_ sq = false →
  ∃ w', destroy c w = (Ret tt, w') ∧ pulses w' !! c = None ∧ posted w' = posted w ∧
    (∀ p, p ≠ q → p ≠ c → pulses w' !! p = pulses w !! p) ∧
    (tree_ok w' root x ↔ q = root ∨ ∀ rs k pic, pulses w !! root = Some rs → c ∉ interested rs k pic).
Proof.
  intros Hok Hs Hc0 Hpar Hq Hmode Hch Hstop Hfin. destruct (tree_root _ _ _ Hok) as (rs & Hrs & Hp0 & _).
  assert (c ≠ root) as Hcr by congruence.
  destruct (tree_childs _ _ _ Hok c s q Hs Hpar) as (sq' & Hsq & Hcq). assert (sq' = sq) as -> by congruence.
  assert (c ≠ q) as Hne by (intros ->; assert (sq = s) as -> by congruence; set_solver).
  assert (parent_ sq = None ↔ q = root) as Hroot.
  { split; [|intros ->; congruence]. intros Hpq. destruct (decide (q = root)) as [|Hqr]; [done|].
    destruct (tree_below _ _ _ Hok q sq Hq Hqr) as [d Hd]. pose proof (below_child_parent _ _ _ _ _ _ Hd Hq) as Hr.
    by rewrite (bool_decide_true _ Hpq : is_root sq = true) in Hr. }
  destruct (detach_run w c s q sq) as (w' & J & Hd & Hpo & Hw' & HJ); try done.
  set (sq1 := set_interests J _) in Hw'.
  assert (∀ p, pulses w' !! p = if decide (p = c) then None else if decide (p = q) then Some sq1 else pulses w !! p) as Hlook.
  { intros p. rewrite Hw'. destruct (decide (p = c)) as [->|]; [apply lookup_delete_eq|]. rewrite lookup_delete_ne by done.
    destruct (decide (p = q)) as [->|]; [apply lookup_insert_eq|by apply lookup_insert_ne]. }
  assert (∀ k pc rs', pulses w' !! root = Some rs' →
    interested rs' k pc = if decide (q = root) then interested rs k pc ∖ {[c]} else interested rs k pc) as Hint.
  { intros k pc rs'. rewrite Hlook, decide_False by done. destruct (decide (q = root)) as [->|Hqr].
    - rewrite decide_True by done. intros [= <-]. assert (sq = rs) as -> by congruence.
      unfold interested. change (interests sq1) with J. rewrite HJ. destruct (decide _) as [|Hn]; [done|].
      apply leibniz_equiv. intros p. split; [|set_solver]. intros Hin. apply elem_of_difference. split; [done|].
      intros ->%elem_of_singleton. destruct (tree_interests _ _ _ Hok rs k pc c Hrs Hin) as (_ & t & Ht & Hself).
      assert (t = s) as -> by congruence. naive_solver.
    - rewrite decide_False by congruence. intros Hr. by assert (rs' = rs) as -> by congruence. }
  exists w'. split; [done|]. split; [by rewrite Hlook, decide_True|]. split; [done|].
  split; [by intros p ??; rewrite Hlook, !decide_False|]. split.
  - intros Hok'. destruct (decide (q = root)) as [|Hqr]; [by left|right]. intros r k pc Hr Hin.
    assert (r = rs) as -> by congruence.
    assert (pulses w' !! root = Some rs) as Hrs' by (by rewrite Hlook, !decide_False by congruence).
    destruct (tree_interests _ _ _ Hok' rs k pc c Hrs' Hin) as (_ & t & Ht & _). rewrite Hlook in Ht. by rewrite decide_True in Ht.
  - intros Hcase. apply (tree_ok_remove w w' root x c s); [done..|by rewrite Hlook, decide_True| | |].
    + intros p t Hpc Ht. rewrite Hlook, decide_False by done. destruct (decide (p = q)) as [->|].
      * exists sq1. assert (t = sq) as -> by congruence. done.
      * exists t. split_and!; try done. set_solver.
    + intros p t. rewrite Hlook. destruct (decide (p = c)); [done|]. destruct (decide (p = q)) as [->|]; intros Ht; [by exists sq|by exists t].
    + intros r r' k pc Hr Hr'. rewrite (Hint k pc r' Hr'). assert (r = rs) as -> by congruence.
      destruct (decide (q = root)) as [|Hqr]; [done|]. destruct Hcase as [|Hno]; [done|]. specialize (Hno rs k pc Hrs). set_solver.
Qed.

(** Posting does not touch the tree. *)
Lemma tree_ok_enqueue w root x ps : tree_ok w root x → tree_ok (enqueue ps w) root x.
Proof.
  intros [H1 H2 H3 H4 H5]. split; [exact H1| |exact H3|exact H4|exact H5].
  intros c s Hs Hc. destruct (H2 c s Hs Hc) as [d Hd]. exists d. by apply below_enqueue.
Qed.

Lemma tree_ok_emit w root x e : tree_ok w root x → tree_ok (emit e w) root x.
Proof.
  intros [H1 H2 H3 H4 H5]. split; [exact H1| |exact H3|exact H4|exact H5].
  intros c s Hs Hc. destruct (H2 c s Hs Hc) as [d Hd]. exists d.
  eapply below_mono; [|exact Hd]. intros q t Ht. by exists t.
Qed.

End tree.


(** *** What a frame dispatched at the root is to be posted as

    Said without the operations of the code: a subscription is concerned by a frame of its topic
    when it names no session or the one the frame came from. *)
Section wanted.
Context {frame : Type}.
Import pulse.
Implicit Types (w : world (frame:=frame)) (f : option frame).

Definition subscribed (s : state) (pic : Z) : list subscription := default [] (subscriptions s !! pic).
Definition concerned (se : nat) (sub : subscription) : Prop := session_key sub = 0 ∨ session_key sub = se.
#[export] Instance concerned_dec se sub : Decision (concerned se sub).
Proof. unfold concerned. apply _. Defined.

(** A pulse runs its tasks on the strand of its own key, those without one on none. *)
Definition own_strand (s : state) : option nat := match strand_key s with 0 => None | S k => Some (S k) end.
Definition tell (x : nat) (s : state) (se : nat) f (sub : subscription) : posting :=
  Posting x (own_strand s) (run_receiver (cb sub) se f).

(** In some order: the root's subscribers are given the session; those below it the session
    they named, which is the null session for those that named none. *)
Definition wanted w (root x : nat) (rs : state) (se : nat) (pic : Z) f : list posting :=
  map (tell x rs se f) (filter (concerned se) (subscribed rs pic)) ++
  flat_map (λ cs, map (λ sub, tell x cs.2 (session_key sub) f sub) (filter (concerned se) (subscribed cs.2 pic)))
    (children w root).

Lemma own_strand_of s : strand_of s = own_strand s.
Proof. unfold strand_of, own_strand. destruct (strand_key s); [done|]. by rewrite decide_True by lia. Qed.

Lemma deliveries_root x s se pic f :
  deliveries x s se pic f false = map (tell x s se f) (filter (concerned se) (subscribed s pic)).
Proof.
  unfold deliveries, subscribed. induction (default [] _) as [|sub subs IH]; [done|].
  cbn [flat_map]. rewrite IH, own_strand_of. unfold is_target.
  destruct (decide (concerned se sub)) as [Hc|Hc].
  - rewrite filter_cons_True by done. assert ((session_key sub =? 0) || (session_key sub =? se) = true) as -> by
      (destruct Hc as [->| ->]; by rewrite ?Nat.eqb_refl, ?orb_true_r). done.
  - rewrite filter_cons_False by done. unfold concerned in Hc. rewrite !(proj2 (Nat.eqb_neq _ _)) by naive_solver. done.
Qed.

Lemma deliveries_below x s se pic f :
  deliveries x s 0 pic f true ++ (if decide (se ≠ 0) then deliveries x s se pic f true else [])
  ≡ₚ map (λ sub, tell x s (session_key sub) f sub) (filter (concerned se) (subscribed s pic)).
Proof.
  unfold deliveries, subscribed. induction (default [] _) as [|sub subs IH]; [by destruct (decide _)|].
  cbn [flat_map]. rewrite own_strand_of. unfold is_target in *. destruct (decide (concerned se sub)) as [Hc|Hc].
  - rewrite filter_cons_True by done. cbn [map]. rewrite <-IH, own_strand_of. unfold tell.
    destruct (decide (session_key sub = 0)) as [E|Hk].
    + rewrite E, Nat.eqb_refl. by destruct (decide (se ≠ 0)); [rewrite (proj2 (Nat.eqb_neq 0 se)) by done|].
    + destruct Hc as [|E]; [done|]. rewrite E in *. rewrite (proj2 (Nat.eqb_neq se 0)), Nat.eqb_refl by done. rewrite !decide_True by done.
      simpl. by rewrite <-Permutation_middle.
  - rewrite filter_cons_False by done. unfold concerned in Hc.
    rewrite !(proj2 (Nat.eqb_neq _ _)) by naive_solver. rewrite <-IH, own_strand_of. done.
Qed.
End wanted.

Lemma dispatch_delivers `{Build} {frame : Type} (w : pulse.world (frame:=frame))
    (root x se : nat) (rs : pulse.state) (pic : Z) (f : option frame) :
  tree_ok w root x → pulse.pulses w !! root = Some rs →
  ∃ ps, pulse.dispatch root se pic f w = (Ret tt, pulse.enqueue ps w) ∧ ps ≡ₚ wanted w root x rs se pic f.
Proof.
  intros Hok Hrs.
  rewrite (dispatch_spec w root x rs se pic f (tree_below_root _ _ _ Hok) Hrs
    (tree_all_below _ _ _ _ _ _ Hok Hrs) (tree_all_below _ _ _ _ _ _ Hok Hrs)).
  eexists. split; [done|]. unfold wanted. rewrite deliveries_root. f_equiv.
  transitivity (flat_map (λ cs, deliveries x cs.2 0 pic f true ++
    (if decide (se ≠ 0) then deliveries x cs.2 se pic f true else [])) (children w root)).
  - rewrite flat_map_app_fun. f_equiv; [by apply child_deliveries_all|].
    destruct (decide (se ≠ 0)); [by apply child_deliveries_all|]. clear. by induction (children w root).
  - induction (children w root) as [|cs l IH]; [done|]. cbn [flat_map]. by rewrite IH, deliveries_below.
Qed.

(** ** Properties *)

(** An independent root at address 1 on runner 9, a child at 2 and a grandchild at
    3 that subscribed to topic 7. *)
Definition example_tree `{Build} : pulse.world (frame:=nat) :=
  let new c q (w : pulse.world (frame:=nat)) :=
    (pulse.as_child c q (pulse.set_pulses (<[c := pulse.make]> (pulse.pulses w)) w)).2 in
  let w := pulse.World {[1 := pulse.make]} [] [] in
  let w := (pulse.as_independent 1 (Some 9) w).2 in
  let w := new 2 1 w in
  let w := new 3 2 w in
  (pulse.subscribe 3 7 (pulse.user_receiver 5) w).2.

Lemma example_root_ok `{Build} (w : pulse.world (frame:=nat)) root x s :
  pulse.pulses w = {[root := s]} → pulse.parent_ s = None → pulse.runner_ s = Some x →
  pulse.interests s = ∅ → tree_ok w root x.
Proof.
  intros Hw Hp Hr Hi. split.
  - exists s. by rewrite Hw, lookup_singleton_eq.
  - intros c t Ht Hc. rewrite Hw in Ht. by apply lookup_singleton_Some in Ht as [? _].
  - intros c t q Ht Hq. rewrite Hw in Ht. apply lookup_singleton_Some in Ht as [_ <-]. congruence.
  - intros rs c t pic sub _ Ht Hc. rewrite Hw in Ht. by apply lookup_singleton_Some in Ht as [? _].
  - intros rs k pic c Hrs. rewrite Hw in Hrs. apply lookup_singleton_Some in Hrs as [_ <-].
    unfold interested. rewrite Hi, lookup_empty. set_solver.
Qed.

(** C12. Delivery.  In a well-formed tree a frame dispatched at the root is posted
    exactly once for every subscription it concerns and for no other, wherever the pulse is:
    a subscription to its topic that names no session or the frame's.  Each task goes to the
    runner of the root, on the strand of the subscriber's key or on none, and is
    given the frame with the session, at the root, and with the session the subscription names, below it
    (the null session when it names none).  Nothing else changes. *)
Theorem pulse_delivery `{Build} {frame : Type} (w : pulse.world (frame:=frame))
    (root x se : nat) (rs : pulse.state) (pic : Z) (f : option frame) :
  tree_ok w root x → pulse.pulses w !! root = Some rs →
  ∃ ps, pulse.dispatch root se pic f w = (Ret tt, pulse.enqueue ps w) ∧ ps ≡ₚ wanted w root x rs se pic f.
Proof. apply dispatch_delivers. Qed.

(** A root that subscribed to topic 7 of the sessions 0 and 4, and a child on strand 6 that
    subscribed to it of session 3. *)
Definition example_root : pulse.state :=
  pulse.set_subscriptions {[7%Z := [pulse.Subscription 0 (pulse.user_receiver 5);
      pulse.Subscription 4 (pulse.user_receiver 6)]]}
    (pulse.set_mode pulse.mode_independent (pulse.set_runner (Some 9) pulse.make)).
Definition example_family `{Build} : pulse.world (frame:=nat) :=
  let w := pulse.World {[1 := example_root]} [] [] in
  let w := (pulse.as_child 2 1 (pulse.set_pulses (<[2 := pulse.make]> (pulse.pulses w)) w)).2 in
  let w := (pulse.with_session 2 3 (pulse.with_strand 2 6 w).2).2 in
  (pulse.subscribe 2 7 (pulse.user_receiver 8) w).2.

Lemma example_family_ok `{Build} : tree_ok example_family 1 9.
Proof.
  set (w := pulse.World (frame:=nat) {[1 := example_root]} [] []).
  assert (tree_ok w 1 9) as Hok by by apply (example_root_ok w 1 9 example_root).
  destruct (attach_spec w 1 9 2 1 example_root Hok) as (w1 & R1 & Hok1 & _ & Hc1); [reflexivity|done|done|reflexivity|done|].
  set (w2 := (pulse.with_strand 2 6 w1).2).
  assert (w2 = pulse.set_pulses (<[2 := pulse.set_strand_key 6 (attached_child 1)]> (pulse.pulses w1)) w1) as E2
    by (unfold w2, pulse.with_strand; by rewrite (update_spec _ _ _ _ Hc1)).
  assert (pulse.pulses w2 !! 2 = Some (pulse.set_strand_key 6 (attached_child 1))) as Hc2 by (rewrite E2; apply lookup_insert_eq).
  set (w3 := (pulse.with_session 2 3 w2).2).
  assert (w3 = pulse.set_pulses (<[2 := pulse.set_session 3 (pulse.set_strand_key 6 (attached_child 1))]> (pulse.pulses w2)) w2) as E3
    by (unfold w3, pulse.with_session; by rewrite (update_spec _ _ _ _ Hc2)).
  assert (pulse.pulses w3 !! 2 = Some (pulse.set_session 3 (pulse.set_strand_key 6 (attached_child 1)))) as Hc3
    by (rewrite E3; apply lookup_insert_eq).
  assert (tree_ok w3 1 9) as Hok3.
  { eapply (tree_ok_member w2); [|exact Hc2|by rewrite E3|done..].
    eapply (tree_ok_member w1); [exact Hok1|exact Hc1|by rewrite E2|done..]. }
  destruct (subscribe_spec w3 1 9 2 _ 7 (pulse.user_receiver 8) Hok3 Hc3) as (w4 & s4 & R4 & Hok4 & _); [done|].
  unfold example_family. fold w. rewrite R1. cbn [snd]. fold w2. fold w3. by rewrite R4.
Qed.

Lemma pulse_delivery_witness :
  let _ := debug_build in
  (∃ ps, pulse.dispatch 1 3 7 (Some 42) example_family = (Ret tt, pulse.enqueue ps example_family) ∧
  ps ≡ₚ [pulse.Posting 9 None (pulse.run_receiver (pulse.user_receiver 5) 3 (Some 42));
         pulse.Posting 9 (Some 6) (pulse.run_receiver (pulse.user_receiver 8) 3 (Some 42))]) ∧
  ∃ ps, pulse.dispatch 1 4 7 (Some 42) example_family = (Ret tt, pulse.enqueue ps example_family) ∧
  ps ≡ₚ [pulse.Posting 9 None (pulse.run_receiver (pulse.user_receiver 5) 4 (Some 42));
         pulse.Posting 9 None (pulse.run_receiver (pulse.user_receiver 6) 4 (Some 42))].
Proof.
  intros ?.
  set (rs := default pulse.make (pulse.pulses example_family !! 1)).
  split; [apply (pulse_delivery example_family 1 9 3 rs 7 (Some 42))|apply (pulse_delivery example_family 1 9 4 rs 7 (Some 42))];
    (apply example_family_ok || reflexivity).
Defined.

(** C14. The tree stays well-formed: [subscribe] on any of its pulses adds the
    subscription under the pulse's session and registers it at the root; a new
    pulse can be attached below any pulse that is not final; and a pulse that has no
    children can be destroyed, which leaves all but its parent
    alone.  The destruction keeps the tree well-formed if the parent is the root, which then takes the
    registrations away, or if there are none; otherwise, and only
    then, it does not: a pulse deeper down leaves its registrations at the root behind. *)
Theorem pulse_tree_preserved `{Build} {frame : Type} (w : pulse.world (frame:=frame)) (root x : nat) :
  tree_ok w root x →
  (∀ p s pic r, pulse.pulses w !! p = Some s → pulse.mode_ s ≠ pulse.mode_none →
     ∃ w' s', pulse.subscribe p pic r w = (Ret tt, w') ∧ tree_ok w' root x ∧
       pulse.pulses w' !! p = Some s' ∧
       pulse.subscriptions s' = <[pic := default [] (pulse.subscriptions s !! pic) ++
         [pulse.Subscription (pulse.session_ s) r]]> (pulse.subscriptions s)) ∧
  (∀ c q sq, pulse.pulses w !! c = None → c ≠ 0 → q ≠ 0 → pulse.pulses w !! q = Some sq →
     pulse.final_ sq = false →
     ∃ w', pulse.as_child c q (pulse.set_pulses (<[c := pulse.make]> (pulse.pulses w)) w) = (Ret tt, w') ∧
       tree_ok w' root x) ∧
  (∀ c s q sq, pulse.pulses w !! c = Some s → c ≠ 0 → pulse.parent_ s = Some q → pulse.pulses w !! q = Some sq →
     pulse.mode_ s = pulse.mode_child → pulse.childs s = ∅ → pulse.stop_ s = false → pulse.final_ sq = false →
     ∃ w', pulse.destroy c w = (Ret tt, w') ∧ pulse.pulses w' !! c = None ∧
       (∀ p, p ≠ q → p ≠ c → pulse.pulses w' !! p = pulse.pulses w !! p) ∧
       (tree_ok w' root x ↔
          q = root ∨ ∀ rs k pic, pulse.pulses w !! root = Some rs → c ∉ interested rs k pic)).
Proof.
  intros Hok. split_and!.
  - intros p s pic r Hs Hm.
    destruct (subscribe_spec w root x p s pic r Hok Hs Hm) as (w' & s' & ? & ? & _ & ? & _ & ?).
    by exists w', s'.
  - intros c q sq Hc Hc0 Hq0 Hq Hf.
    destruct (attach_spec w root x c q sq Hok Hc Hc0 Hq0 Hq Hf) as (w' & ? & ? & _). by exists w'.
  - intros c s q sq Hs Hc0 Hp Hq Hm Hch Hst Hf.
    destruct (detach_spec w root x c s q sq Hok Hs Hc0 Hp Hq Hm Hch Hst Hf) as (w' & ? & ? & _ & ? & ?).
    by exists w'.
Qed.

Lemma pulse_tree_preserved_witness :
  let _ := debug_build in
  let w := example_family in
  (∃ w', pulse.as_child 3 2 (pulse.set_pulses (<[3 := pulse.make]> (pulse.pulses w)) w) = (Ret tt, w') ∧ tree_ok w' 1 9) ∧
  ∃ w', pulse.destroy 2 w = (Ret tt, w') ∧ pulse.pulses w' !! 2 = None ∧ tree_ok w' 1 9.
Proof.
  intros ? w. destruct (pulse_tree_preserved w 1 9 example_family_ok) as (_ & Hattach & Hdestroy). split.
  - by apply (Hattach 3 2 (default pulse.make (pulse.pulses w !! 2))); [reflexivity|..].
  - destruct (Hdestroy 2 (default pulse.make (pulse.pulses w !! 2)) 1 (default pulse.make (pulse.pulses w !! 1)))
      as (w' & Hd & Hg & _ & Hiff); [reflexivity|done|reflexivity..|].
    exists w'. split; [exact Hd|split; [exact Hg|]]. apply Hiff. by left.
Defined.

(** A grandchild of the root leaves its registration behind: its parent is not
    the root, so [unbind_child] drops no interests.  The next frame dispatched at
    the root for a topic only it was interested in goes to the destroyed pulse. *)
Theorem grandchild_dangling `{Build} {frame : Type} (w : pulse.world (frame:=frame))
    (root x c g se : nat) (rs sc sg : pulse.state) (pic : Z) (f : option frame) :
  tree_ok w root x → pulse.pulses w !! root = Some rs → pulse.pulses w !! c = Some sc →
  pulse.pulses w !! g = Some sg → pulse.parent_ sg = Some c → c ≠ root → g ≠ c → g ≠ 0 →
  pulse.mode_ sg = pulse.mode_child → pulse.childs sg = ∅ → pulse.stop_ sg = false →
  pulse.final_ sc = false → interested rs 0 pic = {[g]} →
  ∃ w', pulse.destroy g w = (Ret tt, w') ∧ pulse.pulses w' !! g = None ∧
    (pulse.dispatch root se pic f w').1 = Undefined.
Proof.
  intros Hok Hrs Hc Hg Hpar Hcr Hgc Hg0 Hm Hch Hst Hf Hint.
  destruct (detach_spec w root x g sg c sc Hok Hg Hg0 Hpar Hc Hm Hch Hst Hf) as (w' & Hd & Hgn & _ & Hother & _).
  destruct (tree_root _ _ _ Hok) as (rs0 & Hr0 & Hp0 & Hx0). assert (rs0 = rs) as -> by congruence.
  assert (pulse.pulses w' !! root = Some rs) as Hrs' by (rewrite Hother; [done|done|congruence]).
  exists w'. split_and!; [done|done|].
  assert (below w' root x 0 root) as Hb by by eapply below_root.
  unfold pulse.dispatch. rewrite dispatch_fuel_S.
  rewrite (bind_run _ _ _ _ _ (dispatch_subscribers_spec _ _ _ _ _ _ se pic f false Hb Hrs')).
  set (w3 := pulse.enqueue (deliveries x rs se pic f false) w').
  rewrite (bind_run _ _ w3 rs w3) by (by apply at_spec).
  assert (pulse.is_root rs = true) as -> by (by apply bool_decide_true).
  unfold interested in Hint. destruct (pulse.interests rs !! (0, pic)) as [cmap|]; simpl in Hint; [|set_solver].
  subst cmap. unfold in_order. rewrite elements_singleton. simpl.
  unfold pulse.dispatch_subscribers, pulse.at_. run. by rewrite Hgn.
Qed.

Lemma grandchild_dangling_witness :
  let _ := debug_build in
  let rs := pulse.set_interests {[(0, 7%Z) := {[3]}]} (pulse.set_runner (Some 9) pulse.make) in
  let rs := pulse.set_childs {[2]} rs in
  let sc := pulse.set_childs {[3]} (pulse.set_parent (Some 1) (pulse.set_mode pulse.mode_child pulse.make)) in
  let sg := pulse.set_self_interests {[(0, 7%Z)]}
    (pulse.set_parent (Some 2) (pulse.set_mode pulse.mode_child pulse.make)) in
  let w := pulse.World (frame:=nat) {[1 := rs; 2 := sc; 3 := sg]} [] [] in
  ∃ w', pulse.destroy 3 w = (Ret tt, w') ∧ pulse.pulses w' !! 3 = None ∧
    (pulse.dispatch 1 5 7 (Some 42) w').1 = Undefined.
Proof.
  intros ? rs0 rs sc sg w.
  assert (pulse.pulses w !! 1 = Some rs) as H1 by reflexivity.
  assert (pulse.pulses w !! 2 = Some sc) as H2 by reflexivity.
  assert (pulse.pulses w !! 3 = Some sg) as H3 by reflexivity.
  assert (∀ q s, pulse.pulses w !! q = Some s → q = 1 ∧ s = rs ∨ q = 2 ∧ s = sc ∨ q = 3 ∧ s = sg) as Hall.
  { intros q s Hq. simpl in Hq. apply lookup_insert_Some in Hq as [[<- <-]|[_ Hq]]; [by left|].
    apply lookup_insert_Some in Hq as [[<- <-]|[_ Hq]]; [by right; left|].
    apply lookup_singleton_Some in Hq as [<- <-]. by right; right. }
  assert (below w 1 9 0 1) as Hb1 by (by eapply below_root).
  assert (below w 1 9 1 2) as Hb2 by (by eapply (below_child _ _ _ 2 sc 1)).
  assert (below w 1 9 2 3) as Hb3 by (by eapply (below_child _ _ _ 3 sg 2)).
  apply (grandchild_dangling w 1 9 2 3 5 rs sc sg 7 (Some 42)); try done.
  split.
  - by exists rs.
  - intros c s [[-> _]|[[-> _]|[-> _]]]%Hall Hne; [done|by exists 0|by exists 1].
  - intros c s q Hs Hq. apply Hall in Hs as [[-> ->]|[[-> ->]|[-> ->]]]; simpl in Hq; simplify_eq.
    + exists rs. split; [done|]. simpl. set_solver.
    + exists sc. split; [done|]. simpl. set_solver.
  - intros r c s pic sub _ Hs _ Hin. exfalso.
    apply Hall in Hs as [[-> ->]|[[-> ->]|[-> ->]]]; simpl in Hin; rewrite lookup_empty in Hin; set_solver.
  - intros r k pic c Hr Hin. assert (r = rs) as -> by congruence. unfold interested in Hin.
    change (pulse.interests rs) with ({[(0, 7%Z) := {[3]}]} : gmap (nat * Z) (gset nat)) in Hin.
    destruct (decide ((0, 7%Z) = (k, pic))) as [Heq|Hk].
    + rewrite Heq, lookup_singleton_eq in Hin. simpl in Hin. apply elem_of_singleton in Hin as ->.
      split; [congruence|]. exists sg. split; [done|]. rewrite <- Heq. vm_compute. reflexivity.
    + rewrite lookup_singleton_ne in Hin by done. simpl in Hin. set_solver.
Defined.
