(* ===== verification/PulseCalls.v ===== *)
(** * The calls of a pulse

    A child pulse keeps the calls that wait for a response, a queue for every request topic. *)

From S2P Require Import Prelude.
From S2P Require Import Serializer.
From S2P Require Import StringUtil.
From S2P Require Import Pulse.
From S2P Require Import PulseTree.

(** ** Waiting calls *)
Section calls.
Context `{Build} {frame : Type}.
Import pulse.
Implicit Types w : world (frame:=frame).

(** The queue of one request: the waiting calls are numbered without gaps from the
    first unanswered one to the last made. *)
Definition calls_ok (tc : topic_calls) : Prop :=
  map call_id (callers tc) = seq (S (reply_index tc)) (length (callers tc)) ∧
  call_index tc = reply_index tc + length (callers tc).

Definition child_ok (s : state) : Prop :=
  mode_ s = mode_child ∧ is_root s = false ∧ session_ s ≠ 0.

Lemma child_checks s w :
  child_ok s →
  PLAY_CHECK (bool_decide (mode_ s = mode_child)) w = (Ret tt, w) ∧
  PLAY_CHECK (negb (is_root s)) w = (Ret tt, w) ∧
  PLAY_CHECK (negb (session_ s =? 0)) w = (Ret tt, w).
Proof.
  intros (Hm & Hr & Hs). split_and!; apply check_true.
  - by apply bool_decide_true.
  - by rewrite Hr.
  - by rewrite (proj2 (Nat.eqb_neq _ _)).
Qed.

Lemma call_receive_spec w p s se pic req tc c rest :
  pulses w !! p = Some s → child_ok s → call_pairs s !! pic = Some req →
  calls s !! req = Some tc → calls_ok tc → callers tc = c :: rest →
  let tc' := TopicCalls (call_index tc) (S (reply_index tc)) rest in
  call_receive p se pic w
  = (Ret tt, set_pulses (<[p := set_calls (<[req := tc']> (calls s)) s]> (pulses w)) w) ∧ calls_ok tc'.
Proof.
  intros Hs Hok Hcp Htc [Hids Hidx] Hcs tc'. rewrite Hcs in Hids. simpl in Hids.
  injection Hids as Hc Hrest. destruct (child_checks s w Hok) as (Hc1 & Hc2 & Hc3). split.
  - unfold call_receive. rewrite (bind_run _ _ _ _ _ (at_spec _ _ _ Hs)).
    rewrite (bind_run _ _ _ _ _ Hc1), (bind_run _ _ _ _ _ Hc2), (bind_run _ _ _ _ _ Hc3), Hcp, Htc.
    rewrite (bind_run _ _ _ _ _ (update_spec _ _ _ _ Hs)).
    match goal with |- (_ ≫= _) ?x = _ => set (w1 := x) end.
    simpl callers. rewrite Hcs. rewrite (bind_run _ _ w1 tt w1) by done.
    rewrite (bind_run _ _ w1 c w1) by done. simpl reply_index.
    rewrite (bind_run _ _ w1 tt w1) by (apply check_true; by apply Nat.eqb_eq).
    erewrite update_spec by apply lookup_insert_eq. unfold w1, set_pulses. simpl.
    unfold set_calls. simpl. by rewrite !insert_insert_eq.
  - split; simpl; [done|]. rewrite Hidx, Hcs. simpl. lia.
Qed.

Lemma post_calls w p s x root d cs :
  pulses w !! p = Some s → below w root x d p →
  for_each cs (λ c, r ← get_runner p; r ← deref r;
    modify (enqueue [Posting r (strand_of s) (run_call c)])) w
  = (Ret tt, enqueue (map (λ c, Posting x (strand_of s) (run_call c)) cs) w).
Proof.
  revert w. induction cs as [|c cs IH]; intros w Hs Hb; simpl; [by rewrite enqueue_nil|].
  rewrite (bind_run _ _ w tt (enqueue [Posting x (strand_of s) (run_call c)] w)).
  - rewrite IH; [by rewrite enqueue_app|done|by apply below_enqueue].
  - by rewrite (bind_run _ _ _ _ _ (get_runner_spec _ _ _ _ _ Hb)).
Qed.
(** The internal subscriptions are made once. *)
Lemma subscribe_once w root x p s pic r :
  tree_ok w root x → pulses w !! p = Some s → mode_ s ≠ mode_none →
  subscriptions s !! pic = None ∨ subscriptions s !! pic = Some [Subscription (session_ s) r] →
  ∃ w' s', (has ← has_subscription p pic; if (has : bool) then mret tt else subscribe p pic r) w
    = (Ret tt, w') ∧ tree_ok w' root x ∧ posted w' = posted w ∧
    pulses w' !! p = Some s' ∧ call_state_same s s' ∧
    subscriptions s' = <[pic := [Subscription (session_ s) r]]> (subscriptions s).
Proof.
  intros Hok Hs Hm Hsub.
  rewrite (bind_run _ _ _ _ _ (has_subscription_spec _ _ _ pic Hs)). destruct Hsub as [Hsub|Hsub]; rewrite Hsub.
  - destruct (subscribe_spec w root x p s pic r Hok Hs Hm) as (w' & s' & Hr & Hok' & Hpo & Hs' & Hsame & Hsubs).
    exists w', s'. rewrite bool_decide_false by (intros [? ?]; done). rewrite Hsub in Hsubs. by split_and!.
  - exists w, s. rewrite bool_decide_true by done. split_and!; try done. symmetry. by apply insert_id.
Qed.

(** The calls of a pulse over time: a call on a request topic, whose response topic
    is a function of it, and the arrival of a response. *)
Inductive call_event := ev_call (req : Z) (c : nat) | ev_reply (req : Z).

Definition run_event (p se : nat) (res : Z → Z) (e : call_event) : M (world (frame:=frame)) unit :=
  match e with
  | ev_call req c => call p req (res req) c
  | ev_reply req => run_task (run_receiver (reply_receiver p (res req)) se None)
  end.

(** What it means: a queue of unanswered calls for every request topic. *)
Definition waiting_after (A : Z → list nat) (e : call_event) : Z → list nat :=
  match e with
  | ev_call req c => λ k, if decide (k = req) then A k ++ [c] else A k
  | ev_reply req => λ k, if decide (k = req) then tail (A k) else A k
  end.

(** Every response follows its call. *)
Fixpoint answers_calls (A : Z → list nat) (es : list call_event) : Prop :=
  match es with
  | [] => True
  | e :: es => (match e with ev_reply req => A req ≠ [] | _ => True end) ∧
      answers_calls (waiting_after A e) es
  end.

Section refinement.
Context (root x p se k : nat) (res : Z → Z).
Context (res_inj : Inj (=) (=) res) (res_not_closed : ∀ req, res req ≠ topic_closed).

(** The pulse holds the queues [A]. *)
Record holds w (A : Z → list nat) (s : state) : Prop := {
  holds_tree : tree_ok w root x;
  holds_at : pulses w !! p = Some s;
  holds_child : child_ok s;
  holds_session : session_ s = se;
  holds_strand : strand_key s = k;
  holds_closed : subscriptions s !! topic_closed = None ∨
    subscriptions s !! topic_closed = Some [Subscription se (closed_receiver p)];
  holds_reply req : subscriptions s !! res req = None ∨
    subscriptions s !! res req = Some [Subscription se (reply_receiver p (res req))];
  holds_queue req :
    match calls s !! req with
    | None => A req = []
    | Some tc => calls_ok tc ∧ map call_cb (callers tc) = A req ∧ call_pairs s !! res req = Some req ∧
        subscriptions s !! topic_closed = Some [Subscription se (closed_receiver p)] ∧
        subscriptions s !! res req = Some [Subscription se (reply_receiver p (res req))]
    end
}.

Lemma holds_emit w A s e : holds w A s → holds (emit e w) A s.
Proof. intros [H1 H2 H3 H4 H5 H6 H7 H8]. split; try done. by apply tree_ok_emit. Qed.

Lemma holds_below w A s : holds w A s → ∃ d, below w root x d p.
Proof.
  intros Hh. destruct (holds_child _ _ _ Hh) as (_ & Hr & _).
  destruct (tree_below _ _ _ (holds_tree _ _ _ Hh) p s (holds_at _ _ _ Hh)) as [d Hd]; [|by exists (S d)].
  intros ->. destruct (tree_root _ _ _ (holds_tree _ _ _ Hh)) as (rs & Hrs & Hp & _).
  assert (rs = s) as -> by (pose proof (holds_at _ _ _ Hh); congruence).
  by rewrite (bool_decide_true _ Hp : is_root s = true) in Hr.
Qed.

(** A call joins the end of its queue. *)
Lemma calls_ok_push tc c :
  calls_ok tc → calls_ok (TopicCalls (S (call_index tc)) (reply_index tc) (callers tc ++ [Caller (S (call_index tc)) c])).
Proof.
  intros [Hids Hidx]. split; simpl.
  - rewrite map_app, Hids, length_app. simpl. rewrite Hidx, Nat.add_1_r, seq_S. simpl. do 3 f_equal; lia.
  - rewrite length_app. simpl. lia.
Qed.

(** [call] makes the two internal subscriptions that are missing and queues. *)
Lemma pulse_call_run w s req rs c :
  tree_ok w root x → pulses w !! p = Some s → child_ok s → session_ s = se → rs ≠ topic_closed →
  subscriptions s !! topic_closed = None ∨ subscriptions s !! topic_closed = Some [Subscription se (closed_receiver p)] →
  subscriptions s !! rs = None ∨ subscriptions s !! rs = Some [Subscription se (reply_receiver p rs)] →
  ∃ w' s', call p req rs c w = (Ret tt, set_pulses (<[p := add_call req rs c s']> (pulses w')) w') ∧
    tree_ok w' root x ∧ posted w' = posted w ∧ pulses w' !! p = Some s' ∧ call_state_same s s' ∧
    subscriptions s' = <[rs := [Subscription se (reply_receiver p rs)]]>
      (<[topic_closed := [Subscription se (closed_receiver p)]]> (subscriptions s)).
Proof.
  intros Hok Hs Hc Hse Hrs Hcl Hrep. destruct (child_checks s w Hc) as (C1 & C2 & C3).
  assert (mode_ s ≠ mode_none) as Hm by (destruct Hc; congruence).
  destruct (subscribe_once w root x p s topic_closed (closed_receiver p) Hok Hs Hm)
    as (w1 & s1 & R1 & Ok1 & P1 & At1 & (S1 & K1 & M1 & Pa1 & Ca1 & Cp1) & Sub1); [by rewrite Hse|]. rewrite Hse in Sub1.
  assert (child_ok s1) as Hc1.
  { destruct Hc as (? & Hr & ?). split_and!; [congruence|unfold is_root in *; by rewrite Pa1|congruence]. }
  destruct (child_checks s1 w1 Hc1) as (D1 & D2 & D3).
  destruct (subscribe_once w1 root x p s1 rs (reply_receiver p rs) Ok1 At1)
    as (w2 & s2 & R2 & Ok2 & P2 & At2 & (S2 & K2 & M2 & Pa2 & Ca2 & Cp2) & Sub2); [congruence| |].
  { by rewrite Sub1, lookup_insert_ne, S1, Hse by done. }
  rewrite S1, Hse, Sub1 in Sub2. exists w2, s2. split_and!; [|done|congruence|done|split_and!; congruence|done].
  unfold call. rewrite (bind_run _ _ _ _ _ (at_spec _ _ _ Hs)).
  rewrite (bind_run _ _ _ _ _ C1), (bind_run _ _ _ _ _ C3), (bind_run _ _ _ _ _ C2).
  rewrite (bind_run _ _ w tt w1).
  2:{ unfold call_subscribe_closed. rewrite (bind_run _ _ _ _ _ (at_spec _ _ _ Hs)).
      by rewrite (bind_run _ _ _ _ _ C2), (bind_run _ _ _ _ _ C3). }
  rewrite (bind_run _ _ w1 tt w2).
  2:{ unfold call_subscribe_reply. rewrite (bind_run _ _ _ _ _ (at_spec _ _ _ At1)).
      by rewrite (bind_run _ _ _ _ _ D2), (bind_run _ _ _ _ _ D3). }
  by apply update_spec.
Qed.

Lemma holds_call w A s req c :
  holds w A s →
  ∃ w' s', call p req (res req) c w = (Ret tt, w') ∧ posted w' = posted w ∧
    holds w' (waiting_after A (ev_call req c)) s'.
Proof.
  intros Hh. assert (topic_closed ≠ res req) as Hne by (intros Hn; by apply (res_not_closed req)).
  destruct (pulse_call_run w s req (res req) c (holds_tree _ _ _ Hh) (holds_at _ _ _ Hh) (holds_child _ _ _ Hh)
    (holds_session _ _ _ Hh)) as (w2 & s2 & R2 & Ok2 & P2 & At2 & (S2 & K2 & M2 & Pa2 & Ca2 & Cp2) & Sub2);
    [done|apply (holds_closed _ _ _ Hh)|apply (holds_reply _ _ _ Hh)|].
  eexists _, (add_call req (res req) c s2). split; [exact R2|]. split; [done|].
  assert (subscriptions s2 !! topic_closed = Some [Subscription se (closed_receiver p)]) as Hcl
    by (rewrite Sub2, lookup_insert_ne by done; apply lookup_insert_eq).
  destruct (holds_child _ _ _ Hh) as (? & Hr & ?). split.
  - by eapply tree_ok_member.
  - apply lookup_insert_eq.
  - split_and!; simpl; [congruence|unfold is_root in *; simpl; by rewrite Pa2|congruence].
  - simpl. rewrite S2. apply (holds_session _ _ _ Hh).
  - simpl. rewrite K2. apply (holds_strand _ _ _ Hh).
  - by right.
  - intros req'. simpl. rewrite Sub2. destruct (decide (res req' = res req)) as [->|Hn]; [right; apply lookup_insert_eq|].
    rewrite !lookup_insert_ne by (done || by intros Hn'; by apply (res_not_closed req')). apply (holds_reply _ _ _ Hh).
  - intros req'. simpl. rewrite Ca2. pose proof (holds_queue _ _ _ Hh req') as Hq. destruct (decide (req' = req)) as [->|Hn].
    + rewrite !lookup_insert_eq. split_and!; [| |done|done|rewrite Sub2; apply lookup_insert_eq];
        destruct (calls s !! req) as [tc|]; simpl.
      * apply calls_ok_push. by destruct Hq.
      * by split.
      * destruct Hq as (_ & <- & _). by rewrite map_app.
      * by rewrite Hq.
    + rewrite lookup_insert_ne by done. destruct (calls s !! req') as [tc|]; [|done].
      destruct Hq as (? & ? & ? & ? & ?). split_and!; [done|done| |done|].
      * rewrite Cp2, lookup_insert_ne; [done|]. intros Hr'. by apply res_inj in Hr'.
      * rewrite Sub2, !lookup_insert_ne; [done| |]; intros Hr'; [by apply (res_not_closed req')|by apply res_inj in Hr'].
Qed.

Lemma holds_answer w A s req :
  holds w A s → A req ≠ [] →
  ∃ w' s', run_event p se res (ev_reply req) w = (Ret tt, w') ∧ posted w' = posted w ∧
    holds w' (waiting_after A (ev_reply req)) s'.
Proof.
  intros Hh HA. pose proof (holds_queue _ _ _ Hh req) as Hq.
  destruct (calls s !! req) as [tc|] eqn:Htc; [|done]. destruct Hq as (Hok & HAq & Hcp & Hs1 & Hs2).
  destruct (callers tc) as [|c rest] eqn:Hcs; [by rewrite <-HAq in HA|].
  destruct (call_receive_spec w p s se (res req) req tc c rest (holds_at _ _ _ Hh) (holds_child _ _ _ Hh)
    Hcp Htc Hok Hcs) as [Hr Hok'].
  eexists _, _. split; [exact Hr|]. split; [done|].
  destruct (holds_child _ _ _ Hh) as (? & ? & ?). split.
  - by eapply tree_ok_member; [apply (holds_tree _ _ _ Hh)|apply (holds_at _ _ _ Hh)|..].
  - apply lookup_insert_eq.
  - by split_and!.
  - apply (holds_session _ _ _ Hh).
  - apply (holds_strand _ _ _ Hh).
  - apply (holds_closed _ _ _ Hh).
  - apply (holds_reply _ _ _ Hh).
  - intros req'. simpl. destruct (decide (req' = req)) as [->|Hn].
    + rewrite lookup_insert_eq. rewrite <-HAq. by split_and!.
    + rewrite lookup_insert_ne by done. apply (holds_queue _ _ _ Hh).
Qed.

Lemma holds_events w A s es :
  holds w A s → answers_calls A es →
  ∃ w' s', for_each es (run_event p se res) w = (Ret tt, w') ∧ posted w' = posted w ∧
    holds w' (fold_left waiting_after es A) s'.
Proof.
  revert w A s. induction es as [|e es IH]; intros w A s Hh Hans; [by exists w, s|].
  destruct Hans as [He Hans].
  assert (∃ w' s', run_event p se res e w = (Ret tt, w') ∧ posted w' = posted w ∧
    holds w' (waiting_after A e) s') as (w1 & s1 & R1 & P1 & H1).
  { destruct e as [req c|req]; [by eapply holds_call|by eapply holds_answer]. }
  destruct (IH w1 _ s1 H1 Hans) as (w2 & s2 & R2 & P2 & H2). exists w2, s2. split_and!.
  - simpl. by rewrite (bind_run _ _ _ _ _ R1).
  - congruence.
  - done.
Qed.

Lemma concat_queues A l :
  (∀ k tc, (k, tc) ∈ l → map call_cb (callers tc) = A k) →
  concat (map (λ kv : Z * topic_calls, map call_cb (callers kv.2)) l) = flat_map A (map fst l).
Proof.
  induction l as [|[k0 tc] l IH]; intros Hl; [done|]. simpl. rewrite (Hl k0 tc) by set_solver.
  f_equal. apply IH. set_solver.
Qed.

(** The session of the pulse is closed. *)
Lemma holds_close w A s :
  holds w A s →
  ∃ w' s' reqs, run_task (run_receiver (closed_receiver p) se None) w = (Ret tt, w') ∧
    Sorted Z.le reqs ∧ NoDup reqs ∧ (∀ r, A r ≠ [] → r ∈ reqs) ∧
    posted w' = posted w ++ map (λ c, Posting x (strand_of s) (run_call c)) (flat_map A reqs) ∧
    pulses w' !! p = Some s' ∧ calls s' = ∅ ∧ tree_ok w' root x.
Proof.
  intros Hh. pose proof (holds_at _ _ _ Hh) as Hs. pose proof (holds_queue _ _ _ Hh) as Hq.
  destruct (holds_below _ _ _ Hh) as [d Hd].
  destruct (entries_in_order_spec (calls s)) as (Hsort & Hnd & Hmem).
  destruct (child_checks s w (holds_child _ _ _ Hh)) as (C1 & C2 & C3).
  set (w1 := set_pulses (<[p := set_calls ∅ s]> (pulses w)) w).
  assert (tree_ok w1 root x) as Hok1 by by eapply tree_ok_member; [apply (holds_tree _ _ _ Hh)|exact Hs|..].
  assert (pulses w1 !! p = Some (set_calls ∅ s)) as Hs1 by apply lookup_insert_eq.
  assert (below w1 root x d p) as Hd1.
  { eapply below_mono; [|exact Hd]. intros q t Ht. simpl. destruct (decide (q = p)) as [->|Hn].
    - rewrite lookup_insert_eq. eexists. split; [done|]. assert (t = s) as -> by congruence. done.
    - rewrite lookup_insert_ne by done. by exists t. }
  set (l := entries_in_order (calls s)) in *.
  eexists _, (set_calls ∅ s), (map fst l). split_and!.
  - simpl. unfold call_closed. rewrite (bind_run _ _ _ _ _ (at_spec _ _ _ Hs)).
    rewrite (bind_run _ _ _ _ _ C1), (bind_run _ _ _ _ _ C2), (bind_run _ _ _ _ _ C3).
    rewrite decide_False by (intros Hn; by apply Hn; rewrite (holds_session _ _ _ Hh)).
    rewrite (bind_run _ _ _ _ _ (update_spec _ _ _ _ Hs)). fold l w1.
    rewrite (concat_queues A).
    + exact (post_calls w1 p (set_calls ∅ s) x root d _ Hs1 Hd1).
    + intros k0 tc Hin. apply Hmem in Hin. specialize (Hq k0). rewrite Hin in Hq. by destruct Hq as (_ & ? & _).
  - done.
  - done.
  - intros r Hr. specialize (Hq r). destruct (calls s !! r) as [tc|] eqn:Htc; [|done].
    apply list_elem_of_fmap. exists (r, tc). split; [done|by apply Hmem].
  - done.
  - done.
  - done.
  - by apply tree_ok_enqueue.
Qed.

(** Another session is closed. *)
Lemma holds_close_other w A s se' :
  holds w A s → se' ≠ se → run_task (run_receiver (closed_receiver p) se' None) w = (Ret tt, w).
Proof.
  intros Hh Hne. destruct (child_checks s w (holds_child _ _ _ Hh)) as (C1 & C2 & C3). simpl.
  unfold call_closed. rewrite (bind_run _ _ _ _ _ (at_spec _ _ _ (holds_at _ _ _ Hh))).
  rewrite (bind_run _ _ _ _ _ C1), (bind_run _ _ _ _ _ C2), (bind_run _ _ _ _ _ C3).
  rewrite decide_True; [done|]. by rewrite (holds_session _ _ _ Hh).
Qed.
End refinement.
End calls.

(** ** Properties *)


(** A root at 1 with a child at 2 that has session 4. *)
Definition example_caller `{Build} : pulse.state :=
  pulse.set_session 4 (pulse.set_parent (Some 1) (pulse.set_mode pulse.mode_child pulse.make)).
Definition example_calls `{Build} : pulse.world (frame:=nat) :=
  pulse.World {[1 := pulse.set_childs {[2]} (pulse.set_runner (Some 9) pulse.make); 2 := example_caller]}
    [] [].

Lemma example_calls_ok `{Build} : tree_ok example_calls 1 9.
Proof.
  set (w := example_calls). set (rs := pulse.set_childs {[2]} (pulse.set_runner (Some 9) pulse.make)).
  assert (pulse.pulses w !! 1 = Some rs) as H1 by reflexivity.
  assert (∀ q s, pulse.pulses w !! q = Some s → q = 1 ∧ s = rs ∨ q = 2 ∧ s = example_caller) as Hall.
  { intros q s Hq. simpl in Hq. apply lookup_insert_Some in Hq as [[<- <-]|[_ Hq]]; [by left|].
    apply lookup_singleton_Some in Hq as [<- <-]. by right. }
  assert (below w 1 9 0 1) as Hb by (by eapply below_root).
  split.
  - by exists rs.
  - intros c s [[-> _]|[-> ->]]%Hall Hne; [done|]. exists 0. by eapply (below_child _ _ _ 2 example_caller 1).
  - intros c s q [[-> ->]|[-> ->]]%Hall Hq; simpl in Hq; simplify_eq. exists rs. split; [done|]. simpl. set_solver.
  - intros r c s pic sub _ [[-> ->]|[-> ->]]%Hall _ Hin; simpl in Hin; rewrite lookup_empty in Hin; set_solver.
  - intros r k pic c Hr Hin. assert (r = rs) as -> by congruence. unfold interested in Hin. simpl in Hin.
    rewrite lookup_empty in Hin. simpl in Hin. set_solver.
Qed.


(** The subscriptions of a topic are all the user's. *)
Definition only_users (subs : list pulse.subscription) : Prop :=
  ∀ sub, sub ∈ subs → ∃ id, pulse.cb sub = pulse.user_receiver id.

Lemma only_users_deliveries `{Build} {frame : Type} x s se pic (f : option frame) fr t w :
  only_users (default [] (pulse.subscriptions s !! pic)) → t ∈ deliveries x s se pic f fr →
  pulse.run_task (pulse.what t) w = (Ret tt, w).
Proof.
  unfold deliveries. intros Hu (sub & Hsub & Ht)%list_elem_of_In%in_flat_map.
  apply list_elem_of_In in Hsub. destruct (Hu _ Hsub) as [id Hid].
  destruct (pulse.is_target _ _ _); [|done]. destruct Ht as [<-|[]]. simpl. by rewrite Hid.
Qed.

(** Where calls go wrong.  A response nobody waits for pops an empty queue:
    the assertion stops a debug build and a release build runs into undefined
    behaviour.  When the user subscribed to the response topic and to the end of
    sessions before calling, the two internal subscriptions are not made: the call
    is queued, but no delivery on the two topics ever answers it or reports it as
    lost.  And a peer that sends a frame on one of the two reserved topics stops a
    debug build. *)
Theorem pulse_call_hazards `{Build} {frame : Type} (unpack : Z → bytes → option frame)
    (w : pulse.world (frame:=frame)) (p : nat) (s : pulse.state) :
  pulse.pulses w !! p = Some s →
  (∀ pic req tc se f, child_ok s → pulse.call_pairs s !! pic = Some req → pulse.calls s !! req = Some tc →
     pulse.callers tc = [] →
     (pulse.run_task (pulse.run_receiver (pulse.reply_receiver p pic) se f) w).1
       = if assertions then Aborted else Undefined) ∧
  (∀ req res c subs_res subs_closed, child_ok s →
     pulse.subscriptions s !! res = Some subs_res → only_users subs_res →
     pulse.subscriptions s !! pulse.topic_closed = Some subs_closed → only_users subs_closed →
     ∃ w' s', pulse.call p req res c w = (Ret tt, w') ∧ pulse.pulses w' !! p = Some s' ∧
       pulse.subscriptions s' = pulse.subscriptions s ∧
       (∃ tc, pulse.calls s' !! req = Some tc ∧ c ∈ map pulse.call_cb (pulse.callers tc)) ∧
       ∀ x se pic f fr t w'', pic = res ∨ pic = pulse.topic_closed →
         t ∈ deliveries (frame:=frame) x s' se pic f fr →
         pulse.run_task (pulse.what t) w'' = (Ret tt, w'')) ∧
  (assertions = true → ∀ se pic data, pic = pulse.topic_established ∨ pic = pulse.topic_closed →
     (pulse.on_receive unpack p se pic data w).1 = Aborted).
Proof.
  intros Hs. split_and!.
  - intros pic req tc se f Hok Hcp Htc Hcs. destruct (child_checks s w Hok) as (C1 & C2 & C3). simpl.
    unfold pulse.call_receive. rewrite (bind_run _ _ _ _ _ (at_spec _ _ _ Hs)).
    rewrite (bind_run _ _ _ _ _ C1), (bind_run _ _ _ _ _ C2), (bind_run _ _ _ _ _ C3), Hcp, Htc.
    rewrite (bind_run _ _ _ _ _ (update_spec _ _ _ _ Hs)). simpl pulse.callers. rewrite Hcs.
    unfold PLAY_CHECK. run. by destruct assertions.
  - intros req res c sr sc Hok Hsr Hur Hsc Huc. destruct (child_checks s w Hok) as (C1 & C2 & C3).
    exists (pulse.set_pulses (<[p := pulse.add_call req res c s]> (pulse.pulses w)) w), (pulse.add_call req res c s).
    assert (∀ pic subs, pulse.subscriptions s !! pic = Some subs →
      pulse.has_subscription p pic w = (Ret true, w)) as Hhas.
    { intros pic subs Hp. unfold pulse.has_subscription.
      rewrite (bind_run _ _ _ _ _ (at_spec _ _ _ Hs)), Hp. by rewrite bool_decide_true. }
    split_and!; [|apply lookup_insert_eq|done| |].
    + unfold pulse.call. rewrite (bind_run _ _ _ _ _ (at_spec _ _ _ Hs)).
      rewrite (bind_run _ _ _ _ _ C1), (bind_run _ _ _ _ _ C3), (bind_run _ _ _ _ _ C2).
      rewrite (bind_run _ _ w tt w).
      2:{ unfold pulse.call_subscribe_closed. rewrite (bind_run _ _ _ _ _ (at_spec _ _ _ Hs)).
          by rewrite (bind_run _ _ _ _ _ C2), (bind_run _ _ _ _ _ C3), (bind_run _ _ _ _ _ (Hhas _ _ Hsc)). }
      rewrite (bind_run _ _ w tt w).
      2:{ unfold pulse.call_subscribe_reply. rewrite (bind_run _ _ _ _ _ (at_spec _ _ _ Hs)).
          by rewrite (bind_run _ _ _ _ _ C2), (bind_run _ _ _ _ _ C3), (bind_run _ _ _ _ _ (Hhas _ _ Hsr)). }
      by apply update_spec.
    + eexists. split; [apply lookup_insert_eq|]. simpl. rewrite map_app. set_solver.
    + intros x se pic f fr t w'' Hpic Ht. eapply only_users_deliveries; [|exact Ht]. simpl.
      destruct Hpic as [->| ->]; by rewrite ?Hsr, ?Hsc.
  - intros Ha se pic data Hpic. unfold pulse.on_receive. destruct Hpic as [->| ->]; rewrite ?(bool_decide_true _ eq_refl).
    + by rewrite (bind_stop _ _ w Aborted w); [|by rewrite bool_decide_false, check_fails by naive_solver|done].
    + rewrite (bind_run _ _ w tt w) by (by apply check_true).
      by rewrite (bind_stop _ _ w Aborted w); [|by rewrite bool_decide_false, check_fails by naive_solver|done].
Qed.

Lemma pulse_call_hazards_witness :
  let _ := debug_build in
  let s := pulse.set_subscriptions {[2%Z := [pulse.Subscription 4 (pulse.user_receiver 1)];
      1030%Z := [pulse.Subscription 4 (pulse.user_receiver 2)]]} example_caller in
  let w := pulse.World (frame:=nat) {[2 := s]} [] [] in
  (∃ w' s', pulse.call 2 30 1030 7 w = (Ret tt, w') ∧ pulse.pulses w' !! 2 = Some s' ∧
    pulse.subscriptions s' = pulse.subscriptions s) ∧
  (pulse.on_receive (λ _ _, Some 0) 2 4 2 [] w).1 = Aborted.
Proof.
  intros ? s w.
  destruct (pulse_call_hazards (λ _ _, Some 0) w 2 s) as (_ & Hcall & Hrec); [reflexivity|]. split.
  - destruct (Hcall 30%Z 1030%Z 7 [pulse.Subscription 4 (pulse.user_receiver 2)]
      [pulse.Subscription 4 (pulse.user_receiver 1)]) as (w' & s' & ? & ? & ? & _).
    + by split_and!.
    + reflexivity.
    + intros sub ->%list_elem_of_singleton. by exists 2.
    + reflexivity.
    + intros sub ->%list_elem_of_singleton. by exists 1.
    + by exists w', s'.
  - apply Hrec; [reflexivity|by right].
Defined.
