(* ===== verification/PulseRace.v ===== *)
(** * Calls of several threads on one pulse (play/net/pulse.ipp, [call])

    [call] takes the mutexes of its pulse block by block: it looks for a subscription, and
    subscribes, and queues the call, each under a lock of its own.  Here every block is a
    step, and the calls of any number of threads are interleaved. *)

From S2P Require Import Prelude.
From S2P Require Import Serializer.
From S2P Require Import StringUtil.
From S2P Require Import Pulse.
From S2P Require Import PulseTree.
From S2P Require Import PulseCalls.

Module call_threads.
Section call_threads.
Context `{Build} {frame : Type}.
Import pulse.
Context (p : nat).

(** The blocks of [call] on the pulse [p]: [has_subscription], the three blocks of
    [subscribe], and the one that queues the call. *)
Inductive block :=
  | check (pic : Z) (r : receiver)
  | push (pic : Z) (r : receiver)
  | keep (pic : Z)
  | show (pic : Z)
  | queue (req res : Z) (c : nat).

(** What is still to do after a block has found its mutex free. *)
Definition exec (b : block) : M (world (frame:=frame)) (list block) :=
  match b with
  | check pic r =>
      has ← has_subscription p pic;
      mret (if (has : bool) then [] else [push pic r; keep pic; show pic])
  | push pic r =>
      s ← at_ p;
      _ ← update p (λ s, set_subscriptions
            (<[pic := default [] (subscriptions s !! pic) ++ [Subscription (session_ s) r]]> (subscriptions s)) s);
      mret []
  | keep pic =>
      _ ← update p (λ s, set_self_interests ({[(session_ s, pic)]} ∪ self_interests s) s);
      mret []
  | show pic =>
      s ← at_ p;
      root ← get_root p;
      _ ← show_interest root p (session_ s) pic;
      mret []
  | queue req res c =>
      _ ← update p (add_call req res c);
      mret []
  end.

(** [call(request, response, cb)] of a child with a session *)
Definition call_blocks (req res : Z) (c : nat) : list block :=
  [check topic_closed (closed_receiver p); check res (reply_receiver p res); queue req res c].

(** The pulses, and what every thread has still to do. *)
Record state := State { world_ : world (frame:=frame); threads_ : list (list block) }.

(** The thread [i] runs its next block. *)
Inductive step : state → nat * block → state → Prop :=
  | step_block i b rest more w w' ts :
      ts !! i = Some (b :: rest) → exec b w = (Ret more, w') →
      step (State w ts) (i, b) (State w' (<[i := more ++ rest]> ts)).

Definition finished (s : state) : Prop := Forall (λ t, t = []) (threads_ s).

(** The calls queued by a list of blocks, in their order. *)
Definition queued : list block → list (Z * nat) :=
  omap (λ b, match b with queue req _ c => Some (req, c) | _ => None end).
Definition queued_for (req : Z) (bs : list block) : list nat :=
  map snd (filter (λ rc, rc.1 = req) (queued bs)).
End call_threads.
End call_threads.

Section race.
Context `{Build} {frame : Type}.
Import pulse call_threads.
Implicit Types (w : world (frame:=frame)) (s : pulse.state) (ts : list (list block)).

(** ** One thread alone *)

Lemma check_alone w root x p s pic r rest :
  tree_ok w root x → pulses w !! p = Some s → mode_ s ≠ mode_none → is_root s = false →
  ∃ ls, steps (step p) (State w [check pic r :: rest]) ls
    (State ((has ← has_subscription p pic; if (has : bool) then mret tt else subscribe p pic r) w).2 [rest]).
Proof.
  intros Hok Hs Hm Hr. destruct (subscribe_spec w root x p s pic r Hok Hs Hm) as (w' & s' & Hrun & _).
  pose proof (has_subscription_spec _ _ _ pic Hs) as Hhas.
  destruct (bool_decide _) eqn:Hb in Hhas; rewrite (bind_run _ _ _ _ _ Hhas).
  { exists [(0, check pic r)]. eapply steps_cons; [|apply steps_nil].
    apply (step_block p 0 (check pic r) rest [] w w [check pic r :: rest]); [done|].
    unfold exec. by rewrite (bind_run _ _ _ _ _ Hhas). }
  rewrite Hrun. simpl.
  set (s1 := set_subscriptions (<[pic := default [] (subscriptions s !! pic) ++ [Subscription (session_ s) r]]> (subscriptions s)) s).
  set (w1 := set_pulses (<[p := s1]> (pulses w)) w). assert (pulses w1 !! p = Some s1) as Hs1 by apply lookup_insert_eq.
  set (s2 := set_self_interests ({[(session_ s, pic)]} ∪ self_interests s1) s1).
  set (w2 := set_pulses (<[p := s2]> (pulses w1)) w1). assert (pulses w2 !! p = Some s2) as Hs2 by apply lookup_insert_eq.
  unfold subscribe in Hrun. rewrite (bind_run _ _ _ _ _ (at_spec _ _ _ Hs)) in Hrun.
  rewrite (bind_run _ _ w tt w) in Hrun by (by apply check_true, bool_decide_eq_true).
  rewrite (bind_run _ _ _ _ _ (update_spec _ _ _ _ Hs)) in Hrun. fold s1 w1 in Hrun. rewrite Hr in Hrun.
  rewrite (bind_run _ _ _ _ _ (update_spec _ _ _ _ Hs1)) in Hrun. fold s2 w2 in Hrun.
  exists [(0, check pic r); (0, push pic r); (0, keep pic); (0, show pic)].
  eapply steps_cons; [|eapply steps_cons; [|eapply steps_cons; [|eapply steps_cons; [|apply steps_nil]]]].
  - apply (step_block p 0 (check pic r) rest [push pic r; keep pic; show pic] w w [check pic r :: rest]); [done|].
    unfold exec. by rewrite (bind_run _ _ _ _ _ Hhas).
  - apply (step_block p 0 (push pic r) (keep pic :: show pic :: rest) [] w w1); [done|].
    unfold exec. by rewrite (bind_run _ _ _ _ _ (at_spec _ _ _ Hs)), (bind_run _ _ _ _ _ (update_spec _ _ _ _ Hs)).
  - apply (step_block p 0 (keep pic) (show pic :: rest) [] w1 w2); [done|].
    unfold exec. by rewrite (bind_run _ _ _ _ _ (update_spec _ _ _ _ Hs1)).
  - apply (step_block p 0 (show pic) rest [] w2 w'); [done|]. unfold exec.
    rewrite (bind_run _ _ _ _ _ (at_spec _ _ _ Hs2)). change (session_ s2) with (session_ s).
    destruct (get_root p w2) as [[q|e| |] v] eqn:Hg;
      [|by unfold mbind, M_bind in Hrun; rewrite Hg in Hrun..].
    rewrite (bind_run _ _ _ _ _ Hg) in Hrun. by rewrite (bind_run _ _ _ _ _ Hg), (bind_run _ _ _ _ _ Hrun).
Qed.

(** [call] is its blocks one after the other. *)
Lemma call_alone w root x p s req rs c se :
  tree_ok w root x → pulses w !! p = Some s → child_ok s → session_ s = se → rs ≠ topic_closed →
  subscriptions s !! topic_closed = None ∨ subscriptions s !! topic_closed = Some [Subscription se (closed_receiver p)] →
  subscriptions s !! rs = None ∨ subscriptions s !! rs = Some [Subscription se (reply_receiver p rs)] →
  ∃ ls, steps (step p) (State w [call_blocks p req rs c]) ls (State (call p req rs c w).2 [[]]).
Proof.
  intros Hok Hs Hc Hse Hrs Hcl Hrep. destruct (child_checks s w Hc) as (C1 & C2 & C3). pose proof Hc as (Hm & Hr & Hn).
  destruct (subscribe_once w root x p s topic_closed (closed_receiver p) Hok Hs)
    as (w1 & s1 & R1 & Ok1 & _ & At1 & (S1 & _ & M1 & Pa1 & _) & Sub1); [congruence|by rewrite Hse|].
  assert (child_ok s1) as Hc1 by (split_and!; [congruence|unfold is_root in *; by rewrite Pa1|congruence]).
  destruct (child_checks s1 w1 Hc1) as (D1 & D2 & D3). pose proof Hc1 as (Hm1 & Hr1 & _).
  destruct (subscribe_once w1 root x p s1 rs (reply_receiver p rs) Ok1 At1) as (w2 & s2 & R2 & _ & _ & At2 & _); [congruence| |].
  { by rewrite Sub1, lookup_insert_ne, S1, Hse by done. }
  destruct (check_alone w root x p s topic_closed (closed_receiver p) [check rs (reply_receiver p rs); queue req rs c])
    as [l1 H1]; [done|done|congruence|done|].
  destruct (check_alone w1 root x p s1 rs (reply_receiver p rs) [queue req rs c]) as [l2 H2]; [done|done|congruence|done|].
  rewrite R1 in H1. rewrite R2 in H2. exists (l1 ++ l2 ++ [(0, queue req rs c)]).
  apply (steps_app _ _ _ _ _ _ H1), (steps_app _ _ _ _ _ _ H2). eapply steps_cons; [|apply steps_nil].
  apply (step_block p 0 (queue req rs c) [] [] w2 _); [done|]. unfold exec.
  rewrite (bind_run _ _ _ _ _ (update_spec _ _ _ _ At2)).
  unfold call. rewrite (bind_run _ _ _ _ _ (at_spec _ _ _ Hs)).
  rewrite (bind_run _ _ _ _ _ C1), (bind_run _ _ _ _ _ C3), (bind_run _ _ _ _ _ C2).
  rewrite (bind_run _ _ w tt w1).
  2:{ unfold call_subscribe_closed. rewrite (bind_run _ _ _ _ _ (at_spec _ _ _ Hs)).
      by rewrite (bind_run _ _ _ _ _ C2), (bind_run _ _ _ _ _ C3). }
  rewrite (bind_run _ _ w1 tt w2).
  2:{ unfold call_subscribe_reply. rewrite (bind_run _ _ _ _ _ (at_spec _ _ _ At1)).
      by rewrite (bind_run _ _ _ _ _ D2), (bind_run _ _ _ _ _ D3). }
  by rewrite (update_spec _ _ _ _ At2).
Qed.

(** ** Any number of threads *)
Section threads.
Context (root x p se : nat) (res : Z → Z) (res_inj : Inj (=) (=) res).

Definition has_sub (s : pulse.state) (pic : Z) : Prop := is_Some (subscriptions s !! pic).
Definition has_self (s : pulse.state) (pic : Z) : Prop := (se, pic) ∈ self_interests s.

(** How far a thread is with one of its subscriptions. *)
Inductive subscribing (s : pulse.state) (pic : Z) (r : receiver) : list block → Prop :=
  | at_check : subscribing s pic r [check pic r]
  | at_push : subscribing s pic r [push pic r; keep pic; show pic]
  | at_keep : has_sub s pic → subscribing s pic r [keep pic; show pic]
  | at_show : has_sub s pic → has_self s pic → subscribing s pic r [show pic]
  | subscribed : has_sub s pic → subscribing s pic r [].

(** How far it is with its call. *)
Inductive place (req : Z) (c : nat) (s : pulse.state) : list block → Prop :=
  | place_closed l : subscribing s topic_closed (closed_receiver p) l →
      place req c s (l ++ [check (res req) (reply_receiver p (res req)); queue req (res req) c])
  | place_reply l : has_sub s topic_closed → subscribing s (res req) (reply_receiver p (res req)) l →
      place req c s (l ++ [queue req (res req) c])
  | place_done : has_sub s topic_closed → has_sub s (res req) → call_pairs s !! res req = Some req →
      place req c s [].

(** What no block takes away. *)
Record grows (s s' : pulse.state) : Prop := {
  grows_sub pic : has_sub s pic → has_sub s' pic;
  grows_self pic : has_self s pic → has_self s' pic;
  grows_pair req : call_pairs s !! res req = Some req → call_pairs s' !! res req = Some req
}.

Lemma grows_refl s : grows s s.
Proof. by split. Qed.

Lemma subscribing_grows s s' pic r l : grows s s' → subscribing s pic r l → subscribing s' pic r l.
Proof. intros [H1 H2 _] [ | |?|? ?|?]; constructor; auto. Qed.

Lemma place_grows s s' req c t : grows s s' → place req c s t → place req c s' t.
Proof.
  intros Hg [l Hl|l Hc Hl|Hc Hr Hp].
  - by apply place_closed, (subscribing_grows s).
  - apply place_reply; [by apply (grows_sub _ _ Hg)|by apply (subscribing_grows s)].
  - apply place_done; by destruct Hg; auto.
Qed.

(** What a thread has still to do after its next block. *)
Definition place_next (req : Z) (c : nat) (s : pulse.state) (b : block) (rest : list block) : Prop :=
  match b with
  | check pic r =>
      (has_sub s pic → place req c s rest) ∧ place req c s ([push pic r; keep pic; show pic] ++ rest)
  | push pic _ => show pic ∈ rest ∧ ∀ s', grows s s' → has_sub s' pic → place req c s' rest
  | keep pic => show pic ∈ rest ∧ ∀ s', grows s s' → has_self s' pic → place req c s' rest
  | show pic => has_self s pic ∧ place req c s rest
  | queue req' rs c' => req' = req ∧ rs = res req ∧ c' = c ∧ rest = [] ∧
      ∀ s', grows s s' → call_pairs s' !! res req = Some req → place req c s' []
  end.

Lemma place_inv req c s b rest : place req c s (b :: rest) → place_next req c s b rest.
Proof.
  intros Hp. inversion Hp as [l Hl Heq|l Hc Hl Heq|]; clear Hp.
  - destruct Hl; simplify_eq/=.
    + split; [intros; by apply (place_closed _ _ _ []), subscribed|by apply (place_closed _ _ _ [_; _; _]), at_push].
    + split; [set_solver|]. intros s' _ Hs. by apply (place_closed _ _ _ [_; _]), at_keep.
    + split; [set_solver|]. intros s' Hg Hs. apply (place_closed _ _ _ [_]), at_show; [by apply (grows_sub _ _ Hg)|done].
    + split; [done|]. by apply (place_closed _ _ _ []), subscribed.
    + split; [intros; by apply (place_reply _ _ _ []), subscribed|by apply (place_reply _ _ _ [_; _; _]), at_push].
  - destruct Hl as [ | |Hl|Hl Hs|Hl]; simplify_eq/=.
    + split; [intros; by apply (place_reply _ _ _ []), subscribed|by apply (place_reply _ _ _ [_; _; _]), at_push].
    + split; [set_solver|]. intros s' Hg Hs. apply (place_reply _ _ _ [_; _]), at_keep; [by apply (grows_sub _ _ Hg)|done].
    + split; [set_solver|]. intros s' Hg Hs. apply (place_reply _ _ _ [_]), at_show; [by apply (grows_sub _ _ Hg)..|done].
    + split; [done|]. by apply (place_reply _ _ _ []), subscribed.
    + split_and!; try done. intros s' Hg Hq. by apply place_done; [apply (grows_sub _ _ Hg)..|].
Qed.

(** The tree without the subscriptions of [p]. *)
Definition hidden w (s : pulse.state) : world := set_pulses (<[p := set_subscriptions ∅ s]> (pulses w)) w.

(** The tree is well-formed but for the subscriptions of [p] that some thread has still to
    show at the root. *)
Record racing (cs : list (Z * nat)) w ts (s : pulse.state) : Prop := {
  racing_tree : tree_ok (hidden w s) root x;
  racing_at : pulses w !! p = Some s;
  racing_child : child_ok s;
  racing_session : session_ s = se;
  racing_registered rs pic sub : pulses w !! root = Some rs → sub ∈ default [] (subscriptions s !! pic) →
    p ∈ interested rs (session_key sub) pic ∨ session_key sub = se ∧ ∃ t, t ∈ ts ∧ show pic ∈ t;
  racing_places : Forall2 (λ rc t, place rc.1 rc.2 s t) cs ts
}.

Lemma racing_not_root cs w ts s : racing cs w ts s → p ≠ root.
Proof.
  intros Hr Heq. destruct (tree_root _ _ _ (racing_tree _ _ _ _ Hr)) as (rs & Hrs & Hp & _).
  destruct (racing_child _ _ _ _ Hr) as (_ & Hroot & _). unfold hidden in Hrs. simpl in Hrs.
  rewrite <-Heq, lookup_insert_eq in Hrs. injection Hrs as <-. by rewrite (bool_decide_true _ Hp : is_root s = true) in Hroot.
Qed.

(** A thread that has moved on. *)
Lemma places_step cs s s' ts i rc b rest t' :
  Forall2 (λ rc t, place rc.1 rc.2 s t) cs ts → cs !! i = Some rc → ts !! i = Some (b :: rest) →
  grows s s' → place rc.1 rc.2 s' t' → Forall2 (λ rc t, place rc.1 rc.2 s' t) cs (<[i := t']> ts).
Proof.
  intros Hall Hi Ht Hg Hp. rewrite <-(list_insert_id cs i rc Hi). apply Forall2_insert; [|done].
  eapply Forall2_impl; [exact Hall|]. intros ???. by apply (place_grows s).
Qed.

(** The threads with something to show, when a block of another sort has run. *)
Lemma shows_step ts i b rest t' pic t :
  ts !! i = Some (b :: rest) → b ≠ show pic → (∀ pc, show pc ∈ rest → show pc ∈ t') →
  t ∈ ts → show pic ∈ t → ∃ t, t ∈ <[i := t']> ts ∧ show pic ∈ t.
Proof.
  intros Hi Hb Hsub Ht Hin. apply list_elem_of_lookup in Ht as [j Hj]. destruct (decide (j = i)) as [->|Hn].
  - exists t'. split; [by eapply list_elem_of_insert, lookup_lt_Some|]. apply Hsub. simplify_eq. set_solver.
  - exists t. split; [|done]. apply list_elem_of_lookup. exists j. by rewrite list_lookup_insert_ne.
Qed.

(** A block that changes only [p] itself. *)
Lemma racing_member cs w w' ts s s' i rc b rest t' :
  racing cs w ts s → cs !! i = Some rc → ts !! i = Some (b :: rest) →
  pulses w' = <[p := s']> (pulses w) → parent_ s' = parent_ s → runner_ s' = runner_ s → childs s' = childs s →
  interests s' = interests s → mode_ s' = mode_ s → session_ s' = session_ s → self_interests s ⊆ self_interests s' →
  (∀ pic, b ≠ show pic) → (∀ pc, show pc ∈ rest → show pc ∈ t') →
  (∀ pic sub, sub ∈ default [] (subscriptions s' !! pic) →
     sub ∈ default [] (subscriptions s !! pic) ∨ session_key sub = se ∧ show pic ∈ t') →
  grows s s' → place rc.1 rc.2 s' t' →
  racing cs w' (<[i := t']> ts) s'.
Proof.
  intros Hr Hi Ht Hw' Hp Hru Hc Hin Hm Hse Hself Hb Hrest Hsubs Hg Hpl. pose proof (racing_not_root _ _ _ _ Hr) as Hpr.
  split.
  - apply (tree_ok_member (hidden w s) _ root x p (set_subscriptions ∅ s) (set_subscriptions ∅ s')); try done.
    + apply racing_tree with (1 := Hr).
    + apply lookup_insert_eq.
    + unfold hidden. simpl. by rewrite Hw', !insert_insert_eq.
  - rewrite Hw'. apply lookup_insert_eq.
  - destruct (racing_child _ _ _ _ Hr) as (? & ? & ?). unfold is_root in *. split_and!; [congruence| |congruence].
    unfold is_root. by rewrite Hp.
  - rewrite Hse. by apply (racing_session _ _ _ _ Hr).
  - intros rs pic sub Hrs Hsub. rewrite Hw', lookup_insert_ne in Hrs by done.
    destruct (Hsubs pic sub Hsub) as [Hsub'|[Hk Hs]].
    + destruct (racing_registered _ _ _ _ Hr rs pic sub Hrs Hsub') as [?|(? & t & ? & ?)]; [by left|right].
      split; [done|]. by eapply shows_step.
    + right. split; [done|]. exists t'. split; [by eapply list_elem_of_insert, lookup_lt_Some|done].
  - by eapply places_step; [apply (racing_places _ _ _ _ Hr)|..].
Qed.

(** [show_interest] at the root. *)
Lemma racing_show cs w w' ts s rs i rc pic rest :
  racing cs w ts s → cs !! i = Some rc → ts !! i = Some (show pic :: rest) → pulses w !! root = Some rs →
  pulses w' = <[root := set_interests (<[(se, pic) := {[p]} ∪ interested rs se pic]> (interests rs)) rs]> (pulses w) →
  has_self s pic → place rc.1 rc.2 s rest → racing cs w' (<[i := rest]> ts) s.
Proof.
  intros Hr Hi Ht Hrs Hw' Hself Hpl. pose proof (racing_not_root _ _ _ _ Hr) as Hpr. set (rs' := set_interests _ rs) in Hw'.
  assert (pulses w' !! root = Some rs') as Hrs' by (rewrite Hw'; apply lookup_insert_eq).
  assert (∀ k pc, interested rs' k pc = if decide ((k, pc) = (se, pic))
    then {[p]} ∪ interested rs k pc else interested rs k pc) as Hint.
  { intros k pc. unfold interested at 1. simpl. destruct (decide _) as [Heq|Hk].
    - injection Heq as -> ->. by rewrite lookup_insert_eq.
    - by rewrite lookup_insert_ne. }
  assert (∀ q, pulses (hidden w' s) !! q = if decide (q = root) then Some rs' else pulses (hidden w s) !! q) as Hlook.
  { intros q. unfold hidden. simpl. rewrite Hw'. destruct (decide (q = root)) as [->|Hq].
    - by rewrite lookup_insert_ne, lookup_insert_eq.
    - destruct (decide (q = p)) as [->|]; [by rewrite !lookup_insert_eq|by rewrite !lookup_insert_ne]. }
  assert (pulses (hidden w s) !! root = Some rs) as Hrs0 by (unfold hidden; simpl; by rewrite lookup_insert_ne).
  split.
  - apply (tree_ok_extend (hidden w s)); [apply (racing_tree _ _ _ _ Hr)| | | |].
    + intros q t Hq. rewrite Hlook. destruct (decide (q = root)) as [->|]; [assert (t = rs) as -> by congruence; by exists rs'|by exists t].
    + intros q t Hq. rewrite Hlook in Hq. destruct (decide (q = root)) as [->|]; left; by eexists.
    + intros r r' k pc Hr0 Hr1. rewrite Hlook, decide_True in Hr1 by done. assert (r = rs) as -> by congruence.
      injection Hr1 as <-. rewrite Hint. split; [destruct (decide _); set_solver|]. intros q Hq.
      destruct (decide ((k, pc) = (se, pic))) as [[= -> ->]|]; [|by left].
      apply elem_of_union in Hq as [->%elem_of_singleton|]; [right|by left]. split; [done|].
      exists (set_subscriptions ∅ s). rewrite Hlook, decide_False by done. split; [apply lookup_insert_eq|done].
    + intros r q t pc sub _ Hq Hqr Hin. rewrite Hlook, decide_False in Hq by done. left. by exists t.
  - rewrite Hw', lookup_insert_ne by done. apply (racing_at _ _ _ _ Hr).
  - apply (racing_child _ _ _ _ Hr).
  - apply (racing_session _ _ _ _ Hr).
  - intros r pc sub Hr0 Hsub. assert (r = rs') as -> by congruence. rewrite Hint.
    destruct (racing_registered _ _ _ _ Hr rs pc sub Hrs Hsub) as [Hin|(Hk & t & Htt & Hs)].
    + left. destruct (decide _); set_solver.
    + destruct (decide (pc = pic)) as [->|Hn]; [left; rewrite decide_True by congruence; set_solver|right].
      split; [done|]. eapply shows_step; [done| |by intros|done|done]. congruence.
  - eapply places_step; [apply (racing_places _ _ _ _ Hr)|done|done|apply grows_refl|done].
Qed.

Lemma racing_below cs w ts s : racing cs w ts s → ∃ d, below w root x d p.
Proof.
  intros Hr. destruct (tree_below _ _ _ (racing_tree _ _ _ _ Hr) p (set_subscriptions ∅ s)) as [d Hd];
    [apply lookup_insert_eq|by eapply racing_not_root|].
  exists (S d). eapply below_mono; [|exact Hd]. intros q t Ht. unfold hidden in Ht. simpl in Ht.
  destruct (decide (q = p)) as [->|Hq]; [|rewrite lookup_insert_ne in Ht by done; by exists t].
  rewrite lookup_insert_eq in Ht. injection Ht as <-. exists s. split; [by eapply racing_at|done].
Qed.

Lemma racing_root cs w ts s : racing cs w ts s → ∃ rs, pulses w !! root = Some rs ∧ is_root rs = true.
Proof.
  intros Hr. destruct (tree_root _ _ _ (racing_tree _ _ _ _ Hr)) as (rs & Hrs & Hp & _).
  unfold hidden in Hrs. simpl in Hrs. rewrite lookup_insert_ne in Hrs by (by eapply racing_not_root).
  exists rs. split; [done|by apply bool_decide_true].
Qed.

(** The calls after a block, and how many blocks there may be to come. *)
Definition calls_after (b : block) (s : pulse.state) : gmap Z topic_calls :=
  match b with queue req rs c => calls (add_call req rs c s) | _ => calls s end.
Definition weight (t : list block) : nat :=
  sum_list_with (λ b, match b with check _ _ => 4 | _ => 1 end) t.

(** A check of a subscription. *)
Lemma racing_check cs w ts s i rc pic r rest :
  racing cs w ts s → cs !! i = Some rc → ts !! i = Some (check pic r :: rest) →
  place_next rc.1 rc.2 s (check pic r) rest →
  ∃ more, exec p (check pic r) w = (Ret more, w) ∧ racing cs w (<[i := more ++ rest]> ts) s ∧ queued more = [] ∧
    weight (more ++ rest) < 4 + weight rest.
Proof.
  intros Hr Hi Ht [Hin Hout]. pose proof (racing_at _ _ _ _ Hr) as Hs.
  assert (∀ t', (∀ pc, show pc ∈ rest → show pc ∈ t') → place rc.1 rc.2 s t' → racing cs w (<[i := t']> ts) s) as Hgo.
  { intros t' Hsh Hp. eapply racing_member; try done; [by rewrite insert_id|by left]. }
  unfold exec. rewrite (bind_run _ _ _ _ _ (has_subscription_spec _ _ _ pic Hs)). eexists. split; [done|].
  destruct (bool_decide (is_Some (subscriptions s !! pic))) eqn:Hb.
  - apply bool_decide_eq_true in Hb. split_and!; [apply Hgo; auto|done|simpl; lia].
  - split_and!; [apply Hgo; [set_solver|done]|done|simpl; lia].
Qed.

(** The registration at the root. *)
Lemma racing_shown cs w ts s i rc pic rest :
  racing cs w ts s → cs !! i = Some rc → ts !! i = Some (show pic :: rest) →
  place_next rc.1 rc.2 s (show pic) rest →
  ∃ w', exec p (show pic) w = (Ret [], w') ∧ posted w' = posted w ∧ racing cs w' (<[i := rest]> ts) s.
Proof.
  intros Hr Hi Ht [Hself Hpl]. pose proof (racing_at _ _ _ _ Hr) as Hs.
  destruct (racing_below _ _ _ _ Hr) as [d Hd]. destruct (racing_root _ _ _ _ Hr) as (rs & Hrs & Hroot).
  set (w' := set_pulses (<[root := set_interests (<[(session_ s, pic) :=
    {[p]} ∪ interested rs (session_ s) pic]> (interests rs)) rs]> (pulses w)) w).
  assert (show_interest root p (session_ s) pic w = (Ret tt, w')) as Hrun.
  { unfold show_interest. rewrite (bind_run _ _ _ _ _ (at_spec _ _ _ Hrs)).
    rewrite (bind_run _ _ w tt w) by (by apply check_true). by rewrite (update_spec _ _ _ _ Hrs). }
  exists w'. split_and!; [|done|].
  - unfold exec. by rewrite (bind_run _ _ _ _ _ (at_spec _ _ _ Hs)), (bind_run _ _ _ _ _ (get_root_spec _ _ _ _ _ Hd)),
      (bind_run _ _ _ _ _ Hrun).
  - eapply racing_show; try done. unfold w'. simpl. by rewrite (racing_session _ _ _ _ Hr).
Qed.

(** Every thread that is not finished can go on, and does what it should. *)
Lemma racing_exec cs w ts s i rc b rest :
  racing cs w ts s → cs !! i = Some rc → ts !! i = Some (b :: rest) →
  ∃ more w' s', exec p b w = (Ret more, w') ∧ racing cs w' (<[i := more ++ rest]> ts) s' ∧
    posted w' = posted w ∧ calls s' = calls_after b s ∧ queued more = [] ∧ weight (more ++ rest) < weight (b :: rest).
Proof.
  intros Hr Hi Ht. pose proof (racing_at _ _ _ _ Hr) as Hs. pose proof (racing_session _ _ _ _ Hr) as Hse.
  destruct (Forall2_lookup_l _ _ _ _ _ (racing_places _ _ _ _ Hr) Hi) as (t & Ht' & Hpl).
  rewrite Ht in Ht'. injection Ht' as <-. apply place_inv in Hpl.
  destruct b as [pic r|pic r|pic|pic|req rs c].
  - destruct (racing_check _ _ _ _ _ _ _ _ _ Hr Hi Ht Hpl) as (more & ? & ? & ? & ?). by exists more, w, s.
  - destruct Hpl as [Hsh Hpl]. unfold exec. rewrite (bind_run _ _ _ _ _ (at_spec _ _ _ Hs)), (bind_run _ _ _ _ _ (update_spec _ _ _ _ Hs)).
    set (s' := set_subscriptions _ s). eexists [], _, s'. split; [done|]. split; [|by split_and!; simpl; try done; lia].
    assert (grows s s') as Hg.
    { split; try done. intros pc. unfold has_sub. simpl. destruct (decide (pc = pic)) as [->|];
        [by rewrite lookup_insert_eq|by rewrite lookup_insert_ne]. }
    eapply racing_member; try done.
    + intros pc sub. simpl. destruct (decide (pc = pic)) as [->|Hn]; [|rewrite lookup_insert_ne by done; by left].
      rewrite lookup_insert_eq. simpl. intros [?| ->%list_elem_of_singleton]%elem_of_app; [by left|by right].
    + apply Hpl; [done|]. unfold has_sub. simpl. rewrite lookup_insert_eq. by eexists.
  - destruct Hpl as [Hsh Hpl]. unfold exec. rewrite (bind_run _ _ _ _ _ (update_spec _ _ _ _ Hs)).
    set (s' := set_self_interests _ s). eexists [], _, s'. split; [done|]. split; [|by split_and!; simpl; try done; lia].
    assert (grows s s') as Hg.
    { split; try done. intros pc. unfold has_self. simpl. set_solver. }
    eapply racing_member; try done; [simpl; set_solver|by left|].
    apply Hpl; [done|]. unfold has_self. simpl. rewrite Hse. set_solver.
  - destruct (racing_shown _ _ _ _ _ _ _ _ Hr Hi Ht Hpl) as (w' & ? & ? & ?).
    exists [], w', s. split_and!; try done. simpl. lia.
  - destruct Hpl as (-> & -> & -> & -> & Hpl). unfold exec. rewrite (bind_run _ _ _ _ _ (update_spec _ _ _ _ Hs)).
    eexists [], _, (add_call rc.1 (res rc.1) rc.2 s). split; [done|]. split; [|by split_and!; simpl; try done; lia].
    assert (grows s (add_call rc.1 (res rc.1) rc.2 s)) as Hg.
    { split; try done. intros req. simpl. destruct (decide (rc.1 = req)) as [->|Hn]; [by rewrite lookup_insert_eq|].
      rewrite lookup_insert_ne; [done|]. intros Heq. by apply res_inj in Heq. }
    eapply racing_member; try done; [by left|]. apply Hpl; [done|]. simpl. apply lookup_insert_eq.
Qed.

Definition queue_of (s : pulse.state) (req : Z) : topic_calls := default new_topic_calls (calls s !! req).

Lemma calls_after_spec b s s' :
  calls s' = calls_after b s →
  (∀ req, map call_cb (callers (queue_of s' req)) = map call_cb (callers (queue_of s req)) ++ queued_for req [b]) ∧
  ((∀ req, calls_ok (queue_of s req)) → ∀ req, calls_ok (queue_of s' req)).
Proof.
  unfold queue_of. intros ->.
  destruct b as [| | | |req rs c]; try (split; [intros ?; by rewrite app_nil_r|done]). simpl. unfold queued_for. simpl. split.
  - intros r. rewrite filter_cons. simpl. destruct (decide (req = r)) as [->|Hn].
    + rewrite lookup_insert_eq. simpl. by rewrite map_app.
    + rewrite lookup_insert_ne by done. by rewrite app_nil_r.
  - intros Hok r. destruct (decide (req = r)) as [->|Hn]; [|by rewrite lookup_insert_ne].
    rewrite lookup_insert_eq. apply calls_ok_push, Hok.
Qed.

Lemma queued_app l1 l2 : queued (l1 ++ l2) = queued l1 ++ queued l2.
Proof. apply omap_app. Qed.

Lemma queued_for_cons req b l : queued_for req (b :: l) = queued_for req [b] ++ queued_for req l.
Proof. unfold queued_for. change (b :: l) with ([b] ++ l). by rewrite queued_app, filter_app, map_app. Qed.

Lemma queued_step ts i b rest more :
  ts !! i = Some (b :: rest) → queued more = [] →
  flat_map queued ts ≡ₚ queued [b] ++ flat_map queued (<[i := more ++ rest]> ts).
Proof.
  intros Ht Hm. rewrite <-(take_drop_middle _ _ _ Ht) at 1. rewrite insert_take_drop by by eapply lookup_lt_Some.
  rewrite !flat_map_app. cbn [flat_map]. rewrite queued_app, Hm. change (b :: rest) with ([b] ++ rest). rewrite queued_app. cbn [app].
  solve_Permutation.
Qed.

(** Any number of blocks of any threads. *)
Lemma racing_steps cs st ls st' s :
  steps (step p) st ls st' → racing cs (world_ st) (threads_ st) s → (∀ req, calls_ok (queue_of s req)) →
  ∃ s', racing cs (world_ st') (threads_ st') s' ∧ (∀ req, calls_ok (queue_of s' req)) ∧
    posted (world_ st') = posted (world_ st) ∧
    length ls + sum_list_with weight (threads_ st') ≤ sum_list_with weight (threads_ st) ∧
    flat_map queued (threads_ st) ≡ₚ queued (map snd ls) ++ flat_map queued (threads_ st') ∧
    ∀ req, map call_cb (callers (queue_of s' req)) =
      map call_cb (callers (queue_of s req)) ++ queued_for req (map snd ls).
Proof.
  intros Hsteps. revert s. induction Hsteps as [st|st l st1 ls st2 Hstep _ IH]; intros s Hr Hok.
  { exists s. split_and!; try done. intros req. by rewrite app_nil_r. }
  destruct Hstep as [i b rest more w w1 ts Ht Hex]. simpl in Hr, IH.
  destruct (Forall2_lookup_r _ _ _ _ _ (racing_places _ _ _ _ Hr) Ht) as (rc & Hi & _).
  destruct (racing_exec _ _ _ _ _ _ _ _ Hr Hi Ht) as (more' & w1' & s1 & Hex' & Hr1 & Hpo & Hc & Hq & Hw).
  rewrite Hex in Hex'. injection Hex' as <- <-. destruct (calls_after_spec _ _ _ Hc) as [Hcb Hok1].
  destruct (IH s1 Hr1 (Hok1 Hok)) as (s2 & Hr2 & Hok2 & Hpo2 & Hlen & Hperm & Hcb2).
  exists s2. split_and!; [done|done|by rewrite Hpo2| | |].
  - pose proof (sum_list_with_insert weight ts i _ (more ++ rest) Ht). simpl. lia.
  - rewrite (queued_step _ _ _ _ _ Ht Hq), Hperm. by destruct b.
  - intros req. change (map snd ((i, b) :: ls)) with (b :: map snd ls). by rewrite Hcb2, Hcb, (queued_for_cons req b (map snd ls)), (assoc_L app).
Qed.

(** Nothing is left to show when the threads are done. *)
Lemma racing_done cs w ts s :
  racing cs w ts s → Forall (λ t, t = []) ts → tree_ok w root x.
Proof.
  intros Hr Hdone. pose proof (racing_tree _ _ _ _ Hr) as Hok. pose proof (racing_at _ _ _ _ Hr) as Hs.
  assert (∀ q t, pulses w !! q = Some t → q ≠ p ∧ pulses (hidden w s) !! q = Some t ∨
    q = p ∧ t = s ∧ pulses (hidden w s) !! q = Some (set_subscriptions ∅ s)) as Hback.
  { intros q t Ht. unfold hidden. simpl. destruct (decide (q = p)) as [->|].
    - right. rewrite lookup_insert_eq. split_and!; congruence.
    - left. by rewrite lookup_insert_ne. }
  assert (∀ q t, pulses (hidden w s) !! q = Some t → ∃ t', pulses w !! q = Some t' ∧ parent_ t' = parent_ t ∧
    runner_ t' = runner_ t ∧ childs t' = childs t ∧ self_interests t' = self_interests t ∧ interests t' = interests t) as Hfwd.
  { intros q t. unfold hidden. simpl. destruct (decide (q = p)) as [->|].
    - rewrite lookup_insert_eq. intros [= <-]. by exists s.
    - rewrite lookup_insert_ne by done. by exists t. }
  destruct (tree_root _ _ _ Hok) as (rs & Hrs & Hp0 & Hx0). destruct (Hfwd _ _ Hrs) as (rs' & Hrs' & ? & ? & _ & _ & Hint).
  assert (∀ k pc, interested rs' k pc = interested rs k pc) as Hint' by (intros; unfold interested; by rewrite Hint).
  split.
  - exists rs'. split_and!; congruence.
  - intros c t Ht Hcr. assert (∃ t', pulses (hidden w s) !! c = Some t') as [t' Ht']
      by (destruct (Hback _ _ Ht) as [[_ ?]|(_ & _ & ?)]; by eexists).
    destruct (tree_below _ _ _ Hok c t' Ht' Hcr) as [d Hd]. exists d. eapply below_mono; [|exact Hd].
    intros q u Hu. destruct (Hfwd _ _ Hu) as (u' & ? & ? & ? & _). by exists u'.
  - intros c t q Ht Hq. assert (∃ t', pulses (hidden w s) !! c = Some t' ∧ parent_ t' = Some q) as (t' & Ht' & Hq')
      by (destruct (Hback _ _ Ht) as [[_ ?]|(_ & -> & ?)]; by eexists).
    destruct (tree_childs _ _ _ Hok c t' q Ht' Hq') as (sq & Hsq & Hin).
    destruct (Hfwd _ _ Hsq) as (sq' & ? & _ & _ & Hch & _). exists sq'. by rewrite Hch.
  - intros r c t pic sub Hr0 Ht Hcr Hsub. assert (r = rs') as -> by congruence.
    destruct (Hback _ _ Ht) as [[_ Ht']|(-> & -> & _)].
    + rewrite Hint'. by apply (tree_registered _ _ _ Hok rs c t).
    + destruct (racing_registered _ _ _ _ Hr rs' pic sub Hr0 Hsub) as [|(_ & t & Hin & Hsh)]; [done|].
      rewrite Forall_forall in Hdone. rewrite (Hdone _ Hin) in Hsh. set_solver.
  - intros r k pic c Hr0 Hin. assert (r = rs') as -> by congruence. rewrite Hint' in Hin.
    destruct (tree_interests _ _ _ Hok rs k pic c Hrs Hin) as (Hcr & t & Ht & Hk). split; [done|].
    destruct (Hfwd _ _ Ht) as (t' & ? & _ & _ & _ & Hself & _). exists t'. by rewrite Hself.
Qed.

(** Before any of them has run. *)
Lemma racing_start cs w s :
  tree_ok w root x → pulses w !! p = Some s → child_ok s → session_ s = se →
  racing cs w (map (λ rc, call_blocks p rc.1 (res rc.1) rc.2) cs) s.
Proof.
  intros Hok Hs Hc Hse. split; try done.
  - unfold hidden. apply (tree_ok_extend w); [done| | | |].
    + intros q t Ht. simpl. destruct (decide (q = p)) as [->|].
      * rewrite lookup_insert_eq. assert (t = s) as -> by congruence. by eexists.
      * rewrite lookup_insert_ne by done. by exists t.
    + intros q t. simpl. destruct (decide (q = p)) as [->|]; [left; by exists s|].
      rewrite lookup_insert_ne by done. left. by eexists.
    + intros rs rs' k pc Hrs Hrs'. assert (interested rs' k pc = interested rs k pc) as ->; [|by split; [|left]].
      simpl in Hrs'. destruct (decide (root = p)) as [Heq|].
      * rewrite Heq, lookup_insert_eq in Hrs'. injection Hrs' as <-. unfold interested. simpl. congruence.
      * rewrite lookup_insert_ne in Hrs' by done. congruence.
    + intros rs q t pc sub _ Ht Hqr Hin. left. simpl in Ht. destruct (decide (q = p)) as [->|].
      * rewrite lookup_insert_eq in Ht. injection Ht as <-. simpl in Hin. rewrite lookup_empty in Hin. set_solver.
      * rewrite lookup_insert_ne in Ht by done. by exists t.
  - intros rs pic sub Hrs Hin. left. apply (tree_registered _ _ _ Hok rs p s); try done.
    intros Heq. destruct (tree_root _ _ _ Hok) as (rs0 & Hr0 & Hp0 & _). destruct Hc as (_ & Hroot & _).
    assert (rs0 = s) as -> by congruence. by rewrite (bool_decide_true _ Hp0 : is_root s = true) in Hroot.
  - apply Forall2_fmap_r, Forall_Forall2_diag, Forall_true. intros rc. by apply (place_closed _ _ _ [_]), at_check.
Qed.
End threads.
End race.

(** ** Properties *)

(** C15. Calls made by any number of threads on one pulse, in every interleaving of their
    blocks: no thread fails and none takes more than nine blocks, so all of them finish.
    Then the tree of pulses is well-formed again; every call is queued exactly once,
    behind the calls that were there, in the order in which the last blocks ran and
    numbered without gaps; and the response topics and the end of the session are
    subscribed to. *)
Theorem concurrent_calls `{Build} {frame : Type} (w : pulse.world (frame:=frame))
    (root x p : nat) (s : pulse.state) (res : Z → Z) (cs : list (Z * nat)) :
  tree_ok w root x → pulse.pulses w !! p = Some s → child_ok s → Inj (=) (=) res →
  (∀ req, calls_ok (queue_of s req)) →
  let start := call_threads.State w (map (λ rc, call_threads.call_blocks p rc.1 (res rc.1) rc.2) cs) in
  ∀ ls st, steps (call_threads.step p) start ls st →
    length ls ≤ 9 * length cs ∧
    (∀ i t, call_threads.threads_ st !! i = Some t → t ≠ [] →
       ∃ b st', call_threads.step p st (i, b) st') ∧
    (call_threads.finished st →
     ∃ s', tree_ok (call_threads.world_ st) root x ∧
       pulse.pulses (call_threads.world_ st) !! p = Some s' ∧
       pulse.posted (call_threads.world_ st) = pulse.posted w ∧
       call_threads.queued (map snd ls) ≡ₚ cs ∧
       (∀ req, calls_ok (queue_of s' req) ∧
          map pulse.call_cb (pulse.callers (queue_of s' req)) =
          map pulse.call_cb (pulse.callers (queue_of s req)) ++ call_threads.queued_for req (map snd ls)) ∧
       (∀ req c, (req, c) ∈ cs → is_Some (pulse.subscriptions s' !! pulse.topic_closed) ∧
          is_Some (pulse.subscriptions s' !! res req) ∧ pulse.call_pairs s' !! res req = Some req)).
Proof.
  intros Hok Hs Hc Hinj Hq start ls st Hsteps.
  pose proof (racing_start root x p (pulse.session_ s) res Hinj cs w s Hok Hs Hc eq_refl) as Hr0.
  destruct (racing_steps root x p _ res Hinj cs _ _ _ s Hsteps Hr0 Hq) as (s' & Hr & Hq' & Hpo & Hlen & Hperm & Hcb).
  split_and!.
  - enough (sum_list_with weight (call_threads.threads_ start) = 9 * length cs) by lia.
    simpl. clear. induction cs; simpl; lia.
  - intros i t Ht Hn. destruct t as [|b rest]; [done|].
    destruct (Forall2_lookup_r _ _ _ _ _ (racing_places _ _ _ _ _ _ _ _ _ Hr) Ht) as (rc & Hi & _).
    destruct (racing_exec _ _ _ _ _ Hinj _ _ _ _ _ _ _ _ Hr Hi Ht) as (more & w' & _ & Hex & _).
    destruct st as [w1 ts]. eexists b, _. by apply call_threads.step_block with (1 := Ht) (2 := Hex).
  - intros Hfin. exists s'. split_and!.
    + by eapply racing_done.
    + apply (racing_at _ _ _ _ _ _ _ _ _ Hr).
    + done.
    + assert (flat_map call_threads.queued (call_threads.threads_ st) = []) as Hnil
        by (clear -Hfin; unfold call_threads.finished in Hfin; induction Hfin; simpl; [done|by subst]).
      rewrite Hnil, app_nil_r in Hperm. rewrite <-Hperm. simpl. clear. induction cs as [|[req c] cs IH]; simpl; [done|by f_equiv].
    + intros req. split; [apply Hq'|apply Hcb].
    + intros req c Hin. apply list_elem_of_lookup in Hin as [i Hi].
      destruct (Forall2_lookup_l _ _ _ _ _ (racing_places _ _ _ _ _ _ _ _ _ Hr) Hi) as (t & Ht & Hpl).
      unfold call_threads.finished in Hfin. rewrite Forall_forall in Hfin.
      rewrite (Hfin t) in Hpl by (by eapply list_elem_of_lookup_2). inversion Hpl as [[]|[]|]; simplify_list_eq; done.
Qed.

Lemma concurrent_calls_witness :
  let _ := debug_build in
  let res req := (2 * req + 1)%Z in
  let cs := [(30%Z, 7); (30%Z, 8)] in
  let start := call_threads.State example_calls (map (λ rc, call_threads.call_blocks 2 rc.1 (res rc.1) rc.2) cs) in
  (∀ ls st, steps (call_threads.step 2) start ls st → length ls ≤ 18) ∧
  ∃ b st', call_threads.step 2 start (1, b) st'.
Proof.
  intros ? res cs start.
  assert (∀ ls st, steps (call_threads.step 2) start ls st → length ls ≤ 18 ∧
    (∀ i t, call_threads.threads_ st !! i = Some t → t ≠ [] → ∃ b st', call_threads.step 2 st (i, b) st')) as Hall.
  { intros ls st Hsteps.
    destruct (concurrent_calls example_calls 1 9 2 example_caller res cs) with (6 := Hsteps) as (Hlen & Hgo & _); [..|done].
    - apply example_calls_ok.
    - reflexivity.
    - by split_and!.
    - intros a b. unfold res. lia.
    - intros req. split; reflexivity. }
  split; [intros ls st Hsteps; by apply (Hall ls st)|].
  destruct (Hall [] start) as [_ Hgo]; [apply steps_nil|]. by eapply (Hgo 1).
Defined.

(** Two threads that both find the response topic without a subscription subscribe to it
    twice.  A single response is then delivered twice, and takes both calls from the queue:
    the callback of the second call is lost. *)
Theorem response_counted_twice :
  let _ := debug_build in
  let start := call_threads.State example_calls (map (λ c, call_threads.call_blocks 2 30 61 c) [7; 8]) in
  let waiting (w : pulse.world (frame:=nat)) :=
    s ← pulse.pulses w !! 2; mret (map pulse.call_cb (pulse.callers (queue_of s 30))) in
  ∃ ls st s, steps (call_threads.step 2) start ls st ∧ call_threads.finished st ∧
    pulse.pulses (call_threads.world_ st) !! 2 = Some s ∧
    pulse.subscriptions s !! 61%Z = Some (replicate 2 (pulse.Subscription 4 (pulse.reply_receiver 2 61))) ∧
    waiting (call_threads.world_ st) = Some [7; 8] ∧
    let answered := (_ ← pulse.dispatch 1 4 61 (Some 0); w ← get;
      for_each (pulse.posted w) (λ t, pulse.run_task (pulse.what t))) (call_threads.world_ st) in
    answered.1 = Ret tt ∧ waiting answered.2 = Some [].
Proof.
  intros ? start waiting. do 3 eexists. split.
  { unfold start. do 9 (eapply steps_cons; [apply (call_threads.step_block 2 0); [reflexivity|vm_compute; reflexivity]|];
      eapply steps_cons; [apply (call_threads.step_block 2 1); [reflexivity|vm_compute; reflexivity]|]). apply steps_nil. }
  split; [by repeat constructor|]. split; [reflexivity|]. split; [reflexivity|]. by split; [|split].
Qed.
