(* ===== verification/Locks.v ===== *)
(** * The mutexes of net/session, net/server and net/pulse

    The other files run every operation in one step.  Here an operation is the
    sequence of the mutexes it locks and unlocks, as its guards and blocks have it,
    with what it calls inside them; threads run operations in any interleaving.
    The mutexes are taken in one order, so no thread waits for ever. *)

From S2P Require Import Prelude.

(** [mutex_] of a session and of a server, [sub_mutex_] and [call_mutex_] of a pulse. *)
Inductive lock :=
  | session_mutex (se : nat)
  | server_mutex (sv : nat)
  | sub_mutex (p : nat)
  | call_mutex (p : nat).
#[export] Instance lock_eq_dec : EqDecision lock.
Proof. solve_decision. Defined.

(** [std::shared_lock]; [std::unique_lock] and [std::lock_guard] *)
Inductive mode := shared | unique.
#[export] Instance mode_eq_dec : EqDecision mode.
Proof. solve_decision. Defined.

Inductive action := acquire (m : mode) (l : lock) | unlock (l : lock).

(** A guard in a block: the mutex is released where the block ends. *)
Definition guarded (m : mode) (l : lock) (block : list action) : list action :=
  acquire m l :: block ++ [unlock l].

(** ** What each operation locks

    [is_root] and [root_of] are the pulses' own functions.  The pulses a frame goes to are an
    argument: children of the root, and pulses below them. *)
Module pulse_locks.
Section pulse_locks.
Context (is_root : nat → bool) (root_of : nat → nat).

(** [has_subscription], [show_interest], [bind_child], [unbind_child] *)
Definition has_subscription (p : nat) : list action := guarded shared (sub_mutex p) [].
Definition show_interest (p : nat) : list action := guarded unique (sub_mutex p) [].
Definition bind_child (p : nat) : list action := guarded unique (sub_mutex p) [].
Definition unbind_child (p : nat) : list action := guarded unique (sub_mutex p) [].

(** [subscribe] *)
Definition subscribe (p : nat) : list action :=
  guarded unique (sub_mutex p) [] ++
  if is_root p then [] else guarded unique (sub_mutex p) [] ++ show_interest (root_of p).

(** [call]: what is subscribed to already is not subscribed to again. *)
Definition call_subscribe (p : nat) (subscribed : bool) : list action :=
  has_subscription p ++ if subscribed then [] else subscribe p.
Definition call (p : nat) (closed reply : bool) : list action :=
  call_subscribe p closed ++ call_subscribe p reply ++ guarded unique (call_mutex p) [].

(** [call_closed], [call_receive] *)
Definition call_closed (p : nat) : list action := guarded unique (call_mutex p) [].
Definition call_receive (p : nat) : list action := guarded unique (call_mutex p) [].

(** [dispatch]: the root goes on to the others with its mutex locked. *)
Definition own_subscribers (p : nat) : list action := guarded shared (sub_mutex p) [].
Definition dispatch (p : nat) (targets : list nat) : list action :=
  own_subscribers p ++
  if is_root p then guarded shared (sub_mutex p) (concat (map own_subscribers targets)) else [].
End pulse_locks.
End pulse_locks.

Module server_locks.
Section server_locks.
Context (is_root : nat → bool) (listener : nat → option nat).
Import pulse_locks.

(** What the server tells the pulse it is bound to. *)
Definition notify (sv : nat) (targets : list nat) : list action :=
  match listener sv with Some p => dispatch is_root p targets | None => [] end.

Definition get_session (sv : nat) : list action := guarded shared (server_mutex sv) [].
Definition on_established (sv : nat) (targets : list nat) : list action := notify sv targets.
Definition on_receive (sv : nat) (targets : list nat) : list action := notify sv targets.
Definition on_closed (sv : nat) (targets : list nat) : list action :=
  guarded unique (server_mutex sv) [] ++ notify sv targets.
End server_locks.
End server_locks.

(** The sessions of the server [sv]. *)
Module session_locks.
Section session_locks.
Context (is_root : nat → bool) (listener : nat → option nat) (sv : nat).
Import server_locks.

Definition send (se : nat) : list action := guarded unique (session_mutex se) [].

(** [handle_close]: [None] when the socket is closed already. *)
Definition handle_close (closed : option (list nat)) : list action :=
  match closed with Some targets => on_closed is_root listener sv targets | None => [] end.

(** [handle_send]: the error is handled with the mutex locked; [None] without an error. *)
Definition handle_send (se : nat) (error : option (option (list nat))) : list action :=
  guarded unique (session_mutex se) (match error with Some closed => handle_close closed | None => [] end).

(** What [recv_frames] and [handle_recv] do: the handshake answers and says that it is
    established, frames are handed on, an error closes. *)
Inductive received :=
  | handshake (answered : bool) (established : option (list nat)) (frames : list (list nat))
  | frames (l : list (list nat))
  | failed (closed : option (list nat)).
Definition recv_frames (l : list (list nat)) : list action :=
  concat (map (on_receive is_root listener sv) l).
Definition handle_recv (se : nat) (r : received) : list action :=
  match r with
  | handshake answered established l =>
      (if answered then send se else []) ++
      match established with
      | Some targets => on_established is_root listener sv targets ++ recv_frames l
      | None => []
      end
  | frames l => recv_frames l
  | failed closed => handle_close closed
  end.

(** [start]: the greeting, and what a protocol without handshake tells at once *)
Definition start (se : nat) (greets : bool) (established : option (list nat)) : list action :=
  (if greets then send se else []) ++
  match established with Some targets => on_established is_root listener sv targets | None => [] end.

(** [server::handle_accept]: [None] after an error *)
Definition handle_accept (se : nat) (accepted : option (bool * option (list nat))) : list action :=
  match accepted with
  | Some (greets, established) => guarded unique (server_mutex sv) [] ++ start se greets established
  | None => []
  end.
End session_locks.
End session_locks.

(** ** Threads *)
Record thread := Thread { todo : list action; held : list (mode * lock) }.

Section machine.
(** Whether a thread that waits for a [unique_lock] keeps others from a [shared_lock]; the standard
    leaves it open. *)
Context (writers_first : bool).

Definition holds (l : lock) (t : thread) : bool := bool_decide (l ∈ map snd (held t)).
Definition holds_unique (l : lock) (t : thread) : bool := bool_decide ((unique, l) ∈ held t).
Definition wants_unique (l : lock) (t : thread) : bool :=
  match todo t with acquire unique l' :: _ => bool_decide (l' = l) | _ => false end.
Definition available (m : mode) (l : lock) (ts : list thread) : bool :=
  match m with
  | unique => negb (existsb (holds l) ts)
  | shared => negb (existsb (holds_unique l) ts) && negb (writers_first && existsb (wants_unique l) ts)
  end.

(** The next action of a thread; an unlock takes back the last lock of that mutex. *)
Fixpoint drop_lock (l : lock) (h : list (mode * lock)) : list (mode * lock) :=
  match h with
  | [] => []
  | (m, l') :: h => if decide (l' = l) then h else (m, l') :: drop_lock l h
  end.
Definition step (i : nat) (ts : list thread) : option (list thread) :=
  match ts !! i with
  | Some (Thread (acquire m l :: rest) h) =>
      if available m l ts then Some (<[i := Thread rest ((m, l) :: h)]> ts) else None
  | Some (Thread (unlock l :: rest) h) => Some (<[i := Thread rest (drop_lock l h)]> ts)
  | _ => None
  end.
End machine.

(** ** One order for all mutexes *)
Section order.
Context (is_root : nat → bool).

(** A session's before its server's, a server's before the pulses', a root's before those of the
    pulses below, and a pulse's [call_mutex_] last. *)
Definition rank (l : lock) : nat :=
  match l with
  | session_mutex _ => 0
  | server_mutex _ => 1
  | sub_mutex p => if is_root p then 2 else 3
  | call_mutex _ => 4
  end.

(** From [h], the mutexes held, the last one first: whatever is locked next ranks higher than all of them,
    the last one is unlocked first, and at the end none is left. *)
Fixpoint ordered (h : list lock) (s : list action) : Prop :=
  match s with
  | [] => h = []
  | acquire _ l :: s => Forall (λ l', rank l' < rank l) h ∧ ordered (l :: h) s
  | unlock l :: s => match h with l' :: h => l' = l ∧ ordered h s | [] => False end
  end.

(** A block that can be run with [h] held, and gives all it takes back. *)
Definition scoped (h : list lock) (b : list action) : Prop := ∀ s, ordered h s → ordered h (b ++ s).

Lemma scoped_nil h : scoped h [].
Proof. by intros s. Qed.
Lemma scoped_app h b1 b2 : scoped h b1 → scoped h b2 → scoped h (b1 ++ b2).
Proof. intros H1 H2 s Hs. rewrite <-(assoc_L app). by apply H1, H2. Qed.
Lemma scoped_if h (c : bool) b1 b2 : scoped h b1 → scoped h b2 → scoped h (if c then b1 else b2).
Proof. by destruct c. Qed.
Lemma scoped_concat {A} h (f : A → list action) l :
  Forall (λ x, scoped h (f x)) l → scoped h (concat (map f l)).
Proof. induction 1; [apply scoped_nil|]. by apply scoped_app. Qed.
Lemma scoped_guarded h m l b :
  Forall (λ l', rank l' < rank l) h → scoped (l :: h) b → scoped h (guarded m l b).
Proof.
  intros Hl Hb s Hs. unfold guarded. simpl. split; [done|]. rewrite <-(assoc_L app). by apply Hb.
Qed.

(** All that is held ranks below [r]. *)
Definition below (r : nat) (h : list lock) : Prop := Forall (λ l, rank l < r) h.
Lemma below_weaken r r' h : below r h → r ≤ r' → below r' h.
Proof. intros Hb Hr. eapply Forall_impl; [exact Hb|]. simpl. lia. Qed.
Lemma scoped_guard r h m l b :
  below r h → r ≤ rank l → (below (S (rank l)) (l :: h) → scoped (l :: h) b) → scoped h (guarded m l b).
Proof.
  intros Hb Hr Hs. pose proof (below_weaken _ _ _ Hb Hr) as Hl. apply scoped_guarded; [done|]. apply Hs.
  constructor; [lia|]. apply (below_weaken _ _ _ Hl). lia.
Qed.

Lemma rank_sub p : 2 ≤ rank (sub_mutex p).
Proof. simpl. destruct (is_root p); lia. Qed.

Section scripts.
Context (root_of : nat → nat) (listener : nat → option nat).
Import pulse_locks server_locks session_locks.

(** The pulses below the roots. *)
Definition below_root (c : nat) : Prop := is_root c = false.

Lemma scoped_leaf r h m l : below r h → r ≤ rank l → scoped h (guarded m l []).
Proof. intros Hb Hr. apply (scoped_guard r); [done|done|]. intros _. apply scoped_nil. Qed.

Lemma scoped_subscribe p : scoped [] (subscribe is_root root_of p).
Proof.
  unfold subscribe, show_interest.
  repeat first [apply scoped_app|apply scoped_if|apply scoped_nil|apply (scoped_leaf 0); [constructor|lia]].
Qed.

Lemma scoped_call p b1 b2 : scoped [] (call is_root root_of p b1 b2).
Proof.
  unfold call, call_subscribe, has_subscription.
  repeat first [apply scoped_app|apply scoped_if|apply scoped_nil|apply scoped_subscribe
               |apply (scoped_leaf 0); [constructor|lia]].
Qed.

Lemma scoped_dispatch h p targets :
  below 2 h → Forall below_root targets → scoped h (dispatch is_root p targets).
Proof.
  intros Hb Ht. unfold dispatch. apply scoped_app; [apply (scoped_leaf 2); [done|apply rank_sub]|].
  destruct (is_root p) eqn:Hp; [|apply scoped_nil]. apply (scoped_guard 2); [done|apply rank_sub|].
  intros Hb'. apply scoped_concat. eapply Forall_impl; [exact Ht|]. intros c Hc. unfold below_root in Hc.
  apply (scoped_leaf 3); [by simpl in Hb'; rewrite Hp in Hb'|]. simpl. by rewrite Hc.
Qed.

Lemma scoped_notify h sv targets :
  below 2 h → Forall below_root targets → scoped h (notify is_root listener sv targets).
Proof. intros Hb Ht. unfold notify. destruct (listener sv); [by apply scoped_dispatch|apply scoped_nil]. Qed.

Lemma scoped_on_closed h sv targets :
  below 1 h → Forall below_root targets → scoped h (on_closed is_root listener sv targets).
Proof.
  intros Hb Ht. apply scoped_app; [by apply (scoped_leaf 1)|].
  apply scoped_notify; [by apply (below_weaken 1); [|lia]|done].
Qed.

Lemma scoped_handle_close h sv closed :
  below 1 h → Forall below_root (default [] closed) → scoped h (handle_close is_root listener sv closed).
Proof. intros Hb Ht. destruct closed; [by apply scoped_on_closed|apply scoped_nil]. Qed.

Lemma scoped_handle_send sv se error :
  Forall below_root (default [] (default None error)) → scoped [] (handle_send is_root listener sv se error).
Proof.
  intros Ht. apply (scoped_guard 0); [constructor|lia|]. intros Hb.
  destruct error; [by apply scoped_handle_close|apply scoped_nil].
Qed.

Definition targets_of_received (r : received) : list nat :=
  match r with
  | handshake _ established l => default [] established ++ concat l
  | frames l => concat l
  | failed closed => default [] closed
  end.

Lemma scoped_recv_frames sv l : Forall below_root (concat l) → scoped [] (recv_frames is_root listener sv l).
Proof.
  intros Ht. apply scoped_concat. apply Forall_concat in Ht. eapply Forall_impl; [exact Ht|].
  intros targets Hl. by apply scoped_notify; [constructor|].
Qed.

Lemma scoped_handle_recv sv se r :
  Forall below_root (targets_of_received r) → scoped [] (handle_recv is_root listener sv se r).
Proof.
  destruct r as [answered established l|l|closed]; simpl; intros Ht.
  - apply Forall_app in Ht as [Hte Htl]. apply scoped_app.
    + apply scoped_if; [|apply scoped_nil]. apply (scoped_leaf 0); [constructor|lia].
    + destruct established; [|apply scoped_nil]. apply scoped_app; [by apply scoped_notify; [constructor|]|].
      by apply scoped_recv_frames.
  - by apply scoped_recv_frames.
  - by apply scoped_handle_close; [constructor|].
Qed.

Lemma scoped_handle_accept sv se accepted :
  Forall below_root (default [] (accepted ≫= snd)) → scoped [] (handle_accept is_root listener sv se accepted).
Proof.
  intros Ht. destruct accepted as [[greets established]|]; [|apply scoped_nil]. simpl in Ht.
  apply scoped_app; [apply (scoped_leaf 0); [constructor|lia]|]. apply scoped_app.
  - apply scoped_if; [apply (scoped_leaf 0); [constructor|lia]|apply scoped_nil].
  - destruct established; [by apply scoped_notify; [constructor|]|apply scoped_nil].
Qed.
End scripts.
End order.

(** ** Operations and their interleavings *)
Section operations.
Context (is_root : nat → bool) (root_of : nat → nat) (listener : nat → option nat) (writers_first : bool).
Import pulse_locks server_locks session_locks.

Inductive operation :=
  | op_subscribe (p : nat)
  | op_has_subscription (p : nat)
  | op_call (p : nat) (closed reply : bool)
  | op_call_closed (p : nat)
  | op_call_receive (p : nat)
  | op_bind_child (p : nat)
  | op_unbind_child (p : nat)
  | op_publish (p : nat) (targets : list nat)
  | op_get_session (sv : nat)
  | op_send (se : nat)
  | op_handle_send (sv se : nat) (error : option (option (list nat)))
  | op_handle_recv (sv se : nat) (r : received)
  | op_handle_accept (sv se : nat) (accepted : option (bool * option (list nat))).

Definition script (o : operation) : list action :=
  match o with
  | op_subscribe p => subscribe is_root root_of p
  | op_has_subscription p => has_subscription p
  | op_call p closed reply => call is_root root_of p closed reply
  | op_call_closed p => call_closed p
  | op_call_receive p => call_receive p
  | op_bind_child p => bind_child p
  | op_unbind_child p => unbind_child p
  | op_publish p targets => dispatch is_root p targets
  | op_get_session sv => get_session sv
  | op_send se => send se
  | op_handle_send sv se error => handle_send is_root listener sv se error
  | op_handle_recv sv se r => handle_recv is_root listener sv se r
  | op_handle_accept sv se accepted => handle_accept is_root listener sv se accepted
  end.

(** The pulses that hear of it. *)
Definition targets_of (o : operation) : list nat :=
  match o with
  | op_publish _ targets => targets
  | op_handle_send _ _ error => default [] (default None error)
  | op_handle_recv _ _ r => targets_of_received r
  | op_handle_accept _ _ accepted => default [] (accepted ≫= snd)
  | _ => []
  end.

Lemma scoped_script o : Forall (below_root is_root) (targets_of o) → scoped is_root [] (script o).
Proof.
  destruct o; simpl; intros Ht;
    try (apply (scoped_leaf is_root 0); [constructor|lia]).
  - apply scoped_subscribe.
  - apply scoped_call.
  - by apply scoped_dispatch; [constructor|].
  - by apply scoped_handle_send.
  - by apply scoped_handle_recv.
  - by apply scoped_handle_accept.
Qed.

(** A step of a thread, or a new operation. *)
Inductive label := run (i : nat) | begin (o : operation).
Definition moves (ts : list thread) (l : label) (ts' : list thread) : Prop :=
  match l with
  | run i => step writers_first i ts = Some ts'
  | begin o => Forall (below_root is_root) (targets_of o) ∧ ts' = ts ++ [Thread (script o) []]
  end.
Definition own (l : label) : Prop := match l with run _ => True | begin _ => False end.

(** What a thread has to do fits what it holds. *)
Definition fits (t : thread) : Prop := ordered is_root (map snd (held t)) (todo t).

Lemma fits_moves ts l ts' : Forall fits ts → moves ts l ts' → Forall fits ts'.
Proof.
  intros Hts Hm. destruct l as [i|o]; simpl in Hm.
  - unfold step in Hm. destruct (ts !! i) as [[td h]|] eqn:Ht; [|done]. pose proof (Forall_lookup_1 _ _ _ _ Hts Ht) as Hf.
    unfold fits in Hf. simpl in Hf. destruct td as [|[m l|l] rest]; [done| |].
    + destruct (available _ m l ts); [|done]. injection Hm as <-. apply Forall_insert; [done|]. apply Hf.
    + injection Hm as <-. apply Forall_insert; [done|]. destruct h as [|[m l'] h]; simpl in Hf; [done|].
      destruct Hf as [-> Hf]. unfold fits. simpl. by rewrite decide_True.
  - destruct Hm as [Ht ->]. apply Forall_app. split; [done|]. constructor; [|constructor].
    unfold fits. simpl. rewrite <-(app_nil_r (script o)). by apply scoped_script.
Qed.

(** A mutex that cannot be taken is held by somebody, who has something to do. *)
Lemma blocked_holder m l ts :
  Forall fits ts → available writers_first m l ts = false →
  (∃ i u, ts !! i = Some u ∧ l ∈ map snd (held u)) ∨
  ∃ i rest h, ts !! i = Some (Thread (acquire unique l :: rest) h).
Proof.
  intros Hts Ha.
  assert (∀ f, existsb f ts = true → ∃ i u, ts !! i = Some u ∧ f u = true) as Hex.
  { intros f Hf. apply existsb_exists in Hf as (u & Hu & Hfu). apply list_elem_of_In in Hu.
    apply list_elem_of_lookup in Hu as [i Hi]. by exists i, u. }
  destruct m; simpl in Ha.
  - apply andb_false_iff in Ha as [Ha|Ha]; apply negb_false_iff in Ha.
    + destruct (Hex _ Ha) as (i & u & Hu & Hh). left. exists i, u. split; [done|].
      apply bool_decide_eq_true in Hh. apply list_elem_of_fmap. by exists (unique, l).
    + apply andb_prop in Ha as [_ Ha]. destruct (Hex _ Ha) as (i & [td h] & Hu & Hw). right. exists i.
      unfold wants_unique in Hw. simpl in Hw. destruct td as [|[[] l'|l'] rest]; try done.
      apply bool_decide_eq_true in Hw as ->. by exists rest, h.
  - apply negb_false_iff in Ha. destruct (Hex _ Ha) as (i & u & Hu & Hh). left. exists i, u. split; [done|].
    by apply bool_decide_eq_true in Hh.
Qed.

(** When no thread can go on, one that waits leads to one that waits for a higher mutex. *)
Lemma waits_higher ts l m i rest h :
  Forall fits ts → (∀ j, step writers_first j ts = None) → ts !! i = Some (Thread (acquire m l :: rest) h) →
  ∃ j m' l' rest' h', ts !! j = Some (Thread (acquire m' l' :: rest') h') ∧ rank is_root l < rank is_root l'.
Proof.
  intros Hts Hstuck Hi.
  assert (∀ j u, ts !! j = Some u → l ∈ map snd (held u) →
    ∃ j m' l' rest' h', ts !! j = Some (Thread (acquire m' l' :: rest') h') ∧ rank is_root l < rank is_root l') as Hholder.
  { intros j [td hu] Hu Hl. pose proof (Forall_lookup_1 _ _ _ _ Hts Hu) as Hf. unfold fits in Hf. simpl in Hf, Hl.
    destruct td as [|[m' l'|l'] td]; simpl in Hf.
    - rewrite Hf in Hl. by inversion Hl.
    - exists j, m', l', td, hu. split; [done|]. destruct Hf as [Hr _]. by apply (Forall_forall _ (map snd hu)) with (x := l) in Hr.
    - specialize (Hstuck j). unfold step in Hstuck. by rewrite Hu in Hstuck. }
  assert (∀ m0 i0 rest0 h0, ts !! i0 = Some (Thread (acquire m0 l :: rest0) h0) → available writers_first m0 l ts = false) as Hav.
  { intros m0 i0 rest0 h0 H0. specialize (Hstuck i0). unfold step in Hstuck. rewrite H0 in Hstuck.
    by destruct (available writers_first m0 l ts). }
  destruct (blocked_holder m l ts Hts (Hav _ _ _ _ Hi)) as [(j & u & Hu & Hl)|(j & rest' & h' & Hu)]; [by eapply Hholder|].
  pose proof (Hav _ _ _ _ Hu) as Hq. simpl in Hq. apply negb_false_iff, existsb_exists in Hq as (u & Hin & Hq).
  apply list_elem_of_In, list_elem_of_lookup in Hin as [k Hk]. apply (Hholder k u Hk).
  by apply bool_decide_eq_true in Hq.
Qed.

Lemma no_deadlock ts t i :
  Forall fits ts → ts !! i = Some t → todo t ≠ [] → ∃ j, is_Some (step writers_first j ts).
Proof.
  intros Hts Hi Ht.
  destruct (decide (Exists (λ j, is_Some (step writers_first j ts)) (seq 0 (length ts)))) as [Hs|Hs].
  { apply Exists_exists in Hs as (j & _ & Hj). by exists j. }
  exfalso. assert (∀ j, step writers_first j ts = None) as Hstuck.
  { intros j. destruct (step writers_first j ts) as [ts'|] eqn:Hj; [|done]. exfalso. apply Hs, Exists_exists. exists j.
    split; [|by rewrite Hj]. apply elem_of_seq. unfold step in Hj. destruct (ts !! j) eqn:Hl; [|done].
    apply lookup_lt_Some in Hl. lia. }
  destruct t as [[|[m l|l] rest] h]; [done| |].
  - clear Ht. assert (∀ n l m i rest h, 4 - rank is_root l < n → ts !! i = Some (Thread (acquire m l :: rest) h) → False) as Hno.
    { clear Hi. intros n. induction n as [|n IH]; intros l0 m0 i0 rest0 h0 Hn Hi0; [lia|].
      destruct (waits_higher ts l0 m0 i0 rest0 h0 Hts Hstuck Hi0) as (j & m' & l' & rest' & h' & Hj & Hr).
      apply (IH l' m' j rest' h'); [|done]. destruct l'; simpl in *; try destruct (is_root _); lia. }
    by apply (Hno 5 l m i rest h); [lia|].
  - specialize (Hstuck i). unfold step in Hstuck. by rewrite Hi in Hstuck.
Qed.

(** The actions that are left. *)
Definition actions_left (ts : list thread) : nat := sum_list_with (length ∘ todo) ts.

Lemma step_less i ts ts' : step writers_first i ts = Some ts' → S (actions_left ts') = actions_left ts.
Proof.
  unfold step. destruct (ts !! i) as [[[|[m l|l] rest] h]|] eqn:Ht; try done.
  - destruct (available _ m l ts); [|done]. intros [= <-]. unfold actions_left.
    pose proof (sum_list_with_insert (length ∘ todo) ts i _ (Thread rest ((m, l) :: h)) Ht) as Hsum. simpl in Hsum. lia.
  - intros [= <-]. unfold actions_left.
    pose proof (sum_list_with_insert (length ∘ todo) ts i _ (Thread rest (drop_lock l h)) Ht) as Hsum. simpl in Hsum. lia.
Qed.
Lemma own_steps ts ls ts' :
  Forall fits ts → steps (λ ts l ts', own l ∧ moves ts l ts') ts ls ts' →
  Forall fits ts' ∧ length ls + actions_left ts' = actions_left ts.
Proof.
  intros Hts Hs. induction Hs as [ts|ts [i|o] ts1 ls ts2 [Hown Hm] Hs IH]; [done| |done].
  destruct (IH (fits_moves _ _ _ Hts Hm)) as [Hfit Hlen]. pose proof (step_less _ _ _ Hm). simpl. split; [done|lia].
Qed.
End operations.

(** ** Properties *)

(** C18. No deadlock.  Whatever operations of sessions, servers and pulses any number of threads have
    begun, and however their locking has been interleaved, also when a waiting writer
    keeps readers out: while one of them has not ended some thread can go on; without
    new operations the threads end after exactly as many steps as they have actions left, and
    then no mutex is held. *)
Theorem mutexes_never_deadlock (is_root : nat → bool) (root_of : nat → nat) (listener : nat → option nat)
    (writers_first : bool) (ls : list label) (ts : list thread) :
  steps (moves is_root root_of listener writers_first) [] ls ts →
  (∀ i t, ts !! i = Some t → todo t ≠ [] → ∃ j, is_Some (step writers_first j ts)) ∧
  ∀ ls' ts', steps (λ ts l ts', own l ∧ moves is_root root_of listener writers_first ts l ts') ts ls' ts' →
    length ls' + actions_left ts' = actions_left ts ∧
    ((∀ j, step writers_first j ts' = None) → Forall (λ t, todo t = [] ∧ held t = []) ts').
Proof.
  intros Hs. assert (Forall (fits is_root) ts) as Hts.
  { apply (steps_invariant (moves is_root root_of listener writers_first) (Forall (fits is_root))) with (s := []) (ls := ls);
      [|done|constructor]. intros ts1 l ts2 Hm Hts1. by eapply fits_moves. }
  split; [intros i t Hi Ht; by eapply no_deadlock|].
  intros ls' ts' Hs'. destruct (own_steps _ _ _ _ _ _ _ Hts Hs') as [Hts' Hlen]. split; [done|].
  intros Hstuck. apply Forall_lookup. intros i t Hi.
  assert (todo t = []) as Ht.
  { destruct (decide (todo t = [])) as [|Ht]; [done|].
    destruct (no_deadlock is_root writers_first ts' t i Hts' Hi Ht) as (j & x & Hj). by rewrite Hstuck in Hj. }
  split; [done|]. pose proof (Forall_lookup_1 _ _ _ _ Hts' Hi) as Hf. unfold fits in Hf. rewrite Ht in Hf.
  simpl in Hf. by apply map_eq_nil in Hf.
Qed.

(** A session of a server that a tree of pulses listens to is closed by a failed send, while a pulse subscribes. *)
Definition toy_root (p : nat) : bool := p =? 1.
Definition toy_script : operation → list action := script toy_root (λ _, 1) (λ _, Some 1).
Definition toy_begun : list thread :=
  [Thread (toy_script (op_handle_send 0 7 (Some (Some [2; 3])))) []; Thread (toy_script (op_subscribe 2)) [];
   Thread (toy_script (op_send 7)) []].
Definition toy_run (l : list nat) (ts : list thread) : list thread :=
  fold_left (λ ts i, default ts (step true i ts)) l ts.

(** Four steps, after which two threads hold a mutex each; and the rest. *)
Definition toy_now : list thread := toy_run [0; 0; 1; 0] toy_begun.
Definition toy_rest : list nat := [1; 1; 1; 1; 1; 0; 0; 0; 0; 0; 0; 0; 0; 0; 2; 2].

Lemma mutexes_never_deadlock_witness :
  (∃ j, is_Some (step true j toy_now)) ∧ length toy_rest = actions_left toy_now ∧
  Forall (λ t, todo t = [] ∧ held t = []) (toy_run toy_rest toy_now).
Proof.
  assert (steps (moves toy_root (λ _, 1) (λ _, Some 1) true) []
    [begin (op_handle_send 0 7 (Some (Some [2; 3]))); begin (op_subscribe 2); begin (op_send 7); run 0; run 0; run 1; run 0]
    toy_now) as Hs.
  { do 3 (eapply steps_cons; [split; [|reflexivity]; simpl; repeat constructor|]).
    do 4 (eapply steps_cons; [reflexivity|]). constructor. }
  assert (steps (λ ts l ts', own l ∧ moves toy_root (λ _, 1) (λ _, Some 1) true ts l ts') toy_now
    (map run toy_rest) (toy_run toy_rest toy_now)) as Hr.
  { unfold toy_rest. cbn [map]. do 16 (eapply steps_cons; [split; [exact I|reflexivity]|]). constructor. }
  destruct (mutexes_never_deadlock _ _ _ _ _ _ Hs) as [Hgo Hend]. destruct (Hend _ _ Hr) as [Hlen Hover].
  split; [|split].
  - destruct (toy_now !! 0) as [t|] eqn:Ht; [|vm_compute in Ht; discriminate]. apply (Hgo 0 t Ht).
    vm_compute in Ht. injection Ht as <-. discriminate.
  - vm_compute. reflexivity.
  - apply Hover. intros [|[|[|j]]]; reflexivity.
Defined.
