(* ===== verification/EndToEnd.v ===== *)
(** * From one end's [send] to the other end's subscribers

    The listener a server or client is bound to is a pulse: what a session hands to
    [on_receive] goes on to [pulse::on_receive] (play/net/server.ipp, client.ipp) and
    from there to the subscribers.  Here the connection of [Connection], over the
    protocol the application uses, meets the tree of [Pulse]. *)

From S2P Require Import Prelude.
From S2P Require Import Serializer.
From S2P Require Import StringUtil.
From S2P Require Import Streambuf.
From S2P Require Import Protocol.
From S2P Require Import PlainProtocol.
From S2P Require Import Sodium.
From S2P Require Import SodiumHandshake.
From S2P Require Import SecureProtocol.
From S2P Require Import Session.
From S2P Require Import Pulse.
From S2P Require Import PulseTree.
From S2P Require Import PulseCalls.
From S2P Require Import UnderWay.
From S2P Require Import Connection.

Section pulse_side.
Context `{Build} {object : Type} (unpack : Z → bytes → option object).
Implicit Types w : pulse.world (frame:=object).

(** The received frames, one call of the listener each. *)
Definition feed (root se : nat) (xs : list (Z * bytes)) : M (pulse.world (frame:=object)) unit :=
  for_each xs (λ x, pulse.on_receive unpack root se x.1 x.2).

(** What is to be posted for a frame: nothing when it cannot be unpacked. *)
Definition wanted_frame w (root x : nat) (rs : pulse.state) (se : nat) (m : Z * bytes) : list pulse.posting :=
  match unpack m.1 m.2 with
  | Some f => wanted w root x rs se m.1 (Some f)
  | None => []
  end.

(** The topics of the notifications are not for frames. *)
Definition frame_topic (pic : Z) : Prop := pic ≠ pulse.topic_established ∧ pic ≠ pulse.topic_closed.

Lemma feed_one w root x se rs m :
  tree_ok w root x → pulse.pulses w !! root = Some rs → frame_topic m.1 →
  ∃ ps, pulse.on_receive unpack root se m.1 m.2 w = (Ret tt, pulse.enqueue ps w) ∧
    ps ≡ₚ wanted_frame w root x rs se m.
Proof.
  intros Hok Hrs [He Hc]. unfold pulse.on_receive, wanted_frame.
  rewrite (bind_run _ _ w tt w) by (by apply check_true, bool_decide_eq_true).
  rewrite (bind_run _ _ w tt w) by (by apply check_true, bool_decide_eq_true).
  destruct (unpack m.1 m.2) as [f|]; [by apply dispatch_delivers|].
  exists []. split; [by rewrite enqueue_nil|done].
Qed.

Lemma feed_all w root x se rs ms :
  tree_ok w root x → pulse.pulses w !! root = Some rs → Forall (λ m, frame_topic m.1) ms →
  ∃ pss, feed root se ms w = (Ret tt, pulse.enqueue (concat pss) w) ∧
    Forall2 (λ m ps, ps ≡ₚ wanted_frame w root x rs se m) ms pss.
Proof.
  intros Hok Hrs Hms. revert w Hok Hrs. induction Hms as [|m ms Hm _ IH]; intros w Hok Hrs.
  { exists []. split; [|done]. simpl. by rewrite enqueue_nil. }
  destruct (feed_one w root x se rs m Hok Hrs Hm) as (ps & Hrun & Hps).
  destruct (IH (pulse.enqueue ps w)) as (pss & Hrun' & Hpss); [by apply tree_ok_enqueue|done|].
  exists (ps :: pss). split; [|by constructor].
  unfold feed in *. simpl. rewrite (bind_run _ _ _ _ _ Hrun), Hrun'. by rewrite enqueue_app.
Qed.
End pulse_side.

(** ** Properties *)

(** C3. A message reaches the subscribers.  Two ends over [secure_protocol], encrypting
    what they are asked to, every completed send having transferred all its bytes
    (a partial one strands or reorders the rest, see [Connection]): when nothing is under
    way any more, the frames the far end
    was notified of, handed to the root of a well-formed tree of pulses, are posted to
    exactly the subscribers of their topics, message by message in the order in which
    the near end sent them, and nothing else is posted.  Who these are is said by
    [PulseTree.wanted]: those that named no session or the one the frame came from. *)
Theorem messages_reach_subscribers `{Build} `{StreambufLaws} `{SodiumLaws} (n : nat) {object : Type}
    (unpack : Z → bytes → option object) (w : pulse.world (frame:=object)) (root x se : nat) (rs : pulse.state)
    (c c' : @conn _ (secure_protocol.secure_Protocol n)) ls :
  n ≤ 8 → connected c → steps conn_step c ls c' → sent_in_full ls → quiet c' →
  tree_ok w root x → pulse.pulses w !! root = Some rs → Forall (λ m, frame_topic m.1) (puts near ls) →
  ∃ pss, feed unpack root se (gots near ls) w = (Ret tt, pulse.enqueue (concat pss) w) ∧
    Forall2 (λ m ps, ps ≡ₚ wanted_frame unpack w root x rs se m) (puts near ls) pss.
Proof.
  intros Hn Hc Hst Hfull Hquiet Hok Hrs Htop. pose proof (secure_FramingLaws n Hn) as HL.
  pose proof (secure_DuplexLaws n) as HD.
  destruct (linked_steps c _ ls c' (connected_linked c Hc) Hst Hfull) as (q & Hq & Hl).
  pose proof (fifo_steps_queue _ _ _ near Hq) as Heq.
  rewrite (linked_quiet c' q Hl Hquiet near), app_nil_r in Heq. simpl in Heq. rewrite <-Heq.
  by apply feed_all.
Qed.

(** The two toy_ends of [toy_pair]; one encrypted message. *)
Section witness.
#[local] Instance debug : Build := debug_build.
#[local] Instance P2 : Protocol := secure_protocol.secure_Protocol 2.
#[local] Instance F2 : @Framing _ P2 := secure_Framing 2.
#[local] Instance D2 : @Duplex _ P2 F2 := secure_Duplex 2.

Definition end_over (fd : nat) (p : secure_protocol.state) : @session.state _ P2 :=
  (session.start_recv (session.set_protocol (Some p) (session.open_socket fd (session.make true (5 : @entropy _ P2))))).2.
Definition toy_hello : @message _ P2 := @Message _ P2 258%Z [x41; x42] true.
Definition toy_ends : @conn _ P2 := opened (end_over 7 toy_pair.1) (end_over 8 toy_pair.2).
Definition toy_after_put : conn := do_put near toy_hello toy_ends.
Definition toy_after_send : conn := do_complete near toy_after_put.
Definition toy_after_all : conn := do_arrive near session.recv_size toy_after_send.

Lemma toy_ends_connected : connected toy_ends.
Proof.
  split_and!; [done|done|split_and!; reflexivity|split_and!; reflexivity|intros []; by split; [exists []|]|].
  exists toy_pair.1, toy_pair.2. split_and!; [reflexivity|reflexivity| | | |].
  - split; [vm_compute; reflexivity|]. exists 7. vm_compute. reflexivity.
  - split; [vm_compute; reflexivity|]. exists 7. vm_compute. reflexivity.
  - split; [reflexivity|]. exists toy_pair.1. split_and!; [reflexivity|vm_compute; reflexivity|].
    apply in_step_decide. vm_compute. reflexivity.
  - split; [reflexivity|]. exists toy_pair.2. split_and!; [reflexivity|vm_compute; reflexivity|].
    apply in_step_decide. vm_compute. reflexivity.
Qed.

Lemma toy_ends_run : steps conn_step toy_ends [put near (content toy_hello); sent near 0; got near [content toy_hello]] toy_after_all.
Proof.
  apply (steps_cons _ _ _ toy_after_put).
  { unfold toy_after_put. apply put_step; [by split_and!|unfold max_send_size; simpl length; lia|vm_compute; reflexivity]. }
  apply (steps_cons _ _ _ toy_after_send).
  { unfold toy_after_send. apply complete_step; [apply Nat.ltb_lt|]; vm_compute; reflexivity. }
  apply (steps_cons _ _ _ toy_after_all); [|apply steps_nil].
  unfold toy_after_all. apply arrive_step; [apply Nat.ltb_lt|split; [apply Nat.ltb_lt|apply Nat.leb_le]|..]; vm_compute; reflexivity.
Qed.

Lemma messages_reach_subscribers_witness :
  let s := pulse.set_subscriptions {[258%Z := [pulse.Subscription 0 (pulse.user_receiver 5)]]}
    (pulse.set_runner (Some 9) pulse.make) in
  let w := pulse.World {[1 := s]} [] [] in
  ∃ pss, feed (λ _ bs, Some (length bs)) 1 3 [(258%Z, [x41; x42])] w = (Ret tt, pulse.enqueue (concat pss) w) ∧
    Forall2 (λ m ps, ps ≡ₚ wanted_frame (λ _ bs, Some (length bs)) w 1 9 s 3 m) [(258%Z, [x41; x42])] pss.
Proof.
  intros s w.
  apply (messages_reach_subscribers 2 (λ _ bs, Some (length bs)) w 1 9 3 s toy_ends toy_after_all
    [put near (content toy_hello); sent near 0; got near [content toy_hello]]).
  - lia.
  - apply toy_ends_connected.
  - apply toy_ends_run.
  - reflexivity.
  - apply nothing_under_way. intros []; split; vm_compute; reflexivity.
  - by apply (example_root_ok w 1 9 s).
  - reflexivity.
  - constructor; [|constructor]. split; discriminate.
Defined.
End witness.
