(* ===== verification/PulseFb.v ===== *)
(** * play/net/pulse_fb.{hpp,ipp}

    The pulse whose frames are flatbuffers objects: one registry of unpackers for
    all pulses of a protocol, sending of packed objects, and calls.  Flatbuffers
    itself is third-party code: how an object is packed, whether the verifier
    accepts a buffer and what is read from it are parameters. *)

From S2P Require Import Prelude.
From S2P Require Import Serializer.
From S2P Require Import Pulse.
From S2P Require Import PulseTree.
From S2P Require Import PulseCalls.

Module pulse_fb.
Section pulse_fb.
Context `{Build} {frame object : Type}.
Abbreviation topic := Z (only parsing).
(** [FlatBufferObj::Pack], [Verify] and [UnPackTo] *)
Context (Pack : object → bytes) (Verify : bytes → bool) (UnPackTo : bytes → frame).

(** An unpacker; [unpackers_] is a map of them by topic. *)
Abbreviation unpacker := (bytes → option frame) (only parsing).

(** [add_unpacker(pic, fn)]: [insert] keeps what is there *)
Definition add_unpacker (pic : topic) (fn : unpacker) (m : gmap topic unpacker) : gmap topic unpacker :=
  match m !! pic with None => <[pic := fn]> m | Some _ => m end.

(** [unpack_fn(data, len)] *)
Definition unpack_fn : unpacker := λ data, if Verify data then Some (UnPackTo data) else None.

(** [unpack(pic, data, len)] *)
Definition unpack (m : gmap topic unpacker) (pic : topic) (data : bytes) : option frame :=
  match m !! pic with Some fn => fn data | None => None end.

(** [send(se, topic, obj, encrypt)]; [ok] is what the session answers. *)
Definition send (se : nat) (pic : topic) (obj : object) (encrypt ok : bool)
    : M (pulse.world (frame:=frame)) bool :=
  if decide (se = 0) then undefined
  else
    _ ← modify (pulse.emit (pulse.session_sent se pic (Pack obj) encrypt));
    mret ok.

(** [send(topic, obj, encrypt)]: on the session of the pulse *)
Definition send_own (p : nat) (pic : topic) (obj : object) (encrypt ok : bool)
    : M (pulse.world (frame:=frame)) bool :=
  se ← pulse.get_session p;
  _ ← PLAY_CHECK (negb (se =? 0));
  send se pic obj encrypt ok.

(** [call(req, res, obj, cb, encrypt)] *)
Definition call (p : nat) (req res : topic) (obj : object) (cb : nat) (encrypt ok : bool)
    : M (pulse.world (frame:=frame)) unit :=
  se ← pulse.get_session p;
  _ ← PLAY_CHECK (negb (se =? 0));
  sent ← send se req obj encrypt ok;
  if (sent : bool) then pulse.call p req res cb else modify (pulse.emit (pulse.called_back cb)).

(** [call(req, obj, cb, encrypt)]: no response is awaited *)
Definition call_no_reply (p : nat) (req : topic) (obj : object) (cb : nat) (encrypt ok : bool)
    : M (pulse.world (frame:=frame)) unit :=
  se ← pulse.get_session p;
  _ ← PLAY_CHECK (negb (se =? 0));
  sent ← send se req obj encrypt ok;
  if (sent : bool) then mret tt else modify (pulse.emit (pulse.called_back cb)).
End pulse_fb.
End pulse_fb.

(** ** Properties *)
Section facts.
Context `{Build} {frame object : Type} (Pack : object → bytes).
Implicit Types w : pulse.world (frame:=frame).

Lemma get_session_spec w p s : pulse.pulses w !! p = Some s → pulse.get_session p w = (Ret (pulse.session_ s), w).
Proof. intros Hs. unfold pulse.get_session. by rewrite (bind_run _ _ _ _ _ (at_spec _ _ _ Hs)). Qed.

Lemma fb_send_spec w se pic obj encrypt ok :
  se ≠ 0 → pulse_fb.send Pack se pic obj encrypt ok w
    = (Ret ok, pulse.emit (pulse.session_sent se pic (Pack obj) encrypt) w).
Proof. intros Hse. unfold pulse_fb.send. by rewrite decide_False. Qed.

(** Registering a list of unpackers, the first first. *)
Definition register (l : list (Z * (bytes → option frame))) : gmap Z (bytes → option frame) :=
  fold_left (λ m kv, pulse_fb.add_unpacker kv.1 kv.2 m) l ∅.

Lemma register_lookup l (m : gmap Z (bytes → option frame)) pic :
  fold_left (λ m kv, pulse_fb.add_unpacker kv.1 kv.2 m) l m !! pic
  = match m !! pic with
    | Some fn => Some fn
    | None => snd <$> head (filter (λ kv, kv.1 = pic) l)
    end.
Proof.
  revert m. induction l as [|[k fn] l IH]; intros m; simpl; [by destruct (m !! pic)|].
  rewrite IH. rewrite filter_cons. simpl. unfold pulse_fb.add_unpacker.
  destruct (m !! k) as [fk|] eqn:Hk; destruct (decide (k = pic)) as [->|Hne].
  - by rewrite Hk.
  - done.
  - by rewrite Hk, lookup_insert_eq.
  - by rewrite lookup_insert_ne.
Qed.
End facts.

(** C39. A frame is unpacked by the first unpacker registered for its topic, and
    dropped when there is none.  A call whose request the session accepts joins the
    queue of waiting calls of its request topic; one it refuses is called back at once and is
    not queued; a call without response is never queued. *)
Theorem pulse_fb_calls `{Build} {frame object : Type} (Pack : object → bytes)
    (w : pulse.world (frame:=frame)) (root x p k : nat) (res : Z → Z) (A : Z → list nat) (s : pulse.state)
    (req : Z) (obj : object) (cb : nat) (encrypt : bool) :
  Inj (=) (=) res → (∀ req, res req ≠ pulse.topic_closed) →
  holds root x p (pulse.session_ s) k res w A s →
  let sent := pulse.emit (pulse.session_sent (pulse.session_ s) req (Pack obj) encrypt) w in
  (∀ (l : list (Z * (bytes → option frame))) pic data,
     pulse_fb.unpack (register l) pic data
     = match head (filter (λ kv, kv.1 = pic) l) with Some kv => kv.2 data | None => None end) ∧
  (∃ w' s', pulse_fb.call Pack p req (res req) obj cb encrypt true w = (Ret tt, w') ∧
     holds root x p (pulse.session_ s) k res w' (waiting_after A (ev_call req cb)) s' ∧
     pulse.posted w' = pulse.posted w) ∧
  pulse_fb.call Pack p req (res req) obj cb encrypt false w
    = (Ret tt, pulse.emit (pulse.called_back cb) sent) ∧
  holds root x p (pulse.session_ s) k res (pulse.emit (pulse.called_back cb) sent) A s ∧
  pulse_fb.call_no_reply Pack p req obj cb encrypt true w = (Ret tt, sent) ∧
  pulse_fb.call_no_reply Pack p req obj cb encrypt false w
    = (Ret tt, pulse.emit (pulse.called_back cb) sent).
Proof.
  intros Hinj Hres Hh sent. pose proof (holds_at _ _ _ _ _ _ _ _ _ Hh) as Hs.
  destruct (holds_child _ _ _ _ _ _ _ _ _ Hh) as (_ & _ & Hse).
  assert (PLAY_CHECK (negb (pulse.session_ s =? 0)) w = (Ret tt, w)) as Hchk
    by (apply check_true; by rewrite (proj2 (Nat.eqb_neq _ _))).
  assert (∀ ok, pulse_fb.send Pack (pulse.session_ s) req obj encrypt ok w = (Ret ok, sent)) as Hsend
    by (intros ok; by apply fb_send_spec).
  split_and!.
  - intros l pic data. unfold pulse_fb.unpack, register.
    rewrite register_lookup, lookup_empty.
    by destruct (head _).
  - destruct (holds_call root x p (pulse.session_ s) k res Hinj Hres sent A s req cb) as (w' & s' & Hc & Hp & Hh'); [by apply holds_emit|].
    exists w', s'. split_and!; [|done|done]. unfold pulse_fb.call.
    by rewrite (bind_run _ _ _ _ _ (get_session_spec _ _ _ Hs)), (bind_run _ _ _ _ _ Hchk),
      (bind_run _ _ _ _ _ (Hsend true)).
  - unfold pulse_fb.call.
    by rewrite (bind_run _ _ _ _ _ (get_session_spec _ _ _ Hs)), (bind_run _ _ _ _ _ Hchk),
      (bind_run _ _ _ _ _ (Hsend false)).
  - by do 2 apply holds_emit.
  - unfold pulse_fb.call_no_reply.
    by rewrite (bind_run _ _ _ _ _ (get_session_spec _ _ _ Hs)), (bind_run _ _ _ _ _ Hchk),
      (bind_run _ _ _ _ _ (Hsend true)).
  - unfold pulse_fb.call_no_reply.
    by rewrite (bind_run _ _ _ _ _ (get_session_spec _ _ _ Hs)), (bind_run _ _ _ _ _ Hchk),
      (bind_run _ _ _ _ _ (Hsend false)).
Qed.

Lemma pulse_fb_calls_witness :
  let _ := debug_build in
  let Pack (n : nat) : bytes := [] in
  let res req := (2 * req + 1)%Z in
  pulse_fb.call Pack 2 30 (res 30%Z) 0 7 false false example_calls
    = (Ret tt, pulse.emit (pulse.called_back 7) (pulse.emit (pulse.session_sent 4 30 [] false) example_calls)).
Proof.
  intros ? Pack res.
  destruct (pulse_fb_calls Pack example_calls 1 9 2 0 res (λ _, []) example_caller 30 0 7 false)
    as (_ & _ & Hc & _).
  - intros a b. unfold res. lia.
  - intros a. unfold res, pulse.topic_closed. lia.
  - split; try (done || reflexivity).
    + apply example_calls_ok.
    + by left.
    + intros a. left. apply lookup_empty.
  - exact Hc.
Defined.
