(* ===== verification/Rpc.v ===== *)
(** * Calls over a connection

    A pulse of one program calls (play/net/pulse_fb.hpp, pulse.ipp), its session carries the
    request to the subscribers of another program's tree of pulses, and the responses come
    back to the tree the caller is in, where they take the calls from the queue. *)

From S2P Require Import Prelude.
From S2P Require Import Serializer.
From S2P Require Import StringUtil.
From S2P Require Import Streambuf.
From S2P Require Import Protocol.
From S2P Require Import PlainProtocol.
From S2P Require Import Sodium.
From S2P Require Import SodiumHandshake.
From S2P Require Import SecureProtocol.
From S2P Require Import Session.
From S2P Require Import Pulse.
From S2P Require Import PulseTree.
From S2P Require Import PulseCalls.
From S2P Require Import Connection.
From S2P Require Import EndToEnd.
From S2P Require Import PulseFb.

(** A call of the user: the topic, the object to send and the callback. *)
Record request (object : Type) := Request { rq_topic : Z; rq_object : object; rq_callback : nat }.
Arguments Request {object}.
Arguments rq_topic {object}.
Arguments rq_object {object}.
Arguments rq_callback {object}.

(** ** The queues, computed *)
Section queues.
Context {object : Type}.
Implicit Types (A : Z → list nat) (cs : list (request object)).

Definition call_events cs : list call_event := map (λ q, ev_call (rq_topic q) (rq_callback q)) cs.
Definition callbacks_for (req : Z) cs : list nat := map rq_callback (filter (λ q, rq_topic q = req) cs).
Definition count (req : Z) (reqs : list Z) : nat := length (filter (λ r, r = req) reqs).

Lemma waiting_calls A cs req :
  fold_left waiting_after (call_events cs) A req = A req ++ callbacks_for req cs.
Proof.
  unfold callbacks_for. revert A. induction cs as [|q cs IH]; intros A; simpl; [by rewrite app_nil_r|].
  rewrite IH, filter_cons. simpl. destruct (decide (req = rq_topic q)) as [->|Hn].
  - rewrite (decide_True (P:=rq_topic q = rq_topic q)) by done. simpl. by rewrite <-(assoc_L app).
  - by rewrite decide_False by done.
Qed.

Lemma waiting_replies A reqs req :
  fold_left waiting_after (map ev_reply reqs) A req = drop (count req reqs) (A req).
Proof.
  unfold count. revert A. induction reqs as [|r reqs IH]; intros A; simpl; [by rewrite drop_0|].
  rewrite IH, filter_cons. simpl. destruct (decide (req = r)) as [->|Hn].
  - rewrite (decide_True (P:=r = r)) by done. simpl. by destruct (A r); simpl; rewrite ?drop_nil.
  - rewrite decide_False by done. done.
Qed.

Lemma answers_enough A reqs : (∀ req, count req reqs ≤ length (A req)) → answers_calls A (map ev_reply reqs).
Proof.
  unfold count. revert A. induction reqs as [|r reqs IH]; intros A Hall; simpl; [done|]. split.
  - specialize (Hall r). rewrite filter_cons, decide_True in Hall by done. simpl in Hall. destruct (A r); [simpl in *; lia|done].
  - apply IH. intros req. specialize (Hall req). rewrite filter_cons in Hall. destruct (decide (req = r)) as [->|Hn].
    + rewrite decide_True in Hall by done. destruct (A r); simpl in *; lia.
    + by rewrite decide_False in Hall.
Qed.

Lemma count_elem A reqs req : (∀ req, count req reqs ≤ length (A req)) → req ∈ reqs → A req ≠ [].
Proof.
  intros Hall Hin HA. specialize (Hall req). rewrite HA in Hall. unfold count in Hall.
  assert (req ∈ filter (λ r, r = req) reqs) as Hf by by apply list_elem_of_filter.
  destruct (filter _ _); [by apply elem_of_nil in Hf|simpl in Hall; lia].
Qed.
End queues.

(** ** The caller *)
Section caller.
Context `{Build} {frame object : Type} (Pack : object → bytes) (unpack : Z → bytes → option frame).
Import pulse.
Implicit Types w : world (frame:=frame).
Context (root x p se k : nat) (res : Z → Z).
Context (res_inj : Inj (=) (=) res) (res_frame : ∀ req, frame_topic (res req)).

Lemma res_not_closed req : res req ≠ topic_closed.
Proof. by destruct (res_frame req). Qed.

(** Nobody but [p] waits for responses. *)
Definition sole_caller w : Prop :=
  ∀ q t pic, pulses w !! q = Some t → q ≠ p → only_users (default [] (subscriptions t !! pic)).

Lemma preserves_update_sole q f :
  q = p ∨ (∀ t, subscriptions (f t) = subscriptions t) → preserves sole_caller (update q f).
Proof.
  intros Hq w Hw. unfold update, at_. run. destruct (pulses w !! q) as [t|] eqn:Ht; [|done].
  intros q' t' pic Ht' Hne. simpl in Ht'. destruct (decide (q' = q)) as [->|Hn].
  - rewrite lookup_insert_eq in Ht'. injection Ht' as <-. destruct Hq as [|Hf]; [done|]. rewrite Hf. by apply (Hw q).
  - rewrite lookup_insert_ne in Ht' by done. by apply (Hw q').
Qed.

Lemma preserves_at_sole q : preserves sole_caller (at_ q).
Proof. unfold at_. preserve. Qed.

Lemma preserves_root I fuel q : preserves I (get_root_fuel (frame:=frame) fuel q).
Proof. revert q. induction fuel as [|fuel IH]; intros q; simpl; [apply preserves_undefined|]. unfold at_. preserve. Qed.

Lemma preserves_subscribe_sole pic r : preserves sole_caller (subscribe p pic r).
Proof.
  unfold subscribe, show_interest, get_root. preserve;
    try (apply preserves_at_sole || apply preserves_root || (apply preserves_update_sole; by left)).
  apply preserves_update_sole. by right.
Qed.

Lemma preserves_call_sole req rs c : preserves sole_caller (call p req rs c).
Proof.
  unfold call, call_subscribe_closed, call_subscribe_reply, has_subscription. preserve;
    try (apply preserves_at_sole || apply preserves_subscribe_sole). apply preserves_update_sole. by left.
Qed.

(** A call has no effect but its request. *)
Definition effects_are (es : list effect) w : Prop := effects w = es.

Lemma preserves_update_effects es q f : preserves (effects_are es) (update q f).
Proof. unfold update, at_. preserve; by intros. Qed.

Lemma preserves_call_effects es req rs c : preserves (effects_are es) (call p req rs c).
Proof.
  unfold call, call_subscribe_closed, call_subscribe_reply, has_subscription, subscribe, show_interest, get_root, at_.
  preserve; try (apply preserves_root || apply preserves_update_effects); by intros.
Qed.

(** The calls of the user, the session accepting every request. *)
Definition make_calls (encrypt : bool) (cs : list (request object)) : M (world (frame:=frame)) unit :=
  for_each cs (λ q, pulse_fb.call Pack p (rq_topic q) (res (rq_topic q)) (rq_object q) (rq_callback q) encrypt true).

Definition requests (encrypt : bool) (cs : list (request object)) : list effect :=
  map (λ q, session_sent se (rq_topic q) (Pack (rq_object q)) encrypt) cs.

Lemma calls_made w A s encrypt cs :
  holds root x p se k res w A s → sole_caller w →
  ∃ w' s', make_calls encrypt cs w = (Ret tt, w') ∧
    holds root x p se k res w' (fold_left waiting_after (call_events cs) A) s' ∧ sole_caller w' ∧
    posted w' = posted w ∧ effects w' = effects w ++ requests encrypt cs.
Proof.
  unfold make_calls, requests. revert w A s. induction cs as [|q cs IH]; intros w A s Hh Hw; simpl.
  { exists w, s. by rewrite app_nil_r. }
  set (e := session_sent se (rq_topic q) (Pack (rq_object q)) encrypt).
  pose proof (holds_emit _ _ _ _ _ _ _ _ _ e Hh) as He.
  destruct (holds_call root x p se k res res_inj res_not_closed _ _ _ (rq_topic q) (rq_callback q) He)
    as (w1 & s1 & Hc & Hp & Hh1).
  pose proof (preserves_elim _ _ _ (preserves_call_sole (rq_topic q) (res (rq_topic q)) (rq_callback q)) (Hw : sole_caller (emit e w))) as Hw1.
  pose proof (preserves_elim _ _ (emit e w) (preserves_call_effects (effects w ++ [e]) (rq_topic q) (res (rq_topic q)) (rq_callback q)) eq_refl) as He1.
  rewrite Hc in Hw1, He1. simpl in Hw1, He1. unfold effects_are in He1.
  destruct (IH w1 _ s1 Hh1 Hw1) as (w2 & s2 & Hr & Hh2 & Hw2 & Hp2 & He2). exists w2, s2.
  split_and!; [|done|done|by rewrite Hp2, Hp|by rewrite He2, He1, <-(assoc_L app)].
  rewrite (bind_run _ _ w tt w1); [done|]. unfold pulse_fb.call.
  destruct (holds_child _ _ _ _ _ _ _ _ _ Hh) as (_ & _ & Hn).
  rewrite (bind_run _ _ _ _ _ (get_session_spec _ _ _ (holds_at _ _ _ _ _ _ _ _ _ Hh))).
  rewrite (holds_session _ _ _ _ _ _ _ _ _ Hh) in Hn |- *.
  rewrite (bind_run _ _ w tt w) by (apply check_true; by rewrite (proj2 (Nat.eqb_neq _ _))).
  by rewrite (bind_run _ _ _ _ _ (fb_send_spec Pack w se _ _ encrypt true Hn)).
Qed.

(** ** What a response is posted as *)

(** The tasks that do something to a pulse. *)
Definition internal (t : posting (frame:=frame)) : Prop :=
  match what t with run_receiver (reply_receiver _ _) _ _ | run_receiver (closed_receiver _) _ _ => True | _ => False end.
#[local] Instance internal_dec t : Decision (internal t).
Proof. unfold internal. destruct (what t) as [[] | |]; apply _. Defined.

Lemma run_internal w ps :
  for_each ps (λ t, run_task (what t)) w = for_each (filter internal ps) (λ t, run_task (what t)) w.
Proof.
  revert w. induction ps as [|t ps IH]; intros w; [done|]. rewrite filter_cons. simpl.
  destruct (decide (internal t)) as [Hi|Hi]; simpl.
  - unfold mbind, M_bind. by destruct (run_task (what t) w) as [[] ?].
  - rewrite (bind_run _ _ w tt w); [done|]. unfold internal in Hi. by destruct (what t) as [[]| |].
Qed.

Lemma told_internal s f pic se' (g : subscription → nat) :
  only_users (default [] (subscriptions s !! pic)) →
  filter internal (map (λ sub, tell x s (g sub) f sub) (filter (concerned se') (subscribed s pic))) = [].
Proof.
  unfold subscribed, only_users. intros Hu. induction (default [] _) as [|sub subs IH]; [done|].
  assert (∀ sub', sub' ∈ subs → ∃ id, cb sub' = user_receiver id) as Hu' by (intros; apply Hu; set_solver).
  destruct (decide (concerned se' sub)); [|rewrite filter_cons_False by done; by apply IH].
  rewrite filter_cons_True by done. cbn [map]. rewrite filter_cons_False; [by apply IH|].
  destruct (Hu sub) as [id Hid]; [set_solver|]. unfold internal, tell. simpl. rewrite Hid. tauto.
Qed.

Lemma filter_flat_map {A B} (P : B → Prop) `{∀ b, Decision (P b)} (g : A → list B) l :
  filter P (flat_map g l) = flat_map (λ a, filter P (g a)) l.
Proof. induction l as [|a l IH]; simpl; [done|]. by rewrite filter_app, IH. Qed.

Lemma flat_map_only {A B} (g : A → list B) a l :
  a ∈ l → NoDup l → (∀ b, b ∈ l → b ≠ a → g b = []) → flat_map g l = g a.
Proof.
  intros Hin Hnd Hg. apply list_elem_of_split in Hin as (l1 & l2 & ->).
  assert (∀ l, l ⊆ l1 ++ a :: l2 → a ∉ l → flat_map g l = []) as Hnil.
  { clear -Hg. intros l Hl Ha. induction l as [|b l IH]; [done|]. simpl. rewrite Hg, IH; set_solver. }
  apply NoDup_app in Hnd as (_ & H1 & [H2 _]%NoDup_cons). rewrite flat_map_app. simpl.
  rewrite !Hnil, app_nil_r; set_solver.
Qed.

(** A response to a call that waits is posted once to the caller, on its strand. *)
Lemma wanted_internal w A s rs req f :
  holds root x p se k res w A s → sole_caller w → pulses w !! root = Some rs → A req ≠ [] →
  filter internal (wanted w root x rs se (res req) f)
  = [Posting x (strand_of s) (run_receiver (reply_receiver p (res req)) se f)].
Proof.
  intros Hh Hw Hrs HA. pose proof (holds_at _ _ _ _ _ _ _ _ _ Hh) as Hs.
  assert (p ≠ root) as Hpr.
  { intros ->. destruct (holds_child _ _ _ _ _ _ _ _ _ Hh) as (_ & Hr & _).
    destruct (tree_root _ _ _ (holds_tree _ _ _ _ _ _ _ _ _ Hh)) as (rs' & Hrs' & Hp & _).
    assert (rs' = s) as -> by congruence. by rewrite (bool_decide_true _ Hp : is_root s = true) in Hr. }
  unfold wanted. rewrite filter_app.
  assert (filter internal (map (tell x rs se f) (filter (concerned se) (subscribed rs (res req)))) = []) as ->
    by (apply (told_internal rs f (res req) se (λ _, se)); by apply (Hw root)).
  simpl.
  rewrite filter_flat_map. unfold children.
  set (g := λ a : nat * state, filter internal _).
  assert (∀ a, pulses w !! a.1 = Some a.2 → a.1 ≠ p → g a = []) as Hother.
  { intros [q t] Hq Hne. unfold g. simpl. apply (told_internal t f (res req) se session_key). by apply (Hw q). }
  assert (g (p, s) = [Posting x (strand_of s) (run_receiver (reply_receiver p (res req)) se f)]) as Hown.
  { destruct (holds_child _ _ _ _ _ _ _ _ _ Hh) as (_ & _ & Hn). rewrite (holds_session _ _ _ _ _ _ _ _ _ Hh) in Hn.
    pose proof (holds_queue _ _ _ _ _ _ _ _ _ Hh req) as Hq. destruct (calls s !! req) as [tc|]; [|done].
    destruct Hq as (_ & _ & _ & _ & Hsub). unfold g, subscribed. simpl. rewrite Hsub. simpl.
    rewrite filter_cons_True by (by right). simpl. unfold tell. by rewrite own_strand_of. }
  rewrite <-Hown. apply flat_map_only.
  - apply elem_of_map_to_list. by rewrite lookup_delete_ne.
  - apply NoDup_map_to_list.
  - intros [q t] [_ Hq]%elem_of_map_to_list%lookup_delete_Some Hne. apply Hother; [done|]. simpl. intros ->. congruence.
Qed.

(** The arrival of responses, and the tasks they are posted as run. *)
Lemma holds_enqueue w A s ps : holds root x p se k res w A s → holds root x p se k res (enqueue ps w) A s.
Proof. intros [H1 H2 H3 H4 H5 H6 H7 H8]. split; try done. by apply tree_ok_enqueue. Qed.

Definition response_tasks s (rs : list (Z * bytes)) : list (posting (frame:=frame)) :=
  map (λ r, Posting x (strand_of s) (run_receiver (reply_receiver p (res r.1)) se (unpack (res r.1) r.2))) rs.

Lemma feed_responses w A s root_s rs :
  holds root x p se k res w A s → sole_caller w → pulses w !! root = Some root_s →
  Forall (λ r, A r.1 ≠ [] ∧ is_Some (unpack (res r.1) r.2)) rs →
  ∃ ps, feed unpack root se (map (λ r, (res r.1, r.2)) rs) w = (Ret tt, enqueue ps w) ∧
    filter internal ps = response_tasks s rs.
Proof.
  intros Hh Hw Hrs Hall.
  destruct (feed_all unpack w root x se root_s (map (λ r, (res r.1, r.2)) rs)) as (pss & Hrun & Hpss);
    [by eapply holds_tree|done|apply Forall_fmap, Forall_true; intros r; apply res_frame|].
  exists (concat pss). split; [done|]. clear Hrun. apply Forall2_fmap_l in Hpss.
  induction Hpss as [|r ps rs pss Hps _ IH]; [done|]. apply Forall_cons in Hall as [[HA [f Hf]] Hall].
  unfold wanted_frame in Hps. simpl in *. rewrite Hf in Hps |- *.
  set (t := Posting _ _ _). enough (filter internal ps = [t]) as Ht by by rewrite filter_app, IH, Ht.
  apply Permutation_singleton_r. rewrite Hps. by rewrite (wanted_internal w A s root_s (r.1)).
Qed.

Lemma run_responses w s rs :
  for_each (response_tasks s rs) (λ t, run_task (what t)) w
  = for_each (map ev_reply (map fst rs)) (run_event (frame:=frame) p se res) w.
Proof.
  revert w. induction rs as [|r rs IH]; intros w; [done|]. simpl. unfold mbind, M_bind.
  destruct (call_receive p se (res r.1) w) as [[] w']; [apply IH|done..].
Qed.

(** The responses take their calls from the queues. *)
Lemma responses_answer w A s root_s rs :
  holds root x p se k res w A s → sole_caller w → pulses w !! root = Some root_s →
  Forall (λ r, is_Some (unpack (res r.1) r.2)) rs → (∀ req, count req (map fst rs) ≤ length (A req)) →
  ∃ ps w' s', feed unpack root se (map (λ r, (res r.1, r.2)) rs) w = (Ret tt, enqueue ps w) ∧
    for_each ps (λ t, run_task (what t)) (enqueue ps w) = (Ret tt, w') ∧
    holds root x p se k res w' (λ req, drop (count req (map fst rs)) (A req)) s'.
Proof.
  intros Hh Hw Hrs Hun Hcount.
  destruct (feed_responses w A s root_s rs Hh Hw Hrs) as (ps & Hfeed & Hps).
  { rewrite Forall_forall in Hun |- *. intros r Hr. split; [|by apply Hun]. eapply count_elem; [done|].
    apply list_elem_of_fmap. by exists r. }
  destruct (holds_events root x p se k res res_inj res_not_closed (enqueue ps w) A s (map ev_reply (map fst rs)))
    as (w' & s' & Hrun & _ & Hh'); [by apply holds_enqueue|by apply answers_enough|].
  exists ps, w', s'. split_and!; [done|by rewrite run_internal, Hps, run_responses|].
  destruct Hh' as [H1 H2 H3 H4 H5 H6 H7 H8]. split; try done. intros req. specialize (H8 req).
  by rewrite waiting_replies in H8.
Qed.
(** A child pulse that has not called yet, the only caller of its tree. *)
Record fresh_caller w (s : state) : Prop := {
  fresh_tree : tree_ok w root x;
  fresh_at : pulses w !! p = Some s;
  fresh_child : child_ok s;
  fresh_session : session_ s = se;
  fresh_strand : strand_key s = k;
  fresh_calls : calls s = ∅;
  fresh_closed : subscriptions s !! topic_closed = None;
  fresh_reply req : subscriptions s !! res req = None;
  fresh_sole : sole_caller w
}.

Lemma fresh_holds w s : fresh_caller w s → holds root x p se k res w (λ _, []) s.
Proof.
  intros [H1 H2 H3 H4 H5 H6 H7 H8 _]. split; try done; [by left|by left|]. intros req. by rewrite H6, lookup_empty.
Qed.
End caller.

(** ** Properties *)

(** C5. Calls over a connection.  A pulse makes a list of calls, the sessions of two
    programs, over [secure_protocol], carry what each sends, every completed send transferring
    all its bytes (a partial one strands or reorders the rest, see [Connection]), and
    nothing is under way any more.  The pulse is the only caller of its tree and has not called before; its
    user subscribed neither to [topic_closed] nor to a response topic, which would keep
    [call] from subscribing (net/pulse.ipp:512), and every request topic has a response
    topic of its own, since the pairs are kept by response.  If the other
    program answered with responses that can be unpacked, for each request topic at most as
    many as there were calls: the requests are posted to exactly the subscribers of
    their topics, in the order of the calls; the responses, handed to the tree of the
    caller, are posted, and when the posted tasks have run, the calls that are left of
    every request topic are those that no response answered, in the order in which
    they were made. *)
Theorem calls_over_connection `{Build} `{StreambufLaws} `{SodiumLaws} (n : nat) {object frame frame' : Type} (Pack : object → bytes) (unpack : Z → bytes → option frame)
    (unpack' : Z → bytes → option frame') (root x p se k root' x' se' : nat) (res : Z → Z)
    (w : pulse.world (frame:=frame)) (s : pulse.state) (v : pulse.world (frame:=frame')) (rv : pulse.state)
    (encrypt : bool) (cs : list (request object)) (rs : list (Z * bytes))
    (c c' : @conn _ (secure_protocol.secure_Protocol n)) ls :
  n ≤ 8 → Inj (=) (=) res → (∀ req, frame_topic (res req)) → fresh_caller root x p se k res w s →
  tree_ok v root' x' → pulse.pulses v !! root' = Some rv →
  connected c → steps conn_step c ls c' → sent_in_full ls → quiet c' →
  puts near ls = map (λ q, (rq_topic q, Pack (rq_object q))) cs → Forall (λ q, frame_topic (rq_topic q)) cs →
  puts far ls = map (λ r, (res r.1, r.2)) rs → Forall (λ r, is_Some (unpack (res r.1) r.2)) rs →
  (∀ req, count req (map fst rs) ≤ length (callbacks_for req cs)) →
  ∃ w1 pss ps w2 s2,
    make_calls Pack p res encrypt cs w = (Ret tt, w1) ∧
    pulse.effects w1 = pulse.effects w ++ requests Pack se encrypt cs ∧ pulse.posted w1 = pulse.posted w ∧
    feed unpack' root' se' (gots near ls) v = (Ret tt, pulse.enqueue (concat pss) v) ∧
    Forall2 (λ q ps, ps ≡ₚ wanted_frame unpack' v root' x' rv se' (rq_topic q, Pack (rq_object q))) cs pss ∧
    feed unpack root se (gots far ls) w1 = (Ret tt, pulse.enqueue ps w1) ∧
    for_each ps (λ t, pulse.run_task (pulse.what t)) (pulse.enqueue ps w1) = (Ret tt, w2) ∧
    pulse.pulses w2 !! p = Some s2 ∧
    ∀ req, map pulse.call_cb (pulse.callers (default pulse.new_topic_calls (pulse.calls s2 !! req)))
      = drop (count req (map fst rs)) (callbacks_for req cs).
Proof.
  intros Hn Hinj Hres Hf Hv Hrv Hc Hst Hfull Hquiet Hnear Htop Hfar Hun Hcount.
  pose proof (secure_FramingLaws n Hn) as HL. pose proof (secure_DuplexLaws n) as HD.
  assert (∀ d, gots d ls = puts d ls) as Hgot.
  { intros d. destruct (linked_steps c _ ls c' (connected_linked c Hc) Hst Hfull) as (q & Hq & Hl).
    pose proof (fifo_steps_queue _ _ _ d Hq) as Heq. rewrite (linked_quiet c' q Hl Hquiet d), app_nil_r in Heq. by destruct d. }
  destruct (calls_made Pack root x p se k res Hinj Hres w _ s encrypt cs (fresh_holds _ _ _ _ _ _ _ _ Hf) (fresh_sole _ _ _ _ _ _ _ _ Hf))
    as (w1 & s1 & Hmade & Hh & Hsole & Hpo & Heff).
  destruct (feed_all unpack' v root' x' se' rv (puts near ls)) as (pss & Hfeed & Hpss); [done|done| |].
  { rewrite Hnear. by apply Forall_fmap. }
  destruct (tree_root _ _ _ (holds_tree _ _ _ _ _ _ _ _ _ Hh)) as (root_s & Hroot & _).
  destruct (responses_answer unpack root x p se k res Hinj Hres w1 _ s1 root_s rs Hh Hsole Hroot Hun) as (ps & w2 & s2 & Hback & Hrun & Hh2).
  { intros req. rewrite waiting_calls. apply Hcount. }
  exists w1, pss, ps, w2, s2. rewrite !Hgot, Hfar. split_and!; try done.
  - rewrite Hnear in Hpss. by apply Forall2_fmap_l in Hpss.
  - by eapply holds_at.
  - intros req. pose proof (holds_queue _ _ _ _ _ _ _ _ _ Hh2 req) as Hq. cbv beta in Hq. rewrite waiting_calls in Hq. simpl in Hq.
    destruct (pulse.calls s2 !! req) as [tc|]; [by destruct Hq as (_ & ? & _)|by rewrite Hq].
Qed.

(** Two calls on the toy pair; the first is answered. *)
Section witness.
#[local] Instance debug : Build := debug_build.
#[local] Instance P2 : Protocol := secure_protocol.secure_Protocol 2.
#[local] Instance F2 : @Framing _ P2 := secure_Framing 2.
#[local] Instance D2 : @Duplex _ P2 F2 := secure_Duplex 2.

Definition second_call : @message _ P2 := @Message _ P2 258%Z [x44] false.
Definition first_response : @message _ P2 := @Message _ P2 1035%Z [x43] true.
Definition rpc_put : @conn _ P2 := do_put near toy_hello toy_ends.
Definition rpc_put2 : @conn _ P2 := do_put near second_call rpc_put.
Definition rpc_sent : @conn _ P2 := do_complete near rpc_put2.
Definition rpc_sent2 : @conn _ P2 := do_complete near rpc_sent.
Definition rpc_told : @conn _ P2 := do_arrive near session.recv_size rpc_sent2.
Definition rpc_answer : @conn _ P2 := do_put far first_response rpc_told.
Definition rpc_answered : @conn _ P2 := do_complete far rpc_answer.
Definition rpc_done : @conn _ P2 := do_arrive far session.recv_size rpc_answered.
Definition rpc_labels : list (@label _ P2) :=
  [put near (content toy_hello); put near (content second_call); sent near 0; sent near 0;
   got near [content toy_hello; content second_call]; put far (content first_response); sent far 0;
   got far [content first_response]].

Ltac puts_step := apply put_step; [by split_and!|unfold max_send_size; simpl length; lia|vm_compute; reflexivity].
Ltac completes_step := apply complete_step; [apply Nat.ltb_lt|]; vm_compute; reflexivity.
Ltac arrives_step := apply arrive_step; [apply Nat.ltb_lt|split; [apply Nat.ltb_lt|apply Nat.leb_le]|..]; vm_compute; reflexivity.

Lemma rpc_run : steps conn_step toy_ends rpc_labels rpc_done.
Proof.
  apply (steps_cons _ _ _ rpc_put); [unfold rpc_put; puts_step|].
  apply (steps_cons _ _ _ rpc_put2); [unfold rpc_put2; puts_step|].
  apply (steps_cons _ _ _ rpc_sent); [unfold rpc_sent; completes_step|].
  apply (steps_cons _ _ _ rpc_sent2); [unfold rpc_sent2; completes_step|].
  apply (steps_cons _ _ _ rpc_told); [unfold rpc_told; arrives_step|].
  apply (steps_cons _ _ _ rpc_answer); [unfold rpc_answer; puts_step|].
  apply (steps_cons _ _ _ rpc_answered); [unfold rpc_answered; completes_step|].
  apply (steps_cons _ _ _ rpc_done); [unfold rpc_done; arrives_step|apply steps_nil].
Qed.

Lemma calls_over_connection_witness :
  let res req := (4 * req + 3)%Z in
  let unpack (_ : Z) (bs : bytes) := Some (length bs) in
  let v := pulse.World {[1 := pulse.set_runner (Some 9) pulse.make]} [] [] in
  let cs := [Request 258 [x41; x42] 7; Request 258 [x44] 8] in
  ∃ w1 ps w2 s2, make_calls id 2 res true cs example_calls = (Ret tt, w1) ∧
    feed unpack 1 3 [(258%Z, [x41; x42]); (258%Z, [x44])] v = (Ret tt, v) ∧
    feed unpack 1 4 [(1035%Z, [x43])] w1 = (Ret tt, pulse.enqueue ps w1) ∧
    for_each ps (λ t, pulse.run_task (pulse.what t)) (pulse.enqueue ps w1) = (Ret tt, w2) ∧
    pulse.pulses w2 !! 2 = Some s2 ∧
    map pulse.call_cb (pulse.callers (default pulse.new_topic_calls (pulse.calls s2 !! 258%Z))) = [8].
Proof.
  intros res unpack v cs.
  destruct (calls_over_connection 2 id unpack unpack 1 9 2 4 0 1 9 3 res example_calls example_caller v
    (pulse.set_runner (Some 9) pulse.make) true cs [(258%Z, [x43])] toy_ends rpc_done rpc_labels)
    as (w1 & pss & ps & w2 & s2 & Hcalls & _ & _ & Hv & Hpss & Hfeed & Hrun & Hs2 & Hleft).
  - lia.
  - intros a b. unfold res. lia.
  - intros a. unfold res. split; unfold pulse.topic_established, pulse.topic_closed; lia.
  - split; try (done || reflexivity).
    + apply example_calls_ok.
    + intros q t pic Hq Hn sub Hsub. exfalso. simpl in Hq. apply lookup_insert_Some in Hq as [[_ <-]|[_ Hq]].
      * simpl in Hsub. rewrite lookup_empty in Hsub. set_solver.
      * by apply lookup_singleton_Some in Hq as [<- _].
  - by apply (example_root_ok v 1 9 (pulse.set_runner (Some 9) pulse.make)).
  - reflexivity.
  - apply toy_ends_connected.
  - apply rpc_run.
  - reflexivity.
  - apply nothing_under_way. intros []; split; vm_compute; reflexivity.
  - reflexivity.
  - repeat constructor; discriminate.
  - reflexivity.
  - repeat constructor. by eexists.
  - intros req. destruct (decide (258%Z = req)) as [<-|Hn]; [apply Nat.leb_le; reflexivity|].
    unfold count. simpl. rewrite filter_cons_False by done. simpl. lia.
  - exists w1, ps, w2, s2. split_and!; [exact Hcalls|vm_compute; reflexivity|exact Hfeed|exact Hrun|exact Hs2|].
    rewrite (Hleft 258%Z). reflexivity.
Defined.
End witness.
