(* ===== verification/App.v ===== *)
(** * play/app: index, actor_container, session_container, actor, app

    The containers an application keeps its actors, sessions and services in.  An
    actor is known by its address; the keys the container asks it for are the
    members of [actor_info]. *)

From S2P Require Import Prelude.

(** An actor as the container sees it: [get_id()], [get_name()],
    [get_session_key()], [get_uuid()], and the address the [ptr] holds. *)
Record actor_info := ActorInfo {
  get_id : Z;
  get_name : str;
  get_session_key : Z;
  get_uuid : Z
}.

(** ** play/app/index.{hpp,ipp} *)
Module index.
Section index.
Context {K : Type} `{Countable K} {A : Type}.

(** [index_]; the container is kept by the owner.  [insert] does not overwrite. *)
Definition link (index : K) (key : Z) (m : gmap K Z) : gmap K Z :=
  match m !! index with None => <[index := key]> m | Some _ => m end.
Definition unlink (index : K) (m : gmap K Z) : gmap K Z := delete index m.
(** [find(key)]: the iterator into the container, [None] for its [end()] *)
Definition find (container : gmap Z A) (key : K) (m : gmap K Z) : option Z :=
  match m !! key with
  | None => None
  | Some id => if decide (is_Some (container !! id)) then Some id else None
  end.
End index.
End index.

(** ** play/app/actor_container.{hpp,ipp} *)
Module actor_container.

(** The template parameters *)
Class Config := { HasName : bool; HasSession : bool; HasUuid : bool }.

Section actor_container.
Context `{Config}.

(** [actors_] and the three indexes *)
Record state := State {
  actors_ : gmap Z actor_info;
  index_name : gmap str Z;
  index_session : gmap Z Z;
  index_uuid : gmap Z Z
}.
Definition make : state := State ∅ ∅ ∅ ∅.

(** A key with the template arguments that select the index.  [allowed] is what
    the static assertions demand. *)
Inductive key :=
  | by_id (id : Z)
  | by_name (name : str)
  | by_session (session_key : Z)
  | by_uuid (uuid : Z).
Definition allowed (k : key) : bool :=
  match k with
  | by_id _ => true
  | by_name _ => HasName
  | by_session _ => HasSession
  | by_uuid _ => HasUuid
  end.

(** [add(actor)] *)
Definition add (actor : actor_info) (s : state) : bool * state :=
  match actors_ s !! get_id actor with
  | Some _ => (false, s)
  | None =>
      (true, State (<[get_id actor := actor]> (actors_ s))
        (if HasName then index.link (get_name actor) (get_id actor) (index_name s) else index_name s)
        (if HasSession then index.link (get_session_key actor) (get_id actor) (index_session s)
         else index_session s)
        (if HasUuid then index.link (get_uuid actor) (get_id actor) (index_uuid s) else index_uuid s))
  end.

(** The iterator both [find] and [del] begin with. *)
Definition find_iter (k : key) (s : state) : option Z :=
  match k with
  | by_session sk => index.find (actors_ s) sk (index_session s)
  | by_id id => if decide (is_Some (actors_ s !! id)) then Some id else None
  | by_name name => index.find (actors_ s) name (index_name s)
  | by_uuid u => index.find (actors_ s) u (index_uuid s)
  end.

(** [find(key)] *)
Definition find (k : key) (s : state) : option actor_info :=
  match find_iter k s with
  | None => None
  | Some id => actors_ s !! id
  end.

(** [iter->second] is the entry the iterator stands on: after [erase] it is gone,
    and reading it is undefined. *)
Definition second (iter : Z) : M state actor_info :=
  s ← get; deref (actors_ s !! iter).

(** [del(key)] *)
Definition del (k : key) : M state unit :=
  s ← get;
  match find_iter k s with
  | None => mret tt
  | Some iter =>
      _ ← modify (λ s, State (delete iter (actors_ s)) (index_name s) (index_session s) (index_uuid s));
      _ ← (if HasName then
             a ← second iter;
             modify (λ s, State (actors_ s) (index.unlink (get_name a) (index_name s))
                            (index_session s) (index_uuid s))
           else mret tt);
      _ ← (if HasSession then
             a ← second iter;
             modify (λ s, State (actors_ s) (index_name s)
                            (index.unlink (get_session_key a) (index_session s)) (index_uuid s))
           else mret tt);
      (if HasUuid then
         a ← second iter;
         modify (λ s, State (actors_ s) (index_name s) (index_session s)
                        (index.unlink (get_uuid a) (index_uuid s)))
       else mret tt)
  end.

(** [for_each(fn)] in the order of the identifiers, and [size()] *)
Definition for_each_actor {S} (fn : actor_info → M S unit) (s : state) : M S unit :=
  for_each (map snd (entries_in_order (actors_ s))) fn.
Definition container_size (s : state) : nat := size (actors_ s).
End actor_container.
End actor_container.

(** ** play/app/session_container.hpp

    Sessions are addresses; [send] asks the pulse to send on each, and the pulse's
    answer for a session is [ok]. *)
Module session_container.
Section session_container.
Context `{Build} {object : Type}.

(** [sessions_] by address, 0 for the null pointer, and what the pulse was asked to send *)
Record state := State { pulse_ : bool; sessions_ : gset Z; sent : list (Z * object) }.
Definition make : state := State false ∅ [].

Definition bind (pulse : bool) : M state unit :=
  _ ← PLAY_CHECK pulse;
  modify (λ s, State pulse (sessions_ s) (sent s)).
Definition address (se : option Z) : Z := default 0%Z se.
Definition add (se : option Z) (s : state) : bool * state :=
  (bool_decide (address se ∉ sessions_ s), State (pulse_ s) ({[address se]} ∪ sessions_ s) (sent s)).
Definition del (se : option Z) (s : state) : state :=
  State (pulse_ s) (sessions_ s ∖ {[address se]}) (sent s).

(** [send(topic, obj, encrypt)]: [&&] stops asking after the first refusal; [pulse_fb::send]
    calls [send] of the session, which a null pointer is not. *)
Definition send_one (ok : Z → bool) (obj : object) (result : bool) (se : Z) : M state bool :=
  if result then
    p ← gets pulse_;
    _ ← (if (p : bool) then mret tt else undefined);
    _ ← (if decide (se = 0%Z) then undefined else mret tt);
    _ ← modify (λ s, State (pulse_ s) (sessions_ s) (sent s ++ [(se, obj)]));
    mret (ok se)
  else mret false.
Fixpoint send_all (ok : Z → bool) (obj : object) (result : bool) (l : list Z) : M state bool :=
  match l with
  | [] => mret result
  | se :: l => result ← send_one ok obj result se; send_all ok obj result l
  end.
Definition send (ok : Z → bool) (obj : object) : M state bool :=
  s ← get; send_all ok obj true (merge_sort Z.le (elements (sessions_ s))).
End session_container.
End session_container.

(** ** play/app/actor.{hpp,ipp}, act.hpp, service.hpp

    Types of acts are their [type_index], objects their address.  [on_start] and
    [on_stop] are the subclass's. *)
Module actor.
Section actor.
Record state := State { acts_ : gmap Z nat; id_ : Z; created : list (Z * nat) }.

(** [actor()]: the identifier comes from the [dynamic_snowflake] *)
Definition make (id : Z) : state := State ∅ id [].
Definition get_id (s : state) : Z := id_ s.

(** [start()] and [stop()] *)
Definition start (on_start : M state bool) : M state bool := on_start.
Definition stop (on_stop : M state unit) : M state unit := on_stop.

(** [~actor()]: the subclass is destroyed already, so [stop] calls the pure virtual
    [on_stop] of [actor] itself. *)
Definition on_stop : M state unit := undefined.
Definition destroy : M state unit := stop on_stop.

(** [on_created_act]: the default of the base class; what was created is recorded. *)
Definition on_created_act (index : Z) (act : nat) (s : state) : state :=
  State (acts_ s) (id_ s) (created s ++ [(index, act)]).

(** [create_act<Act>()]: [act] is the object [make_shared] returns *)
Definition create_act (index : Z) (act : nat) (s : state) : bool * state :=
  match acts_ s !! index with
  | Some _ => (false, s)
  | None => (true, on_created_act index act (State (<[index := act]> (acts_ s)) (id_ s) (created s)))
  end.
Definition get_act (index : Z) (s : state) : option nat := acts_ s !! index.
Definition has_act (index : Z) (s : state) : bool := bool_decide (is_Some (acts_ s !! index)).
End actor.
End actor.

(** ** play/app/app.{hpp,ipp} *)
Module app.
Section app.
Record state := State { services_ : gmap Z nat }.
Definition make : state := State ∅.

(** A service is an actor: dropping the last reference runs [~actor()]. *)
Definition drop_service (service : nat) : M state unit := λ s,
  match actor.destroy (actor.make (Z.of_nat service)) with
  | (Ret _, _) => (Ret tt, s)
  | (Throw e, _) => (Throw e, s)
  | (Aborted, _) => (Aborted, s)
  | (Undefined, _) => (Undefined, s)
  end.

(** [create_service<Service>(args)]: the service [make_shared] returns is dropped
    again when there is one of its type; [get_service<Service>()], [for_each(fn)] *)
Definition create_service (index : Z) (service : nat) : M state bool :=
  s ← get;
  match services_ s !! index with
  | Some _ => _ ← drop_service service; mret false
  | None => _ ← modify (λ s, State (<[index := service]> (services_ s))); mret true
  end.
Definition get_service (index : Z) (s : state) : option nat := services_ s !! index.
Definition for_each_service {S} (fn : nat → M S unit) (s : state) : M S unit :=
  for_each (map snd (entries_in_order (services_ s))) fn.
End app.
End app.

(** ** Lemmas *)
Lemma option_eta {A} (o : option A) : match o with Some x => Some x | None => None end = o.
Proof. by destruct o. Qed.

Section lookup.
Context {A : Type} (P : A → Prop) `{∀ a, Decision (P a)}.

Lemma head_filter_snoc (l : list A) a :
  head (filter P (l ++ [a]))
  = match head (filter P l) with Some x => Some x | None => if decide (P a) then Some a else None end.
Proof.
  rewrite filter_app, filter_cons, filter_nil. destruct (filter P l); simpl; [|done].
  by destruct (decide (P a)).
Qed.

Lemma head_filter_Some (l : list A) a : head (filter P l) = Some a → P a ∧ a ∈ l.
Proof.
  intros Hh. assert (a ∈ filter P l) as Ha.
  { destruct (filter P l) as [|b f]; [done|]. injection Hh as ->. by left. }
  by apply list_elem_of_filter in Ha.
Qed.
End lookup.

Section containers.
Context `{actor_container.Config}.
Import actor_container.

(** The actors a container accepted of those offered: the first of every
    identifier. *)
Fixpoint accepted (acc l : list actor_info) : list actor_info :=
  match l with
  | [] => acc
  | a :: l => accepted (if decide (get_id a ∈ map get_id acc) then acc else acc ++ [a]) l
  end.

Definition matches (k : key) (a : actor_info) : Prop :=
  match k with
  | by_id id => get_id a = id
  | by_name name => get_name a = name
  | by_session sk => get_session_key a = sk
  | by_uuid u => get_uuid a = u
  end.
#[export] Instance matches_dec k a : Decision (matches k a).
Proof. destruct k; simpl; apply _. Defined.

(** An index over the accepted actors. *)
Definition index_ok {K} `{Countable K} (field : actor_info → K) (acc : list actor_info) (m : gmap K Z) : Prop :=
  ∀ k, m !! k = get_id <$> head (filter (λ a, field a = k) acc).

Lemma index_ok_link {K} `{Countable K} (field : actor_info → K) acc m a :
  index_ok field acc m → index_ok field (acc ++ [a]) (index.link (field a) (get_id a) m).
Proof.
  intros Hok k. rewrite head_filter_snoc. unfold index.link. pose proof (Hok (field a)) as Ha.
  destruct (decide (k = field a)) as [->|Hk].
  - rewrite Ha. rewrite (decide_True (P := field a = field a)) by done.
    destruct (head (filter _ acc)) as [b|]; simpl; [by rewrite Ha|]. apply lookup_insert_eq.
  - rewrite (decide_False (P := field a = k)) by done.
    assert ((match m !! field a with None => <[field a := get_id a]> m | Some _ => m end) !! k = m !! k) as ->.
    { destruct (m !! field a); [done|]. by rewrite lookup_insert_ne. }
    by rewrite Hok, option_eta.
Qed.

Record holds_actors (acc : list actor_info) (s : state) : Prop := {
  actors_nodup : NoDup (map get_id acc);
  actors_lookup id : actors_ s !! id = head (filter (λ a, get_id a = id) acc);
  actors_name : HasName = true → index_ok get_name acc (index_name s);
  actors_session : HasSession = true → index_ok get_session_key acc (index_session s);
  actors_uuid : HasUuid = true → index_ok get_uuid acc (index_uuid s)
}.

Lemma holds_actors_in acc s a : holds_actors acc s → a ∈ acc → actors_ s !! get_id a = Some a.
Proof.
  intros Hh Ha. rewrite (actors_lookup _ _ Hh). pose proof (actors_nodup _ _ Hh) as Hnd. clear Hh.
  induction acc as [|b acc IH]; [set_solver|]. simpl in Hnd. apply NoDup_cons in Hnd as [Hb Hnd].
  rewrite filter_cons. destruct (decide (get_id b = get_id a)) as [Heq|Hne]; simpl.
  - apply elem_of_cons in Ha as [->|Ha]; [done|]. destruct Hb. rewrite Heq. by apply list_elem_of_fmap_2.
  - apply elem_of_cons in Ha as [->|Ha]; [done|]. by apply IH.
Qed.

Lemma add_spec acc s a :
  holds_actors acc s →
  (add a s).1 = bool_decide (get_id a ∉ map get_id acc) ∧
  holds_actors (if decide (get_id a ∈ map get_id acc) then acc else acc ++ [a]) (add a s).2.
Proof.
  intros Hh. unfold add. rewrite (actors_lookup _ _ Hh).
  destruct (head (filter (λ b, get_id b = get_id a) acc)) as [b|] eqn:Hb.
  - apply head_filter_Some in Hb as [Hid Hin].
    assert (get_id a ∈ map get_id acc) as Hm by (rewrite <-Hid; by apply list_elem_of_fmap_2).
    rewrite decide_True by done. split; [|done]. symmetry. apply bool_decide_false. set_solver.
  - assert (get_id a ∉ map get_id acc) as Hm.
    { intros (b & Heq & Hin)%list_elem_of_fmap. pose proof (holds_actors_in _ _ _ Hh Hin) as Hlk.
      rewrite <-Heq, (actors_lookup _ _ Hh), Hb in Hlk. done. }
    rewrite decide_False by done. split; [symmetry; by apply bool_decide_true|]. split; simpl.
    + rewrite map_app. apply NoDup_app. split_and!; [apply (actors_nodup _ _ Hh)| |apply NoDup_singleton].
      intros i Hi Hi2%list_elem_of_singleton. by subst.
    + intros id. rewrite head_filter_snoc. destruct (decide (get_id a = id)) as [<-|Hne].
      * by rewrite lookup_insert_eq, Hb.
      * by rewrite lookup_insert_ne, (actors_lookup _ _ Hh), option_eta by done.
    + intros Hn. rewrite Hn. by apply index_ok_link, (actors_name _ _ Hh).
    + intros Hn. rewrite Hn. by apply index_ok_link, (actors_session _ _ Hh).
    + intros Hn. rewrite Hn. by apply index_ok_link, (actors_uuid _ _ Hh).
Qed.

Definition add_all (l : list actor_info) (s : state) : state := fold_left (λ s a, (add a s).2) l s.

Lemma add_all_spec l acc s : holds_actors acc s → holds_actors (accepted acc l) (add_all l s).
Proof.
  revert acc s. induction l as [|a l IH]; intros acc s Hh; [done|]. simpl. apply IH.
  by apply (add_spec acc s a).
Qed.

Lemma holds_actors_make : holds_actors [] make.
Proof.
  split; [apply NoDup_nil_2|intros id; apply lookup_empty|..]; intros _ k; apply lookup_empty.
Qed.

Lemma index_find_spec {K} `{Countable K} (field : actor_info → K) acc s m k :
  holds_actors acc s → index_ok field acc m →
  index.find (actors_ s) k m = get_id <$> head (filter (λ a, field a = k) acc).
Proof.
  intros Hh Hok. unfold index.find. rewrite Hok.
  destruct (head (filter _ acc)) as [a|] eqn:Ha; [|done]. simpl.
  apply head_filter_Some in Ha as [_ Hin]. by rewrite (holds_actors_in _ _ _ Hh Hin).
Qed.

Lemma find_iter_spec acc s k :
  holds_actors acc s → allowed k = true →
  find_iter k s = get_id <$> head (filter (matches k) acc).
Proof.
  intros Hh Hk. destruct k as [id|name|sk|u]; simpl in *.
  - rewrite (actors_lookup _ _ Hh). fold (matches (by_id id)).
    change (filter (λ a, get_id a = id) acc) with (filter (matches (by_id id)) acc).
    destruct (head (filter (matches (by_id id)) acc)) as [a|] eqn:Ha; simpl.
    + apply head_filter_Some in Ha as [Hid _]. simpl in Hid. by rewrite Hid.
    + done.
  - by apply (index_find_spec get_name), (actors_name _ _ Hh).
  - by apply (index_find_spec get_session_key), (actors_session _ _ Hh).
  - by apply (index_find_spec get_uuid), (actors_uuid _ _ Hh).
Qed.

Lemma find_spec acc s k :
  holds_actors acc s → allowed k = true → find k s = head (filter (matches k) acc).
Proof.
  intros Hh Hk. unfold find. rewrite (find_iter_spec acc s k Hh Hk).
  destruct (head (filter (matches k) acc)) as [a|] eqn:Ha; [|done]. simpl.
  apply head_filter_Some in Ha as [_ Hin]. by apply (holds_actors_in _ _ _ Hh).
Qed.

(** Deleting an actor of a container with names reads the erased entry. *)
Lemma del_found k s id :
  HasName = true → find_iter k s = Some id →
  del k s = (Undefined, State (delete id (actors_ s)) (index_name s) (index_session s) (index_uuid s)).
Proof.
  intros Hn Hk. unfold del, second. run. rewrite Hk, Hn. run. by rewrite lookup_delete_eq.
Qed.
End containers.

Section collections.
Context `{Build} {object : Type}.

(** The sessions [send] asks: those up to the first that refuses. *)
Fixpoint asked (ok : Z → bool) (l : list Z) : list Z :=
  match l with
  | [] => []
  | se :: l => se :: (if ok se then asked ok l else [])
  end.

Lemma send_all_false ok (obj : object) l s : session_container.send_all ok obj false l s = (Ret false, s).
Proof. induction l as [|se l IH]; simpl; [done|]. by rewrite (bind_run _ _ s false s). Qed.

Lemma send_all_spec ok (obj : object) l s :
  session_container.pulse_ s = true → 0%Z ∉ l →
  session_container.send_all ok obj true l s
  = (Ret (forallb ok l), session_container.State true (session_container.sessions_ s)
      (session_container.sent s ++ map (λ se, (se, obj)) (asked ok l))).
Proof.
  revert s. induction l as [|se l IH]; (intros s Hp [Hse Hl]%not_elem_of_cons || intros s Hp _); simpl.
  - rewrite app_nil_r. destruct s; simpl in *. by subst.
  - rewrite (bind_run _ _ s (ok se) (session_container.State true (session_container.sessions_ s)
      (session_container.sent s ++ [(se, obj)])))
      by (unfold session_container.send_one; rewrite decide_False by done; destruct s; simpl in Hp; by subst).
    destruct (ok se); simpl.
    + rewrite IH by done. simpl. by rewrite <-(assoc_L app).
    + by rewrite send_all_false.
Qed.

(** The null session comes first, and is dereferenced. *)
Lemma send_order_null (X : gset Z) : (∀ se, se ∈ X → 0 < se)%Z → 0%Z ∉ merge_sort Z.le (elements X).
Proof. rewrite merge_sort_Permutation, elem_of_elements. intros Hpos H0. specialize (Hpos 0%Z H0). lia. Qed.

Lemma send_null ok (obj : object) s :
  session_container.pulse_ s = true → (∀ se, se ∈ session_container.sessions_ s → 0 ≤ se)%Z →
  0%Z ∈ session_container.sessions_ s → (session_container.send ok obj s).1 = Undefined.
Proof.
  intros Hp Hpos H0. unfold session_container.send. rewrite (bind_run _ _ s s s) by done.
  assert (0%Z ∈ merge_sort Z.le (elements (session_container.sessions_ s))) as Hin
    by by rewrite merge_sort_Permutation, elem_of_elements.
  assert (∀ se, se ∈ merge_sort Z.le (elements (session_container.sessions_ s)) → 0 ≤ se)%Z as Hall
    by (intros se; rewrite merge_sort_Permutation, elem_of_elements; apply Hpos).
  assert (StronglySorted Z.le (merge_sort Z.le (elements (session_container.sessions_ s)))) as Hs
    by (apply StronglySorted_merge_sort; [apply _|intros ??; lia]).
  destruct (merge_sort _ _) as [|se l]; [by apply elem_of_nil in Hin|].
  assert (se = 0%Z) as ->.
  { apply StronglySorted_inv in Hs as [_ Hf]. rewrite Forall_forall in Hf. specialize (Hall se ltac:(left)).
    apply elem_of_cons in Hin as [|Hin]; [done|]. specialize (Hf 0%Z Hin). lia. }
  simpl. unfold session_container.send_one. unfold_M. by rewrite Hp.
Qed.

(** Services, created one after the other. *)
Definition create_all (l : list (Z * nat)) : M app.state unit :=
  for_each l (λ kv, _ ← app.create_service kv.1 kv.2; mret tt).

Lemma create_all_spec l s :
  NoDup (map fst l) → (∀ k, k ∈ map fst l → app.services_ s !! k = None) →
  create_all l s = (Ret tt, app.State (list_to_map l ∪ app.services_ s)).
Proof.
  revert s. induction l as [|[k v] l IH]; intros s Hnd Hnew; simpl.
  - rewrite (left_id_L ∅ (∪)). by destruct s.
  - simpl in Hnd. apply NoDup_cons in Hnd as [Hk Hnd].
    assert (app.services_ s !! k = None) as Hsk by (apply Hnew; by left).
    unfold create_all. simpl. fold (create_all l).
    rewrite (bind_run _ _ s tt (app.State (<[k := v]> (app.services_ s)))).
    + rewrite IH; [|done|].
      * simpl. rewrite <-insert_union_r by (by apply not_elem_of_list_to_map_1). by rewrite insert_union_l.
      * intros k' Hk'. simpl. rewrite lookup_insert_ne by (intros ->; done). apply Hnew. by right.
    + unfold app.create_service. run. by rewrite Hsk.
Qed.
End collections.

(** ** Properties *)

(** C38. A container that actors were offered to holds the first of every
    identifier, [add] says so, and [find] gives, for each kind of key, the first
    actor held with that key: later actors with the same name or session are hidden.
    [del] of a key nobody has does nothing; without indexes it removes the actor.
    With an index, deleting any actor reads the erased entry to unlink it. *)
Theorem container_lookup `{actor_container.Config} (l : list actor_info) :
  let s := add_all l actor_container.make in
  let acc := accepted [] l in
  (∀ a, (actor_container.add a s).1 = bool_decide (get_id a ∉ map get_id acc)) ∧
  (∀ k, actor_container.allowed k = true →
     actor_container.find k s = head (filter (matches k) acc)) ∧
  (∀ k, actor_container.allowed k = true → actor_container.find k s = None →
     actor_container.del k s = (Ret tt, s)) ∧
  (∀ k a, actor_container.allowed k = true → actor_container.find k s = Some a →
     if actor_container.HasName || actor_container.HasSession || actor_container.HasUuid
     then (actor_container.del k s).1 = Undefined
     else ∃ s', actor_container.del k s = (Ret tt, s') ∧
       ∀ id, actor_container.find (actor_container.by_id id) s'
         = if decide (id = get_id a) then None else actor_container.find (actor_container.by_id id) s).
Proof.
  intros s acc. assert (holds_actors acc s) as Hh by (apply add_all_spec, holds_actors_make). split_and!.
  - intros a. by apply (add_spec acc s a).
  - intros k Hk. by apply find_spec.
  - intros k Hk Hf. rewrite (find_spec _ _ _ Hh Hk) in Hf.
    unfold actor_container.del. run. by rewrite (find_iter_spec _ _ _ Hh Hk), Hf.
  - intros k a Hk Hf. rewrite (find_spec _ _ _ Hh Hk) in Hf.
    unfold actor_container.del. run. rewrite (find_iter_spec _ _ _ Hh Hk), Hf. simpl.
    destruct (actor_container.HasName), (actor_container.HasSession), (actor_container.HasUuid); simpl;
      try (unfold actor_container.second; run; simpl; by rewrite lookup_delete_eq).
    run. eexists. split; [done|]. intros id. unfold actor_container.find. simpl.
    destruct (decide (id = get_id a)) as [->|Hne].
    + by rewrite lookup_delete_eq.
    + rewrite lookup_delete_ne by done.
      destruct (actor_container.actors_ s !! id) as [b|] eqn:Hb; simpl; [|done].
      by rewrite lookup_delete_ne.
Qed.

Lemma container_lookup_witness :
  let _ := actor_container.Build_Config true false false in
  let u1 := ActorInfo 1 $"ann" 0 0 in
  let u2 := ActorInfo 2 $"ann" 0 0 in
  let s := add_all [u1; u2] actor_container.make in
  actor_container.find (actor_container.by_name $"ann") s = Some u1 ∧
  (actor_container.del (actor_container.by_id 2) s).1 = Undefined.
Proof.
  intros ? u1 u2 s. destruct (container_lookup [u1; u2]) as (_ & Hfind & _ & Hdel). split.
  - by rewrite Hfind.
  - apply (Hdel (actor_container.by_id 2) u2); [done|]. by rewrite Hfind.
Defined.

(** [session_container.send] asks the sessions in the order of their addresses
    and stops at the first refusal: the sessions behind it get nothing, and the
    answer is whether all accepted; a null session among them is dereferenced.  An application keeps one service of every
    type, found by its type and visited in the order of the types; to create one
    of a type that exists destroys the new service, which runs into the pure
    virtual [on_stop]. *)
Theorem app_collections `{Build} {object S : Type} (ok : Z → bool) (obj : object)
    (sc : session_container.state) (l : list (Z * nat)) (fn : nat → M S unit) :
  session_container.pulse_ sc = true → (∀ se, se ∈ session_container.sessions_ sc → 0 < se)%Z → NoDup (map fst l) →
  let order := merge_sort Z.le (elements (session_container.sessions_ sc)) in
  (session_container.send ok obj (session_container.add None sc).2).1 = Undefined ∧
  (∃ sc', session_container.send ok obj sc = (Ret (forallb ok order), sc') ∧
    session_container.sent sc' = session_container.sent sc ++ map (λ se, (se, obj)) (asked ok order) ∧
    ∀ l1 se l2, order = l1 ++ se :: l2 → forallb ok l1 = true → ok se = false →
      session_container.sent sc' = session_container.sent sc ++ map (λ se, (se, obj)) (l1 ++ [se])) ∧
  ∃ a, create_all l app.make = (Ret tt, a) ∧
    (∀ k v, app.get_service k a = Some v ↔ (k, v) ∈ l) ∧
    (∃ l', l' ≡ₚ l ∧ Sorted Z.le (map fst l') ∧
       app.for_each_service fn a = for_each (map snd l') fn) ∧
    (∀ k v, k ∈ map fst l → (app.create_service k v a).1 = Undefined).
Proof.
  intros Hp Hpos Hnd order. split; [|split].
  - apply send_null; [done| |simpl; set_solver]. intros se. simpl. rewrite elem_of_union, elem_of_singleton.
    intros [->|Hse]; [done|]. specialize (Hpos se Hse). lia.
  - eexists. split; [|split].
    + unfold session_container.send. run. apply send_all_spec; [done|]. by apply send_order_null.
    + done.
    + intros l1 se l2 Ho Hl1 Hse. simpl. fold order. rewrite Ho. do 2 f_equal. clear Ho.
      induction l1 as [|s1 l1 IH]; simpl in *; [by rewrite Hse|].
      apply andb_prop in Hl1 as [Hs1 Hl1]. rewrite Hs1. f_equal. by apply IH.
  - exists (app.State (list_to_map l)).
    assert (∀ k v, (list_to_map l : gmap Z nat) !! k = Some v ↔ (k, v) ∈ l) as Hl
      by (intros k v; symmetry; by apply elem_of_list_to_map).
    split_and!.
    + rewrite create_all_spec by (done || intros; apply lookup_empty). simpl. by rewrite (right_id_L ∅ (∪)).
    + intros k v. apply Hl.
    + exists (entries_in_order (list_to_map l)). destruct (entries_in_order_spec (list_to_map l)) as (? & _).
      split_and!; [|done|done]. unfold entries_in_order. rewrite merge_sort_Permutation.
      by apply map_to_list_to_map.
    + intros k v Hk. apply list_elem_of_fmap in Hk as ([k' v'] & -> & Hin).
      unfold app.create_service. run. simpl. by rewrite (proj2 (Hl _ _) Hin).
Qed.

Lemma app_collections_witness :
  let _ := debug_build in
  ∃ a, create_all [(5%Z, 1); (3%Z, 2)] app.make = (Ret tt, a) ∧ app.get_service 3 a = Some 2 ∧
    (app.create_service 5 9 a).1 = Undefined.
Proof.
  intros ?.
  destruct (app_collections (S:=unit) (λ _, true) tt (session_container.State true ∅ []) [(5%Z, 1); (3%Z, 2)]
    (λ _, mret tt)) as (_ & _ & a & Ha & Hget & _ & Hdup).
  - done.
  - intros se. simpl. set_solver.
  - repeat constructor; set_solver.
  - exists a. split_and!; [done| |].
    + apply Hget. set_solver.
    + apply Hdup. set_solver.
Defined.
