(* ===== verification/Json.v ===== *)
(** * play/base/json_reader.hpp

    Reading values at dotted paths of a JSON document.  The JSON library is
    third-party code: [Json] is the part of [nlohmann::json] the code uses, with
    its documented behaviour in [JsonLaws]. *)

From S2P Require Import Prelude.
From S2P Require Import StringUtil.

(** [lookup_key] is [contains] and [at]; [items] are the values an iteration visits;
    [get_str] and [get_int] are [get<T>()], [None] when it throws. *)
Class Json := {
  json : Type;
  jnull : json;
  is_null : json → bool;
  is_object : json → bool;
  lookup_key : json → str → option json;
  items : json → list json;
  get_str : json → option str;
  get_int : json → option Z;
  depth : json → nat
}.

(** Documents are finite trees, and [null] has no members. *)
Class JsonLaws `{Json} := {
  null_null : is_null jnull = true;
  null_key k : lookup_key jnull k = None;
  depth_key j k j' : lookup_key j k = Some j' → depth j' < depth j;
  depth_items j j' : j' ∈ items j → depth j' ≤ depth j
}.

Module json_reader.
Section json_reader.
Context `{Json} {S : Type}.

(** The walk along the path: the last step is like the others. *)
Fixpoint walk (vpath : list str) (jv : json) : option json :=
  match vpath with
  | [] => Some jv
  | key :: vpath =>
      match lookup_key jv key with
      | Some jv => walk vpath jv
      | None => None
      end
  end.

(** [read(json, path)]: for a path without parts [vpath.size() - 1] wraps around and
    the loop reads past the vector. *)
Definition read (j : json) (path : str) : M S json :=
  match string_util.split path $"." with
  | [] => undefined
  | vpath => mret (default jnull (walk vpath j))
  end.

(** [read<Value>(json, path, default_value)] *)
Definition read_value {V} (get : json → option V) (j : json) (path : str) (default_value : V) : M S V :=
  jr ← read j path;
  if is_null jr then mret default_value
  else match get jr with
       | Some v => mret v
       | None => throw (std_exception $"type_error")
       end.
End json_reader.
End json_reader.

(** ** An instance: trees *)
Inductive tree :=
  | tnull
  | tbool (b : bool)
  | tint (n : Z)
  | tstring (s : str)
  | tarray (l : list tree)
  | tobject (l : list (str * tree)).

Fixpoint tree_depth (t : tree) : nat :=
  match t with
  | tarray l => S (list_max (map tree_depth l))
  | tobject l => S (list_max (map (λ kv, tree_depth kv.2) l))
  | _ => 0
  end.

Definition find_member (k : str) (l : list (str * tree)) : option tree :=
  snd <$> head (filter (λ kv, kv.1 = k) l).

#[export] Instance tree_Json : Json := {|
  json := tree;
  jnull := tnull;
  is_null j := match j with tnull => true | _ => false end;
  is_object j := match j with tobject _ => true | _ => false end;
  lookup_key j k := match j with tobject l => find_member k l | _ => None end;
  items j := match j with tnull => [] | tarray l => l | tobject l => map snd l | _ => [j] end;
  get_str j := match j with tstring s => Some s | _ => None end;
  get_int j := match j with tint n => Some n | _ => None end;
  depth := tree_depth
|}.

(** ** Lemmas *)
Lemma list_max_elem x l : x ∈ l → x ≤ list_max l.
Proof. induction 1; simpl; lia. Qed.

#[export] Instance tree_JsonLaws : JsonLaws.
Proof.
  split.
  - done.
  - done.
  - intros j k j' Hk. destruct j as [| | | |l|l]; simpl in *; try done.
    unfold find_member in Hk. destruct (head _) as [[k' t]|] eqn:Hh; simplify_eq/=.
    assert ((k', j') ∈ l) as Hin.
    { assert ((k', j') ∈ filter (λ kv : str * tree, kv.1 = k) l) as Hf.
      { destruct (filter _ l); simplify_eq/=. by left. }
      by apply list_elem_of_filter in Hf as [_ ?]. }
    apply Nat.lt_succ_r, list_max_elem, list_elem_of_fmap. by exists (k', j').
  - intros j j' Hi. destruct j as [| | | |l|l]; simpl in *.
    1-4: by (apply list_elem_of_singleton in Hi as -> || inversion Hi).
    + apply Nat.le_le_succ_r, list_max_elem, list_elem_of_fmap. by exists j'.
    + apply list_elem_of_fmap in Hi as ([k t] & -> & Hi).
      apply Nat.le_le_succ_r, list_max_elem, list_elem_of_fmap. by exists (k, t).
Qed.

Section facts.
Context `{JsonLaws} {S : Type}.

(** A path of one part is a member. *)
Lemma read_member j key (s : S) :
  string_util.split key $"." = [key] → json_reader.read j key s = (Ret (default jnull (lookup_key j key)), s).
Proof. unfold json_reader.read. intros ->. simpl. by destruct (lookup_key j key). Qed.

Lemma read_value_member {V} (get : json → option V) j key d v (s : S) :
  string_util.split key $"." = [key] →
  match lookup_key j key with
  | None => v = d
  | Some jv => is_null jv = false ∧ get jv = Some v
  end →
  json_reader.read_value get j key d s = (Ret v, s).
Proof.
  intros Hk Hv. unfold json_reader.read_value. rewrite (bind_run _ _ _ _ _ (read_member j key s Hk)).
  destruct (lookup_key j key) as [jv|]; simpl.
  - destruct Hv as [-> ->]. done.
  - by rewrite null_null, Hv.
Qed.

(** Reading changes nothing. *)
Lemma preserves_read (I : S → Prop) j pa : preserves I (json_reader.read j pa).
Proof. unfold json_reader.read. preserve. Qed.

Lemma preserves_read_value {V} (I : S → Prop) (get : json → option V) j pa d :
  preserves I (json_reader.read_value get j pa d).
Proof.
  unfold json_reader.read_value. apply preserves_bind; [apply preserves_read|]. intros jr. preserve.
Qed.
End facts.

#[export] Hint Resolve preserves_read preserves_read_value : play.
