(* ===== verification/ActPath.v ===== *)
(** * play/ensure: the paths of acts (act_ensure.cpp, struct path)

    An act is named by the names on the way to it: absolute paths begin with a
    slash, relative ones with a name. *)

From S2P Require Import Prelude.
From S2P Require Import StringUtil.
From Stdlib.Strings Require Import Ascii.
Import (notations) Ascii.

Definition slash : ascii := "/"%char.

Module path.
Section path.
Context `{Build} {S : Type}.

Record state := State { full_path_ : str; parts_ : list str; act_name_ : str }.

(** [setup(full_path)] *)
Definition setup (full_path : str) : M S state :=
  let parts := string_util.split full_path [slash] in
  match last parts with
  | None => throw (play_error $"invalid act_ensure path")
  | Some name => mret (State full_path parts name)
  end.

(** [is_absolute_path(path)], [is_relative_path(path)] *)
Definition is_absolute_path (path : str) : bool :=
  match path with c :: _ => bool_decide (c = slash) | [] => false end.
Definition is_relative_path (path : str) : bool :=
  match path with c :: _ => bool_decide (c ≠ slash) | [] => false end.

(** [get_last_act(path)] *)
Definition get_last_act (path : str) : M S str :=
  _ ← PLAY_CHECK (bool_decide (path ≠ []));
  deref (last (string_util.split path [slash])).

(** [is_child_of(self_path, path)]: a comparison of prefixes, character by character *)
Definition is_child_of (self_path path : str) : bool :=
  bool_decide (take (length self_path) path = self_path).

(** [get_child_path(self_path, path)]: [substr] beyond the end throws. *)
Definition get_child_path (self_path path : str) : M S str :=
  if is_child_of self_path path then
    if decide (length self_path + 1 ≤ length path) then mret (drop (length self_path + 1) path)
    else throw (std_exception $"out_of_range")
  else mret [].

(** [get_first_act(path)] *)
Definition get_first_act (pa : str) : M S str :=
  match pa with
  | [] => mret []
  | _ => p ← setup pa; deref (head (parts_ p))
  end.

(** The loop of [pop_head_act] over the parts behind the first. *)
Fixpoint join (parts : list str) : str :=
  match parts with
  | [] => []
  | [part] => part
  | part :: parts => part ++ slash :: join parts
  end.

(** [pop_head_act(path)], [get_child_path(path)] *)
Definition pop_head_act (pa : str) : M S str :=
  p ← setup pa;
  if decide (length (parts_ p) ≤ 1) then mret []
  else mret (join (tail (parts_ p))).
Definition child_path := pop_head_act.
End path.
End path.

(** ** Lemmas

    Names without slashes make paths that split into them again. *)
Definition is_name (n : str) : Prop := n ≠ [] ∧ slash ∉ n.
#[export] Instance is_name_dec n : Decision (is_name n).
Proof. unfold is_name. apply _. Defined.

(** The absolute path of a list of names. *)
Definition absolute (names : list str) : str := slash :: path.join names.

Lemma join_cons n names : names ≠ [] → path.join (n :: names) = n ++ slash :: path.join names.
Proof. by destruct names. Qed.

Lemma tokens_join names : Forall is_name names → tokens slash (path.join names) = names.
Proof.
  induction 1 as [|n names [Hne Hn] Hall IH]; [done|]. destruct names as [|m names].
  - simpl. by apply tokens_single.
  - rewrite join_cons by done. unfold tokens at 1. rewrite tokens_go_run by done. simpl app.
    rewrite decide_False by done. simpl in IH. by rewrite IH.
Qed.

Lemma split_join names : Forall is_name names → string_util.split (path.join names) [slash] = names.
Proof. intros Hn. rewrite split_tokens. by apply tokens_join. Qed.

Lemma split_absolute names : Forall is_name names → string_util.split (absolute names) [slash] = names.
Proof.
  intros Hn. rewrite split_tokens. unfold absolute, tokens. simpl.
  by apply tokens_join.
Qed.

Lemma join_head n names : is_name n → ∃ c r, path.join (n :: names) = c :: r ∧ c ≠ slash.
Proof.
  intros [Hne Hn]. destruct n as [|c n]; [done|]. exists c.
  destruct names as [|m names]; simpl; eexists; (split; [done|]); intros ->; apply Hn; by left.
Qed.

Lemma join_not_nil n names : is_name n → path.join (n :: names) ≠ [].
Proof. intros Hn. destruct (join_head n names Hn) as (c & r & -> & _). done. Qed.

Lemma relative_join n names : is_name n → path.is_relative_path (path.join (n :: names)) = true.
Proof.
  intros Hn. destruct (join_head n names Hn) as (c & r & -> & Hc). by apply bool_decide_true.
Qed.

Lemma absolute_absolute names : path.is_absolute_path (absolute names) = true.
Proof. by apply bool_decide_true. Qed.

Lemma join_app l1 l2 : l1 ≠ [] → l2 ≠ [] → path.join (l1 ++ l2) = path.join l1 ++ slash :: path.join l2.
Proof.
  intros H1 H2. induction l1 as [|n l1 IH]; [done|]. destruct l1 as [|m l1].
  - simpl app. by rewrite join_cons.
  - change ((n :: m :: l1) ++ l2) with (n :: ((m :: l1) ++ l2)).
    rewrite !join_cons by done. rewrite IH by done. by rewrite <-(assoc_L app).
Qed.

Section facts.
Context `{Build} {S : Type}.
Implicit Types s : S.

Lemma last_Some_default (l : list str) n : last (l ++ [n]) = Some n.
Proof. apply last_snoc. Qed.

Lemma setup_absolute names n s :
  Forall is_name (names ++ [n]) →
  path.setup (absolute (names ++ [n])) s = (Ret (path.State (absolute (names ++ [n])) (names ++ [n]) n), s).
Proof. intros Hn. unfold path.setup. rewrite split_absolute by done. by rewrite last_snoc. Qed.

Lemma setup_join names n s :
  Forall is_name (names ++ [n]) →
  path.setup (path.join (names ++ [n])) s = (Ret (path.State (path.join (names ++ [n])) (names ++ [n]) n), s).
Proof. intros Hn. unfold path.setup. rewrite split_join by done. by rewrite last_snoc. Qed.

Lemma first_act_join n names s :
  Forall is_name (n :: names) → path.get_first_act (path.join (n :: names)) s = (Ret n, s).
Proof.
  intros Hn. unfold path.get_first_act.
  assert (path.join (n :: names) ≠ []) as Hne by (apply join_not_nil; by inversion Hn).
  destruct (path.join (n :: names)) as [|c r] eqn:Hj; [done|]. rewrite <-Hj.
  destruct (exists_last (l := n :: names)) as (l & x & Hl); [done|]. rewrite Hl.
  rewrite (bind_run _ _ _ _ _ (setup_join l x s ltac:(by rewrite <-Hl))). simpl. by rewrite <-Hl.
Qed.

Lemma last_act_join names n s :
  Forall is_name (names ++ [n]) → path.get_last_act (path.join (names ++ [n])) s = (Ret n, s).
Proof.
  intros Hn. unfold path.get_last_act. rewrite (bind_run _ _ s tt s).
  - rewrite split_join by done. by rewrite last_snoc.
  - apply check_true, bool_decide_true. destruct names as [|m names]; apply join_not_nil; by inversion Hn.
Qed.

Lemma pop_head_join n names s :
  Forall is_name (n :: names) → path.pop_head_act (path.join (n :: names)) s = (Ret (path.join names), s).
Proof.
  intros Hn. unfold path.pop_head_act. destruct (exists_last (l := n :: names)) as (l & x & Hl); [done|].
  rewrite Hl. rewrite (bind_run _ _ _ _ _ (setup_join l x s ltac:(by rewrite <-Hl))).
  simpl path.parts_. rewrite <-Hl. simpl. destruct names as [|m names]; [done|].
  rewrite decide_False; [done|]. simpl. lia.
Qed.

(** A path that continues another one is its child, and the rest is the child path. *)
Lemma child_of_absolute self names :
  self ≠ [] → names ≠ [] → path.is_child_of (absolute self) (absolute (self ++ names)) = true.
Proof.
  intros H1 H2. apply bool_decide_true. unfold absolute. rewrite join_app by done.
  change (slash :: path.join self ++ slash :: path.join names)
    with ((slash :: path.join self) ++ slash :: path.join names). by apply take_app_exact.
Qed.

Lemma child_path_absolute self names s :
  self ≠ [] → names ≠ [] →
  path.get_child_path (absolute self) (absolute (self ++ names)) s = (Ret (path.join names), s).
Proof.
  intros H1 H2. unfold path.get_child_path. rewrite child_of_absolute by done.
  assert (absolute (self ++ names) = (absolute self ++ [slash]) ++ path.join names) as Heq.
  { unfold absolute. rewrite join_app by done. simpl. by rewrite <-(assoc_L app). }
  rewrite Heq. rewrite decide_True by (rewrite !length_app; simpl; lia).
  rewrite drop_app_exact; [done|]. by rewrite length_app.
Qed.

(** A path is a child of itself, and has no child path. *)
Lemma child_path_self p s : path.get_child_path p p s = (Throw (std_exception $"out_of_range"), s).
Proof.
  unfold path.get_child_path, path.is_child_of. rewrite bool_decide_true by apply take_ge, le_n.
  rewrite decide_False by lia. done.
Qed.

(** Any path splits into names, and there are no more of them than characters. *)
Lemma split_names pa : Forall is_name (string_util.split pa [slash]).
Proof. rewrite split_tokens. by apply tokens_go_ok, not_elem_of_nil. Qed.

Lemma length_split pa : length (string_util.split pa [slash]) ≤ length pa.
Proof.
  rewrite split_tokens. destruct (tokens_go_ok slash [] pa) as [Hf Hc]; [apply not_elem_of_nil|].
  change (tokens_go slash [] pa) with (tokens slash pa) in *.
  transitivity (length (concat (tokens slash pa))).
  - clear Hc. induction Hf as [|n l [Hn _] _ IH]; [done|]. simpl. rewrite length_app.
    destruct n; [done|]. simpl. lia.
  - rewrite Hc. simpl. apply length_filter.
Qed.

Lemma setup_parts pa s p s' :
  path.setup pa s = (Ret p, s') → s' = s ∧ path.parts_ p = string_util.split pa [slash] ∧ string_util.split pa [slash] ≠ [].
Proof. unfold path.setup. intros Hs. destruct (string_util.split pa [slash]) as [|n l]; [done|]. destruct (last _); [|done]. injection Hs as <- <-. done. Qed.

Lemma first_act_inv pa s n s' :
  path.get_first_act pa s = (Ret n, s') →
  s' = s ∧ match string_util.split pa [slash] with [] => pa = [] | m :: _ => n = m end.
Proof.
  unfold path.get_first_act. destruct pa as [|c pa]; [intros [= <- <-]; done|].
  unfold mbind, M_bind. destruct (path.setup (c :: pa) s) as [[p|e| |] s1] eqn:Hp; try done.
  apply setup_parts in Hp as (-> & -> & Hne). by destruct (string_util.split (c :: pa) [slash]); intros [= <- <-].
Qed.

Lemma pop_head_inv pa s q s' :
  path.pop_head_act pa s = (Ret q, s') →
  s' = s ∧ string_util.split pa [slash] ≠ [] ∧ q = path.join (tail (string_util.split pa [slash])).
Proof.
  unfold path.pop_head_act, mbind, M_bind. destruct (path.setup pa s) as [[p|e| |] s1] eqn:Hp; try done.
  apply setup_parts in Hp as (-> & -> & Hne). destruct (string_util.split pa [slash]) as [|n [|m l]]; try done.
  - by intros [= <- <-].
  - rewrite decide_False by (simpl; lia). by intros [= <- <-].
Qed.

Lemma child_path_inv self pa s q s' :
  path.get_child_path self pa s = (Ret q, s') → path.is_child_of self pa = true →
  s' = s ∧ length q + length self < length pa.
Proof.
  unfold path.get_child_path. intros Hr Hc. rewrite Hc in Hr. destruct (decide _); [|done]. injection Hr as <- <-.
  rewrite length_drop. split; [done|lia].
Qed.

Lemma preserves_setup (I : S → Prop) pa : preserves I (path.setup pa).
Proof. unfold path.setup. preserve. Qed.
Lemma preserves_last_act (I : S → Prop) pa : preserves I (path.get_last_act pa).
Proof. unfold path.get_last_act. preserve. Qed.
Lemma preserves_child_path (I : S → Prop) self pa : preserves I (path.get_child_path self pa).
Proof. unfold path.get_child_path. preserve. Qed.
Lemma preserves_first_act (I : S → Prop) pa : preserves I (path.get_first_act pa).
Proof.
  unfold path.get_first_act. destruct pa; [apply preserves_ret|].
  apply preserves_bind; [apply preserves_setup|]. intros p. apply preserves_deref.
Qed.
Lemma preserves_pop_head (I : S → Prop) pa : preserves I (path.pop_head_act pa).
Proof.
  unfold path.pop_head_act. apply preserves_bind; [apply preserves_setup|]. intros p. preserve.
Qed.
End facts.

#[export] Hint Resolve preserves_setup preserves_last_act preserves_child_path preserves_first_act
  preserves_pop_head : play.
