(* ===== verification/Acts.v ===== *)
(** * play/ensure: the acts of a flow

    act_ensure, act_composite, act_serial, act_parallel, flow, act_factory and the
    acts act_message and act_wait_duration.  The acts of a bot are a tree with
    pointers to the parent, built from JSON when a composite act is activated, and
    are kept in a store under their address; acts are never destroyed, since
    parent and child own each other.

    A virtual function is a match on the dynamic class, and the overriders take the
    virtual functions they call on other acts as arguments.  Calls down the tree have the
    depth of the JSON document as fuel, calls up the number of acts ever made. *)

From S2P Require Import Prelude.
From S2P Require Import Serializer.
From S2P Require Import StringUtil.
From S2P Require Import Json.
From S2P Require Import ActPath.

(** The classes of acts. *)
Inductive act_kind := message | wait_duration | serial | parallel | flow.
#[export] Instance act_kind_eq_dec : EqDecision act_kind.
Proof. solve_decision. Defined.

Module act_ensure.
Section act_ensure.
Context `{Build} `{Json}.

(** The data members of [act_ensure] and its subclasses; [started_] is the start of
    the stop watch. *)
Record state := State {
  kind_ : act_kind;
  name_ : str;
  parent_ : option nat;
  path_ : path.state;
  json_ : json;
  active_ : bool;
  active_count_ : nat;
  started_ : Z;
  acts_ : list nat;
  current_act_index_ : nat;
  duration_ : Z
}.

Definition set_active (b : bool) (s : state) : state :=
  State (kind_ s) (name_ s) (parent_ s) (path_ s) (json_ s) b (active_count_ s) (started_ s)
    (acts_ s) (current_act_index_ s) (duration_ s).
Definition set_active_count (n : nat) (s : state) : state :=
  State (kind_ s) (name_ s) (parent_ s) (path_ s) (json_ s) (active_ s) n (started_ s)
    (acts_ s) (current_act_index_ s) (duration_ s).
Definition set_acts (l : list nat) (s : state) : state :=
  State (kind_ s) (name_ s) (parent_ s) (path_ s) (json_ s) (active_ s) (active_count_ s)
    (started_ s) l (current_act_index_ s) (duration_ s).
Definition set_index (i : nat) (s : state) : state :=
  State (kind_ s) (name_ s) (parent_ s) (path_ s) (json_ s) (active_ s) (active_count_ s)
    (started_ s) (acts_ s) i (duration_ s).
Definition set_duration (d : Z) (s : state) : state :=
  State (kind_ s) (name_ s) (parent_ s) (path_ s) (json_ s) (active_ s) (active_count_ s)
    (started_ s) (acts_ s) (current_act_index_ s) d.

(** What an observer sees: messages in the log, and what the owner did. *)
Inductive event := shown (text : str) | timer_cancelled.

(** The acts, the factory, the clock in milliseconds and the events. *)
Record world := World {
  acts : gmap nat state;
  next_act : nat;
  creators_ : gmap str act_kind;
  now : Z;
  events : list event
}.
Definition set_store (m : gmap nat state) (w : world) : world :=
  World m (next_act w) (creators_ w) (now w) (events w).
Definition emit (e : event) (w : world) : world :=
  World (acts w) (next_act w) (creators_ w) (now w) (events w ++ [e]).

(** A member access through a pointer to an act. *)
Definition at_ (a : nat) : M world state := w ← get; deref (acts w !! a).
Definition update_ (a : nat) (f : state → state) : M world unit :=
  s ← at_ a; modify (λ w, set_store (<[a := f s]> (acts w)) w).

(** ** Construction *)

(** The loop of [build_path]: the names of the ancestors, the topmost first. *)
Fixpoint path_stack (fuel : nat) (parent : option nat) : M world (list str) :=
  match fuel, parent with
  | 0, _ => undefined
  | _, None => mret []
  | S fuel, Some p =>
      s ← at_ p;
      names ← path_stack fuel (parent_ s);
      mret (names ++ [name_ s])
  end.

(** [build_path()] *)
Definition build_path (parent : option nat) (name : str) : M world path.state :=
  w ← get;
  names ← path_stack (S (next_act w)) parent;
  path.setup (slash :: concat (map (λ n, n ++ [slash]) names) ++ name).

(** [on_load_json()] of the class [k], [None] being [act_ensure] itself *)
Definition on_load_json (k : option act_kind) (a : nat) : M world unit :=
  match k with
  | Some wait_duration =>
      s ← at_ a;
      d ← json_reader.read_value get_int (json_ s) $"duration" 0%Z;
      update_ a (set_duration d)
  | _ => mret tt
  end.

(** [load_json()]: called by the constructor of [act_ensure], when the object is no
    subclass yet. *)
Definition load_json (a : nat) : M world unit := on_load_json None a.

(** [act_ensure(owner, parent, json, name)] and the constructors of the subclasses;
    the members of a subclass are initialised afterwards. *)
Definition construct (k : act_kind) (parent : option nat) (j : json) (name : str) : M world nat :=
  p ← build_path parent name;
  w ← get;
  let a := next_act w in
  _ ← modify (λ w, World (<[a := State k name parent p j false 0 (now w) [] 0 0]> (acts w)) (S a)
                     (creators_ w) (now w) (events w));
  _ ← load_json a;
  mret a.

(** [act_factory::add_creator(type, fn)] and [act_factory::create(...)]; a creator is the class
    it constructs. *)
Definition add_creator (type : str) (k : act_kind) (m : gmap str act_kind) : gmap str act_kind :=
  match m !! type with None => <[type := k]> m | Some _ => m end.
Definition create (type : str) (parent : option nat) (j : json) (name : str) : M world (option nat) :=
  w ← get;
  match creators_ w !! type with
  | None => mret None
  | Some k => a ← construct k parent j name; mret (Some a)
  end.

(** ** act_composite *)

(** [get_json()["flow"]] on a constant document: a missing member is an assertion
    of the library, another type an exception. *)
Definition flow_of (j : json) : M world json :=
  match lookup_key j $"flow" with
  | Some f => mret f
  | None =>
      if is_object j then _ ← PLAY_CHECK false; undefined
      else throw (std_exception $"type_error")
  end.

(** The loop of [load_acts]: what was created before a failure stays. *)
Fixpoint load_each (a : nat) (l : list json) : M world bool :=
  match l with
  | [] => mret true
  | jact :: l =>
      type ← json_reader.read_value get_str jact $"type" [];
      name ← json_reader.read_value get_str jact $"name" [];
      ap ← create type (Some a) jact name;
      match ap with
      | Some ap => _ ← update_ a (λ s, set_acts (acts_ s ++ [ap]) s); load_each a l
      | None => mret false
      end
  end.

(** [load_acts()] *)
Definition load_acts (a : nat) : M world bool :=
  s ← at_ a;
  jflow ← flow_of (json_ s);
  if is_null jflow then mret false else load_each a (items jflow).

(** [act_serial::get_current_act()] *)
Definition get_current_act (a : nat) : M world nat :=
  s ← at_ a;
  _ ← PLAY_CHECK (current_act_index_ s <? length (acts_ s));
  deref (acts_ s !! current_act_index_ s).

(** [for (auto& ap : get_acts()) f(ap)]: when [f] extends the vector the loop runs on
    a dangling iterator. *)
Definition each_act (a : nat) (f : nat → M world unit) : M world unit :=
  s ← at_ a;
  for_each (acts_ s) (λ ap,
    _ ← f ap;
    s' ← at_ a;
    if decide (acts_ s' = acts_ s) then mret tt else undefined).

(** ** deactivate *)
Definition serial_on_deactivate (deactivate : nat → M world unit) (a : nat) : M world unit :=
  c ← get_current_act a; deactivate c.
Definition parallel_on_deactivate (deactivate : nat → M world unit) (a : nat) : M world unit :=
  each_act a deactivate.

(** [deactivate()]: [rec] is the call on other acts. *)
Definition deactivate_body (rec : nat → M world unit) (a : nat) : M world unit :=
  s ← at_ a;
  if active_ s then
    _ ← match kind_ s with
        | serial | flow => serial_on_deactivate rec a
        | parallel => parallel_on_deactivate rec a
        | message | wait_duration => mret tt
        end;
    update_ a (set_active false)
  else mret tt.
Fixpoint deactivate_fuel (fuel : nat) : nat → M world unit :=
  match fuel with
  | 0 => λ _, undefined
  | S fuel => deactivate_body (deactivate_fuel fuel)
  end.
Definition deactivate (a : nat) : M world unit :=
  s ← at_ a; deactivate_fuel (S (depth (json_ s))) a.

(** ** activate *)
Definition serial_on_activate (activate : nat → M world bool) (a : nat) : M world bool :=
  loaded ← load_acts a;
  if (loaded : bool) then
    c ← get_current_act a;
    s ← at_ a;
    first ← deref (acts_ s !! 0);
    _ ← PLAY_CHECK (c =? first);
    c ← get_current_act a;
    activate c
  else mret false.

Fixpoint activate_each (activate : nat → M world bool) (l : list nat) : M world bool :=
  match l with
  | [] => mret true
  | ap :: l =>
      rc ← activate ap;
      if (rc : bool) then activate_each activate l else mret false
  end.
Definition parallel_on_activate (activate : nat → M world bool) (a : nat) : M world bool :=
  loaded ← load_acts a;
  if (loaded : bool) then s ← at_ a; activate_each activate (acts_ s) else mret false.

Definition message_on_activate (a : nat) : M world bool :=
  s ← at_ a;
  text ← json_reader.read_value get_str (json_ s) $"message" [];
  _ ← modify (emit (shown text));
  mret true.

(** [activate()] *)
Definition activate_body (rec : nat → M world bool) (a : nat) : M world bool :=
  s ← at_ a;
  if active_ s then mret true
  else
    rc ← match kind_ s with
         | serial | flow => serial_on_activate rec a
         | parallel => parallel_on_activate rec a
         | message => message_on_activate a
         | wait_duration => mret true
         end;
    _ ← update_ a (λ s, if (rc : bool) then set_active_count (S (active_count_ s)) (set_active rc s)
                        else set_active rc s);
    mret rc.
Fixpoint activate_fuel (fuel : nat) : nat → M world bool :=
  match fuel with
  | 0 => λ _, undefined
  | S fuel => activate_body (activate_fuel fuel)
  end.
Definition activate (a : nat) : M world bool :=
  s ← at_ a; activate_fuel (S (depth (json_ s))) a.

(** ** jump, next, exit *)

(** [find_act(name)] of the composites *)
Fixpoint find_act (name : str) (i : nat) (l : list nat) : M world (option (nat * nat)) :=
  match l with
  | [] => mret None
  | a :: l =>
      s ← at_ a;
      if decide (name_ s = name) then mret (Some (i, a)) else find_act name (S i) l
  end.

(** [act_serial::jump_child(path)] *)
Definition serial_jump_child (a : nat) (pa : str) : M world unit :=
  first_act ← path.get_first_act pa;
  s ← at_ a;
  ia ← find_act first_act 0 (acts_ s);
  match ia with
  | Some (i, _) =>
      c ← get_current_act a;
      _ ← deactivate c;
      _ ← update_ a (set_index i);
      c ← get_current_act a;
      _ ← activate c;
      mret tt
  | None => mret tt
  end.

(** [act_parallel::jump_child(path)] *)
Definition parallel_jump_child (jump : nat → str → M world unit) (a : nat) (pa : str) : M world unit :=
  _ ← PLAY_CHECK (path.is_relative_path pa);
  first_act ← path.get_first_act pa;
  s ← at_ a;
  ia ← find_act first_act 0 (acts_ s);
  match ia with
  | Some (_, ap) => rest ← path.pop_head_act pa; jump ap rest
  | None => mret tt
  end.

(** The part [act_serial::jump] and [act_parallel::jump] share: relative paths and those
    below the act go to [jump_child], others to the parent. *)
Definition composite_jump (jump : nat → str → M world unit) (jump_child : str → M world unit)
    (a : nat) (pa : str) : M world unit :=
  if path.is_relative_path pa then jump_child pa
  else
    s ← at_ a;
    if path.is_child_of (path.full_path_ (path_ s)) pa then
      child ← path.get_child_path (path.full_path_ (path_ s)) pa;
      jump_child child
    else
      match parent_ s with
      | Some p => jump p pa
      | None => mret tt
      end.
Definition serial_jump (jump : nat → str → M world unit) (a : nat) (pa : str) : M world unit :=
  if decide (pa = []) then mret tt else composite_jump jump (serial_jump_child a) a pa.
Definition parallel_jump (jump : nat → str → M world unit) (a : nat) (pa : str) : M world unit :=
  composite_jump jump (parallel_jump_child jump a) a pa.

(** [jump(path)] *)
Definition jump_body (rec : nat → str → M world unit) (a : nat) (pa : str) : M world unit :=
  s ← at_ a;
  match kind_ s with
  | serial | flow => serial_jump rec a pa
  | parallel => parallel_jump rec a pa
  | message | wait_duration =>
      match parent_ s with
      | Some p => rec p pa
      | None => mret tt
      end
  end.
Fixpoint jump_fuel (fuel : nat) : nat → str → M world unit :=
  match fuel with
  | 0 => λ _ _, undefined
  | S fuel => jump_body (jump_fuel fuel)
  end.
Definition jump (a : nat) (pa : str) : M world unit :=
  w ← get; jump_fuel (2 * length pa + 2 * next_act w + 4) a pa.

(** [act_serial::next()], [act_parallel::next()] *)
Definition serial_next (a : nat) : M world unit :=
  c ← get_current_act a;
  _ ← deactivate c;
  _ ← update_ a (λ s, set_index (S (current_act_index_ s)) s);
  s ← at_ a;
  if decide (length (acts_ s) ≤ current_act_index_ s)
  then update_ a (λ s, set_index (current_act_index_ s - 1) s)
  else c ← get_current_act a; _ ← activate c; mret tt.
Definition parallel_next : M world unit := PLAY_CHECK false.

(** [next()] *)
Definition next_body (rec : nat → M world unit) (a : nat) : M world unit :=
  s ← at_ a;
  match kind_ s with
  | serial | flow => serial_next a
  | parallel => parallel_next
  | message | wait_duration =>
      match parent_ s with Some p => rec p | None => mret tt end
  end.
Fixpoint next_fuel (fuel : nat) : nat → M world unit :=
  match fuel with
  | 0 => λ _, undefined
  | S fuel => next_body (next_fuel fuel)
  end.
Definition next (a : nat) : M world unit := w ← get; next_fuel (S (next_act w)) a.

Section owner.
(** [get_owner().stop()] *)
Context (owner_stop : M world unit).

(** [exit()]: [flow::exit] stops the owner *)
Definition exit_body (rec : nat → M world unit) (a : nat) : M world unit :=
  s ← at_ a;
  match kind_ s with
  | flow => owner_stop
  | _ => match parent_ s with Some p => rec p | None => mret tt end
  end.
Fixpoint exit_fuel (fuel : nat) : nat → M world unit :=
  match fuel with
  | 0 => λ _, undefined
  | S fuel => exit_body (exit_fuel fuel)
  end.
Definition exit (a : nat) : M world unit := w ← get; exit_fuel (S (next_act w)) a.

(** [json_["slots"]]: null becomes an object, other types throw.  The null member that
    the operator inserts is not kept: only acts without children signal, and they read
    a null member as they read none. *)
Definition slots_of (j : json) : M world json :=
  if is_object j || is_null j then mret (default jnull (lookup_key j $"slots"))
  else throw (std_exception $"type_error").

(** [signal(sig, message)], [succed(message)], [fail(message)] *)
Definition signal (a : nat) (sig : str) : M world unit :=
  s ← at_ a;
  jslots ← slots_of (json_ s);
  if is_object jslots then
    jsig ← json_reader.read jslots sig;
    if is_object jsig then
      cmd ← json_reader.read_value get_str jsig $"cmd" [];
      if decide (cmd = $"jump") then
        target ← json_reader.read_value get_str jsig $"target" [];
        jump a target
      else if decide (cmd = $"next") then next a
      else if decide (cmd = $"exit") then exit a
      else mret tt
    else mret tt
  else mret tt.
Definition succed (a : nat) : M world unit := signal a $"success".
Definition fail (a : nat) : M world unit := signal a $"fail".

(** ** update *)
Definition message_on_update (a : nat) : M world unit := succed a.
Definition wait_on_update (a : nat) : M world unit :=
  s ← at_ a;
  w ← get;
  when (u64 (duration_ s) <=? now w - started_ s)%Z (succed a).
Definition serial_on_update (update : nat → M world unit) (a : nat) : M world unit :=
  c ← get_current_act a; update c.
Definition parallel_on_update (update : nat → M world unit) (a : nat) : M world unit :=
  each_act a update.

(** [update()] *)
Definition update_body (rec : nat → M world unit) (a : nat) : M world unit :=
  s ← at_ a;
  match kind_ s with
  | serial | flow => serial_on_update rec a
  | parallel => parallel_on_update rec a
  | message => message_on_update a
  | wait_duration => wait_on_update a
  end.
Fixpoint update_fuel (fuel : nat) : nat → M world unit :=
  match fuel with
  | 0 => λ _, undefined
  | S fuel => update_body (update_fuel fuel)
  end.
Definition update (a : nat) : M world unit :=
  s ← at_ a; update_fuel (S (depth (json_ s))) a.
End owner.

(** ** find *)

(** [is_self(path)] *)
Definition is_self (s : state) (pa : str) : M world bool :=
  if path.is_relative_path pa then
    l ← path.get_last_act pa; mret (bool_decide (l = path.act_name_ (path_ s)))
  else mret (bool_decide (pa = path.full_path_ (path_ s))).

(** [find_child(path)] of the composites, and of the others *)
Definition find_child (find : nat → str → M world (option nat)) (a : nat) (pa : str)
    : M world (option nat) :=
  s ← at_ a;
  match kind_ s with
  | serial | flow | parallel =>
      first_act ← path.get_first_act pa;
      ia ← find_act first_act 0 (acts_ s);
      match ia with
      | Some (_, c) => find c pa
      | None => mret None
      end
  | message | wait_duration => mret None
  end.

(** [find(path)], with [find_up(path)] *)
Definition find_body (rec : nat → str → M world (option nat)) (a : nat) (pa : str) : M world (option nat) :=
  if decide (pa = []) then mret None
  else
    s ← at_ a;
    self ← is_self s pa;
    if (self : bool) then mret (Some a)
    else if path.is_absolute_path pa then
      if path.is_child_of (path.full_path_ (path_ s)) pa then
        child_path ← path.get_child_path (path.full_path_ (path_ s)) pa;
        find_child rec a child_path
      else
        match parent_ s with
        | Some p => rec p pa
        | None => mret None
        end
    else
      _ ← PLAY_CHECK (path.is_relative_path pa);
      first_act ← path.get_first_act pa;
      if decide (first_act = path.act_name_ (path_ s)) then
        child_path ← path.child_path pa;
        find_child rec a child_path
      else find_child rec a pa.
Fixpoint find_fuel (fuel : nat) : nat → str → M world (option nat) :=
  match fuel with
  | 0 => λ _ _, undefined
  | S fuel => find_body (find_fuel fuel)
  end.
Definition find (a : nat) (pa : str) : M world (option nat) :=
  w ← get; find_fuel (length pa + next_act w + 2) a pa.
End act_ensure.
End act_ensure.
