(* ===== verification/ActFacts.v ===== *)
(** * The acts of a flow: the well-formed store, and what its operations keep *)

From S2P Require Import Prelude.
From S2P Require Import Serializer.
From S2P Require Import StringUtil.
From S2P Require Import Json.
From S2P Require Import ActPath.
From S2P Require Import Acts.
Import act_ensure.

Section well_formed.
Context `{Build} `{JsonLaws}.
Implicit Types (w : world) (s : state).

(** The classes that have children. *)
Definition is_composite (k : act_kind) : bool :=
  match k with serial | parallel | flow => true | message | wait_duration => false end.

(** [lineage w a names]: the names on the way from the topmost ancestor to [a]. *)
Inductive lineage w : nat → list str → Prop :=
  | lineage_root a s : acts w !! a = Some s → parent_ s = None → lineage w a [name_ s]
  | lineage_child a s p names : acts w !! a = Some s → parent_ s = Some p → p < a →
      lineage w p names → lineage w a (names ++ [name_ s]).

(** The store is well-formed: parents are older than their children; a path spells the
    names of the ancestors; the children of an act are acts that point to it, made
    from smaller documents; and only composites have children. *)
Record acts_ok w : Prop := {
  ok_fresh a s : acts w !! a = Some s → a < next_act w;
  ok_lineage a s : acts w !! a = Some s → ∃ names, lineage w a names ∧
    path.full_path_ (path_ s) = absolute names;
  ok_parts a s : acts w !! a = Some s →
    path.parts_ (path_ s) = string_util.split (path.full_path_ (path_ s)) [slash] ∧
    last (path.parts_ (path_ s)) = Some (path.act_name_ (path_ s));
  ok_child a s c : acts w !! a = Some s → c ∈ acts_ s → ∃ t, acts w !! c = Some t ∧
    parent_ t = Some a ∧ depth (json_ t) < depth (json_ s);
  ok_leaf a s : acts w !! a = Some s → is_composite (kind_ s) = false → acts_ s = [];
  ok_duration a s : acts w !! a = Some s → duration_ s = 0%Z
}.

(** The members that never change. *)
Definition same_act s t : Prop :=
  kind_ t = kind_ s ∧ name_ t = name_ s ∧ parent_ t = parent_ s ∧ path_ t = path_ s ∧
  json_ t = json_ s ∧ started_ t = started_ s ∧ duration_ t = duration_ s.

(** Acts are never destroyed, and keep these members. *)
Definition grows w w' : Prop :=
  next_act w ≤ next_act w' ∧ creators_ w' = creators_ w ∧ now w' = now w ∧
  ∀ a s, acts w !! a = Some s → ∃ t, acts w' !! a = Some t ∧ same_act s t.

#[export] Instance same_act_preorder : PreOrder same_act.
Proof.
  split; [intros s; by repeat split|]. unfold same_act. intros s t u. intuition congruence.
Qed.

#[export] Instance grows_preorder : PreOrder grows.
Proof.
  split.
  - intros w. split_and!; try done. intros a s Hs. exists s. split; [done|reflexivity].
  - intros w1 w2 w3 (?&?&?&H12) (?&?&?&H23). split_and!; try (lia || congruence). intros a s Hs.
    destruct (H12 a s Hs) as (t & Ht & ?). destruct (H23 a t Ht) as (u & Hu & ?).
    exists u. split; [done|]. by transitivity t.
Qed.

Lemma lineage_grows w w' a names : grows w w' → lineage w a names → lineage w' a names.
Proof.
  intros (_ & _ & _ & Hg). induction 1 as [a s Hs Hp|a s p names Hs Hp Hlt Hl IH];
    destruct (Hg _ _ Hs) as (t & Ht & _ & Hn & Hpar & _); rewrite <-Hn.
  - apply lineage_root; [done|congruence].
  - apply (lineage_child _ _ _ p); [done|congruence|done|done].
Qed.

(** An update of the members that may change. *)
Lemma acts_ok_update w a s t :
  acts_ok w → acts w !! a = Some s → same_act s t →
  (∀ c, c ∈ acts_ t → c ∈ acts_ s ∨ is_composite (kind_ s) = true ∧
     ∃ u, acts w !! c = Some u ∧ parent_ u = Some a ∧ depth (json_ u) < depth (json_ s)) →
  acts_ok (set_store (<[a := t]> (acts w)) w) ∧ grows w (set_store (<[a := t]> (acts w)) w).
Proof.
  intros Hok Hs Hsame Hacts. set (w' := set_store _ w).
  assert (∀ b u, acts w' !! b = Some u → ∃ u0, acts w !! b = Some u0 ∧ same_act u0 u ∧
    ∀ c, c ∈ acts_ u → c ∈ acts_ u0 ∨ is_composite (kind_ u0) = true ∧
      ∃ v, acts w !! c = Some v ∧ parent_ v = Some b ∧ depth (json_ v) < depth (json_ u0)) as Hback.
  { intros b u Hu. simpl in Hu. destruct (decide (b = a)) as [->|Hb].
    - rewrite lookup_insert_eq in Hu. injection Hu as <-. by exists s.
    - rewrite lookup_insert_ne in Hu by done. exists u. split_and!; [done|reflexivity|by left]. }
  assert (grows w w') as Hg.
  { split_and!; try done. intros b u Hu. simpl. destruct (decide (b = a)) as [->|Hb].
    - rewrite lookup_insert_eq. exists t. assert (u = s) as -> by congruence. done.
    - rewrite lookup_insert_ne by done. exists u. split; [done|reflexivity]. }
  split; [|done]. split.
  - intros b u Hu. destruct (Hback _ _ Hu) as (u0 & Hu0 & _). by apply (ok_fresh _ Hok b u0).
  - intros b u Hu. destruct (Hback _ _ Hu) as (u0 & Hu0 & (_ & _ & _ & Hp & _) & _). rewrite Hp.
    destruct (ok_lineage _ Hok b u0 Hu0) as (names & Hl & ?). exists names. split; [|done].
    by eapply lineage_grows.
  - intros b u Hu. destruct (Hback _ _ Hu) as (u0 & Hu0 & (_ & _ & _ & Hp & _) & _). rewrite Hp.
    by apply (ok_parts _ Hok b).
  - intros b u c Hu Hc. destruct (Hback _ _ Hu) as (u0 & Hu0 & (_ & _ & _ & _ & Hj & _) & Ha).
    assert (∃ v, acts w !! c = Some v ∧ parent_ v = Some b ∧ depth (json_ v) < depth (json_ u0))
      as (v & Hv & Hpar & Hd) by (destruct (Ha c Hc) as [Hin|[_ ?]]; [by apply (ok_child _ Hok b u0)|done]).
    destruct Hg as (_ & _ & _ & Hg). destruct (Hg _ _ Hv) as (v' & Hv' & _ & _ & Hp' & _ & Hj' & _).
    exists v'. split_and!; [done|congruence|congruence].
  - intros b u Hu Hk. destruct (Hback _ _ Hu) as (u0 & Hu0 & (Hkk & _) & Ha).
    pose proof (ok_leaf _ Hok b u0 Hu0) as Hleaf. rewrite Hkk in Hk. specialize (Hleaf Hk).
    destruct (acts_ u) as [|c l]; [done|]. destruct (Ha c) as [Hc|[? _]]; [by left| |congruence].
    rewrite Hleaf in Hc. by inversion Hc.
  - intros b u Hu. destruct (Hback _ _ Hu) as (u0 & Hu0 & (_ & _ & _ & _ & _ & _ & Hd) & _). rewrite Hd.
    by apply (ok_duration _ Hok b).
Qed.

(** A well-formed world that grew from [w0]. *)
Definition evolves w0 w : Prop := acts_ok w ∧ grows w0 w.

Lemma preserves_at w0 a : preserves (evolves w0) (at_ a).
Proof. apply preserves_bind; [apply preserves_get|]. intros w. apply preserves_deref. Qed.

Lemma act_at_spec w a s : acts w !! a = Some s → at_ a w = (Ret s, w).
Proof. intros Hs. unfold at_. run. by rewrite Hs. Qed.

Lemma act_update_spec w a s f :
  acts w !! a = Some s → update_ a f w = (Ret tt, set_store (<[a := f s]> (acts w)) w).
Proof. intros Hs. unfold update_. by rewrite (bind_run _ _ _ _ _ (act_at_spec _ _ _ Hs)). Qed.

Lemma act_at_none w a : acts w !! a = None → at_ a w = (Undefined, w).
Proof. intros Hs. unfold at_. run. by rewrite Hs. Qed.

Lemma preserves_update w0 a f :
  (∀ s, same_act s (f s) ∧ acts_ (f s) = acts_ s) → preserves (evolves w0) (update_ a f).
Proof.
  intros Hf w [Hok Hg]. destruct (acts w !! a) as [s|] eqn:Hs.
  - rewrite (act_update_spec _ _ _ _ Hs). simpl. destruct (Hf s) as [Hsame Hacts].
    destruct (acts_ok_update w a s (f s) Hok Hs Hsame) as [? ?]; [rewrite Hacts; by left|]. split; [done|].
    by transitivity w.
  - unfold update_. by rewrite (bind_stop _ _ _ _ _ (act_at_none _ _ Hs)).
Qed.

Lemma preserves_emit w0 e : preserves (evolves w0) (modify (emit e)).
Proof.
  apply preserves_modify. intros w [[O1 O2 O3 O4 O5 O6] Hg]. split; [|by destruct Hg].
  split; try done. intros a s Hs. destruct (O2 a s Hs) as (names & Hl & ?). exists names. split; [|done].
  eapply lineage_grows; [|exact Hl]. split_and!; try done. intros b u Hu. exists u. split; [done|reflexivity].
Qed.

(** Growing is judged from the world an operation starts in. *)
Lemma evolves_preserves {A} (m : M world A) :
  (∀ w, acts_ok w → evolves w (m w).2) → ∀ w0, preserves (evolves w0) m.
Proof.
  intros Hm w0 w [Hok Hg]. destruct (Hm w Hok) as [? ?]. split; [done|]. by transitivity w.
Qed.

Lemma preserves_evolves {A} (m : M world A) w :
  (∀ w0, preserves (evolves w0) m) → acts_ok w → evolves w (m w).2.
Proof. intros Hm Hok. apply Hm. split; [done|reflexivity]. Qed.

(** [build_path] finds the names of the ancestors. *)
Lemma path_stack_spec w p names fuel :
  lineage w p names → p + 2 ≤ fuel → path_stack fuel (Some p) w = (Ret names, w).
Proof.
  intros Hl. revert fuel. induction Hl as [a s Hs Hp|a s p names Hs Hp Hlt Hl IH]; intros fuel Hf;
    (destruct fuel as [|fuel]; [lia|]); cbn [path_stack]; rewrite (bind_run _ _ _ _ _ (act_at_spec _ _ _ Hs)).
  - destruct fuel as [|fuel]; [lia|]. rewrite Hp. by rewrite (bind_run _ _ w [] w).
  - rewrite Hp, (bind_run _ _ w names w) by (apply IH; lia). done.
Qed.

Lemma join_lineage names name :
  concat (map (λ n, n ++ [slash]) names) ++ name = path.join (names ++ [name]).
Proof.
  induction names as [|n names IH]; [done|]. simpl app. rewrite join_cons by (by destruct names).
  simpl concat. rewrite <-!(assoc_L app). by rewrite IH.
Qed.

(** What the constructor needs of the parent. *)
Definition names_of w (parent : option nat) (names : list str) : Prop :=
  match parent with None => names = [] | Some p => lineage w p names ∧ p < next_act w end.

Lemma build_path_spec w parent name names :
  names_of w parent names →
  build_path parent name w = path.setup (absolute (names ++ [name])) w.
Proof.
  intros Hn. unfold build_path, absolute. rewrite (bind_run _ _ w w w) by done.
  rewrite (bind_run _ _ w names w); [by rewrite join_lineage|]. destruct parent as [p|].
  - destruct Hn as [Hl Hp]. apply path_stack_spec; [done|lia].
  - by rewrite Hn.
Qed.

Lemma setup_inv pa w o w' :
  path.setup pa w = (o, w') → w' = w ∧ match o with
    | Ret p => path.full_path_ p = pa ∧ path.parts_ p = string_util.split pa [slash] ∧
        last (path.parts_ p) = Some (path.act_name_ p)
    | Throw e => last (string_util.split pa [slash]) = None
    | _ => False
    end.
Proof. unfold path.setup. intros Hs. destruct (last _) eqn:Hl; injection Hs as <- <-; done. Qed.

(** A new act. *)
Lemma acts_ok_new w k parent p j name names :
  acts_ok w → names_of w parent names →
  path.full_path_ p = absolute (names ++ [name]) →
  path.parts_ p = string_util.split (path.full_path_ p) [slash] →
  last (path.parts_ p) = Some (path.act_name_ p) →
  let w' := World (<[next_act w := State k name parent p j false 0 (now w) [] 0 0]> (acts w))
              (S (next_act w)) (creators_ w) (now w) (events w) in
  evolves w w'.
Proof.
  intros Hok Hn Hfull Hparts Hlast w'.
  assert (∀ b u, acts w !! b = Some u → acts w' !! b = Some u) as Hmono.
  { intros b u Hu. simpl. rewrite lookup_insert_ne; [done|]. pose proof (ok_fresh _ Hok b u Hu). lia. }
  assert (grows w w') as Hg.
  { split_and!; [simpl; lia|done|done|]. intros b u Hu. exists u. split; [by apply Hmono|reflexivity]. }
  split; [|done]. split; intros b u; [| | |intros c| |]; intros Hu; simpl in Hu;
    (destruct (decide (b = next_act w)) as [->|Hb];
     [rewrite lookup_insert_eq in Hu; injection Hu as <-; simpl|rewrite lookup_insert_ne in Hu by done]).
  - lia.
  - pose proof (ok_fresh _ Hok b u Hu). simpl. lia.
  - exists (names ++ [name]). split; [|done].
    change name with (name_ (State k name parent p j false 0 (now w) [] 0 0)).
    destruct parent as [q|]; simpl in Hn.
    + destruct Hn as [Hl Hq]. eapply lineage_child; [apply lookup_insert_eq|done|done|by eapply lineage_grows].
    + subst names. apply lineage_root; [apply lookup_insert_eq|done].
  - destruct (ok_lineage _ Hok b u Hu) as (ns & Hl & ?). exists ns. split; [by eapply lineage_grows|done].
  - done.
  - by apply (ok_parts _ Hok b).
  - intros Hc. by inversion Hc.
  - intros Hc. destruct (ok_child _ Hok b u c Hu Hc) as (t & Ht & ?). exists t. split; [by apply Hmono|done].
  - done.
  - by apply (ok_leaf _ Hok b).
  - done.
  - by apply (ok_duration _ Hok b).
Qed.

Lemma act_construct_spec w k parent j name :
  acts_ok w → (∀ q, parent = Some q → is_Some (acts w !! q)) →
  match construct k parent j name w with
  | (Ret b, w') => evolves w w' ∧ b = next_act w ∧ ∃ p, acts w' = <[b := State k name parent p j false 0 (now w) [] 0 0]> (acts w) ∧
      next_act w' = S b ∧ events w' = events w
  | (Throw _, w') => w' = w
  | _ => False
  end.
Proof.
  intros Hok Hpar.
  assert (∃ names, names_of w parent names) as [names Hn].
  { destruct parent as [q|]; [|by exists []]. destruct (Hpar q eq_refl) as [sq Hsq].
    destruct (ok_lineage _ Hok q sq Hsq) as (names & Hl & _). exists names. split; [done|by apply (ok_fresh _ Hok q sq)]. }
  unfold construct. pose proof (build_path_spec w parent name names Hn) as Hb.
  destruct (path.setup (absolute (names ++ [name])) w) as [o w1] eqn:Hs.
  apply setup_inv in Hs as [-> Ho]. destruct o as [p|e| |]; try done.
  - rewrite (bind_run _ _ w p w) by done. run. destruct Ho as (Hf & Hp & Hl).
    split; [|split; [done|by exists p]]. apply (acts_ok_new w k parent p j name names); try done.
    by rewrite Hp, Hf.
  - by rewrite (bind_stop _ _ w (Throw e) w).
Qed.

(** ** The operations keep the store well-formed *)

(** A composite act of the starting world. *)
Definition composite_at w0 (a : nat) (s0 : state) : Prop :=
  acts w0 !! a = Some s0 ∧ is_composite (kind_ s0) = true.

Lemma preserves_load_each w0 a s0 l :
  composite_at w0 a s0 → (∀ j, j ∈ l → depth j < depth (json_ s0)) →
  preserves (evolves w0) (load_each a l).
Proof.
  intros [Hs0 Hk] Hl. induction l as [|jact l IH]; [apply preserves_ret|]. cbn [load_each].
  apply preserves_bind; [apply preserves_read_value|]. intros type.
  apply preserves_bind; [apply preserves_read_value|]. intros name.
  apply triple_bind with (R := λ ap w, evolves w0 w ∧
    match ap with None => True | Some b => ∃ t, acts w !! b = Some t ∧ parent_ t = Some a ∧
      depth (json_ t) < depth (json_ s0) end).
  - intros w [Hok Hg]. unfold create. rewrite (bind_run _ _ w w w) by done.
    destruct (creators_ w !! type) as [k|]; [|by split].
    assert (∃ s, acts w !! a = Some s ∧ same_act s0 s) as (s & Hs & _) by (destruct Hg as (_ & _ & _ & Hg); by apply Hg).
    pose proof (act_construct_spec w k (Some a) jact name Hok) as Hc.
    destruct (construct k (Some a) jact name w) as [o w1] eqn:Hcons.
    assert (∀ q, Some a = Some q → is_Some (acts w !! q)) as Hq by (intros q [= <-]; by exists s).
    specialize (Hc Hq). destruct o as [b|e| |]; try done.
    + rewrite (bind_run _ _ _ _ _ Hcons). destruct Hc as ([? ?] & -> & p & Ha & _). simpl.
      split; [split; [done|by transitivity w]|]. eexists. split; [rewrite Ha; apply lookup_insert_eq|].
      simpl. split; [done|]. apply Hl. by left.
    + rewrite (bind_stop _ _ _ _ _ Hcons) by done. simpl. by subst w1.
  - intros [b|].
    2:{ intros w [Hw _]. done. }
    apply triple_bind with (R := λ _ w, evolves w0 w); [|intros _; apply IH; intros j Hj; apply Hl; by right].
    intros w ([Hok Hg] & t & Ht & Hpar & Hd). destruct Hg as (Hn & Hcr & Hnow & Hacts).
    destruct (Hacts a s0 Hs0) as (s & Hs & Hsame).
    rewrite (act_update_spec _ _ _ _ Hs). simpl.
    destruct (acts_ok_update w a s (set_acts (acts_ s ++ [b]) s) Hok Hs) as [Hok' Hg']; [by repeat split| |].
    + intros c Hc. simpl in Hc. apply elem_of_app in Hc as [Hc|Hc]; [by left|].
      apply list_elem_of_singleton in Hc as ->. right.
      destruct Hsame as (Hkk & _ & _ & _ & Hj & _). rewrite Hkk, Hj. split; [done|by exists t].
    + split; [done|]. by transitivity w.
Qed.

(** A composite without a flow. *)
Lemma flow_of_none j w :
  lookup_key j $"flow" = None → ∃ o, flow_of j w = (o, w) ∧ ∀ f, o ≠ Ret f.
Proof.
  intros Hf. unfold flow_of. rewrite Hf. unfold PLAY_CHECK. destruct (is_object j).
  - run. destruct assertions; by eexists.
  - by eexists.
Qed.

Lemma load_acts_evolves w a s :
  acts_ok w → composite_at w a s → evolves w (load_acts a w).2.
Proof.
  intros Hok Hc. pose proof Hc as [Hs Hk]. unfold load_acts. rewrite (bind_run _ _ _ _ _ (act_at_spec _ _ _ Hs)).
  unfold flow_of. destruct (lookup_key (json_ s) $"flow") as [f|] eqn:Hf.
  - rewrite (bind_run _ _ w f w) by done. destruct (is_null f); [split; [done|reflexivity]|].
    apply (preserves_load_each w a s); [done| |split; [done|reflexivity]].
    intros j Hj. apply depth_items in Hj. apply depth_key in Hf. lia.
  - destruct (flow_of_none (json_ s) w Hf) as (o & Ho & Hn). unfold flow_of in Ho. rewrite Hf in Ho.
    rewrite (bind_stop _ _ _ _ _ Ho Hn). split; [done|reflexivity].
Qed.

Lemma preserves_get_current w0 a : preserves (evolves w0) (get_current_act a).
Proof.
  apply preserves_bind; [apply preserves_at|]. intros s. apply preserves_bind; [apply preserves_check|].
  intros _. apply preserves_deref.
Qed.

Lemma preserves_each w0 a f :
  (∀ c, preserves (evolves w0) (f c)) → preserves (evolves w0) (each_act a f).
Proof.
  intros Hf. apply preserves_bind; [apply preserves_at|]. intros s. apply preserves_for_each. intros c _.
  apply preserves_bind; [done|]. intros _. apply preserves_bind; [apply preserves_at|]. intros s'.
  destruct (decide _); [apply preserves_ret|apply preserves_undefined].
Qed.

Lemma same_set_active b s : same_act s (set_active b s) ∧ acts_ (set_active b s) = acts_ s.
Proof. by repeat split. Qed.
Lemma same_set_index i s : same_act s (set_index i s) ∧ acts_ (set_index i s) = acts_ s.
Proof. by repeat split. Qed.

Lemma preserves_deactivate_fuel w0 fuel a : preserves (evolves w0) (deactivate_fuel fuel a).
Proof.
  revert a. induction fuel as [|fuel IH]; intros a; [apply preserves_undefined|]. cbn [deactivate_fuel]; unfold deactivate_body.
  apply preserves_bind; [apply preserves_at|]. intros s. apply preserves_if; [|apply preserves_ret].
  apply preserves_bind; [|intros _; apply preserves_update; intros t; apply same_set_active].
  destruct (kind_ s); try apply preserves_ret.
  - apply preserves_bind; [apply preserves_get_current|apply IH].
  - by apply preserves_each.
  - apply preserves_bind; [apply preserves_get_current|apply IH].
Qed.

Lemma preserves_deactivate w0 a : preserves (evolves w0) (deactivate a).
Proof. apply preserves_bind; [apply preserves_at|]. intros s. apply preserves_deactivate_fuel. Qed.

Lemma preserves_activate_each w0 f l :
  (∀ c, preserves (evolves w0) (f c)) → preserves (evolves w0) (activate_each f l).
Proof.
  intros Hf. induction l as [|c l IH]; [apply preserves_ret|]. cbn [activate_each].
  apply preserves_bind; [done|]. intros rc. apply preserves_if; [done|apply preserves_ret].
Qed.

(** The composites load, then go on. *)
Lemma evolves_load w0 w a s {A} (k : bool → M world A) :
  evolves w0 w → composite_at w a s → (∀ b, preserves (evolves w0) (k b)) →
  evolves w0 ((load_acts a ≫= k) w).2.
Proof.
  intros [Hok Hg] Hc Hk. destruct (load_acts_evolves w a s Hok Hc) as [Hok' Hg'].
  unfold mbind, M_bind. destruct (load_acts a w) as [[b|e| |] w']; simpl in *;
    [|split; [done|by transitivity w]..].
  apply Hk. split; [done|by transitivity w].
Qed.

Lemma serial_on_activate_evolves w0 w a s f :
  evolves w0 w → acts w !! a = Some s → is_composite (kind_ s) = true →
  (∀ c, preserves (evolves w0) (f c)) → evolves w0 (serial_on_activate f a w).2.
Proof.
  intros Hw Hs Hk Hf. apply (evolves_load w0 w a s); [done|by split|]. intros b.
  apply preserves_if; [|apply preserves_ret].
  apply preserves_bind; [apply preserves_get_current|]. intros c.
  apply preserves_bind; [apply preserves_at|]. intros t.
  apply preserves_bind; [apply preserves_deref|]. intros first.
  apply preserves_bind; [apply preserves_check|]. intros _.
  apply preserves_bind; [apply preserves_get_current|]. apply Hf.
Qed.

Lemma parallel_on_activate_evolves w0 w a s f :
  evolves w0 w → acts w !! a = Some s → is_composite (kind_ s) = true →
  (∀ c, preserves (evolves w0) (f c)) → evolves w0 (parallel_on_activate f a w).2.
Proof.
  intros Hw Hs Hk Hf. apply (evolves_load w0 w a s); [done|by split|]. intros b.
  apply preserves_if; [|apply preserves_ret]. apply preserves_bind; [apply preserves_at|]. intros t.
  by apply preserves_activate_each.
Qed.

Lemma preserves_activate_fuel w0 fuel a : preserves (evolves w0) (activate_fuel fuel a).
Proof.
  revert a. induction fuel as [|fuel IH]; intros a; [apply preserves_undefined|]. cbn [activate_fuel]; unfold activate_body.
  intros w Hw. destruct (acts w !! a) as [s|] eqn:Hs.
  2:{ by rewrite (bind_stop _ _ _ _ _ (act_at_none _ _ Hs)). }
  rewrite (bind_run _ _ _ _ _ (act_at_spec _ _ _ Hs)). destruct (active_ s); [done|].
  match goal with |- evolves w0 ((?m ≫= ?k) w).2 =>
    assert (evolves w0 (m w).2) as Hm; [|assert (∀ rc, preserves (evolves w0) (k rc)) as Hk] end.
  - destruct (kind_ s) eqn:Hk.
    + unfold message_on_activate. rewrite (bind_run _ _ _ _ _ (act_at_spec _ _ _ Hs)).
      apply (preserves_bind (evolves w0)); [apply preserves_read_value| |done]. intros text.
      apply preserves_bind; [apply preserves_emit|]. intros _. apply preserves_ret.
    + done.
    + apply serial_on_activate_evolves with s; [done|done|by rewrite Hk|done].
    + apply parallel_on_activate_evolves with s; [done|done|by rewrite Hk|done].
    + apply serial_on_activate_evolves with s; [done|done|by rewrite Hk|done].
  - intros rc. apply preserves_bind; [|intros _; apply preserves_ret].
    apply preserves_update. intros t. by destruct rc.
  - unfold mbind, M_bind. destruct (_ w) as [[rc|e| |] w'] eqn:He; simpl in Hm; try done. by apply Hk.
Qed.
Lemma preserves_activate w0 a : preserves (evolves w0) (activate a).
Proof. apply preserves_bind; [apply preserves_at|]. intros s. apply preserves_activate_fuel. Qed.

Lemma preserves_find_act w0 name i l : preserves (evolves w0) (find_act name i l).
Proof.
  revert i. induction l as [|c l IH]; intros i; [apply preserves_ret|]. cbn [find_act].
  apply preserves_bind; [apply preserves_at|]. intros s. destruct (decide _); [apply preserves_ret|apply IH].
Qed.

(** [act_keep] goes along the structure of an operation and closes the steps that have
    a lemma. *)
Ltac act_keep_step :=
  match goal with
  | |- preserves _ (deactivate _) => apply preserves_deactivate
  | |- preserves _ (activate _) => apply preserves_activate
  | |- preserves _ (get_current_act _) => apply preserves_get_current
  | |- preserves _ (find_act _ _ _) => apply preserves_find_act
  | |- preserves _ (at_ _) => apply preserves_at
  | |- preserves _ (update_ _ _) => apply preserves_update; intros ?; by repeat split
  | |- preserves _ (each_act _ _) => apply preserves_each
  | |- preserves _ (json_reader.read _ _) => apply preserves_read
  | |- preserves _ (json_reader.read_value _ _ _ _) => apply preserves_read_value
  | _ => preserve_step
  end.
Ltac act_keep := repeat act_keep_step.

Lemma preserves_serial_jump_child w0 a pa : preserves (evolves w0) (serial_jump_child a pa).
Proof. unfold serial_jump_child. act_keep. Qed.

Lemma preserves_jump_fuel w0 fuel a pa : preserves (evolves w0) (jump_fuel fuel a pa).
Proof.
  revert a pa. induction fuel as [|fuel IH]; intros a pa; [apply preserves_undefined|]. cbn [jump_fuel]; unfold jump_body.
  unfold serial_jump, parallel_jump, composite_jump, parallel_jump_child. act_keep;
    solve [apply IH|apply preserves_serial_jump_child].
Qed.

Lemma preserves_jump w0 a pa : preserves (evolves w0) (jump a pa).
Proof. apply preserves_bind; [apply preserves_get|]. intros w. apply preserves_jump_fuel. Qed.

Lemma preserves_serial_next w0 a : preserves (evolves w0) (serial_next a).
Proof. unfold serial_next. act_keep. Qed.

Lemma preserves_next w0 a : preserves (evolves w0) (next a).
Proof.
  apply preserves_bind; [apply preserves_get|]. intros w. generalize (S (next_act w)) as fuel. revert a.
  intros a fuel. revert a. induction fuel as [|fuel IH]; intros a; [apply preserves_undefined|].
  cbn [next_fuel]; unfold next_body. act_keep; solve [apply IH|apply preserves_serial_next|apply preserves_check].
Qed.

Section owner.
Context (owner_stop : M world unit) (w0 : world).
Context (Howner : preserves (evolves w0) owner_stop).

Lemma preserves_exit a : preserves (evolves w0) (exit owner_stop a).
Proof.
  apply preserves_bind; [apply preserves_get|]. intros w. generalize (S (next_act w)) as fuel. revert a.
  intros a fuel. revert a. induction fuel as [|fuel IH]; intros a; [apply preserves_undefined|].
  cbn [exit_fuel]; unfold exit_body. act_keep; solve [apply IH|done].
Qed.

Lemma preserves_signal a sig : preserves (evolves w0) (signal owner_stop a sig).
Proof.
  unfold signal, slots_of. act_keep;
    solve [apply preserves_jump|apply preserves_next|apply preserves_exit].
Qed.

Lemma preserves_update_fuel fuel a : preserves (evolves w0) (update_fuel owner_stop fuel a).
Proof.
  revert a. induction fuel as [|fuel IH]; intros a; [apply preserves_undefined|]. cbn [update_fuel]; unfold update_body.
  unfold message_on_update, wait_on_update, serial_on_update, parallel_on_update, succed.
  act_keep; solve [apply IH|apply preserves_signal].
Qed.

Lemma preserves_update_act a : preserves (evolves w0) (update owner_stop a).
Proof. apply preserves_bind; [apply preserves_at|]. intros s. apply preserves_update_fuel. Qed.
End owner.

Lemma preserves_construct w0 k parent j name :
  (∀ q, parent = Some q → is_Some (acts w0 !! q)) → preserves (evolves w0) (construct k parent j name).
Proof.
  intros Hpar w [Hok Hg]. pose proof (act_construct_spec w k parent j name Hok) as Hc.
  destruct (construct k parent j name w) as [o w'].
  assert (∀ q, parent = Some q → is_Some (acts w !! q)) as Hq.
  { intros q Hq. destruct (Hpar q Hq) as [s Hs]. destruct Hg as (_ & _ & _ & Hg).
    destruct (Hg q s Hs) as (t & Ht & _). by exists t. }
  specialize (Hc Hq). destruct o as [b|e| |]; try done.
  - destruct Hc as ([? ?] & _). split; [done|by transitivity w].
  - by subst w'.
Qed.
End well_formed.

#[export] Hint Resolve preserves_at preserves_emit : play.

(** ** Properties *)

(** C20. The tree of acts is well-formed at all times: every act has a unique line of
    ancestors whose names its path spells, its children point back to it and come
    from smaller documents, and only composites have children.  Constructing an
    act, activating, updating (with the signals in it), deactivating, jumping, moving on and
    exiting keep this however they end, keep every act with its class, name, parent, path and
    document, and an act that waits never gets the duration its document asks
    for: it stays 0. *)
Theorem act_tree_well_formed `{Build} `{JsonLaws} (w : world) (owner_stop : M world unit) :
  acts_ok w → (∀ w0, preserves (evolves w0) owner_stop) →
  (∀ k parent j name, (∀ q, parent = Some q → is_Some (acts w !! q)) →
     evolves w (construct k parent j name w).2) ∧
  (∀ a, evolves w (activate a w).2 ∧ evolves w (deactivate a w).2 ∧
     evolves w (update owner_stop a w).2 ∧ evolves w (next a w).2 ∧ evolves w (exit owner_stop a w).2) ∧
  (∀ a pa, evolves w (jump a pa w).2) ∧
  ∀ a s, acts w !! a = Some s → kind_ s = wait_duration → (started_ s ≤ now w)%Z →
    update owner_stop a w = succed owner_stop a w.
Proof.
  intros Hok Howner. assert (evolves w w) as Hw by (split; [done|reflexivity]). split_and!.
  - intros k parent j name Hpar. by apply (preserves_construct w).
  - intros a. split_and!.
    + by apply preserves_activate.
    + by apply preserves_deactivate.
    + by apply preserves_update_act.
    + by apply preserves_next.
    + by apply preserves_exit.
  - intros a pa. by apply preserves_jump.
  - intros a s Hs Hk Ht. unfold update. rewrite (bind_run _ _ _ _ _ (act_at_spec _ _ _ Hs)).
    cbn [update_fuel]; unfold update_body. rewrite (bind_run _ _ _ _ _ (act_at_spec _ _ _ Hs)), Hk. unfold wait_on_update.
    rewrite (bind_run _ _ _ _ _ (act_at_spec _ _ _ Hs)). rewrite (bind_run _ _ w w w) by done.
    rewrite (ok_duration _ Hok a s Hs). unfold when. rewrite (proj2 (Z.leb_le _ _)); [done|].
    change (u64 0) with 0%Z. lia.
Qed.

(** An empty store. *)
Definition empty_world `{Json} (creators : gmap str act_kind) : world := World ∅ 1 creators 0 [].
Lemma empty_world_ok `{JsonLaws} creators : acts_ok (empty_world creators).
Proof. by split. Qed.

Lemma act_tree_well_formed_witness :
  let _ := debug_build in
  let _ := tree_Json in
  evolves (empty_world ∅) (construct wait_duration None (tobject [($"duration", tint 5000)]) $"wait" (empty_world ∅)).2.
Proof.
  intros d. destruct (act_tree_well_formed (empty_world ∅) (mret tt)) as (Hc & _).
  - apply empty_world_ok.
  - intros w0. apply preserves_ret.
  - by apply Hc.
Defined.
