(* ===== verification/ActFind.v ===== *)
(** * Finding acts by their path, and where paths and activation go wrong *)

From S2P Require Import Prelude.
From S2P Require Import Serializer.
From S2P Require Import StringUtil.
From S2P Require Import Json.
From S2P Require Import ActPath.
From S2P Require Import Acts.
From S2P Require Import ActFacts.
Import act_ensure.

Section find.
Context `{Build} `{JsonLaws}.
Implicit Types (w : world) (s : state).

(** What a path means: from an act down its children, by name, the first child of a
    name counting. *)
Definition name_of w (a : nat) : option str := name_ <$> acts w !! a.
Definition child_named w (n : str) (l : list nat) : option nat :=
  head (filter (λ c, name_of w c = Some n) l).
Definition children_of w (a : nat) : list nat := default [] (acts_ <$> acts w !! a).
Fixpoint descend w (a : nat) (names : list str) : option nat :=
  match names with
  | [] => Some a
  | n :: names =>
      match child_named w n (children_of w a) with
      | Some c => descend w c names
      | None => None
      end
  end.

(** The last name of a path occurs nowhere else in it. *)
Definition last_unique (names : list str) : Prop :=
  ∀ n, last names = Some n → n ∉ removelast names.

Lemma last_unique_cons n m names : last_unique (n :: m :: names) → last_unique (m :: names).
Proof.
  intros Hu x Hx Hin. apply (Hu x); [done|]. change (removelast (n :: m :: names)) with (n :: removelast (m :: names)).
  by right.
Qed.

Lemma last_unique_ne n m names x : last_unique (n :: m :: names) → last (m :: names) = Some x → x ≠ n.
Proof.
  intros Hu Hx ->. apply (Hu n); [done|]. change (removelast (n :: m :: names)) with (n :: removelast (m :: names)).
  by left.
Qed.

Lemma find_act_spec w n i l :
  (∀ c, c ∈ l → is_Some (acts w !! c)) →
  ∃ o, find_act n i l w = (Ret o, w) ∧ snd <$> o = child_named w n l ∧
    ∀ j c, o = Some (j, c) → i ≤ j ∧ l !! (j - i) = Some c.
Proof.
  unfold child_named. revert i. induction l as [|c l IH]; intros i Hl; [by exists None|].
  destruct (Hl c) as [s Hs]; [by left|]. cbn [find_act]. rewrite (bind_run _ _ _ _ _ (act_at_spec _ _ _ Hs)).
  rewrite filter_cons. assert (name_of w c = Some (name_ s)) as Hn by (unfold name_of; by rewrite Hs).
  destruct (decide (name_ s = n)) as [<-|Hne].
  - exists (Some (i, c)). rewrite decide_True by done. split_and!; [done|done|].
    intros j b [= <- <-]. split; [lia|]. by rewrite Nat.sub_diag.
  - destruct (IH (S i)) as (o & Ho & Hsnd & Hj); [intros; apply Hl; by right|].
    exists o. rewrite decide_False by congruence. split_and!; [done|done|].
    intros j b Hob. destruct (Hj j b Hob) as [? Hb]. split; [lia|].
    replace (j - i) with (S (j - S i)) by lia. done.
Qed.

(** The name an act goes by in relative paths is its own, when it has no slash. *)
Lemma tokens_go_app d cur (s r : str) :
  tokens_go d cur (s ++ d :: r) = tokens_go d cur s ++ tokens d r.
Proof.
  revert cur. induction s as [|c s IH]; intros cur; simpl; [by rewrite decide_True by done|].
  destruct (decide (c = d)); rewrite IH; [by rewrite (assoc_L app)|done].
Qed.

Lemma last_split_absolute names n :
  is_name n → last (string_util.split (absolute (names ++ [n])) [slash]) = Some n.
Proof.
  intros [Hne Hn]. rewrite split_tokens. unfold absolute. destruct names as [|m names].
  - change (slash :: path.join ([] ++ [n])) with ([] ++ slash :: n).
    unfold tokens. rewrite tokens_go_app. rewrite tokens_single by done. done.
  - rewrite join_app by done. simpl path.join at 2.
    rewrite (app_comm_cons (path.join (m :: names))). unfold tokens. rewrite tokens_go_app.
    rewrite tokens_single by done. apply last_snoc.
Qed.

Lemma act_name_spec w a s :
  acts_ok w → acts w !! a = Some s → is_name (name_ s) → path.act_name_ (path_ s) = name_ s.
Proof.
  intros Hok Hs Hn. destruct (ok_parts _ Hok a s Hs) as [Hp Hl].
  destruct (ok_lineage _ Hok a s Hs) as (names & Hlin & Hf). rewrite Hp, Hf in Hl.
  assert (∃ ns, names = ns ++ [name_ s]) as [ns ->].
  { destruct Hlin as [a t Ht _|a t p ns Ht _ _ _]; assert (t = s) as -> by congruence; [by exists []|by exists ns]. }
  rewrite last_split_absolute in Hl by done. by injection Hl.
Qed.

Lemma child_named_elem w n l c : child_named w n l = Some c → c ∈ l ∧ name_of w c = Some n.
Proof.
  unfold child_named. intros Hc. assert (c ∈ filter (λ c, name_of w c = Some n) l) as Hin.
  { destruct (filter _ l); simplify_eq/=. by left. }
  apply list_elem_of_filter in Hin as [? ?]. done.
Qed.

(** [find_child] looks for the first name, and leaves the rest to the child. *)
Lemma find_child_spec w find a s n names :
  acts_ok w → acts w !! a = Some s → Forall is_name (n :: names) →
  find_child find a (path.join (n :: names)) w =
    match child_named w n (acts_ s) with
    | Some c => find c (path.join (n :: names)) w
    | None => (Ret None, w)
    end.
Proof.
  intros Hok Hs Hn. unfold find_child. rewrite (bind_run _ _ _ _ _ (act_at_spec _ _ _ Hs)).
  destruct (is_composite (kind_ s)) eqn:Hk.
  - assert ((first_act ← path.get_first_act (path.join (n :: names));
      ia ← find_act first_act 0 (acts_ s);
      match ia with Some (_, c) => find c (path.join (n :: names)) | None => mret None end) w =
      match child_named w n (acts_ s) with
      | Some c => find c (path.join (n :: names)) w
      | None => (Ret None, w)
      end) as Hc.
    { rewrite (bind_run _ _ _ _ _ (first_act_join n names w Hn)).
      destruct (find_act_spec w n 0 (acts_ s)) as (o & Ho & Hsnd & _).
      { intros c Hc. destruct (ok_child _ Hok a s c Hs Hc) as (t & Ht & _). by exists t. }
      rewrite (bind_run _ _ _ _ _ Ho). rewrite <-Hsnd. by destruct o as [[i c]|]. }
    destruct (kind_ s); done.
  - rewrite (ok_leaf _ Hok a s Hs Hk). by destruct (kind_ s).
Qed.

(** One step of [find] with a relative path that does not end in the act itself. *)
Lemma find_step w a s n rest fuel :
  acts_ok w → acts w !! a = Some s → is_name (name_ s) → Forall is_name (n :: rest) →
  (∀ x, last (n :: rest) = Some x → x ≠ name_ s) →
  find_fuel (S fuel) a (path.join (n :: rest)) w
  = find_child (find_fuel fuel) a (path.join (if decide (n = name_ s) then rest else n :: rest)) w.
Proof.
  intros Hok Hs Hname Hnames Hlast. cbn [find_fuel]; unfold find_body. pose proof (Forall_inv Hnames) as Hnn.
  pose proof (act_name_spec w a s Hok Hs Hname) as Hact.
  rewrite decide_False by (by apply join_not_nil). rewrite (bind_run _ _ _ _ _ (act_at_spec _ _ _ Hs)).
  unfold is_self. rewrite relative_join by done.
  destruct (exists_last (l := n :: rest)) as (l & x & Hl); [done|].
  assert (path.get_last_act (path.join (n :: rest)) w = (Ret x, w)) as Hx
    by (rewrite Hl in Hnames |- *; by apply last_act_join).
  rewrite (bind_run _ _ w false w).
  2:{ rewrite (bind_run _ _ _ _ _ Hx). rewrite bool_decide_false; [done|]. rewrite Hact.
      apply Hlast. rewrite Hl. apply last_snoc. }
  assert (path.is_absolute_path (path.join (n :: rest)) = false) as ->.
  { destruct (join_head n rest Hnn) as (ch & r & -> & Hc). by apply bool_decide_false. }
  rewrite (bind_run _ _ w tt w) by (by apply check_true).
  rewrite (bind_run _ _ _ _ _ (first_act_join _ _ w Hnames)). rewrite Hact.
  destruct (decide (n = name_ s)) as [->|]; [|done].
  unfold path.child_path. by rewrite (bind_run _ _ _ _ _ (pop_head_join _ _ w Hnames)).
Qed.

Lemma find_below w c n rest fuel :
  acts_ok w → name_of w c = Some n → Forall is_name (n :: rest) → last_unique (n :: rest) →
  length rest < fuel →
  find_fuel fuel c (path.join (n :: rest)) w = (Ret (descend w c rest), w).
Proof.
  intros Hok. revert c n fuel. induction rest as [|m rest IH]; intros c n fuel Hn Hnames Hu Hf;
    (destruct fuel as [|fuel]; [simpl in Hf; lia|]);
    pose proof (Forall_inv Hnames) as Hnn;
    (unfold name_of in Hn; destruct (acts w !! c) as [s|] eqn:Hs; [|done]); injection Hn as <-.
  - pose proof (act_name_spec w c s Hok Hs Hnn) as Hact. cbn [find_fuel]; unfold find_body.
    rewrite decide_False by (by apply join_not_nil).
    rewrite (bind_run _ _ _ _ _ (act_at_spec _ _ _ Hs)). unfold is_self. rewrite relative_join by done.
    rewrite (bind_run _ _ w true w); [done|].
    rewrite (bind_run _ _ _ _ _ (last_act_join [] (name_ s) w Hnames)). by rewrite bool_decide_true.
  - pose proof (Forall_inv_tail Hnames) as Hrest.
    rewrite (find_step w c s (name_ s) (m :: rest)); [|done..|intros x; by apply (last_unique_ne (name_ s) m rest)].
    rewrite decide_True by done. rewrite (find_child_spec w _ c s m rest Hok Hs Hrest). simpl descend.
    unfold children_of. rewrite Hs. simpl.
    destruct (child_named w m (acts_ s)) as [d|] eqn:Hd; [|done].
    apply child_named_elem in Hd as [_ Hd]. apply IH; [done|done| |simpl in Hf; lia].
    by eapply last_unique_cons.
Qed.

(** The children of an act, asked for by names that begin below it. *)
Lemma find_children w a s n rest fuel :
  acts_ok w → acts w !! a = Some s → Forall is_name (n :: rest) → last_unique (n :: rest) →
  length rest < fuel →
  find_child (find_fuel fuel) a (path.join (n :: rest)) w = (Ret (descend w a (n :: rest)), w).
Proof.
  intros Hok Hs Hn Hu Hf. rewrite (find_child_spec w _ a s n rest Hok Hs Hn). simpl.
  unfold children_of. rewrite Hs. simpl. destruct (child_named w n (acts_ s)) as [c|] eqn:Hc; [|done].
  apply child_named_elem in Hc as [_ Hc]. by apply find_below.
Qed.

(** The absolute path of a top act, asked at that act. *)
Lemma find_absolute_top w a s n rest fuel :
  acts_ok w → acts w !! a = Some s → parent_ s = None → is_name (name_ s) → Forall is_name (n :: rest) →
  last_unique (n :: rest) → length rest < fuel →
  find_fuel (S fuel) a (absolute (name_ s :: n :: rest)) w = (Ret (descend w a (n :: rest)), w).
Proof.
  intros Hok Hs Hpar Hname Hnames Hu Hf.
  assert (path.full_path_ (path_ s) = absolute [name_ s]) as Hfull.
  { destruct (ok_lineage _ Hok a s Hs) as (ns & Hl & Hp). rewrite Hp. f_equal.
    destruct Hl as [b t Ht _|b t p ns Ht Hq _ _]; assert (t = s) as -> by congruence; [done|congruence]. }
  cbn [find_fuel]; unfold find_body. rewrite decide_False by done. rewrite (bind_run _ _ _ _ _ (act_at_spec _ _ _ Hs)).
  rewrite (bind_run _ _ w false w).
  2:{ unfold is_self. change (path.is_relative_path (absolute (name_ s :: n :: rest))) with false. simpl.
      rewrite bool_decide_false; [done|]. rewrite Hfull. unfold absolute. rewrite join_cons by done. simpl.
      intros [= Heq]. apply (f_equal length) in Heq. rewrite length_app in Heq. simpl in Heq. lia. }
  rewrite absolute_absolute, Hfull. change (name_ s :: n :: rest) with ([name_ s] ++ n :: rest) at 1.
  rewrite child_of_absolute by done. change (name_ s :: n :: rest) with ([name_ s] ++ n :: rest) at 1.
  rewrite (bind_run _ _ _ _ _ (child_path_absolute [name_ s] (n :: rest) w ltac:(done) ltac:(done))).
  by apply (find_children w a s).
Qed.

Lemma length_join names : Forall is_name names → length names ≤ length (path.join names).
Proof.
  induction 1 as [|n names [Hne _] _ IH]; [done|]. destruct names as [|m names].
  - destruct n; [done|]. simpl. lia.
  - rewrite join_cons by done. rewrite length_app. simpl length in *. lia.
Qed.
End find.

(** ** Properties *)

(** C26. [find] means what the paths mean.  In a well-formed tree, for paths whose
    names have no slash and whose last name does not occur before, it gives what
    the reference [descend] reaches: for the absolute path of the top act, for a
    relative path that begins with the name of the act asked, and for one that
    begins with the name of a child. *)
Theorem find_descends `{Build} `{JsonLaws} (w : world) (a : nat) (s : state) (n : str) (names : list str) :
  acts_ok w → acts w !! a = Some s → is_name (name_ s) → Forall is_name (n :: names) →
  last_unique (name_ s :: n :: names) →
  (parent_ s = None →
     find a (absolute (name_ s :: n :: names)) w = (Ret (descend w a (n :: names)), w)) ∧
  find a (path.join (name_ s :: n :: names)) w = (Ret (descend w a (n :: names)), w) ∧
  (n ≠ name_ s → find a (path.join (n :: names)) w = (Ret (descend w a (n :: names)), w)) ∧
  find a (path.join [name_ s]) w = (Ret (Some a), w).
Proof.
  intros Hok Hs Hname Hnames Hu. pose proof (last_unique_cons _ _ _ Hu) as Hu'.
  assert (name_of w a = Some (name_ s)) as Hn by (unfold name_of; by rewrite Hs).
  pose proof (length_join (n :: names) Hnames) as Hlen.
  change (S (length names) ≤ length (path.join (n :: names))) in Hlen.
  assert (length (path.join (name_ s :: n :: names)) ≥ length (path.join (n :: names))) as Hlen'
    by (rewrite join_cons by done; rewrite length_app; simpl; lia).
  unfold find. split_and!.
  - intros Hpar. rewrite (bind_run _ _ w w w) by done.
    replace (length (absolute (name_ s :: n :: names)) + next_act w + 2) with
      (S (length (absolute (name_ s :: n :: names)) + next_act w + 1)) by lia.
    apply find_absolute_top; try done. unfold absolute. cbn [length]. lia.
  - rewrite (bind_run _ _ w w w) by done. apply find_below; try done; [by constructor|].
    change (length (n :: names)) with (S (length names)). lia.
  - intros Hne. rewrite (bind_run _ _ w w w) by done.
    replace (length (path.join (n :: names)) + next_act w + 2) with
      (S (length (path.join (n :: names)) + next_act w + 1)) by lia.
    rewrite (find_step w a s n names), decide_False by (done || (intros x; by apply (last_unique_ne (name_ s) n names))).
    apply (find_children w a s); try done. lia.
  - rewrite (bind_run _ _ w w w) by done. apply (find_below w a (name_ s) []); try done.
    + by constructor.
    + intros x [= <-]. by apply not_elem_of_nil.
    + simpl. lia.
Qed.

(** A flow with a serial act, as the repository's test has it. *)
Definition slots_doc (cmd : list (str * tree)) : tree := tobject [($"success", tobject cmd)].
Definition next_cmd : list (str * tree) := [($"cmd", tstring $"next")].
Definition jump_cmd (target : str) : list (str * tree) :=
  [($"cmd", tstring $"jump"); ($"target", tstring target)].
Definition message_doc (name : str) (cmd : list (str * tree)) : tree :=
  tobject [($"type", tstring $"act_message"); ($"name", tstring name); ($"message", tstring name);
           ($"slots", slots_doc cmd)].
Definition serial_doc (name : str) (l : list tree) : tree :=
  tobject [($"type", tstring $"act_serial"); ($"name", tstring name); ($"flow", tarray l)].
Definition example_doc : tree :=
  tobject [($"flow", tarray [
    serial_doc $"serial_1" [message_doc $"message_1" (jump_cmd $"/flow/message_top_1");
                            message_doc $"message_2" next_cmd];
    message_doc $"message_top_1" next_cmd;
    message_doc $"message_top_2" (jump_cmd $"serial_1")])].
Definition example_creators : gmap str act_kind :=
  add_creator $"act_serial" serial (add_creator $"act_message" message ∅).
Definition example_acts `{Build} : world :=
  let w := empty_world (H:=tree_Json) example_creators in
  (activate 1 (construct flow None (example_doc : json) $"flow" w).2).2.

Lemma example_acts_ok `{Build} : acts_ok example_acts.
Proof.
  set (w := empty_world (H:=tree_Json) example_creators).
  assert (evolves w (construct flow None (example_doc : json) $"flow" w).2) as Hc.
  { apply preserves_construct; [done|]. split; [apply empty_world_ok|reflexivity]. }
  destruct (preserves_activate w 1 _ Hc) as [Hok _]. exact Hok.
Qed.

Lemma find_descends_witness :
  let _ := debug_build in
  ∃ s, acts example_acts !! 1 = Some s ∧ parent_ s = None ∧
    find 1 (absolute [$"flow"; $"serial_1"; $"message_2"]) example_acts = (Ret (Some 6), example_acts).
Proof.
  intros d. destruct (acts example_acts !! 1) as [s|] eqn:Hs; [|vm_compute in Hs; discriminate].
  assert (name_ s = $"flow" ∧ parent_ s = None) as [Hn Hp].
  { vm_compute in Hs. injection Hs as <-. split; reflexivity. }
  exists s. split; [done|split; [done|]].
  destruct (find_descends example_acts 1 s $"serial_1" [$"message_2"]) as (Hf & _).
  - apply example_acts_ok.
  - done.
  - rewrite Hn. by apply (bool_decide_unpack _).
  - by apply (bool_decide_unpack _).
  - rewrite Hn. intros x [= <-]. by apply (bool_decide_unpack _).
  - assert (descend example_acts 1 [$"serial_1"; $"message_2"] = Some 6) as Hd by (vm_compute; reflexivity).
    rewrite <-Hd, <-(Hf Hp), Hn. reflexivity.
Defined.
