(* ===== verification/ActFuel.v ===== *)
(** * The recursion of the acts ends

    The operations on acts call each other down and up the tree.  Here every one of
    them is shown to end after as many calls as its definition allows: what a
    deeper call would do makes no difference. *)

From S2P Require Import Prelude.
From S2P Require Import StringUtil.
From S2P Require Import Json.
From S2P Require Import ActPath.
From S2P Require Import Acts.
From S2P Require Import ActFacts.
From S2P Require Import ActFind.
Import act_ensure.

(** ** Computations that agree *)
Section agree.
Context {S : Type}.

Lemma bind_ext {A B} (m1 m2 : M S A) (k1 k2 : A → M S B) s :
  m1 s = m2 s → (∀ a s', m2 s = (Ret a, s') → k1 a s' = k2 a s') → (m1 ≫= k1) s = (m2 ≫= k2) s.
Proof. intros Hm Hk. unfold mbind, M_bind. rewrite Hm. destruct (m2 s) as [[] ?]; eauto. Qed.

Lemma for_each_ext {A} (I : S → Prop) (l : list A) (f1 f2 : A → M S unit) s :
  I s → (∀ x s', x ∈ l → I s' → f1 x s' = f2 x s') → (∀ x, x ∈ l → preserves I (f2 x)) →
  for_each l f1 s = for_each l f2 s.
Proof.
  revert s. induction l as [|x l IH]; intros s Hs Hf Hp; [done|]. cbn [for_each].
  apply bind_ext; [apply Hf; [by left|done]|]. intros u s' Hx. apply IH.
  - specialize (Hp x ltac:(by left) s Hs). by rewrite Hx in Hp.
  - intros y s1 Hy. apply Hf. by right.
  - intros y Hy. apply Hp. by right.
Qed.

(** An operation that only reads. *)
Lemma preserves_same {A} (m : M S A) s a s' :
  preserves (λ t, t = s) m → m s = (Ret a, s') → s' = s.
Proof. intros Hm Hr. specialize (Hm s eq_refl). by rewrite Hr in Hm. Qed.
End agree.

Section fuel.
Context `{Build} `{JsonLaws}.
Implicit Types (w : world) (s : state).

Lemma act_at_inv w a s w' : at_ a w = (Ret s, w') → w' = w ∧ acts w !! a = Some s.
Proof.
  intros Hr. destruct (acts w !! a) as [t|] eqn:Ht.
  - rewrite (act_at_spec _ _ _ Ht) in Hr. by simplify_eq.
  - by rewrite (act_at_none _ _ Ht) in Hr.
Qed.

Lemma get_current_inv w a c w' :
  get_current_act a w = (Ret c, w') → w' = w ∧ ∃ s, acts w !! a = Some s ∧ c ∈ acts_ s.
Proof.
  intros Hr. destruct (acts w !! a) as [s|] eqn:Hs.
  2:{ unfold get_current_act in Hr. by rewrite (bind_stop _ _ _ _ _ (act_at_none _ _ Hs)) in Hr. }
  assert (preserves (λ v, v = w) (get_current_act a)) as Hp.
  { unfold get_current_act, at_. preserve. }
  pose proof (preserves_same _ _ _ _ Hp Hr) as ->. split; [done|]. exists s. split; [done|].
  unfold get_current_act in Hr. rewrite (bind_run _ _ _ _ _ (act_at_spec _ _ _ Hs)) in Hr.
  unfold mbind, M_bind in Hr. destruct (PLAY_CHECK _ w) as [[[]|e| |] v]; simplify_eq.
  destruct (acts_ s !! current_act_index_ s) as [b|] eqn:Hb; [|done]. unfold deref, mret, M_ret in Hr. simplify_eq.
  by eapply list_elem_of_lookup_2.
Qed.

(** ** Down the tree: the documents of the children are smaller *)

(** [c] is an act of [w'] whose document is smaller than that of [s]. *)
Definition smaller_act w' s (c : nat) : Prop :=
  ∃ t, acts w' !! c = Some t ∧ depth (json_ t) < depth (json_ s).

Lemma smaller_child w w' a s s' c :
  evolves w w' → acts w !! a = Some s → acts w' !! a = Some s' → c ∈ acts_ s' → smaller_act w' s c.
Proof.
  intros [Hok Hg] Hs Hs' Hc. destruct (ok_child _ Hok a s' c Hs' Hc) as (t & Ht & _ & Hd).
  destruct Hg as (_ & _ & _ & Hg). destruct (Hg a s Hs) as (s1 & Hs1 & _ & _ & _ & _ & Hj & _).
  exists t. split; [done|]. congruence.
Qed.

Lemma smaller_evolves w w' s c : grows w w' → smaller_act w s c → smaller_act w' s c.
Proof.
  intros (_ & _ & _ & Hg) (t & Ht & Hd). destruct (Hg c t Ht) as (t' & Ht' & _ & _ & _ & _ & Hj & _).
  exists t'. split; [done|]. congruence.
Qed.

(** [rec1] and [rec2] agree on the acts below [a], now and after the tree has grown. *)
Definition agree_below w a {A} (rec1 rec2 : nat → M world A) : Prop :=
  ∀ s w' c, acts w !! a = Some s → evolves w w' → smaller_act w' s c → rec1 c w' = rec2 c w'.

Section body.
Context (w : world) (a : nat) (Hok : acts_ok w).

Lemma evolves_self : evolves w w.
Proof. split; [done|reflexivity]. Qed.

Lemma each_act_ext (rec1 rec2 : nat → M world unit) :
  agree_below w a rec1 rec2 → (∀ c, preserves (evolves w) (rec2 c)) →
  each_act a rec1 w = each_act a rec2 w.
Proof.
  intros Hr Hp. apply bind_ext; [done|]. intros s w1 (-> & Hs)%act_at_inv.
  apply (for_each_ext (evolves w)); [apply evolves_self| |].
  - intros c w' Hc Hw'. apply bind_ext; [|done]. apply (Hr s); [done|done|].
    apply (smaller_evolves w); [by destruct Hw'|]. by apply (smaller_child w w a s s c evolves_self).
  - intros c _. apply preserves_bind; [apply Hp|]. intros _. apply preserves_bind; [apply preserves_at|].
    intros s'. destruct (decide _); [apply preserves_ret|apply preserves_undefined].
Qed.

Lemma current_ext {A} (rec1 rec2 : nat → M world A) w' s :
  agree_below w a rec1 rec2 → acts w !! a = Some s → evolves w w' →
  (get_current_act a ≫= rec1) w' = (get_current_act a ≫= rec2) w'.
Proof.
  intros Hr Hs Hw'. apply bind_ext; [done|]. intros c w1 (-> & s1 & Hs1 & Hc)%get_current_inv.
  apply (Hr s); [done|done|]. by apply (smaller_child w w' a s s1).
Qed.

Lemma deactivate_body_ext rec1 rec2 :
  agree_below w a rec1 rec2 → (∀ c, preserves (evolves w) (rec2 c)) →
  deactivate_body rec1 a w = deactivate_body rec2 a w.
Proof.
  intros Hr Hp. unfold deactivate_body. apply bind_ext; [done|]. intros s w1 (-> & Hs)%act_at_inv.
  destruct (active_ s); [|done]. apply bind_ext; [|done].
  destruct (kind_ s); try done; [apply (current_ext _ _ w s)|apply each_act_ext|apply (current_ext _ _ w s)];
    try done; apply evolves_self.
Qed.

Lemma update_body_ext owner_stop rec1 rec2 :
  agree_below w a rec1 rec2 → (∀ c, preserves (evolves w) (rec2 c)) →
  update_body owner_stop rec1 a w = update_body owner_stop rec2 a w.
Proof.
  intros Hr Hp. unfold update_body. apply bind_ext; [done|]. intros s w1 (-> & Hs)%act_at_inv.
  destruct (kind_ s); try done; [apply (current_ext _ _ w s)|apply each_act_ext|apply (current_ext _ _ w s)];
    try done; apply evolves_self.
Qed.

Lemma activate_each_ext s (rec1 rec2 : nat → M world bool) w' l :
  agree_below w a rec1 rec2 → (∀ w0 c, preserves (evolves w0) (rec2 c)) →
  acts w !! a = Some s → evolves w w' → (∀ c, c ∈ l → smaller_act w' s c) →
  activate_each rec1 l w' = activate_each rec2 l w'.
Proof.
  intros Hr Hp Hs. revert w'. induction l as [|c l IH]; intros w' Hw' Hl; [done|]. cbn [activate_each].
  apply bind_ext; [apply (Hr s); [done|done|apply Hl; by left]|]. intros rc w1 Hw1.
  destruct rc; [|done]. pose proof (preserves_evolves (rec2 c) w' (λ w0, Hp w0 c) ltac:(by destruct Hw')) as He.
  rewrite Hw1 in He. destruct He as [Hok1 Hg1]. apply IH.
  - split; [done|]. destruct Hw'. by transitivity w'.
  - intros b Hb. apply (smaller_evolves w'); [done|]. apply Hl. by right.
Qed.

Lemma load_ext {A} s (k1 k2 : bool → M world A) :
  acts w !! a = Some s → is_composite (kind_ s) = true →
  (∀ b w', evolves w w' → k1 b w' = k2 b w') → (load_acts a ≫= k1) w = (load_acts a ≫= k2) w.
Proof.
  intros Hs Hk Hext. apply bind_ext; [done|]. intros b w' Hl. apply Hext.
  pose proof (load_acts_evolves w a s Hok (conj Hs Hk)) as He. by rewrite Hl in He.
Qed.

Lemma activate_body_ext rec1 rec2 :
  agree_below w a rec1 rec2 → (∀ w0 c, preserves (evolves w0) (rec2 c)) →
  activate_body rec1 a w = activate_body rec2 a w.
Proof.
  intros Hr Hp. unfold activate_body. apply bind_ext; [done|]. intros s w1 (-> & Hs)%act_at_inv.
  destruct (active_ s); [done|]. apply bind_ext; [|done].
  assert (∀ k, is_composite k = true → kind_ s = k → serial_on_activate rec1 a w = serial_on_activate rec2 a w) as Hser.
  { intros k Hk <-. apply (load_ext s); [done|done|]. intros b w' Hw'. destruct b; [|done].
    apply bind_ext; [done|]. intros c w1 (-> & _)%get_current_inv.
    apply bind_ext; [done|]. intros s1 w1 (-> & _)%act_at_inv.
    apply bind_ext; [done|]. intros f w1 Hf. apply (preserves_same (deref (acts_ s1 !! 0))) in Hf as ->; [|apply preserves_deref].
    apply bind_ext; [done|]. intros u w1 Hf. apply (preserves_same (PLAY_CHECK (c =? f))) in Hf as ->; [|apply preserves_check].
    by apply (current_ext _ _ w' s). }
  destruct (kind_ s) eqn:Hk; try done; try by apply (Hser (kind_ s)); rewrite Hk.
  apply (load_ext s); [done|by rewrite Hk|]. intros b w' Hw'. destruct b; [|done].
  apply bind_ext; [done|]. intros s1 w1 (-> & Hs1)%act_at_inv. apply (activate_each_ext s); try done.
  intros c Hc. by apply (smaller_child w w' a s s1).
Qed.
End body.

(** ** Enough fuel *)

(** The depth of the document of an act. *)
Definition depth_of w a : nat := default 0 ((λ s, depth (json_ s)) <$> acts w !! a).

(** An operation that goes down the tree, by its body and by its fuel. *)
Lemma iter_settles {A} (body : (nat → M world A) → nat → M world A) (fuel_ : nat → nat → M world A) :
  (∀ n, fuel_ (S n) = body (fuel_ n)) →
  (∀ w a rec1 rec2, acts w !! a = None → body rec1 a w = body rec2 a w) →
  (∀ w a rec1 n, acts_ok w → agree_below w a rec1 (fuel_ n) → body rec1 a w = body (fuel_ n) a w) →
  ∀ n1 n2 g w a, acts_ok w → depth_of w a < n1 → depth_of w a < n2 →
    Nat.iter n1 body g a w = fuel_ n2 a w.
Proof.
  intros Hfuel Hnone Hbody n1. induction n1 as [|n1 IH]; intros n2 g w a Hok Hn1 Hn2; [lia|].
  destruct n2 as [|n2]; [lia|]. rewrite Hfuel. simpl. unfold depth_of in Hn1, Hn2.
  destruct (acts w !! a) as [s|] eqn:Hs; [simpl in *|by apply Hnone].
  apply Hbody; [done|]. intros s' w' c Hs' [Hok' _] (t & Ht & Hdt). simplify_eq.
  apply IH; [done| |]; unfold depth_of; rewrite Ht; simpl; lia.
Qed.

(** What such an operation starts with. *)
Lemma start_settles {A} (body : (nat → M world A) → nat → M world A) (fuel_ : nat → nat → M world A) w a n g :
  (∀ n, fuel_ (S n) = body (fuel_ n)) → acts_ok w → depth_of w a < n →
  (∀ n1 n2, depth_of w a < n1 → depth_of w a < n2 → Nat.iter n1 body g a w = fuel_ n2 a w) →
  (∀ rec, acts w !! a = None → body rec a w = (Undefined, w)) →
  Nat.iter n body g a w = (s ← at_ a; fuel_ (S (depth (json_ s))) a) w.
Proof.
  intros Hfuel Hok Hn Hit Hnone. destruct (acts w !! a) as [s|] eqn:Hs.
  - rewrite (bind_run _ _ _ _ _ (act_at_spec _ _ _ Hs)). apply Hit; [done|].
    unfold depth_of. rewrite Hs. simpl. lia.
  - rewrite (bind_stop _ _ _ _ _ (act_at_none _ _ Hs)) by done. destruct n as [|n]; [lia|]. simpl.
    by apply Hnone.
Qed.

Lemma act_bind_none {A} w a (k : state → M world A) : acts w !! a = None → (at_ a ≫= k) w = (Undefined, w).
Proof. intros Hs. by rewrite (bind_stop _ _ _ _ _ (act_at_none _ _ Hs)). Qed.

Lemma activate_settles w a n g :
  acts_ok w → depth_of w a < n → Nat.iter n activate_body g a w = activate a w.
Proof.
  intros Hok Hn. apply (start_settles _ activate_fuel); [done|done|done| |].
  - intros n1 n2. apply iter_settles; [done| | |done].
    + intros v b r1 r2 Hv. unfold activate_body. by rewrite !act_bind_none.
    + intros v b r1 m Hv Hr. apply activate_body_ext; [done|done|]. intros w0 c. apply preserves_activate_fuel.
  - intros r Hs. by apply act_bind_none.
Qed.

Lemma deactivate_settles w a n g :
  acts_ok w → depth_of w a < n → Nat.iter n deactivate_body g a w = deactivate a w.
Proof.
  intros Hok Hn. apply (start_settles _ deactivate_fuel); [done|done|done| |].
  - intros n1 n2. apply iter_settles; [done| | |done].
    + intros v b r1 r2 Hv. unfold deactivate_body. by rewrite !act_bind_none.
    + intros v b r1 m Hv Hr. apply deactivate_body_ext; [done|done|]. intros c. apply preserves_deactivate_fuel.
  - intros r Hs. by apply act_bind_none.
Qed.

Lemma update_settles owner_stop w a n g :
  (∀ w0, preserves (evolves w0) owner_stop) →
  acts_ok w → depth_of w a < n → Nat.iter n (update_body owner_stop) g a w = update owner_stop a w.
Proof.
  intros Hown Hok Hn. apply (start_settles _ (update_fuel owner_stop)); [done|done|done| |].
  - intros n1 n2. apply iter_settles; [done| | |done].
    + intros v b r1 r2 Hv. unfold update_body. by rewrite !act_bind_none.
    + intros v b r1 m Hv Hr. apply update_body_ext; [done|done|]. intros c. by apply preserves_update_fuel.
  - intros r Hs. by apply act_bind_none.
Qed.

(** ** Up the tree: parents are older *)
Lemma parent_older w a s p : acts_ok w → acts w !! a = Some s → parent_ s = Some p → p < a.
Proof.
  intros Hok Hs Hp. destruct (ok_lineage _ Hok a s Hs) as (names & Hl & _).
  destruct Hl as [b t Ht Hn|b t q names Ht Hq Hlt _]; simplify_eq; congruence.
Qed.

(** The calls a climb from [a] makes; one that finds no act makes none. *)
Definition rank w a : nat := if acts w !! a then a else 0.

Lemma rank_parent w a s p : acts_ok w → acts w !! a = Some s → parent_ s = Some p → rank w p < rank w a.
Proof.
  intros Hok Hs Hp. pose proof (parent_older w a s p Hok Hs Hp). unfold rank. rewrite Hs.
  destruct (acts w !! p); lia.
Qed.

Lemma rank_bound w a : acts_ok w → rank w a ≤ next_act w.
Proof.
  intros Hok. unfold rank. destruct (acts w !! a) as [s|] eqn:Hs; [|lia]. pose proof (ok_fresh _ Hok a s Hs). lia.
Qed.

Lemma climb_settles (body : (nat → M world unit) → nat → M world unit) (fuel_ : nat → nat → M world unit) w :
  (∀ n, fuel_ (S n) = body (fuel_ n)) → acts_ok w →
  (∀ a rec1 rec2, (∀ s p, acts w !! a = Some s → parent_ s = Some p → rec1 p w = rec2 p w) →
     body rec1 a w = body rec2 a w) →
  ∀ n1 n2 g a, rank w a < n1 → rank w a < n2 → Nat.iter n1 body g a w = fuel_ n2 a w.
Proof.
  intros Hfuel Hok Hbody n1. induction n1 as [|n1 IH]; intros n2 g a Hn1 Hn2; [lia|].
  destruct n2 as [|n2]; [lia|]. rewrite Hfuel. simpl. apply Hbody. intros s p Hs Hp.
  pose proof (rank_parent w a s p Hok Hs Hp). apply IH; lia.
Qed.

Lemma next_settles w a n g :
  acts_ok w → next_act w < n → Nat.iter n next_body g a w = next a w.
Proof.
  intros Hok Hn. pose proof (rank_bound w a Hok). unfold next. rewrite (bind_run _ _ w w w) by done.
  apply climb_settles; [done|done| |lia|lia]. intros b r1 r2 Hr. unfold next_body.
  apply bind_ext; [done|]. intros s w1 (-> & Hs)%act_at_inv.
  destruct (kind_ s); try done; destruct (parent_ s) as [p|] eqn:Hp; [by apply (Hr s)|done|by apply (Hr s)|done].
Qed.

Lemma exit_settles owner_stop w a n g :
  acts_ok w → next_act w < n → Nat.iter n (exit_body owner_stop) g a w = exit owner_stop a w.
Proof.
  intros Hok Hn. pose proof (rank_bound w a Hok). unfold exit. rewrite (bind_run _ _ w w w) by done.
  apply climb_settles; [done|done| |lia|lia]. intros b r1 r2 Hr. unfold exit_body.
  apply bind_ext; [done|]. intros s w1 (-> & Hs)%act_at_inv.
  destruct (kind_ s); try done; (destruct (parent_ s) as [p|] eqn:Hp; [by apply (Hr s)|done]).
Qed.

(** ** Jumps: up to an act that knows the path, then down its names *)

(** What is left of a path: its names when it is relative, no more than its characters. *)
Definition path_size (pa : str) : nat :=
  if path.is_relative_path pa then length (string_util.split pa [slash]) else length pa.

Lemma split_size pa : length (string_util.split pa [slash]) ≤ path_size pa.
Proof. unfold path_size. destruct (path.is_relative_path pa); [done|apply length_split]. Qed.

Lemma path_size_length pa : path_size pa ≤ length pa.
Proof. unfold path_size. destruct (path.is_relative_path pa); [apply length_split|done]. Qed.

Lemma path_size_join names : Forall is_name names → path_size (path.join names) = length names.
Proof.
  intros Hn. unfold path_size. destruct names as [|n names]; [done|].
  rewrite relative_join by (by inversion Hn). by rewrite split_join.
Qed.

(** The names below the first, which is what a child is asked for. *)
Definition below_first (pa : str) : str := path.join (tail (string_util.split pa [slash])).

Lemma below_first_size pa : string_util.split pa [slash] ≠ [] → path_size (below_first pa) < path_size pa.
Proof.
  intros Hne. unfold below_first. pose proof (split_names pa) as Hn. pose proof (split_size pa).
  destruct (string_util.split pa [slash]) as [|n names]; [done|]. simpl in *.
  rewrite path_size_join by (by inversion Hn). lia.
Qed.

Lemma below_first_relative pa : below_first pa = [] ∨ path.is_relative_path (below_first pa) = true.
Proof.
  unfold below_first. pose proof (split_names pa) as Hn. destruct (string_util.split pa [slash]) as [|n names]; [by left|].
  simpl. destruct names as [|m names]; [by left|]. right. apply relative_join.
  inversion Hn as [|? ? _ Hm]. by inversion Hm.
Qed.

Lemma find_act_inv name i l w o w' :
  find_act name i l w = (Ret o, w') →
  w' = w ∧ ∀ j c, o = Some (j, c) → c ∈ l ∧ ∃ s, acts w !! c = Some s ∧ name_ s = name.
Proof.
  revert i. induction l as [|b l IH]; intros i; cbn [find_act]; [by intros [= <- <-]|].
  destruct (acts w !! b) as [s|] eqn:Hs; [|by rewrite act_bind_none].
  rewrite (bind_run _ _ _ _ _ (act_at_spec _ _ _ Hs)). destruct (decide (name_ s = name)) as [Hn|Hn].
  - intros [= <- <-]. split; [done|]. intros j c [= <- <-]. split; [by left|by exists s].
  - intros (-> & Hc)%IH. split; [done|]. intros j c Ho. destruct (Hc j c Ho) as (? & ?). split; [by right|done].
Qed.

(** A jump looks at the parent, and at children for what is below the first name. *)
Lemma jump_body_ext w a pa rec1 rec2 :
  acts_ok w →
  (∀ s p, acts w !! a = Some s → parent_ s = Some p →
     is_composite (kind_ s) = false ∨ path.is_relative_path pa = false → rec1 p pa w = rec2 p pa w) →
  (∀ s c q, acts w !! a = Some s → is_composite (kind_ s) = true → c ∈ acts_ s →
     path_size (below_first q) < path_size pa → rec1 c (below_first q) w = rec2 c (below_first q) w) →
  jump_body rec1 a pa w = jump_body rec2 a pa w.
Proof.
  intros Hok Hup Hdown. unfold jump_body. apply bind_ext; [done|]. intros s w1 (-> & Hs)%act_at_inv.
  assert (∀ j1 j2 : str → M world unit, (∀ q, path_size q ≤ path_size pa → j1 q w = j2 q w) →
    composite_jump rec1 j1 a pa w = composite_jump rec2 j2 a pa w) as Hc.
  { intros j1 j2 Hj. unfold composite_jump. destruct (path.is_relative_path pa) eqn:Hr; [by apply Hj|].
    rewrite !(bind_run _ _ _ _ _ (act_at_spec _ _ _ Hs)).
    destruct (path.is_child_of _ pa) eqn:Hch.
    - apply bind_ext; [done|]. intros q w1 Hq. apply child_path_inv in Hq as [-> Hq]; [|done]. apply Hj.
      pose proof (path_size_length q). unfold path_size at 2. rewrite Hr. lia.
    - destruct (parent_ s) as [p|] eqn:Hp; [|done]. apply (Hup s); [done|done|by right]. }
  destruct (kind_ s) eqn:Hk; try (destruct (parent_ s) as [p|] eqn:Hp; [|done]; apply (Hup s); try done; left; by rewrite Hk).
  - unfold serial_jump. destruct (decide (pa = [])); [done|]. by apply Hc.
  - apply Hc. intros q Hq. unfold parallel_jump_child. apply bind_ext; [done|].
    intros u w1 Hw1. apply (preserves_same (PLAY_CHECK _)) in Hw1 as ->; [|apply preserves_check].
    apply bind_ext; [done|]. intros n w1 (-> & _)%first_act_inv. apply bind_ext; [done|]. intros s' w1 (-> & Hs')%act_at_inv.
    assert (s' = s) as -> by congruence.
    apply bind_ext; [done|]. intros ia w1 (-> & Hia)%find_act_inv. destruct ia as [[i c]|]; [|done].
    apply bind_ext; [done|]. intros r w1 (-> & Hne & ->)%pop_head_inv. destruct (Hia i c eq_refl) as [Hin _].
    apply (Hdown s); [done|by rewrite Hk|done|]. pose proof (below_first_size q Hne). lia.
  - unfold serial_jump. destruct (decide (pa = [])); [done|]. by apply Hc.
Qed.

Lemma jump_empty w : acts_ok w → ∀ n1 n2 g a, rank w a < n1 → rank w a < n2 →
  Nat.iter n1 jump_body g a [] w = jump_fuel n2 a [] w.
Proof.
  intros Hok n1. induction n1 as [|n1 IH]; intros n2 g a Hn1 Hn2; [lia|]. destruct n2 as [|n2]; [lia|].
  apply jump_body_ext; [done| |].
  - intros s p Hs Hp _. pose proof (rank_parent w a s p Hok Hs Hp). apply IH; lia.
  - intros s c q _ _ _ Hq. simpl in Hq. unfold path_size in Hq at 2. simpl in Hq. lia.
Qed.

(** Jumps with a relative path of at most [k] names from a composite act settle. *)
Definition near_settles w k : Prop := ∀ s a n1 n2 g pa,
  acts w !! a = Some s → is_composite (kind_ s) = true →
  pa = [] ∨ path.is_relative_path pa = true → path_size pa ≤ k →
  2 * k + next_act w < n1 → 2 * k + next_act w < n2 →
  Nat.iter n1 jump_body g a pa w = jump_fuel n2 a pa w.

(** A child is composite too, or sends the path back. *)
Lemma jump_child w k s a c n1 n2 g pa :
  acts_ok w → near_settles w k → acts w !! a = Some s → is_composite (kind_ s) = true → c ∈ acts_ s →
  pa = [] ∨ path.is_relative_path pa = true → path_size pa ≤ k →
  2 * k + next_act w + 1 < n1 → 2 * k + next_act w + 1 < n2 →
  Nat.iter n1 jump_body g c pa w = jump_fuel n2 c pa w.
Proof.
  intros Hok Hnear Hs Hk Hc Hrel Hsize Hn1 Hn2. destruct (ok_child _ Hok a s c Hs Hc) as (t & Ht & Hpar & _).
  destruct (is_composite (kind_ t)) eqn:Hkt; [apply (Hnear t); try done; lia|].
  destruct n1 as [|n1]; [lia|]. destruct n2 as [|n2]; [lia|]. apply jump_body_ext; [done| |].
  - intros t' p Ht' Hp _. assert (p = a) as -> by congruence. apply (Hnear s); try done; lia.
  - intros t' d r Ht' Hkt' _ _. congruence.
Qed.

Lemma jump_near w k : acts_ok w → near_settles w k.
Proof.
  intros Hok. induction k as [k IH] using lt_wf_ind. intros s a n1 n2 g pa Hs Hk Hr Hsize Hn1 Hn2.
  destruct n1 as [|n1]; [lia|]. destruct n2 as [|n2]; [lia|]. pose proof (rank_bound w a Hok).
  apply jump_body_ext; [done| |].
  - intros s' p Hs' Hp Hup. assert (pa = []) as -> by (destruct Hr as [?|Hr], Hup as [?|Hup]; congruence).
    pose proof (rank_parent w a s' p Hok Hs' Hp). apply jump_empty; [done|lia|lia].
  - intros s' c q Hs' Hk' Hc Hq. apply (jump_child w (k - 1) s' a); try done; [apply IH; lia| |lia..].
    apply below_first_relative.
Qed.

(** From any act: up to the top at most, and then as above. *)
Lemma jump_settles w a pa n g : acts_ok w →
  2 * length pa + 2 * next_act w + 1 < n → Nat.iter n jump_body g a pa w = jump a pa w.
Proof.
  intros Hok Hn. unfold jump. rewrite (bind_run _ _ w w w) by done. pose proof (path_size_length pa).
  pose proof (rank_bound w a Hok).
  assert (∀ n1 n2 a, rank w a + 2 * path_size pa + next_act w < n1 → rank w a + 2 * path_size pa + next_act w < n2 →
    Nat.iter n1 jump_body g a pa w = jump_fuel n2 a pa w) as Hall; [|apply Hall; lia].
  clear Hn. intros n1. induction n1 as [|n1 IH]; intros n2 b Hn1 Hn2; [lia|]. destruct n2 as [|n2]; [lia|].
  apply jump_body_ext; [done| |].
  - intros s p Hs Hp _. pose proof (rank_parent w b s p Hok Hs Hp). apply IH; lia.
  - intros s c q Hs Hk Hc Hq. apply (jump_child w (path_size pa - 1) s b); try done; [by apply jump_near| |lia..].
    apply below_first_relative.
Qed.

(** ** Finding: up to the act above the path, then down its names *)

(** The act goes by the first name of the path. *)
Definition named w (c : nat) (pa : str) : Prop :=
  match string_util.split pa [slash] with [] => pa = [] | n :: _ => name_of w c = Some n end.

(** What a child of [s] is asked for: the rest of an absolute path; behind its own name, the rest of
    a relative one; the whole path when it begins with another name. *)
Definition asks s (pa q : str) : Prop :=
  (path.is_absolute_path pa = true ∧ length q + length (path.full_path_ (path_ s)) < length pa) ∨
  (path.is_relative_path pa = true ∧
   (path_size q < path_size pa ∧ q = below_first pa ∨
    q = pa ∧ head (string_util.split pa [slash]) ≠ Some (path.act_name_ (path_ s)))).

Lemma find_child_ext w a s q (rec1 rec2 : nat → str → M world (option nat)) :
  acts w !! a = Some s → (∀ c, c ∈ acts_ s → named w c q → rec1 c q w = rec2 c q w) →
  find_child rec1 a q w = find_child rec2 a q w.
Proof.
  intros Hs Hr. unfold find_child. rewrite !(bind_run _ _ _ _ _ (act_at_spec _ _ _ Hs)).
  destruct (kind_ s); try done;
    (apply bind_ext; [done|]; intros n w1 (-> & Hn)%first_act_inv; apply bind_ext; [done|];
     intros ia w1 (-> & Hia)%find_act_inv; destruct ia as [[i c]|]; [|done];
     destruct (Hia i c eq_refl) as (Hc & t & Ht & Hnt); apply Hr; [done|]; unfold named, name_of;
     destruct (string_util.split q [slash]); [done|rewrite Ht; simpl; congruence]).
Qed.

Lemma absolute_or_relative pa : pa ≠ [] → path.is_absolute_path pa = negb (path.is_relative_path pa).
Proof.
  destruct pa as [|c pa]; [done|]. intros _. simpl. destruct (decide (c = slash)).
  - rewrite (bool_decide_true (c = slash)), bool_decide_false by auto. done.
  - rewrite (bool_decide_false (c = slash)), bool_decide_true by auto. done.
Qed.

Lemma find_body_ext w a pa rec1 rec2 :
  acts_ok w →
  (∀ s p, acts w !! a = Some s → parent_ s = Some p → path.is_absolute_path pa = true → rec1 p pa w = rec2 p pa w) →
  (∀ s c q, acts w !! a = Some s → c ∈ acts_ s → named w c q → asks s pa q → rec1 c q w = rec2 c q w) →
  find_body rec1 a pa w = find_body rec2 a pa w.
Proof.
  intros Hok Hup Hdown. unfold find_body. destruct (decide (pa = [])) as [|Hne]; [done|].
  apply bind_ext; [done|]. intros s w1 (-> & Hs)%act_at_inv.
  apply bind_ext; [done|]. intros self w1 Hself. apply (preserves_same (is_self s pa)) in Hself as ->.
  2:{ unfold is_self. apply preserves_if; [|apply preserves_ret]. apply preserves_bind; [apply preserves_last_act|].
      intros l. apply preserves_ret. }
  destruct self; [done|]. destruct (path.is_absolute_path pa) eqn:Habs.
  - destruct (path.is_child_of _ pa) eqn:Hch.
    + apply bind_ext; [done|]. intros q w1 Hq. apply child_path_inv in Hq as [-> Hq]; [|done].
      apply (find_child_ext w a s); [done|]. intros c Hc Hn. apply (Hdown s); try done. by left.
    + destruct (parent_ s) as [p|] eqn:Hp; [|done]. by apply (Hup s).
  - assert (path.is_relative_path pa = true) as Hrel.
    { rewrite absolute_or_relative in Habs by done. by apply negb_false_iff. }
    rewrite !(bind_run _ _ w tt w) by (by apply check_true).
    apply bind_ext; [done|]. intros n w1 (-> & Hn)%first_act_inv. destruct (decide _) as [Hd|Hd].
    + apply bind_ext; [done|]. intros q w1 (-> & Hsp & ->)%pop_head_inv.
      apply (find_child_ext w a s); [done|]. intros c Hc Hnc. apply (Hdown s); try done. right. split; [done|]. left.
      split; [by apply below_first_size|done].
    + apply (find_child_ext w a s); [done|]. intros c Hc Hnc. apply (Hdown s); try done. right. split; [done|]. right.
      split; [done|]. destruct (string_util.split pa [slash]); [done|]. simpl. congruence.
Qed.

(** An act that goes by the first name of a relative path passes on what is below it. *)
Lemma find_named w : acts_ok w → ∀ n1 n2 g c pa,
  pa = [] ∨ path.is_relative_path pa = true → named w c pa → path_size pa < n1 → path_size pa < n2 →
  Nat.iter n1 find_body g c pa w = find_fuel n2 c pa w.
Proof.
  intros Hok n1. induction n1 as [|n1 IH]; intros n2 g c pa Hrel Hn Hn1 Hn2; [lia|]. destruct n2 as [|n2]; [lia|].
  apply find_body_ext; [done| |].
  - intros s p _ _ Habs. destruct Hrel as [->|Hrel]; [done|]. rewrite absolute_or_relative, Hrel in Habs; [done|].
    by intros ->.
  - intros s d q Hs Hd Hq Hask. destruct Hask as [[Habs _]|(Hr & [[Hlt ->]|[-> Hne]])].
    + destruct Hrel as [->|Hrel]; [done|]. rewrite absolute_or_relative, Hrel in Habs; [done|]. by intros ->.
    + apply IH; [apply below_first_relative|done|lia|lia].
    + exfalso. unfold named in Hn. pose proof (split_names pa) as Hnames.
      destruct (string_util.split pa [slash]) as [|n names]; [by rewrite Hn in Hr|].
      unfold name_of in Hn. rewrite Hs in Hn. injection Hn as Hn. apply Hne. simpl. f_equal.
      rewrite (act_name_spec w c s Hok Hs); [done|]. rewrite Hn. by inversion Hnames.
Qed.

Lemma find_relative w a pa n1 n2 g : acts_ok w → path.is_relative_path pa = true →
  path_size pa + 1 < n1 → path_size pa + 1 < n2 → Nat.iter n1 find_body g a pa w = find_fuel n2 a pa w.
Proof.
  intros Hok Hrel Hn1 Hn2. destruct n1 as [|n1]; [lia|]. destruct n2 as [|n2]; [lia|].
  apply find_body_ext; [done| |].
  - intros s p _ _ Habs. rewrite absolute_or_relative, Hrel in Habs; [done|]. by intros ->.
  - intros s c q Hs Hc Hq [[Habs _]|(_ & [[Hlt ->]|[-> _]])].
    + rewrite absolute_or_relative, Hrel in Habs; [done|]. by intros ->.
    + apply find_named; [done|apply below_first_relative|done|lia|lia].
    + apply find_named; [done|by right|done|lia|lia].
Qed.

Lemma lineage_length w a names : lineage w a names → 0 < length names ≤ S a.
Proof. induction 1; [simpl; lia|]. rewrite length_app. simpl. lia. Qed.

(** Going down an absolute path loses more characters than the level gains. *)
Lemma find_absolute w : acts_ok w → ∀ n1 n2 g a names pa,
  lineage w a names → length names + length pa < n1 → length names + length pa < n2 →
  path.is_absolute_path pa = true → Nat.iter n1 find_body g a pa w = find_fuel n2 a pa w.
Proof.
  intros Hok n1. induction n1 as [|n1 IH]; intros n2 g a names pa Hl Hn1 Hn2 Habs; [lia|].
  destruct n2 as [|n2]; [lia|]. apply find_body_ext; [done| |].
  - intros s p Hs Hp _. destruct Hl as [b t Ht Hn|b t p' names Ht Hp' Hlt Hl]; [congruence|].
    assert (p' = p) as -> by congruence. rewrite length_app in Hn1, Hn2. simpl in Hn1, Hn2.
    apply (IH _ _ _ names); [done|lia|lia|done].
  - intros s c q Hs Hc Hq Hask. destruct (ok_child _ Hok a s c Hs Hc) as (t & Ht & Hp & _).
    destruct Hask as [[_ Hq']|(Hrel & _)].
    2:{ rewrite absolute_or_relative, Hrel in Habs; [done|]. by intros ->. }
    destruct (ok_lineage _ Hok a s Hs) as (ns & _ & Hf). rewrite Hf in Hq'. simpl in Hq'.
    pose proof (path_size_length q). destruct (path.is_absolute_path q) eqn:Hqa.
    + apply (IH _ _ _ (names ++ [name_ t])); [|rewrite length_app; simpl; lia..|done].
      apply (lineage_child _ _ _ a); [done|done| |done]. by apply (parent_older w c t a).
    + apply find_named; [done| |done|lia|lia]. destruct (decide (q = [])) as [->|Hne]; [by left|].
      right. rewrite absolute_or_relative in Hqa by done. by apply negb_false_iff.
Qed.

Lemma find_settles w a pa n g : acts_ok w →
  length pa + next_act w + 1 < n → Nat.iter n find_body g a pa w = find a pa w.
Proof.
  intros Hok Hn. unfold find. rewrite (bind_run _ _ w w w) by done. pose proof (path_size_length pa).
  destruct (decide (pa = [])) as [->|Hne]; [destruct n as [|n]; [lia|]; by rewrite Nat.add_succ_r|].
  destruct (path.is_relative_path pa) eqn:Hrel; [apply find_relative; [done|done|lia|lia]|].
  assert (path.is_absolute_path pa = true) as Habs by (rewrite absolute_or_relative by done; by rewrite Hrel).
  destruct (acts w !! a) as [s|] eqn:Hs.
  - destruct (ok_lineage _ Hok a s Hs) as (names & Hl & _). pose proof (lineage_length w a names Hl).
    pose proof (ok_fresh _ Hok a s Hs). apply (find_absolute w Hok _ _ _ _ names); [done|lia|lia|done].
  - destruct n as [|n]; [lia|]. rewrite Nat.add_succ_r. apply find_body_ext; [done| |]; intros; congruence.
Qed.
End fuel.

(** ** Properties *)

(** C27. Every operation on acts ends.  In a well-formed tree the calls of [activate],
    [deactivate] and [update] go no deeper than the act's document, those of [next]
    and [exit] no higher than there are acts, those of [jump] cross every name of the path twice
    after a climb to the top, and those of [find] use up a character each: whatever
    [g] stands for the calls behind that many, on any act and with any path, also
    one with empty names or to an act that is not there, the result is the same. *)
Theorem acts_terminate `{Build} `{JsonLaws} (w : world) (owner_stop : M world unit) (a n : nat) (pa : str) :
  acts_ok w → (∀ w0, preserves (evolves w0) owner_stop) →
  (depth_of w a < n →
    (∀ g, Nat.iter n activate_body g a w = activate a w) ∧
    (∀ g, Nat.iter n deactivate_body g a w = deactivate a w) ∧
    (∀ g, Nat.iter n (update_body owner_stop) g a w = update owner_stop a w)) ∧
  (next_act w < n →
    (∀ g, Nat.iter n next_body g a w = next a w) ∧
    (∀ g, Nat.iter n (exit_body owner_stop) g a w = exit owner_stop a w)) ∧
  (2 * length pa + 2 * next_act w + 1 < n → ∀ g, Nat.iter n jump_body g a pa w = jump a pa w) ∧
  (length pa + next_act w + 1 < n → ∀ g, Nat.iter n find_body g a pa w = find a pa w).
Proof.
  intros Hok Hown. split_and!.
  - intros Hn. split_and!; intros g.
    + by apply activate_settles.
    + by apply deactivate_settles.
    + by apply update_settles.
  - intros Hn. split; intros g; [by apply next_settles|by apply exit_settles].
  - intros Hn g. by apply jump_settles.
  - intros Hn g. by apply find_settles.
Qed.

(** In the flow of the example, a message jumps by a path with an empty name, and finds an act. *)
Lemma acts_terminate_witness :
  let _ := debug_build in
  Nat.iter 99 jump_body (λ _ _, throw (std_exception $"too deep")) 3 ($"/flow//serial_1") example_acts
  = jump 3 $"/flow//serial_1" example_acts.
Proof.
  intros d.
  destruct (acts_terminate example_acts (mret tt) 3 99 $"/flow//serial_1") as (_ & _ & Hj & _).
  - apply example_acts_ok.
  - intros w0. apply preserves_ret.
  - apply Hj. apply (bool_decide_unpack _). vm_compute. exact I.
Defined.
