(* ===== verification/ActFrame.v ===== *)
(** * The trees of acts do not touch each other

    The acts of all bots are in one store.  An operation on an act changes acts of its
    own tree only, and what it makes belongs to that tree. *)

From S2P Require Import Prelude.
From S2P Require Import StringUtil.
From S2P Require Import Json.
From S2P Require Import ActPath.
From S2P Require Import Acts.
From S2P Require Import ActFacts.
From S2P Require Import ActFind.
From S2P Require Import ActFuel.
Import act_ensure.

Section frame.
Context `{Build} `{JsonLaws}.
Implicit Types (w : world) (s : state).

(** [top w a r]: the topmost ancestor of [a] is [r]. *)
Inductive top w : nat → nat → Prop :=
  | top_root a s : acts w !! a = Some s → parent_ s = None → top w a a
  | top_parent a s p r : acts w !! a = Some s → parent_ s = Some p → top w p r → top w a r.

Lemma top_exists w a s : acts_ok w → acts w !! a = Some s → ∃ r, top w a r.
Proof.
  intros Hok Hs. destruct (ok_lineage _ Hok a s Hs) as (names & Hl & _). clear Hs.
  induction Hl as [a t Ht Hp|a t p names Ht Hp _ _ [r IH]]; [by exists a; eapply top_root|].
  exists r. by eapply top_parent.
Qed.

Lemma top_inv w a r :
  top w a r → ∃ s, acts w !! a = Some s ∧ match parent_ s with None => r = a | Some p => top w p r end.
Proof. destruct 1 as [a s Hs Hp|a s p r Hs Hp Hr]; exists s; by rewrite Hp. Qed.

Lemma top_unique w a r r' : top w a r → top w a r' → r = r'.
Proof.
  intros Hr. revert r'. induction Hr as [a s Hs Hp|a s p r Hs Hp Hr IH]; intros r' (t & Ht & Hq)%top_inv; simplify_eq;
    rewrite Hp in Hq; [done|by apply IH].
Qed.

Lemma top_self w a r : top w a r → top w r r.
Proof. induction 1 as [a s Hs Hp|a s p r Hs Hp Hr IH]; [by apply (top_root _ _ s)|done]. Qed.

Lemma top_grows w w' a r : grows w w' → top w a r → top w' a r.
Proof.
  intros (_ & _ & _ & Hg). induction 1 as [a s Hs Hp|a s p r Hs Hp Hr IH];
    destruct (Hg a s Hs) as (t & Ht & _ & _ & Hpar & _).
  - apply (top_root _ _ t); congruence.
  - apply (top_parent _ _ t p); congruence.
Qed.

Lemma top_child w a s c r : acts_ok w → acts w !! a = Some s → c ∈ acts_ s → top w a r → top w c r.
Proof.
  intros Hok Hs Hc Hr. destruct (ok_child _ Hok a s c Hs Hc) as (t & Ht & Hp & _). by apply (top_parent _ _ t a).
Qed.

Lemma top_up w a s p r : acts w !! a = Some s → parent_ s = Some p → top w a r → top w p r.
Proof. intros Hs Hp (t & Ht & Hq)%top_inv. simplify_eq. by rewrite Hp in Hq. Qed.

(** From [w] to [w'] only the tree of [r] has changed. *)
Record frame (r : nat) w w' : Prop := {
  fr_ok : acts_ok w';
  fr_grows : grows w w';
  fr_others b s : acts w !! b = Some s → ¬ top w b r → acts w' !! b = Some s;
  fr_new b s : acts w !! b = None → acts w' !! b = Some s → top w' b r
}.

Lemma frame_refl r w : acts_ok w → frame r w w.
Proof. intros Hok. split; [done|reflexivity|done|congruence]. Qed.

Lemma frame_trans r w w1 w2 : acts_ok w → frame r w w1 → frame r w1 w2 → frame r w w2.
Proof.
  intros Hok [O1 G1 F1 N1] [O2 G2 F2 N2]. split; [done|by transitivity w1| |].
  - intros b s Hs Hr. apply F2; [by apply F1|]. intros Hr1. apply Hr.
    destruct (top_exists w b s Hok Hs) as [r' Hr']. pose proof (top_grows _ _ _ _ G1 Hr') as Hr''.
    by rewrite (top_unique _ _ _ _ Hr1 Hr'').
  - intros b s Hn Hs. destruct (acts w1 !! b) as [s1|] eqn:Hs1; [|by eapply N2].
    apply (top_grows w1); [done|]. by apply (N1 b s1).
Qed.

(** ** Rules *)
Lemma frame_bind {A B} r w (m : M world A) (k : A → M world B) :
  acts_ok w → frame r w (m w).2 → (∀ x w', m w = (Ret x, w') → frame r w w' → frame r w' (k x w').2) →
  frame r w ((m ≫= k) w).2.
Proof.
  intros Hok Hm Hk. unfold mbind, M_bind. destruct (m w) as [[x|e| |] w'] eqn:Hr; try done.
  apply (frame_trans r w w'); [done|done|]. by apply Hk.
Qed.

Lemma frame_read {A B} r w (m : M world A) (k : A → M world B) :
  acts_ok w → preserves (λ v, v = w) m → (∀ x, m w = (Ret x, w) → frame r w (k x w).2) → frame r w ((m ≫= k) w).2.
Proof.
  intros Hok Hm Hk. apply frame_bind; [done| |].
  - rewrite (Hm w eq_refl). by apply frame_refl.
  - intros x w' Hr _. pose proof (preserves_same _ _ _ _ Hm Hr) as ->. by apply Hk.
Qed.

Lemma frame_at {A} r w a (k : state → M world A) :
  acts_ok w → (∀ s, acts w !! a = Some s → frame r w (k s w).2) → frame r w ((at_ a ≫= k) w).2.
Proof.
  intros Hok Hk. destruct (acts w !! a) as [s|] eqn:Hs.
  - rewrite (bind_run _ _ _ _ _ (act_at_spec _ _ _ Hs)). by apply Hk.
  - rewrite act_bind_none by done. by apply frame_refl.
Qed.

Lemma get_current_same w a : preserves (λ v, v = w) (get_current_act a).
Proof. unfold get_current_act, at_. preserve. Qed.

Lemma frame_current {A} r w a (k : nat → M world A) :
  acts_ok w → top w a r → (∀ c, top w c r → frame r w (k c w).2) → frame r w ((get_current_act a ≫= k) w).2.
Proof.
  intros Hok Hr Hk. apply frame_read; [done|apply get_current_same|]. intros c Hc.
  apply get_current_inv in Hc as (_ & s & Hs & Hin). apply Hk. by apply (top_child w a s).
Qed.

Lemma frame_store r w a s t :
  acts_ok w → top w a r → acts w !! a = Some s →
  acts_ok (set_store (<[a := t]> (acts w)) w) ∧ grows w (set_store (<[a := t]> (acts w)) w) →
  frame r w (set_store (<[a := t]> (acts w)) w).
Proof.
  intros Hok Hr Hs [Hok' Hg]. split; [done|done| |].
  - intros b u Hu Hnr. simpl. rewrite lookup_insert_ne; [done|]. by intros ->.
  - intros b u Hn Hu. simpl in Hu. destruct (decide (b = a)) as [->|]; [congruence|].
    rewrite lookup_insert_ne in Hu by done. congruence.
Qed.

Lemma frame_update r w a f :
  acts_ok w → top w a r → (∀ s, same_act s (f s) ∧ acts_ (f s) = acts_ s) → frame r w (update_ a f w).2.
Proof.
  intros Hok Hr Hf. apply frame_at; [done|]. intros s Hs. simpl. apply (frame_store r w a s); try done.
  destruct (Hf s) as [Hsame Hacts]. apply (acts_ok_update w a s); [done|done|done|]. rewrite Hacts. by left.
Qed.

Lemma frame_emit r w e : acts_ok w → frame r w (modify (emit e) w).2.
Proof.
  intros Hok. destruct (preserves_emit w e w (conj Hok (reflexivity w))) as [Hok' Hg].
  split; [done|done|done|]. simpl. intros b s Hn. congruence.
Qed.

(** Operations that only read, and know what they give. *)
Lemma at_same w a : preserves (λ v, v = w) (at_ a).
Proof. unfold at_. preserve. Qed.
Lemma find_act_same w n i l : preserves (λ v, v = w) (find_act n i l).
Proof.
  revert i. induction l as [|c l IH]; intros i; [apply preserves_ret|]. cbn [find_act].
  apply preserves_bind; [apply at_same|]. intros s. destruct (decide _); [apply preserves_ret|apply IH].
Qed.

Lemma frame_find {A} r w a s n (k : option (nat * nat) → M world A) :
  acts_ok w → acts w !! a = Some s → top w a r →
  frame r w (k None w).2 → (∀ i c, top w c r → frame r w (k (Some (i, c)) w).2) →
  frame r w ((find_act n 0 (acts_ s) ≫= k) w).2.
Proof.
  intros Hok Hs Hr Hnone Hsome. apply frame_read; [done|apply find_act_same|]. intros [[i c]|] Hf; [|done].
  apply find_act_inv in Hf as [_ Hf]. destruct (Hf i c eq_refl) as [Hc _]. apply Hsome. by apply (top_child w a s).
Qed.

(** ** Construction *)
Lemma frame_construct r w k p j name :
  acts_ok w → top w p r → frame r w (construct k (Some p) j name w).2 ∧
  ∀ b w', construct k (Some p) j name w = (Ret b, w') → ∃ t, acts w' !! b = Some t ∧ parent_ t = Some p ∧ json_ t = j.
Proof.
  intros Hok Hr. assert (∃ sp, acts w !! p = Some sp) as [sp Hsp] by (destruct (top_inv _ _ _ Hr) as (sp & ? & _); by exists sp).
  pose proof (act_construct_spec w k (Some p) j name Hok) as Hc.
  destruct (construct k (Some p) j name w) as [o w'] eqn:Hcons. simpl.
  specialize (Hc ltac:(intros q [= <-]; by exists sp)). destruct o as [b|e| |]; try done.
  - destruct Hc as ([Hok' Hg] & -> & pa & Ha & _ & _). set (t := State k name (Some p) pa j false 0 (now w) [] 0 0) in *.
    assert (acts w' !! next_act w = Some t) as Ht by (rewrite Ha; apply lookup_insert_eq). split.
    + split; [done|done| |].
      * intros b s Hs _. rewrite Ha, lookup_insert_ne; [done|]. pose proof (ok_fresh _ Hok b s Hs). lia.
      * intros b s Hn Hs. rewrite Ha in Hs. destruct (decide (b = next_act w)) as [->|];
          [|rewrite lookup_insert_ne in Hs by done; congruence].
        apply (top_parent _ _ t p); [done|done|]. by apply (top_grows w).
    + intros b w1 [= <- <-]. by exists t.
  - subst w'. split; [by apply frame_refl|]. intros b w1. done.
Qed.

Lemma read_value_same {V} (get : json → option V) j pa d w : preserves (λ v, v = w) (json_reader.read_value get j pa d).
Proof. apply preserves_read_value. Qed.

Lemma frame_load_each r a l : ∀ w s,
  acts_ok w → acts w !! a = Some s → is_composite (kind_ s) = true → (∀ j, j ∈ l → depth j < depth (json_ s)) →
  top w a r → frame r w (load_each a l w).2.
Proof.
  induction l as [|jact l IH]; intros w s Hok Hs Hk Hl Hr; [by apply frame_refl|]. cbn [load_each].
  apply frame_read; [done|apply read_value_same|]. intros type _.
  apply frame_read; [done|apply read_value_same|]. intros name _.
  destruct (frame_construct r w (default message (creators_ w !! type)) a jact name Hok Hr) as [Hf Hc].
  apply frame_bind; [done| |].
  - unfold create. rewrite (bind_run _ _ w w w) by done. destruct (creators_ w !! type) as [k|]; [|by apply frame_refl].
    apply frame_bind; [done|exact Hf|]. intros b w' _ Hfr. by apply frame_refl; destruct Hfr.
  - intros [b|] w' Hcr Hfr; [|by apply frame_refl; destruct Hfr]. pose proof Hfr as [Hok' Hg' _ _].
    assert (∃ t, acts w' !! b = Some t ∧ parent_ t = Some a ∧ json_ t = jact) as (t & Ht & Hp & Hj).
    { unfold create in Hcr. rewrite (bind_run _ _ w w w) in Hcr by done.
      destruct (creators_ w !! type) as [k|]; [|done]. simpl in Hc. unfold mbind, M_bind in Hcr.
      destruct (construct k (Some a) jact name w) as [[b'|e| |] w1] eqn:Hcons; try done.
      injection Hcr as <- <-. by apply (Hc b' w1). }
    destruct Hg' as (_ & _ & _ & Hga). destruct (Hga a s Hs) as (s' & Hs' & Hsame).
    destruct Hsame as (Hkk & Hn' & Hp' & Hpa & Hjj & Hst & Hdu).
    assert (top w' a r) as Hr' by (apply (top_grows w); [by destruct Hfr|done]).
    set (s2 := set_acts (acts_ s' ++ [b]) s').
    assert (frame r w' (set_store (<[a := s2]> (acts w')) w')) as Hf2.
    { apply (frame_store r w' a s'); [done|done|done|]. apply (acts_ok_update w' a s'); [done|done|by repeat split|].
      intros c Hc'. simpl in Hc'. apply elem_of_app in Hc' as [Hc'|Hc']; [by left|].
      apply list_elem_of_singleton in Hc' as ->. right. split; [congruence|]. exists t. split_and!; [done|done|].
      rewrite Hj, Hjj. apply Hl. by left. }
    apply frame_bind; [done| |]; rewrite (act_update_spec _ _ _ _ Hs'); [exact Hf2|].
    intros u w2 [= <- <-] _. apply (IH _ s2); [by destruct Hf2|simpl; apply lookup_insert_eq|simpl; congruence| |].
    + intros j Hj'. simpl. rewrite Hjj. apply Hl. by right.
    + apply (top_grows w'); [by destruct Hf2|done].
Qed.

Lemma frame_load_acts r w a s :
  acts_ok w → acts w !! a = Some s → is_composite (kind_ s) = true → top w a r → frame r w (load_acts a w).2.
Proof.
  intros Hok Hs Hk Hr. unfold load_acts. rewrite (bind_run _ _ _ _ _ (act_at_spec _ _ _ Hs)).
  destruct (lookup_key (json_ s) $"flow") as [f|] eqn:Hf.
  - unfold flow_of. rewrite Hf. rewrite (bind_run _ _ w f w) by done. destruct (is_null f); [by apply frame_refl|].
    apply (frame_load_each r a _ w s); try done. intros j Hj. apply depth_items in Hj. apply depth_key in Hf. lia.
  - destruct (flow_of_none (json_ s) w Hf) as (o & Ho & Hn). rewrite (bind_stop _ _ _ _ _ Ho Hn). by apply frame_refl.
Qed.

(** ** Down the tree *)

(** [rec] stays in the tree of [r] when it starts there. *)
Definition frames r {A} (rec : nat → M world A) : Prop :=
  ∀ w a, acts_ok w → top w a r → frame r w (rec a w).2.

Lemma frame_for_each {A} r (l : list A) (f : A → M world unit) : ∀ w,
  acts_ok w → (∀ x w', x ∈ l → frame r w w' → frame r w' (f x w').2) → frame r w (for_each l f w).2.
Proof.
  induction l as [|x l IH]; intros w Hok Hf; [by apply frame_refl|]. cbn [for_each].
  apply frame_bind; [done|apply Hf; [by left|by apply frame_refl]|]. intros u w' _ Hfr.
  apply IH; [by destruct Hfr|]. intros y w1 Hy Hw1. apply Hf; [by right|]. by apply (frame_trans r w w').
Qed.

Lemma top_frame r w w' a : frame r w w' → top w a r → top w' a r.
Proof. intros [_ Hg _ _]. by apply top_grows. Qed.

Lemma frame_each_act r f : frames r f → frames r (λ a, each_act a f).
Proof.
  intros Hf w a Hok Hr. apply frame_at; [done|]. intros s Hs. apply frame_for_each; [done|].
  intros c w' Hc Hfr. pose proof Hfr as [Hok' _ _ _].
  apply frame_bind; [done|apply Hf; [done|]|].
  - apply (top_frame r w); [done|]. by apply (top_child w a s).
  - intros u w1 _ [Hok1 _ _ _]. apply frame_at; [done|]. intros s' _.
    destruct (decide _); by apply frame_refl.
Qed.

Lemma frame_rec_current {A} r (rec : nat → M world A) : frames r rec → frames r (λ a, c ← get_current_act a; rec c).
Proof. intros Hf w a Hok Hr. apply frame_current; [done|done|]. intros c Hc. by apply Hf. Qed.

Lemma frame_active r w a b : acts_ok w → top w a r → frame r w (update_ a (set_active b) w).2.
Proof. intros Hok Hr. apply frame_update; [done|done|]. intros s. by repeat split. Qed.

Lemma frame_index r w a f : acts_ok w → top w a r → frame r w (update_ a (λ s, set_index (f s) s) w).2.
Proof. intros Hok Hr. apply frame_update; [done|done|]. intros s. by repeat split. Qed.

Lemma frame_deactivate_fuel r n : frames r (deactivate_fuel n).
Proof.
  induction n as [|n IH]; intros w a Hok Hr; [by apply frame_refl|]. cbn [deactivate_fuel].
  apply frame_at; [done|]. intros s Hs. destruct (active_ s); [|by apply frame_refl].
  apply frame_bind; [done| |].
  - destruct (kind_ s); try by apply frame_refl.
    1,3: by apply frame_rec_current. by apply frame_each_act.
  - intros u w' _ Hfr. apply frame_active; [by destruct Hfr|by apply (top_frame r w)].
Qed.

Lemma frame_deactivate r : frames r deactivate.
Proof. intros w a Hok Hr. apply frame_at; [done|]. intros s _. by apply frame_deactivate_fuel. Qed.

Lemma frame_activate_each r rec : frames r rec → ∀ l w,
  acts_ok w → (∀ c, c ∈ l → top w c r) → frame r w (activate_each rec l w).2.
Proof.
  intros Hf l. induction l as [|c l IH]; intros w Hok Hl; [by apply frame_refl|]. cbn [activate_each].
  apply frame_bind; [done|apply Hf; [done|apply Hl; by left]|]. intros [] w' _ Hfr; pose proof Hfr as [Hok' _ _ _].
  - apply IH; [done|]. intros b Hb. apply (top_frame r w); [done|]. apply Hl. by right.
  - by apply frame_refl.
Qed.

(** [load_acts] and what follows it. *)
Lemma frame_loaded r w a s (k : M world bool) :
  acts_ok w → acts w !! a = Some s → is_composite (kind_ s) = true → top w a r →
  (∀ w', acts_ok w' → top w' a r → frame r w' (k w').2) →
  frame r w ((loaded ← load_acts a; if (loaded : bool) then k else mret false) w).2.
Proof.
  intros Hok Hs Hk Hr Hk'. apply frame_bind; [done|by apply (frame_load_acts r w a s)|].
  intros [] w' _ Hfr; pose proof Hfr as [Hok' _ _ _]; [|by apply frame_refl].
  apply Hk'; [done|by apply (top_frame r w)].
Qed.

Lemma frame_serial_activate r rec w a s :
  frames r rec → acts_ok w → acts w !! a = Some s → is_composite (kind_ s) = true → top w a r →
  frame r w (serial_on_activate rec a w).2.
Proof.
  intros Hf Hok Hs Hk Hr. apply (frame_loaded r w a s); [done..|]. clear w s Hok Hs Hk Hr. intros w Hok Hr.
  apply frame_current; [done|done|]. intros c Hc. apply frame_at; [done|]. intros s Hs.
  apply frame_read; [done|apply preserves_deref|]. intros f _.
  apply frame_read; [done|apply preserves_check|]. intros _ _. by apply frame_rec_current.
Qed.

Lemma frame_parallel_activate r rec w a s :
  frames r rec → acts_ok w → acts w !! a = Some s → is_composite (kind_ s) = true → top w a r →
  frame r w (parallel_on_activate rec a w).2.
Proof.
  intros Hf Hok Hs Hk Hr. apply (frame_loaded r w a s); [done..|]. clear w s Hok Hs Hk Hr. intros w Hok Hr.
  apply frame_at; [done|]. intros s Hs. apply frame_activate_each; [done|done|].
  intros c Hc. by apply (top_child w a s).
Qed.

Lemma frame_message_activate r w a : acts_ok w → frame r w (message_on_activate a w).2.
Proof.
  intros Hok. apply frame_at; [done|]. intros s _. apply frame_read; [done|apply read_value_same|]. intros t _.
  apply frame_bind; [done|by apply frame_emit|]. intros u w' _ [Hok' _ _ _]. by apply frame_refl.
Qed.

Lemma frame_activate_fuel r n : frames r (activate_fuel n).
Proof.
  induction n as [|n IH]; intros w a Hok Hr; [by apply frame_refl|]. cbn [activate_fuel].
  apply frame_at; [done|]. intros s Hs. destruct (active_ s); [by apply frame_refl|].
  apply frame_bind; [done| |].
  - destruct (kind_ s) eqn:Hk; [by apply frame_message_activate|by apply frame_refl|..].
    1,3: apply (frame_serial_activate r _ w a s); [done|done|done|by rewrite Hk|done].
    apply (frame_parallel_activate r _ w a s); [done|done|done|by rewrite Hk|done].
  - intros rc w' _ Hfr. pose proof Hfr as [Hok' _ _ _].
    apply frame_bind; [done| |].
    + apply frame_update; [done|by apply (top_frame r w)|]. intros t. destruct rc; by repeat split.
    + intros u w1 _ [Hok1 _ _ _]. by apply frame_refl.
Qed.

Lemma frame_activate r : frames r activate.
Proof. intros w a Hok Hr. apply frame_at; [done|]. intros s _. by apply frame_activate_fuel. Qed.

(** ** Within the tree and up *)

(** What a path operation gives is read off the path. *)
Lemma frame_path {A B} r w (m : M world A) (k : A → M world B) :
  acts_ok w → (∀ v, preserves (λ u, u = v) m) → (∀ x, frame r w (k x w).2) → frame r w ((m ≫= k) w).2.
Proof. intros Hok Hm Hk. by apply frame_read. Qed.

(** [deactivate] the current act, move the index, [activate] the current act. *)
Lemma frame_switch r w a f (k : M world unit) :
  acts_ok w → top w a r → (∀ w', acts_ok w' → top w' a r → frame r w' (k w').2) →
  frame r w ((c ← get_current_act a; _ ← deactivate c; _ ← update_ a (λ s, set_index (f s) s); k) w).2.
Proof.
  intros Hok Hr Hk. apply frame_current; [done|done|]. intros c Hc.
  apply frame_bind; [done|by apply frame_deactivate|]. intros u w1 _ Hf1. pose proof Hf1 as [Hok1 _ _ _].
  pose proof (top_frame _ _ _ _ Hf1 Hr) as Hr1.
  apply frame_bind; [done|by apply frame_index|]. intros u2 w2 _ Hf2. pose proof Hf2 as [Hok2 _ _ _].
  apply Hk; [done|by apply (top_frame r w1)].
Qed.

Lemma frame_activate_current r : frames r (λ a, c ← get_current_act a; _ ← activate c; mret tt).
Proof.
  intros w a Hok Hr. apply frame_current; [done|done|]. intros c Hc.
  apply frame_bind; [done|by apply frame_activate|]. intros b w' _ [Hok' _ _ _]. by apply frame_refl.
Qed.

Lemma frame_serial_next r : frames r serial_next.
Proof.
  intros w a Hok Hr. apply frame_switch; [done|done|]. clear w Hok Hr. intros w Hok Hr.
  apply frame_at; [done|]. intros s Hs. destruct (decide _); [by apply frame_index|by apply frame_activate_current].
Qed.

Lemma frame_parent {A} r w a s (rec : nat → M world A) (k : M world A) :
  frames r rec → acts_ok w → top w a r → acts w !! a = Some s → frame r w (k w).2 →
  frame r w (match parent_ s with Some p => rec p | None => k end w).2.
Proof.
  intros Hf Hok Hr Hs Hk. destruct (parent_ s) as [p|] eqn:Hp; [|done]. apply Hf; [done|]. by apply (top_up w a s).
Qed.

Lemma frame_next_fuel r n : frames r (next_fuel n).
Proof.
  induction n as [|n IH]; intros w a Hok Hr; [by apply frame_refl|]. cbn [next_fuel].
  apply frame_at; [done|]. intros s Hs.
  destruct (kind_ s); try by apply frame_serial_next.
  1,2: apply (frame_parent r w a s); [done..|by apply frame_refl].
  unfold parallel_next. rewrite (preserves_check (λ v, v = w) false w eq_refl). by apply frame_refl.
Qed.

Lemma frame_next r : frames r next.
Proof. intros w a Hok Hr. apply frame_read; [done|apply preserves_get|]. intros v _. by apply frame_next_fuel. Qed.

Lemma serial_jump_child_frames r pa : frames r (λ a, serial_jump_child a pa).
Proof.
  intros w a Hok Hr. apply frame_path; [done|intros v; apply preserves_first_act|]. intros n.
  apply frame_at; [done|]. intros s Hs. apply (frame_find r w a s); [done|done|done|by apply frame_refl|].
  intros i c Hc. apply frame_switch; [done|done|]. intros w' Hok' Hr'. by apply frame_activate_current.
Qed.

Lemma parallel_jump_child_frames r rec pa :
  (∀ q, frames r (λ a, rec a q)) → frames r (λ a, parallel_jump_child rec a pa).
Proof.
  intros Hf w a Hok Hr. apply frame_path; [done|intros v; apply preserves_check|]. intros _.
  apply frame_path; [done|intros v; apply preserves_first_act|]. intros n.
  apply frame_at; [done|]. intros s Hs. apply (frame_find r w a s); [done|done|done|by apply frame_refl|].
  intros i c Hc. apply frame_path; [done|intros v; apply preserves_pop_head|]. intros q. by apply Hf.
Qed.

Lemma composite_jump_frames r rec jc a pa w :
  (∀ q, frames r (λ a, rec a q)) → (∀ q, frame r w (jc q w).2) → acts_ok w → top w a r →
  frame r w (composite_jump rec jc a pa w).2.
Proof.
  intros Hf Hjc Hok Hr. unfold composite_jump. destruct (path.is_relative_path pa); [done|].
  apply frame_at; [done|]. intros s Hs. destruct (path.is_child_of _ pa).
  - apply frame_path; [done|intros v; apply preserves_child_path|]. done.
  - destruct (parent_ s) as [p|] eqn:Hp; [|by apply frame_refl]. apply (Hf pa); [done|]. by apply (top_up w a s).
Qed.

Lemma frame_jump_fuel r n : ∀ pa, frames r (λ a, jump_fuel n a pa).
Proof.
  induction n as [|n IH]; intros pa w a Hok Hr; [by apply frame_refl|]. cbn [jump_fuel].
  apply frame_at; [done|]. intros s Hs.
  assert (frame r w (serial_jump (jump_fuel n) a pa w).2) as Hser.
  { unfold serial_jump. destruct (decide _); [by apply frame_refl|].
    apply composite_jump_frames; [done| |done|done]. intros q. by apply (serial_jump_child_frames r q). }
  destruct (kind_ s); try done.
  1,2: destruct (parent_ s) as [p|] eqn:Hp; [|by apply frame_refl]; apply (IH pa); [done|]; by apply (top_up w a s).
  apply composite_jump_frames; [done| |done|done]. intros q. by apply (parallel_jump_child_frames r _ q).
Qed.

Lemma frame_jump r pa : frames r (λ a, jump a pa).
Proof. intros w a Hok Hr. apply frame_read; [done|apply preserves_get|]. intros v _. by apply frame_jump_fuel. Qed.

Lemma slots_of_same (v : world) j : preserves (λ u, u = v) (slots_of j).
Proof. unfold slots_of. preserve. Qed.

Lemma read_same (v : world) j k : preserves (λ u, u = v) (json_reader.read j k).
Proof. unfold json_reader.read. preserve. Qed.

Section owner.
Context (owner_stop : M world unit) (r : nat).
Context (Hstop : ∀ w, acts_ok w → top w r r → frame r w (owner_stop w).2).

Lemma frame_exit_fuel n : frames r (exit_fuel owner_stop n).
Proof.
  induction n as [|n IH]; intros w a Hok Hr; [by apply frame_refl|]. cbn [exit_fuel].
  apply frame_at; [done|]. intros s Hs.
  destruct (kind_ s); try (apply (frame_parent r w a s); [done..|by apply frame_refl]).
  apply Hstop; [done|by apply (top_self w a)].
Qed.

Lemma frame_exit : frames r (exit owner_stop).
Proof. intros w a Hok Hr. apply frame_read; [done|apply preserves_get|]. intros v _. by apply frame_exit_fuel. Qed.

Lemma frame_signal sig : frames r (λ a, signal owner_stop a sig).
Proof.
  intros w a Hok Hr. apply frame_at; [done|]. intros s Hs.
  apply frame_path; [done|intros v; apply slots_of_same|]. intros slots.
  destruct (is_object slots); [|by apply frame_refl].
  apply frame_path; [done|intros v; apply read_same|]. intros jsig.
  destruct (is_object jsig); [|by apply frame_refl].
  apply frame_path; [done|intros v; apply read_value_same|]. intros cmd.
  destruct (decide _).
  { apply frame_path; [done|intros v; apply read_value_same|]. intros t. by apply frame_jump. }
  destruct (decide _); [by apply frame_next|]. destruct (decide _); [by apply frame_exit|by apply frame_refl].
Qed.

Lemma frame_update_fuel n : frames r (update_fuel owner_stop n).
Proof.
  induction n as [|n IH]; intros w a Hok Hr; [by apply frame_refl|]. cbn [update_fuel].
  apply frame_at; [done|]. intros s Hs. destruct (kind_ s).
  - by apply frame_signal.
  - apply frame_at; [done|]. intros t _. apply frame_read; [done|apply preserves_get|]. intros v Hv. injection Hv as <-.
    unfold when. destruct (_ <=? _)%Z; [by apply frame_signal|by apply frame_refl].
  - by apply frame_rec_current.
  - by apply frame_each_act.
  - by apply frame_rec_current.
Qed.

Lemma frame_update_act : frames r (update owner_stop).
Proof. intros w a Hok Hr. apply frame_at; [done|]. intros s _. by apply frame_update_fuel. Qed.
End owner.
End frame.
