(* ===== verification/ActFlow.v ===== *)
(** * Running flows: a sequence of messages, and activating acts again *)

From S2P Require Import Prelude.
From S2P Require Import Serializer.
From S2P Require Import StringUtil.
From S2P Require Import Json.
From S2P Require Import ActPath.
From S2P Require Import Acts.
From S2P Require Import ActFacts.
From S2P Require Import ActFind.
Import act_ensure.

Section loading.
Context `{Build} `{JsonLaws}.
Implicit Types (w : world) (s : state).

(** What [load_each] does to the act: the new children are appended, one for every
    document, and nothing else of it changes. *)
Lemma load_each_appends w a s l w' :
  acts_ok w → acts w !! a = Some s → is_composite (kind_ s) = true →
  (∀ j, j ∈ l → depth j < depth (json_ s)) →
  load_each a l w = (Ret true, w') →
  ∃ new, length new = length l ∧ acts w' !! a = Some (set_acts (acts_ s ++ new) s).
Proof.
  revert w s. induction l as [|j l IH]; intros w s Hok Hs Hk Hl Hr.
  { injection Hr as <-. exists []. split; [done|]. rewrite app_nil_r, Hs. by destruct s. }
  cbn [load_each] in Hr.
  (* the two reads *)
  destruct (json_reader.read_value get_str j $"type" [] w) as [o1 w1] eqn:E1.
  pose proof (preserves_read_value (λ v, v = w) get_str j $"type" [] w eq_refl) as P1. rewrite E1 in P1. simpl in P1. subst w1.
  destruct o1 as [type|e| |]; try (by rewrite (bind_stop _ _ _ _ _ E1) in Hr).
  rewrite (bind_run _ _ _ _ _ E1) in Hr.
  destruct (json_reader.read_value get_str j $"name" [] w) as [o2 w2] eqn:E2.
  pose proof (preserves_read_value (λ v, v = w) get_str j $"name" [] w eq_refl) as P2. rewrite E2 in P2. simpl in P2. subst w2.
  destruct o2 as [name|e| |]; try (by rewrite (bind_stop _ _ _ _ _ E2) in Hr).
  rewrite (bind_run _ _ _ _ _ E2) in Hr.
  unfold create in Hr at 1. destruct (creators_ w !! type) as [k|] eqn:Hcr.
  2:{ rewrite (bind_run _ _ w None w) in Hr; [done|]. rewrite (bind_run _ _ w w w) by done. by rewrite Hcr. }
  pose proof (act_construct_spec w k (Some a) j name Hok) as Hc.
  destruct (construct k (Some a) j name w) as [o w3] eqn:Hcons.
  assert (∀ q, Some a = Some q → is_Some (acts w !! q)) as Hq by (intros q [= <-]; by exists s).
  specialize (Hc Hq). destruct o as [b|e| |]; try done.
  2:{ rewrite (bind_stop _ _ w (Throw e) w3) in Hr; [done| |done].
      rewrite (bind_run _ _ w w w) by done. rewrite Hcr. by rewrite (bind_stop _ _ _ _ _ Hcons). }
  destruct Hc as ([Hok3 Hg3] & -> & p & Hacts3 & _).
  rewrite (bind_run _ _ w (Some (next_act w)) w3) in Hr.
  2:{ rewrite (bind_run _ _ w w w) by done. rewrite Hcr. by rewrite (bind_run _ _ _ _ _ Hcons). }
  assert (a ≠ next_act w) as Hne by (pose proof (ok_fresh _ Hok a s Hs); lia).
  assert (acts w3 !! a = Some s) as Hs3 by (by rewrite Hacts3, lookup_insert_ne).
  rewrite (bind_run _ _ _ _ _ (act_update_spec _ _ _ _ Hs3)) in Hr.
  set (s4 := set_acts (acts_ s ++ [next_act w]) s) in *.
  destruct (acts_ok_update w3 a s s4 Hok3 Hs3) as [Hok4 _]; [by repeat split| |].
  { intros c Hc. simpl in Hc. apply elem_of_app in Hc as [Hc|Hc]; [by left|].
    apply list_elem_of_singleton in Hc as ->. right. split; [done|]. eexists.
    split; [rewrite Hacts3; apply lookup_insert_eq|]. simpl. split; [done|]. apply Hl. by left. }
  destruct (IH _ s4 Hok4 ltac:(apply lookup_insert_eq) Hk ltac:(intros; apply Hl; by right) Hr) as (new & Hlen & Hw').
  exists (next_act w :: new). split; [simpl; by rewrite Hlen|]. rewrite Hw'. unfold s4, set_acts. simpl.
  by rewrite <-(assoc_L app).
Qed.

Lemma load_acts_appends w a s w' :
  acts_ok w → acts w !! a = Some s → is_composite (kind_ s) = true → load_acts a w = (Ret true, w') →
  ∃ f new, lookup_key (json_ s) $"flow" = Some f ∧ length new = length (items f) ∧
    acts w' !! a = Some (set_acts (acts_ s ++ new) s).
Proof.
  intros Hok Hs Hk Hr. unfold load_acts in Hr. rewrite (bind_run _ _ _ _ _ (act_at_spec _ _ _ Hs)) in Hr.
  destruct (lookup_key (json_ s) $"flow") as [f|] eqn:Hf.
  - rewrite (bind_run _ _ w f w) in Hr by (unfold flow_of; by rewrite Hf).
    destruct (is_null f); [done|].
    destruct (load_each_appends w a s (items f) w' Hok Hs Hk) as (new & ? & ?); [|done|by exists f, new].
    intros j Hj. apply depth_items in Hj. apply depth_key in Hf. lia.
  - destruct (flow_of_none (json_ s) w Hf) as (o & Ho & Hn).
    rewrite (bind_stop _ _ _ _ _ Ho Hn) in Hr. by destruct o.
Qed.

Lemma jump_self w a s :
  acts_ok w → acts w !! a = Some s → is_composite (kind_ s) = true →
  jump a (path.full_path_ (path_ s)) w = (Throw (std_exception $"out_of_range"), w).
Proof.
  intros Hok Hs Hk. unfold jump. rewrite (bind_run _ _ w w w) by done.
  destruct (ok_lineage _ Hok a s Hs) as (ns & _ & Hf).
  replace (2 * length (path.full_path_ (path_ s)) + 2 * next_act w + 4) with
    (S (2 * length (path.full_path_ (path_ s)) + 2 * next_act w + 3)) by lia.
  generalize (2 * length (path.full_path_ (path_ s)) + 2 * next_act w + 3) as fuel. intros fuel.
  cbn [jump_fuel]; unfold jump_body. rewrite (bind_run _ _ _ _ _ (act_at_spec _ _ _ Hs)).
  assert (∀ g, composite_jump (jump_fuel fuel) g a (path.full_path_ (path_ s)) w
    = (Throw (std_exception $"out_of_range"), w)) as Hc.
  { intros g. unfold composite_jump.
    assert (path.is_relative_path (path.full_path_ (path_ s)) = false) as -> by (by rewrite Hf).
    rewrite (bind_run _ _ _ _ _ (act_at_spec _ _ _ Hs)). unfold path.is_child_of.
    rewrite bool_decide_true by apply take_ge, le_n.
    by rewrite (bind_stop _ _ _ _ _ (child_path_self (path.full_path_ (path_ s)) w)). }
  destruct (kind_ s); try done; unfold serial_jump, parallel_jump;
    rewrite ?decide_False by (by rewrite Hf); apply Hc.
Qed.

Lemma activate_no_flow w a s :
  acts w !! a = Some s → is_composite (kind_ s) = true → active_ s = false →
  is_object (json_ s) = true → lookup_key (json_ s) $"flow" = None →
  (activate a w).1 = if assertions then Aborted else Undefined.
Proof.
  intros Hs Hk Ha Hobj Hnone. unfold activate. rewrite (bind_run _ _ _ _ _ (act_at_spec _ _ _ Hs)).
  cbn [activate_fuel]; unfold activate_body. rewrite (bind_run _ _ _ _ _ (act_at_spec _ _ _ Hs)), Ha.
  assert (∃ w', load_acts a w = ((if assertions then Aborted else Undefined), w')) as [w' Hl].
  { unfold load_acts. rewrite (bind_run _ _ _ _ _ (act_at_spec _ _ _ Hs)).
    unfold flow_of. rewrite Hnone, Hobj. unfold PLAY_CHECK. run. destruct assertions; by eexists. }
  destruct (kind_ s); try done; unfold serial_on_activate, parallel_on_activate;
    unfold mbind, M_bind; rewrite Hl; by destruct assertions.
Qed.

(** The current act of a serial act that is within bounds. *)
Lemma get_current_spec w a s c :
  acts w !! a = Some s → acts_ s !! current_act_index_ s = Some c → get_current_act a w = (Ret c, w).
Proof.
  intros Hs Hc. unfold get_current_act. rewrite (bind_run _ _ _ _ _ (act_at_spec _ _ _ Hs)).
  rewrite (bind_run _ _ w tt w); [by rewrite Hc|]. apply check_true, Nat.ltb_lt. by apply lookup_lt_Some in Hc.
Qed.

Lemma activate_again w a s w' new c0 c :
  acts w !! a = Some s → is_composite (kind_ s) = true → kind_ s ≠ parallel → active_ s = false →
  load_acts a w = (Ret true, w') → acts w' !! a = Some (set_acts (acts_ s ++ new) s) →
  acts_ s !! 0 = Some c0 → acts_ s !! current_act_index_ s = Some c → c ≠ c0 →
  assertions = true → (activate a w).1 = Aborted.
Proof.
  intros Hs Hk Hpar Ha Hl Hw' Hc0 Hc Hne Hasr. unfold activate. rewrite (bind_run _ _ _ _ _ (act_at_spec _ _ _ Hs)).
  cbn [activate_fuel]; unfold activate_body. rewrite (bind_run _ _ _ _ _ (act_at_spec _ _ _ Hs)), Ha.
  assert (∀ g, serial_on_activate g a w = (Aborted, w')) as Hser.
  { intros g. unfold serial_on_activate. rewrite (bind_run _ _ _ _ _ Hl).
    assert (get_current_act a w' = (Ret c, w')) as Hcur
      by (apply (get_current_spec _ _ _ _ Hw'); simpl; by rewrite (lookup_app_l_Some _ _ _ _ Hc)).
    rewrite (bind_run _ _ _ _ _ Hcur), (bind_run _ _ _ _ _ (act_at_spec _ _ _ Hw')). simpl.
    rewrite (bind_run _ _ w' c0 w') by (by rewrite (lookup_app_l_Some _ _ _ _ Hc0)).
    rewrite (proj2 (Nat.eqb_neq _ _) Hne). by rewrite (bind_stop _ _ w' Aborted w' (check_fails w' Hasr)). }
  destruct (kind_ s); try done; by rewrite (bind_stop _ _ _ _ _ (Hser _)).
Qed.
End loading.

(** Where acts go wrong.  A jump to a composite act itself, by its own path,
    leaves with the exception of [substr].  A composite whose document has no flow
    does not report that: reading the missing member is an assertion of the library.
    Activating a serial act again loads its document again behind the acts it
    has, so their number grows each time; and when it had moved on to another act
    before, a debug build stops. *)
Theorem act_hazards `{Build} `{JsonLaws} (w : world) (a : nat) (s : state) :
  acts_ok w → acts w !! a = Some s → is_composite (kind_ s) = true →
  jump a (path.full_path_ (path_ s)) w = (Throw (std_exception $"out_of_range"), w) ∧
  (active_ s = false → is_object (json_ s) = true → lookup_key (json_ s) $"flow" = None →
     (activate a w).1 = if assertions then Aborted else Undefined) ∧
  (∀ w', load_acts a w = (Ret true, w') → ∃ f new s',
     lookup_key (json_ s) $"flow" = Some f ∧ acts w' !! a = Some s' ∧
     acts_ s' = acts_ s ++ new ∧ length new = length (items f) ∧
     (assertions = true → kind_ s ≠ parallel → active_ s = false →
        (∃ c0 c, acts_ s !! 0 = Some c0 ∧ acts_ s !! current_act_index_ s = Some c ∧ c ≠ c0) →
        (activate a w).1 = Aborted)).
Proof.
  intros Hok Hs Hk. split_and!.
  - by apply jump_self.
  - by apply activate_no_flow.
  - intros w' Hl. destruct (load_acts_appends w a s w' Hok Hs Hk Hl) as (f & new & Hf & Hlen & Hw').
    exists f, new, (set_acts (acts_ s ++ new) s). split_and!; [done|done|done|done|].
    intros Hasr Hpar Ha (c0 & c & H0' & Hc & Hne). by apply (activate_again w a s w' new c0 c).
Qed.

(** The example after [message_1] jumped to the top: [serial_1] is at 2. *)
Lemma act_hazards_witness :
  let _ := debug_build in
  jump 2 $"/flow/serial_1" example_acts = (Throw (std_exception $"out_of_range"), example_acts).
Proof.
  intros d. destruct (acts example_acts !! 2) as [s|] eqn:Hs; [|vm_compute in Hs; discriminate].
  assert (path.full_path_ (path_ s) = $"/flow/serial_1" ∧ is_composite (kind_ s) = true) as [Hp Hk].
  { vm_compute in Hs. injection Hs as <-. split; reflexivity. }
  destruct (act_hazards example_acts 2 s) as (Hj & _).
  - apply example_acts_ok.
  - exact Hs.
  - exact Hk.
  - rewrite Hp in Hj. exact Hj.
Defined.

(** ** A flow of messages *)
Section messages.
Context `{Build} `{JsonLaws}.
Implicit Types (w : world) (s t : state).

(** A member of a document that is a string. *)
Definition string_member (j : json) (key v : str) : Prop :=
  ∃ jv, lookup_key j key = Some jv ∧ is_null jv = false ∧ get_str jv = Some v.

(** The document of an act that shows [text] and moves on. *)
Definition is_message (j : json) (text : str) : Prop :=
  is_object j = true ∧ string_member j $"type" $"act_message" ∧
  (∃ name, string_member j $"name" name ∧ is_name name) ∧ string_member j $"message" text ∧
  ∃ slots success, lookup_key j $"slots" = Some slots ∧ is_object slots = true ∧
    lookup_key slots $"success" = Some success ∧ is_object success = true ∧
    string_member success $"cmd" $"next".

Lemma read_string_member (j : json) key v d w :
  string_util.split key $"." = [key] → string_member j key v →
  json_reader.read_value get_str j key d w = (Ret v, w).
Proof. intros Hk (jv & Hl & Hn & Hg). apply read_value_member; [done|]. by rewrite Hl. Qed.

(** The flow at [a] with the children [cs], for the texts; [i] is the current one,
    and [act] says which are active. *)
Record flow_state w (a : nat) (cs : list nat) (texts : list str) (i : nat) (act : nat → bool) : Prop := {
  fs_ok : acts_ok w;
  fs_nodup : NoDup cs;
  fs_length : length cs = length texts;
  fs_flow : ∃ s, acts w !! a = Some s ∧ kind_ s = flow ∧ acts_ s = cs ∧ current_act_index_ s = i;
  fs_child k c text : cs !! k = Some c → texts !! k = Some text →
    ∃ t, acts w !! c = Some t ∧ kind_ t = message ∧ parent_ t = Some a ∧ active_ t = act k ∧
      is_message (json_ t) text
}.

Lemma fs_ext w a cs texts i act act' :
  (∀ k, k < length cs → act k = act' k) → flow_state w a cs texts i act → flow_state w a cs texts i act'.
Proof.
  intros He [F1 F2 F3 F4 F5]. split; try done. intros k c text Hc Ht.
  destruct (F5 k c text Hc Ht) as (t & ? & ? & ? & ? & ?). exists t. rewrite <-He by (by eapply lookup_lt_Some). done.
Qed.

Lemma fs_set_child w a cs texts i act k c t t' :
  flow_state w a cs texts i act → cs !! k = Some c → acts w !! c = Some t → kind_ t = message →
  same_act t t' → acts_ t' = acts_ t →
  flow_state (set_store (<[c := t']> (acts w)) w) a cs texts i (λ m, if decide (m = k) then active_ t' else act m).
Proof.
  intros [F1 F2 F3 (s & Hs & Hk & Ha & Hi) F5] Hc Ht Hm Hsame Hacts.
  assert (c ≠ a) as Hca by congruence. split; [|done|done| |].
  - apply (acts_ok_update w c t t' F1 Ht Hsame). rewrite Hacts. by left.
  - exists s. simpl. by rewrite lookup_insert_ne.
  - intros m b text Hb Htext. destruct (F5 m b text Hb Htext) as (u & Hu & Hku & Hpu & Hau & Hju). simpl.
    destruct (decide (m = k)) as [->|Hmk].
    + assert (b = c) as -> by congruence. assert (u = t) as -> by congruence. rewrite lookup_insert_eq.
      destruct Hsame as (Hk' & _ & Hp' & _ & Hj' & _). exists t'. split_and!; congruence.
    + exists u. rewrite lookup_insert_ne; [done|]. intros <-. apply Hmk. by eapply NoDup_lookup.
Qed.

Lemma fs_set_index w a cs texts i act i' s :
  flow_state w a cs texts i act → acts w !! a = Some s →
  flow_state (set_store (<[a := set_index i' s]> (acts w)) w) a cs texts i' act.
Proof.
  intros [F1 F2 F3 (s0 & Hs0 & Hk & Ha & Hi) F5] Hs. assert (s0 = s) as -> by congruence. split; [|done|done| |].
  - apply (acts_ok_update w a s (set_index i' s) F1 Hs); [by repeat split|by left].
  - exists (set_index i' s). simpl. by rewrite lookup_insert_eq.
  - intros m b text Hb Htext. destruct (F5 m b text Hb Htext) as (u & Hu & Hku & ?). exists u. simpl.
    rewrite lookup_insert_ne; [done|]. intros ->. congruence.
Qed.

Lemma fs_flow_at w a cs texts i act s t :
  flow_state w a cs texts i act → acts w !! a = Some s → same_act s t → acts_ t = acts_ s →
  current_act_index_ t = current_act_index_ s →
  flow_state (set_store (<[a := t]> (acts w)) w) a cs texts i act.
Proof.
  intros [F1 F2 F3 (s0 & Hs0 & Hk & Ha & Hi) F5] Hs Hsame Hacts Hidx. assert (s0 = s) as -> by congruence.
  split; [|done|done| |].
  - apply (acts_ok_update w a s t F1 Hs Hsame). rewrite Hacts. by left.
  - exists t. simpl. rewrite lookup_insert_eq. destruct Hsame as (Hk' & _). split_and!; congruence.
  - intros m b text Hb Htext. destruct (F5 m b text Hb Htext) as (u & Hu & Hku & ?). exists u. simpl.
    rewrite lookup_insert_ne; [done|]. intros ->. congruence.
Qed.

Lemma fs_emit w a cs texts i act e :
  flow_state w a cs texts i act → flow_state (emit e w) a cs texts i act.
Proof.
  intros [F1 F2 F3 F4 F5]. split; try done.
  by apply (preserves_emit w e w (conj F1 (reflexivity w))).
Qed.

(** A message act stops and starts. *)
Lemma fs_deactivate_fuel n w a cs texts i act k c :
  flow_state w a cs texts i act → cs !! k = Some c →
  ∃ w', deactivate_fuel (S n) c w = (Ret tt, w') ∧ events w' = events w ∧
    flow_state w' a cs texts i (λ m, if decide (m = k) then false else act m).
Proof.
  intros Hf Hc. destruct (lookup_lt_is_Some_2 texts k) as [text Htext].
  { rewrite <-(fs_length _ _ _ _ _ _ Hf). by eapply lookup_lt_Some. }
  destruct (fs_child _ _ _ _ _ _ Hf k c text Hc Htext) as (t & Ht & Hk & Hp & Ha & Hj).
  cbn [deactivate_fuel]; unfold deactivate_body.
  rewrite (bind_run _ _ _ _ _ (act_at_spec _ _ _ Ht)), Hk. destruct (active_ t) eqn:Hat.
  - rewrite (bind_run _ _ w tt w) by done. rewrite (act_update_spec _ _ _ _ Ht). eexists. split; [done|split; [done|]].
    apply (fs_set_child w a cs texts i act k c t (set_active false t)); try done.
  - exists w. split; [done|split; [done|]]. eapply fs_ext; [|exact Hf]. intros m _. simpl.
    destruct (decide (m = k)) as [->|]; congruence.
Qed.

Lemma fs_deactivate w a cs texts i act k c :
  flow_state w a cs texts i act → cs !! k = Some c →
  ∃ w', deactivate c w = (Ret tt, w') ∧ events w' = events w ∧
    flow_state w' a cs texts i (λ m, if decide (m = k) then false else act m).
Proof.
  intros Hf Hc. destruct (fs_deactivate_fuel 0 _ _ _ _ _ _ _ _ Hf Hc) as (w' & Hr & H').
  destruct (acts w !! c) as [t|] eqn:Ht.
  - unfold deactivate. rewrite (bind_run _ _ _ _ _ (act_at_spec _ _ _ Ht)). by apply fs_deactivate_fuel.
  - cbn [deactivate_fuel] in Hr; unfold deactivate_body in Hr. by rewrite (bind_stop _ _ _ _ _ (act_at_none _ _ Ht)) in Hr.
Qed.

(** The flow itself stops. *)
Lemma fs_deactivate_flow w a cs texts i act c :
  flow_state w a cs texts i act → cs !! i = Some c →
  ∃ w' t, deactivate a w = (Ret tt, w') ∧ events w' = events w ∧ acts w' !! a = Some t ∧ active_ t = false.
Proof.
  intros Hf Hc. destruct (fs_flow _ _ _ _ _ _ Hf) as (s & Hs & Hk & Ha & Hi).
  destruct (ok_child _ (fs_ok _ _ _ _ _ _ Hf) a s c Hs) as (t & _ & _ & Hd).
  { rewrite Ha. by eapply list_elem_of_lookup_2. }
  unfold deactivate. rewrite (bind_run _ _ _ _ _ (act_at_spec _ _ _ Hs)).
  destruct (depth (json_ s)) as [|d]; [lia|]. cbn [deactivate_fuel]; unfold deactivate_body.
  rewrite (bind_run _ _ _ _ _ (act_at_spec _ _ _ Hs)), Hk. destruct (active_ s) eqn:Hact; [|by exists w, s].
  destruct (fs_deactivate_fuel d _ _ _ _ _ _ _ _ Hf Hc) as (w1 & R1 & E1 & F1).
  destruct (fs_flow _ _ _ _ _ _ F1) as (s1 & Hs1 & _). exists (set_store (<[a := set_active false s1]> (acts w1)) w1).
  eexists. split_and!; [|done|apply lookup_insert_eq|done]. rewrite (bind_run _ _ w tt w1).
  - by rewrite (act_update_spec _ _ _ _ Hs1).
  - unfold serial_on_deactivate. rewrite (bind_run _ _ w c w); [exact R1|].
    apply (get_current_spec w a s); [done|by rewrite Ha, Hi].
Qed.

Lemma fs_activate_fuel n w a cs texts i act k c text :
  flow_state w a cs texts i act → cs !! k = Some c → texts !! k = Some text → act k = false →
  ∃ w', activate_fuel (S n) c w = (Ret true, w') ∧ events w' = events w ++ [shown text] ∧
    flow_state w' a cs texts i (λ m, if decide (m = k) then true else act m).
Proof.
  intros Hf Hc Htext Hact.
  destruct (fs_child _ _ _ _ _ _ Hf k c text Hc Htext) as (t & Ht & Hk & Hp & Ha & Hj).
  cbn [activate_fuel]; unfold activate_body. rewrite (bind_run _ _ _ _ _ (act_at_spec _ _ _ Ht)), Hk, Ha, Hact.
  set (w1 := emit (shown text) w).
  rewrite (bind_run _ _ w true w1).
  2:{ unfold message_on_activate. rewrite (bind_run _ _ _ _ _ (act_at_spec _ _ _ Ht)).
      destruct Hj as (_ & _ & _ & Hm & _).
      by rewrite (bind_run _ _ _ _ _ (read_string_member (json_ t) $"message" text [] w eq_refl Hm)). }
  assert (acts w1 !! c = Some t) as Ht1 by done.
  rewrite (bind_run _ _ _ _ _ (act_update_spec _ _ _ _ Ht1)). eexists. split; [done|split; [done|]].
  apply (fs_set_child w1 a cs texts i act k c t (set_active_count (S (active_count_ t)) (set_active true t))
    (fs_emit _ _ _ _ _ _ _ Hf) Hc Ht1 Hk); by repeat split.
Qed.

Lemma fs_activate w a cs texts i act k c text :
  flow_state w a cs texts i act → cs !! k = Some c → texts !! k = Some text → act k = false →
  ∃ w', activate c w = (Ret true, w') ∧ events w' = events w ++ [shown text] ∧
    flow_state w' a cs texts i (λ m, if decide (m = k) then true else act m).
Proof.
  intros Hf Hc Htext Hact.
  destruct (fs_child _ _ _ _ _ _ Hf k c text Hc Htext) as (t & Ht & _).
  unfold activate. rewrite (bind_run _ _ _ _ _ (act_at_spec _ _ _ Ht)).
  by apply (fs_activate_fuel _ _ _ _ _ _ _ _ _ _ Hf Hc Htext).
Qed.

(** [next] on the current act. *)
Lemma fs_next w a cs texts i act c :
  flow_state w a cs texts i act → cs !! i = Some c → (∀ m, m ≠ i → act m = false) →
  ∃ w', next c w = (Ret tt, w') ∧
    if decide (S i < length cs)
    then flow_state w' a cs texts (S i) (λ m, bool_decide (m = S i)) ∧
      ∃ text, texts !! S i = Some text ∧ events w' = events w ++ [shown text]
    else flow_state w' a cs texts i (λ _, false) ∧ events w' = events w.
Proof.
  intros Hf Hc Hact. destruct (fs_flow _ _ _ _ _ _ Hf) as (s & Hs & Hk & Ha & Hi).
  destruct (lookup_lt_is_Some_2 texts i) as [text0 Htext0].
  { rewrite <-(fs_length _ _ _ _ _ _ Hf). by eapply lookup_lt_Some. }
  destruct (fs_child _ _ _ _ _ _ Hf i c text0 Hc Htext0) as (t & Ht & Hkt & Hp & _ & _).
  assert (next c w = serial_next a w) as ->.
  { unfold next. rewrite (bind_run _ _ w w w) by done. pose proof (ok_fresh _ (fs_ok _ _ _ _ _ _ Hf) c t Ht) as Hfr.
    destruct (next_act w) as [|n]; [lia|]. cbn [next_fuel]; unfold next_body.
    rewrite (bind_run _ _ _ _ _ (act_at_spec _ _ _ Ht)), Hkt, Hp. by rewrite (bind_run _ _ _ _ _ (act_at_spec _ _ _ Hs)), Hk. }
  unfold serial_next. rewrite (bind_run _ _ w c w) by (apply (get_current_spec w a s); [done|by rewrite Ha, Hi]).
  destruct (fs_deactivate _ _ _ _ _ _ i c Hf Hc) as (w1 & R1 & E1 & F1).
  rewrite (bind_run _ _ _ _ _ R1). destruct (fs_flow _ _ _ _ _ _ F1) as (s1 & Hs1 & Hk1 & Ha1 & Hi1).
  rewrite (bind_run _ _ _ _ _ (act_update_spec _ _ _ _ Hs1)). rewrite Hi1.
  pose proof (fs_set_index _ _ _ _ _ _ (S i) s1 F1 Hs1) as F2. set (w2 := set_store _ w1) in *.
  apply (fs_ext _ _ _ _ _ _ (λ _, false)) in F2; [|intros m _; simpl; destruct (decide (m = i)); auto].
  destruct (fs_flow _ _ _ _ _ _ F2) as (s2 & Hs2 & Hk2 & Ha2 & Hi2).
  rewrite (bind_run _ _ _ _ _ (act_at_spec _ _ _ Hs2)), Ha2, Hi2.
  destruct (decide (S i < length cs)) as [Hlt|Hge].
  - rewrite decide_False by lia. destruct (lookup_lt_is_Some_2 cs (S i) Hlt) as [c' Hc'].
    destruct (lookup_lt_is_Some_2 texts (S i)) as [text Htext]; [by rewrite <-(fs_length _ _ _ _ _ _ Hf)|].
    rewrite (bind_run _ _ w2 c' w2) by (apply (get_current_spec w2 a s2); [done|by rewrite Ha2, Hi2]).
    destruct (fs_activate _ _ _ _ _ _ (S i) c' text F2 Hc' Htext eq_refl) as (w3 & R3 & E3 & F3).
    rewrite (bind_run _ _ _ _ _ R3). exists w3. split; [done|]. split.
    + eapply fs_ext; [|exact F3]. intros m _. simpl. destruct (decide (m = S i)); [by rewrite bool_decide_true|by rewrite bool_decide_false].
    + exists text. split; [done|]. rewrite E3. by rewrite <-E1.
  - rewrite decide_True by lia. rewrite (act_update_spec _ _ _ _ Hs2), Hi2. eexists. split; [done|].
    split; [|done]. pose proof (fs_set_index _ _ _ _ _ _ (S i - 1) s2 F2 Hs2) as F3.
    by replace (S i - 1) with i in * by lia.
Qed.

(** An update of the flow is [next] on the current act. *)
Lemma fs_update owner_stop w a cs texts i act c :
  flow_state w a cs texts i act → cs !! i = Some c → update owner_stop a w = next c w.
Proof.
  intros Hf Hc. destruct (fs_flow _ _ _ _ _ _ Hf) as (s & Hs & Hk & Ha & Hi).
  destruct (lookup_lt_is_Some_2 texts i) as [text Htext].
  { rewrite <-(fs_length _ _ _ _ _ _ Hf). by eapply lookup_lt_Some. }
  destruct (fs_child _ _ _ _ _ _ Hf i c text Hc Htext) as (t & Ht & Hkt & Hp & _ & Hobj & _ & _ & _ & Hslots).
  destruct Hslots as (slots & success & Hl1 & Ho1 & Hl2 & Ho2 & Hcmd).
  destruct (ok_child _ (fs_ok _ _ _ _ _ _ Hf) a s c Hs) as (t' & _ & _ & Hd).
  { rewrite Ha. by eapply list_elem_of_lookup_2. }
  unfold update. rewrite (bind_run _ _ _ _ _ (act_at_spec _ _ _ Hs)).
  destruct (depth (json_ s)) as [|d]; [lia|]. cbn [update_fuel]; unfold update_body.
  rewrite (bind_run _ _ _ _ _ (act_at_spec _ _ _ Hs)), Hk. unfold serial_on_update.
  rewrite (bind_run _ _ w c w) by (apply (get_current_spec w a s); [done|by rewrite Ha, Hi]).
  rewrite (bind_run _ _ _ _ _ (act_at_spec _ _ _ Ht)), Hkt. unfold message_on_update, succed, signal.
  rewrite (bind_run _ _ _ _ _ (act_at_spec _ _ _ Ht)).
  rewrite (bind_run _ _ w slots w) by (unfold slots_of; by rewrite Hobj, Hl1). rewrite Ho1.
  rewrite (bind_run _ _ w success w) by (rewrite read_member by done; by rewrite Hl2). rewrite Ho2.
  rewrite (bind_run _ _ _ _ _ (read_string_member success $"cmd" $"next" [] w eq_refl Hcmd)). done.
Qed.

(** Loading the children of a flow. *)
Lemma construct_named w k q s j name :
  acts_ok w → acts w !! q = Some s → is_name name →
  ∃ w' p, construct k (Some q) j name w = (Ret (next_act w), w') ∧ acts_ok w' ∧ grows w w' ∧
    acts w' = <[next_act w := State k name (Some q) p j false 0 (now w) [] 0 0]> (acts w) ∧
    events w' = events w.
Proof.
  intros Hok Hs Hn. pose proof (act_construct_spec w k (Some q) j name Hok) as Hc.
  destruct (construct k (Some q) j name w) as [o w'] eqn:Hr.
  assert (∀ x, Some q = Some x → is_Some (acts w !! x)) as Hq by (intros x [= <-]; by exists s).
  specialize (Hc Hq). destruct o as [b|e| |]; try done.
  - destruct Hc as ([? ?] & -> & p & ? & _ & ?). by exists w', p.
  - exfalso. destruct (ok_lineage _ Hok q s Hs) as (names & Hl & _).
    unfold construct in Hr. pose proof (build_path_spec w (Some q) name names) as Hb.
    specialize (Hb (conj Hl (ok_fresh _ Hok q s Hs))). unfold path.setup in Hb.
    rewrite (last_split_absolute names name Hn) in Hb. by rewrite (bind_run _ _ _ _ _ Hb) in Hr.
Qed.

Lemma fs_push w a cs texts i act s b t text :
  flow_state w a cs texts i act → acts w !! a = Some s → acts w !! b = Some t → b ∉ cs → kind_ t = message →
  parent_ t = Some a → active_ t = act (length cs) → is_message (json_ t) text →
  depth (json_ t) < depth (json_ s) →
  flow_state (set_store (<[a := set_acts (cs ++ [b]) s]> (acts w)) w) a (cs ++ [b]) (texts ++ [text]) i act.
Proof.
  intros [F1 F2 F3 (s0 & Hs0 & Hk & Ha & Hi) F5] Hs Hb Hbn Hkt Hp Hat Hj Hd.
  assert (s0 = s) as -> by congruence. assert (b ≠ a) as Hba by congruence. split.
  - apply (acts_ok_update w a s _ F1 Hs); [by repeat split|]. intros c Hc. simpl in Hc. rewrite Ha.
    apply elem_of_app in Hc as [Hc|Hc]; [by left|]. apply list_elem_of_singleton in Hc as ->. right.
    rewrite Hk. split; [done|by exists t].
  - apply NoDup_app. split_and!; [done| |apply NoDup_singleton]. intros c Hc Hcb.
    apply list_elem_of_singleton in Hcb as ->. done.
  - rewrite !length_app, F3. done.
  - exists (set_acts (cs ++ [b]) s). simpl. by rewrite lookup_insert_eq.
  - intros m c tx Hc Htx. simpl.
    assert (∃ u, acts w !! c = Some u ∧ kind_ u = message ∧ parent_ u = Some a ∧ active_ u = act m ∧
      is_message (json_ u) tx) as (u & Hu & Hku & ?).
    { apply lookup_snoc_Some in Hc as [[_ Hc]|[-> <-]].
      - apply (F5 m c tx Hc). rewrite lookup_app_l in Htx; [done|].
        rewrite <-F3. by eapply lookup_lt_Some.
      - exists t. rewrite F3, lookup_app_r, Nat.sub_diag in Htx by lia. injection Htx as <-. done. }
    exists u. rewrite lookup_insert_ne by congruence. done.
Qed.

Lemma fs_load w a cs texts docs new s :
  flow_state w a cs texts 0 (λ _, false) → acts w !! a = Some s →
  creators_ w !! $"act_message" = Some message → Forall2 is_message docs new →
  (∀ j, j ∈ docs → depth j < depth (json_ s)) →
  ∃ w' cs' s', load_each a docs w = (Ret true, w') ∧ flow_state w' a (cs ++ cs') (texts ++ new) 0 (λ _, false) ∧
    events w' = events w ∧ acts w' !! a = Some s' ∧ same_act s s' ∧ active_ s' = active_ s ∧
    creators_ w' = creators_ w.
Proof.
  intros Hf Hs Hcr Hdocs. revert w cs texts s Hf Hs Hcr.
  induction Hdocs as [|j text docs new Hj Hdocs IH]; intros w cs texts s Hf Hs Hcr Hd.
  { exists w, [], s. rewrite !app_nil_r. split_and!; done. }
  cbn [load_each]. pose proof Hj as (Hobj & Htype & (name & Hname & Hnm) & Hrest).
  rewrite (bind_run _ _ _ _ _ (read_string_member j $"type" _ [] w eq_refl Htype)).
  rewrite (bind_run _ _ _ _ _ (read_string_member j $"name" _ [] w eq_refl Hname)).
  destruct (construct_named w message a s j name (fs_ok _ _ _ _ _ _ Hf) Hs Hnm) as (w1 & p & R1 & Ok1 & G1 & A1 & E1).
  rewrite (bind_run _ _ w (Some (next_act w)) w1).
  2:{ unfold create. rewrite (bind_run _ _ w w w) by done. rewrite Hcr. by rewrite (bind_run _ _ _ _ _ R1). }
  pose proof (ok_fresh _ (fs_ok _ _ _ _ _ _ Hf)) as Hfresh.
  assert (acts w1 !! a = Some s) as Hs1 by (rewrite A1, lookup_insert_ne; [done|]; pose proof (Hfresh a s Hs); lia).
  assert (flow_state w1 a cs texts 0 (λ _, false)) as F1.
  { destruct Hf as [? F2 F3 (s0 & Hs0 & ?) F5]. split; try done.
    - exists s. assert (s0 = s) as <- by congruence. done.
    - intros m c tx Hc Htx. destruct (F5 m c tx Hc Htx) as (u & Hu & ?). exists u. split; [|done].
      rewrite A1, lookup_insert_ne; [done|]. pose proof (Hfresh c u Hu). lia. }
  rewrite (bind_run _ _ _ _ _ (act_update_spec _ _ _ _ Hs1)).
  destruct (fs_flow _ _ _ _ _ _ F1) as (s0 & Hs0 & Hk0 & Ha0 & _). assert (s0 = s) as -> by congruence.
  rewrite Ha0. pose proof (fs_push w1 a cs texts 0 (λ _, false) s (next_act w)
    (State message name (Some a) p j false 0 (now w) [] 0 0) text F1 Hs1) as F2.
  set (w2 := set_store _ w1) in *. set (s2 := set_acts (cs ++ [next_act w]) s) in *.
  destruct (IH w2 (cs ++ [next_act w]) (texts ++ [text]) s2) as (w3 & cs' & s' & R3 & F3 & E3 & Hs3 & Sm3 & Act3 & C3).
  - apply F2; try done; [rewrite A1; apply lookup_insert_eq| |simpl; apply Hd; by left].
    intros Hin. destruct (ok_child _ (fs_ok _ _ _ _ _ _ Hf) a s (next_act w) Hs) as (u & Hu & _); [by rewrite Ha0|].
    pose proof (Hfresh _ u Hu). lia.
  - apply lookup_insert_eq.
  - simpl. destruct G1 as (_ & -> & _). done.
  - intros j' Hj'. apply Hd. by right.
  - exists w3, (next_act w :: cs'), s'. rewrite <-!(assoc_L app) in F3. simpl in F3.
    split_and!; [done|done| |done|by transitivity s2|done|].
    + rewrite E3. simpl. done.
    + rewrite C3. simpl. by destruct G1 as (_ & -> & _).
Qed.

(** Construction and activation. *)
Lemma construct_root w j name :
  acts_ok w → is_name name →
  ∃ w0 s, construct flow None j name w = (Ret (next_act w), w0) ∧ acts_ok w0 ∧ creators_ w0 = creators_ w ∧
    events w0 = events w ∧ acts w0 !! next_act w = Some s ∧ kind_ s = flow ∧ json_ s = j ∧
    active_ s = false ∧ acts_ s = [] ∧ current_act_index_ s = 0.
Proof.
  intros Hok Hn. pose proof (act_construct_spec w flow None j name Hok) as Hc.
  destruct (construct flow None j name w) as [o w'] eqn:Hr. specialize (Hc ltac:(done)).
  destruct o as [b|e| |]; try done.
  - destruct Hc as ([? (_ & Hcr & _)] & -> & p & Ha & _ & He). eexists w', _.
    split_and!; [done|done|done|done|rewrite Ha; apply lookup_insert_eq|done..].
  - exfalso. unfold construct in Hr. pose proof (build_path_spec w None name [] eq_refl) as Hb.
    unfold path.setup in Hb. rewrite (last_split_absolute [] name Hn) in Hb.
    by rewrite (bind_run _ _ _ _ _ Hb) in Hr.
Qed.

Lemma start_flow w j f docs texts name :
  acts_ok w → creators_ w !! $"act_message" = Some message → is_name name →
  lookup_key j $"flow" = Some f → is_null f = false → items f = docs →
  Forall2 is_message docs texts → texts ≠ [] →
  ∃ w0 w1 cs, construct flow None j name w = (Ret (next_act w), w0) ∧
    activate (next_act w) w0 = (Ret true, w1) ∧
    flow_state w1 (next_act w) cs texts 0 (λ m, bool_decide (m = 0)) ∧
    events w1 = events w ++ map shown (take 1 texts).
Proof.
  intros Hok Hcr Hname Hfl Hnull Hitems Hdocs Hne. set (a := next_act w).
  destruct (construct_root w j name Hok Hname) as (w0 & s & R0 & Ok0 & C0 & E0 & Hs & Hk & Hj & Hact & Hacts & Hidx).
  fold a in R0, Hs.
  assert (flow_state w0 a [] [] 0 (λ _, false)) as F0
    by (split; [done|apply NoDup_nil_2|done|by exists s|intros k c text Hc; by rewrite lookup_nil in Hc]).
  assert (∀ j', j' ∈ docs → depth j' < depth (json_ s)) as Hd.
  { intros j' Hj'. rewrite <-Hitems in Hj'. apply depth_items in Hj'. rewrite Hj. apply depth_key in Hfl. lia. }
  destruct (fs_load w0 a [] [] docs texts s F0 Hs ltac:(by rewrite C0) Hdocs Hd)
    as (w1 & cs & s1 & R1 & F1 & E1 & Hs1 & Sm1 & Act1 & _). simpl in F1.
  pose proof (fs_length _ _ _ _ _ _ F1) as Hlen.
  destruct texts as [|text texts]; [done|]. destruct cs as [|c cs]; [done|].
  destruct (fs_flow _ _ _ _ _ _ F1) as (s1' & Hs1' & Hk1 & Ha1 & Hi1). assert (s1' = s1) as -> by congruence.
  assert (get_current_act a w1 = (Ret c, w1)) as Hcur
    by (apply (get_current_spec w1 a s1); [done|by rewrite Ha1, Hi1]).
  assert (depth (json_ s) ≠ 0) as Hds by (rewrite Hj; apply depth_key in Hfl; lia).
  destruct (depth (json_ s)) as [|d] eqn:Hdep; [done|].
  destruct (fs_activate_fuel d w1 a (c :: cs) (text :: texts) 0 (λ _, false) 0 c text F1 eq_refl eq_refl eq_refl)
    as (w2 & R2 & E2 & F2).
  destruct (fs_flow _ _ _ _ _ _ F2) as (s2 & Hs2 & _).
  exists w0. eexists _, (c :: cs). split; [done|]. split_and!.
  - unfold activate at 1. rewrite (bind_run _ _ _ _ _ (act_at_spec _ _ _ Hs)), Hdep. cbn [activate_fuel]; unfold activate_body.
    rewrite (bind_run _ _ _ _ _ (act_at_spec _ _ _ Hs)), Hact, Hk.
    rewrite (bind_run _ _ w0 true w2).
    + rewrite (bind_run _ _ _ _ _ (act_update_spec _ _ _ _ Hs2)). done.
    + unfold serial_on_activate. rewrite (bind_run _ _ w0 true w1).
      2:{ unfold load_acts. rewrite (bind_run _ _ _ _ _ (act_at_spec _ _ _ Hs)).
          rewrite (bind_run _ _ w0 f w0) by (unfold flow_of; by rewrite Hj, Hfl). by rewrite Hnull, Hitems. }
      rewrite (bind_run _ _ _ _ _ Hcur), (bind_run _ _ _ _ _ (act_at_spec _ _ _ Hs1)), Ha1. simpl.
      rewrite (bind_run _ _ w1 c w1) by done. rewrite (bind_run _ _ w1 tt w1) by (apply check_true, Nat.eqb_refl).
      rewrite (bind_run _ _ _ _ _ Hcur). exact R2.
  - eapply fs_ext; [|eapply fs_flow_at; [exact F2|exact Hs2|by repeat split|done|done]].
    intros m _. simpl. destruct (decide (m = 0)); [by rewrite bool_decide_true|by rewrite bool_decide_false].
  - simpl. rewrite E2, E1, E0. done.
Qed.

Lemma fs_updates owner_stop w a cs texts k n :
  flow_state w a cs texts (min k (length texts - 1)) (λ m, bool_decide (m = k)) → texts ≠ [] →
  ∃ w', for_each (seq k n) (λ _, update owner_stop a) w = (Ret tt, w') ∧
    flow_state w' a cs texts (min (k + n) (length texts - 1)) (λ m, bool_decide (m = k + n)) ∧
    events w' = events w ++ map shown (take n (drop (S k) texts)).
Proof.
  revert w k. induction n as [|n IH]; intros w k Hf Hne.
  { exists w. rewrite Nat.add_0_r. simpl. by rewrite app_nil_r. }
  pose proof (fs_length _ _ _ _ _ _ Hf) as Hlen.
  assert (length texts ≠ 0) as Hnz by (by destruct texts).
  destruct (lookup_lt_is_Some_2 cs (min k (length texts - 1))) as [c Hc]; [lia|].
  pose proof (fs_update owner_stop _ _ _ _ _ _ c Hf Hc) as Hup.
  cbn [seq for_each].
  destruct (decide (k < length texts)) as [Hlt|Hge].
  - destruct (fs_next _ _ _ _ _ _ c Hf Hc) as (w1 & R1 & H1').
    { intros m Hm. apply bool_decide_false. lia. }
    replace (min k (length texts - 1)) with k in H1' by lia.
    assert (flow_state w1 a cs texts (min (S k) (length texts - 1)) (λ m, bool_decide (m = S k)) ∧
      events w1 = events w ++ map shown (take 1 (drop (S k) texts))) as [F1 E1].
    { destruct (decide (S k < length cs)) as [Hlt'|Hge'].
      - destruct H1' as (F1 & text & Ht & E1). replace (min (S k) (length texts - 1)) with (S k) by lia.
        split; [done|]. rewrite E1. by rewrite (drop_S texts text (S k) Ht).
      - destruct H1' as (F1 & E1). replace (min (S k) (length texts - 1)) with k by lia. split.
        + eapply fs_ext; [|exact F1]. intros m Hm. symmetry. apply bool_decide_false. lia.
        + rewrite (drop_ge texts) by lia. simpl. by rewrite app_nil_r. }
    rewrite (bind_run _ _ w tt w1) by (by rewrite Hup).
    destruct (IH w1 (S k) F1 Hne) as (w2 & R2 & F2 & E2). exists w2.
    replace (k + S n) with (S k + n) by lia. split_and!; [done|done|].
    rewrite E2, E1, <-(assoc_L app), <-map_app. do 2 f_equal.
    replace (S (S k)) with (S k + 1) by lia. rewrite <-drop_drop. destruct (drop (S k) texts); simpl; by rewrite ?take_nil, ?drop_0.
  - apply (fs_ext _ _ _ _ _ _ (λ _, false)) in Hf; [|intros m Hm; apply bool_decide_false; lia].
    destruct (fs_next _ _ _ _ _ _ c Hf Hc) as (w1 & R1 & H1'); [done|].
    rewrite decide_False in H1' by lia. destruct H1' as [F1 E1].
    rewrite (bind_run _ _ w tt w1) by (by rewrite Hup).
    destruct (IH w1 (S k)) as (w2 & R2 & F2 & E2); [|done|].
    + replace (min (S k) (length texts - 1)) with (min k (length texts - 1)) by lia.
      eapply fs_ext; [|exact F1]. intros m Hm. symmetry. apply bool_decide_false. lia.
    + exists w2. replace (k + S n) with (S k + n) by lia. split_and!; [done|done|].
      rewrite E2, E1, (drop_ge texts (S k)), (drop_ge texts (S (S k))) by lia. by rewrite !take_nil.
Qed.
End messages.

(** C19. A flow of messages runs in order.  Constructed and activated it shows the
    first message; every update moves on, so after [k] updates the messages up to
    number [k] were shown, each once, and exactly act [k] is active.  At the end the
    flow stays at its last act, which is no longer active, and further updates show
    nothing. *)
Theorem flow_runs `{Build} `{JsonLaws} (w : world) (owner_stop : M world unit) (j f : json)
    (docs : list json) (texts : list str) (name : str) :
  acts_ok w → creators_ w !! $"act_message" = Some message → is_name name →
  lookup_key j $"flow" = Some f → is_null f = false → items f = docs →
  Forall2 is_message docs texts → texts ≠ [] →
  ∃ w0 w1, construct flow None j name w = (Ret (next_act w), w0) ∧
    activate (next_act w) w0 = (Ret true, w1) ∧
    ∀ k, ∃ w2 cs, for_each (seq 0 k) (λ _, update owner_stop (next_act w)) w1 = (Ret tt, w2) ∧
      flow_state w2 (next_act w) cs texts (min k (length texts - 1)) (λ m, bool_decide (m = k)) ∧
      events w2 = events w ++ map shown (take (S k) texts).
Proof.
  intros Hok Hcr Hname Hfl Hnull Hitems Hdocs Hne.
  destruct (start_flow w j f docs texts name Hok Hcr Hname Hfl Hnull Hitems Hdocs Hne)
    as (w0 & w1 & cs & R0 & R1 & F1 & E1).
  exists w0, w1. split_and!; [done|done|]. intros k.
  destruct (fs_updates owner_stop w1 (next_act w) cs texts 0 k) as (w2 & R2 & F2 & E2); [|done|].
  { eapply fs_ext; [|exact F1]. done. }
  exists w2, cs. split_and!; [done|exact F2|]. rewrite E2, E1, <-(assoc_L app), <-map_app. do 2 f_equal.
  by destruct texts.
Qed.

Definition messages_doc : tree :=
  tobject [($"flow", tarray [message_doc $"message_1" next_cmd; message_doc $"message_2" next_cmd])].
Lemma message_doc_message name :
  is_name name → is_message (H0 := tree_Json) (message_doc name next_cmd) name.
Proof.
  intros Hn. unfold is_message. split_and!; [done|by exists (tstring $"act_message")| |by exists (tstring name)|].
  - exists name. split; [by exists (tstring name)|done].
  - by do 2 eexists; split_and!; [..|exists (tstring $"next")].
Qed.

Lemma flow_runs_witness :
  let _ := release_build in
  ∃ w0 w1, construct flow None (messages_doc : json (Json:=tree_Json)) $"flow" (empty_world (H:=tree_Json) example_creators) = (Ret 1, w0) ∧
    activate 1 w0 = (Ret true, w1) ∧
    ∃ w2, for_each (seq 0 3) (λ _, update (mret tt) 1) w1 = (Ret tt, w2) ∧
      events w2 = [shown $"message_1"; shown $"message_2"].
Proof.
  intros d.
  destruct (flow_runs (empty_world (H:=tree_Json) example_creators) (mret tt) (messages_doc : json (Json:=tree_Json))
    (tarray [message_doc $"message_1" next_cmd; message_doc $"message_2" next_cmd] : json (Json:=tree_Json))
    [message_doc $"message_1" next_cmd; message_doc $"message_2" next_cmd]
    [$"message_1"; $"message_2"] $"flow") as (w0 & w1 & R0 & R1 & Hk).
  - apply empty_world_ok.
  - vm_compute. reflexivity.
  - apply (bool_decide_unpack _). vm_compute. exact I.
  - reflexivity.
  - reflexivity.
  - reflexivity.
  - constructor; [|constructor; [|constructor]]; apply message_doc_message, (bool_decide_unpack _); vm_compute; exact I.
  - discriminate.
  - exists w0, w1. split; [exact R0|split; [exact R1|]].
    destruct (Hk 3) as (w2 & cs & R2 & _ & E2). exists w2. split; [exact R2|exact E2].
Defined.
