(* ===== verification/Bot.v ===== *)
(** * play/ensure: blackboard, bot, flow and the ensure application

    A bot owns a flow and a timer of the runner that updates it; [ensure] reads a
    configuration and starts bots.  The acts of all bots are in one store, the bots
    in a list (a bot is named by its position), and a timer's handler is the bot it
    updates.  The other members of a configuration come from the command line or
    the hardware. *)

From stdpp Require Import pretty.
From S2P Require Import Prelude.
From S2P Require Import Serializer.
From S2P Require Import StringUtil.
From S2P Require Import ObjectPool.
From S2P Require Import Timer.
From S2P Require Import Runner.
From S2P Require Import App.
From S2P Require Import Json.
From S2P Require Import ActPath.
From S2P Require Import Acts.
From S2P Require Import ActFacts.
From S2P Require Import ActFind.
From S2P Require Import ActFlow.

(** ** blackboard *)
Module blackboard.
Section blackboard.
Context {V : Type}.

(** [mem_obj<Obj>] and [mem_ptr<T>]; types are numbers, objects pointed to addresses. *)
Inductive mem := mem_obj (obj : nat) (p : V) | mem_ptr (t : nat) (p : option nat).
Inductive mem_type := obj_of (obj : nat) | ptr_to (t : nat).
#[export] Instance mem_type_eq_dec : EqDecision mem_type.
Proof. solve_decision. Defined.
Definition type_of (m : mem) : mem_type :=
  match m with mem_obj obj _ => obj_of obj | mem_ptr t _ => ptr_to t end.

(** [memory_] *)
Definition state := gmap str mem.

(** [set(key, m)]: [insert] keeps what is there. *)
Definition set (key : str) (m : mem) (s : state) : state :=
  match s !! key with None => <[key := m]> s | Some _ => s end.
Definition set_obj (key : str) (obj : nat) (v : V) : state → state := set key (mem_obj obj v).
Definition set_ptr (key : str) (t : nat) (p : option nat) : state → state := set key (mem_ptr t p).

(** [get(key)]; [None] is the null pointer. *)
Definition get (key : str) (s : state) : option mem := s !! key.

(** [std::static_pointer_cast], not checked *)
Definition static_pointer_cast {S} (t : mem_type) (m : mem) : M S mem :=
  if decide (type_of m = t) then mret m else undefined.

(** [get<T>(key)] *)
Definition get_as (t : mem_type) (key : str) : M state (option mem) :=
  s ← Prelude.get;
  match s !! key with
  | None => mret None
  | Some m => m ← static_pointer_cast t m; mret (Some m)
  end.

(** [get_obj<Obj>(key)]: without the key it returns a reference to a temporary that is
    gone, [None]. *)
Definition get_obj (obj : nat) (key : str) : M state (option V) :=
  s ← Prelude.get;
  match s !! key with
  | None => mret None
  | Some m =>
      m ← static_pointer_cast (obj_of obj) m;
      match m with mem_obj _ v => mret (Some v) | mem_ptr _ _ => undefined end
  end.

(** [get_ptr<T>(key)] *)
Definition get_ptr (t : nat) (key : str) : M state (option nat) :=
  s ← Prelude.get;
  match s !! key with
  | None => mret None
  | Some m =>
      m ← static_pointer_cast (ptr_to t) m;
      match m with mem_ptr _ p => mret p | mem_obj _ _ => undefined end
  end.
End blackboard.
Arguments mem : clear implicits.
Arguments state : clear implicits.
End blackboard.

Module bot.
Section bot.
Context `{Json} {V : Type}.

(** The data members; [id_] is the actor's. *)
Record state := State {
  json_ : json;
  name_ : str;
  index_ : Z;
  id_ : Z;
  flow_ : option nat;
  bot_timer_ : option nat;
  board_ : blackboard.state V
}.
Definition set_flow (f : nat) (s : state) : state :=
  State (json_ s) (name_ s) (index_ s) (id_ s) (Some f) (bot_timer_ s) (board_ s).
Definition set_timer (p : nat) (s : state) : state :=
  State (json_ s) (name_ s) (index_ s) (id_ s) (flow_ s) (Some p) (board_ s).

(** [bot(app, json, name, index)] *)
Definition make (j : json) (name : str) (index id : Z) : state := State j name index id None None ∅.
End bot.
Arguments state {H} V.
End bot.

Module ensure.
Section ensure.
Context `{Build} `{Json} {V : Type}.

(** [std::thread::hardware_concurrency()] and the parsed files. *)
Context (hardware_concurrency : Z) (file : str → option json).

(** The data members, with the acts, all bots ever made, the state of the identifier
    generator and the two parts of the [thread_runner]. *)
Record state := State {
  world_ : act_ensure.world;
  seq_ : dynamic_snowflake.state;
  all_bots : list (bot.state V);
  config_file_ : str;
  jconf_ : json;
  runner_ : option (thread_runner.state * runner.state unit);
  stop_ : bool;
  bot_count_ : Z;
  bot_start_index_ : Z;
  bot_prefix_ : str;
  bots_ : list nat
}.
Definition set_world (w : act_ensure.world) (s : state) : state :=
  State w (seq_ s) (all_bots s) (config_file_ s) (jconf_ s) (runner_ s) (stop_ s) (bot_count_ s)
    (bot_start_index_ s) (bot_prefix_ s) (bots_ s).
Definition set_seq (q : dynamic_snowflake.state) (s : state) : state :=
  State (world_ s) q (all_bots s) (config_file_ s) (jconf_ s) (runner_ s) (stop_ s) (bot_count_ s)
    (bot_start_index_ s) (bot_prefix_ s) (bots_ s).
Definition set_all_bots (l : list (bot.state V)) (s : state) : state :=
  State (world_ s) (seq_ s) l (config_file_ s) (jconf_ s) (runner_ s) (stop_ s) (bot_count_ s)
    (bot_start_index_ s) (bot_prefix_ s) (bots_ s).
Definition set_config_file (f : str) (s : state) : state :=
  State (world_ s) (seq_ s) (all_bots s) f (jconf_ s) (runner_ s) (stop_ s) (bot_count_ s)
    (bot_start_index_ s) (bot_prefix_ s) (bots_ s).
Definition set_jconf (j : json) (s : state) : state :=
  State (world_ s) (seq_ s) (all_bots s) (config_file_ s) j (runner_ s) (stop_ s) (bot_count_ s)
    (bot_start_index_ s) (bot_prefix_ s) (bots_ s).
Definition set_runner (r : thread_runner.state * runner.state unit) (s : state) : state :=
  State (world_ s) (seq_ s) (all_bots s) (config_file_ s) (jconf_ s) (Some r) (stop_ s) (bot_count_ s)
    (bot_start_index_ s) (bot_prefix_ s) (bots_ s).
Definition set_stop (b : bool) (s : state) : state :=
  State (world_ s) (seq_ s) (all_bots s) (config_file_ s) (jconf_ s) (runner_ s) b (bot_count_ s)
    (bot_start_index_ s) (bot_prefix_ s) (bots_ s).
Definition set_settings (n i : Z) (p : str) (s : state) : state :=
  State (world_ s) (seq_ s) (all_bots s) (config_file_ s) (jconf_ s) (runner_ s) (stop_ s) n i p (bots_ s).
Definition set_bots (l : list nat) (s : state) : state :=
  State (world_ s) (seq_ s) (all_bots s) (config_file_ s) (jconf_ s) (runner_ s) (stop_ s) (bot_count_ s)
    (bot_start_index_ s) (bot_prefix_ s) l.

(** [ensure()]: [bot_count_] and [bot_start_index_] are not initialised. *)
Definition make (w : act_ensure.world) : state := State w dynamic_snowflake.make [] [] jnull None false 0 0 [] [].

(** Access to a bot, to the acts, and to [*runner_]. *)
Definition at_bot (b : nat) : M state (bot.state V) := s ← get; deref (all_bots s !! b).
Definition update_bot (b : nat) (f : bot.state V → bot.state V) : M state unit :=
  t ← at_bot b; modify (λ s, set_all_bots (<[b := f t]> (all_bots s)) s).
Definition on_acts {A} : M act_ensure.world A → M state A := zoom world_ set_world.
Definition on_runner {A} (m : M (runner.state unit) A) : M state A :=
  s ← get;
  r ← deref (runner_ s);
  zoom (λ _, r.2) (λ x, set_runner (r.1, x)) m.

(** ** bot *)

(** [bot_timer_->cancel()] *)
Definition cancel_timer (p : nat) : M state unit :=
  on_runner (zoom runner.timers runner.set_timers (timer_service.timer_cancel p)).

(** [on_stop()] *)
Definition on_stop (b : nat) : M state unit :=
  t ← at_bot b;
  _ ← match bot.bot_timer_ t with Some p => cancel_timer p | None => mret tt end;
  f ← deref (bot.flow_ t);
  on_acts (act_ensure.deactivate f).

(** The owner's [stop()] as the acts call it: the request to cancel the timer is
    recorded among the events. *)
Definition owner_stop (t : bot.state V) : M act_ensure.world unit :=
  _ ← match bot.bot_timer_ t with
      | Some _ => modify (act_ensure.emit act_ensure.timer_cancelled)
      | None => mret tt
      end;
  f ← deref (bot.flow_ t);
  act_ensure.deactivate f.

Definition is_cancel (e : act_ensure.event) : bool :=
  match e with act_ensure.timer_cancelled => true | act_ensure.shown _ => false end.

(** What acts do, and then the cancellations they asked for, however they ended. *)
Definition with_timer {A} (p : option nat) (m : M act_ensure.world A) : M state A := λ s,
  let '(o, w) := m (world_ s) in
  let requests := filter (λ e, is_cancel e = true)
    (drop (length (act_ensure.events (world_ s))) (act_ensure.events w)) in
  match for_each requests (λ _, match p with Some p => cancel_timer p | None => mret tt end)
          (set_world w s) with
  | (Ret _, s') => (o, s')
  | (Throw e, s') => (Throw e, s')
  | (Aborted, s') => (Aborted, s')
  | (Undefined, s') => (Undefined, s')
  end.

(** [update()] *)
Definition update (b : nat) : M state unit :=
  t ← at_bot b;
  f ← deref (bot.flow_ t);
  with_timer (bot.bot_timer_ t) (act_ensure.update (owner_stop t) f).

(** [flow(bt, json)] *)
Definition make_flow (j : json) : M state nat := on_acts (act_ensure.construct flow None j $"flow").

(** [on_start()] *)
Definition on_start (b : nat) : M state bool :=
  t ← at_bot b;
  f ← make_flow (bot.json_ t);
  _ ← update_bot b (bot.set_flow f);
  rc ← on_acts (act_ensure.activate f);
  if (rc : bool) then
    interval ← json_reader.read_value get_int (bot.json_ t) $"ensure.update_interval" 200%Z;
    p ← on_runner (runner.repeat_strand (Z.to_nat (bot.id_ t)) interval b);
    _ ← update_bot b (bot.set_timer p);
    mret true
  else mret false.

(** ** ensure *)

(** [make_shared<bot>( *this, jconf_, name, index)] *)
Definition make_bot (name : str) (index : Z) : M state nat :=
  s ← get;
  id ← zoom seq_ set_seq (dynamic_snowflake.next (act_ensure.now (world_ s)));
  _ ← modify (λ s, set_all_bots (all_bots s ++ [bot.make (jconf_ s) name index id]) s);
  mret (length (all_bots s)).

(** [fmt::format("{}{}", bot_prefix_, index)] *)
Definition bot_name (prefix : str) (index : Z) : str := prefix ++ $(pretty index).

(** The last reference to the bot goes. *)
Definition drop_bot (b : nat) : M state unit :=
  t ← at_bot b; zoom (λ _, actor.make (bot.id_ t)) (λ _ s, s) actor.destroy.

(** The body of the loop of [start_bots], and the loop *)
Definition start_bot (i : nat) : M state unit :=
  s ← get;
  let index := u64 (bot_start_index_ s + Z.of_nat i) in
  bp ← make_bot (bot_name (bot_prefix_ s) index) index;
  rc ← try_catch (on_start bp) (λ e, _ ← drop_bot bp; throw e);
  if (rc : bool) then modify (λ s, set_bots (bots_ s ++ [bp]) s) else drop_bot bp.
Definition start_bots : M state bool :=
  s ← get;
  _ ← for_each (seq 0 (Z.to_nat (bot_count_ s))) start_bot;
  mret true.

(** [register_default_acts()] *)
Definition register_default_acts : M state unit :=
  on_acts (modify (λ w,
    act_ensure.World (act_ensure.acts w) (act_ensure.next_act w)
      (act_ensure.add_creator $"act_wait_duration" wait_duration
         (act_ensure.add_creator $"act_message" message (act_ensure.creators_ w)))
      (act_ensure.now w) (act_ensure.events w))).

(** [start(jconf)] *)
Definition start (jconf : json) : M state bool :=
  _ ← modify (set_stop false);
  _ ← modify (set_jconf jconf);
  try_catch (
    concurrency ← json_reader.read_value (λ j, u32 <$> get_int j) jconf $"ensure.concurrency"
                    hardware_concurrency;
    port ← json_reader.read_value get_int jconf $"ensure.port" 7000%Z;
    _ ← register_default_acts;
    _ ← modify (set_runner (thread_runner.make (Z.to_nat concurrency) (Z.to_nat hardware_concurrency),
                            runner.make $"ensure" runner.default_strand_count));
    count ← json_reader.read_value get_int jconf $"ensure.bot_count" 1%Z;
    index ← json_reader.read_value get_int jconf $"ensure.bot_start_index" 1%Z;
    prefix ← json_reader.read_value get_str jconf $"ensure.bot_prefix" $"bot_";
    _ ← modify (set_settings (u64 count) (u64 index) prefix);
    _ ← start_bots;
    mret true)
  (λ _, mret false).

(** [start(config_file)]: the file that is read has a fixed name. *)
Definition start_file (config_file : str) : M state bool :=
  _ ← modify (set_config_file config_file);
  try_catch
    (match file $"file.json" with
     | Some jconf => start jconf
     | None => throw (std_exception $"parse_error")
     end)
    (λ _, mret false).

(** [stop_bots()], [stop()] *)
Definition stop_bots : M state unit := s ← get; for_each (bots_ s) on_stop.
Definition stop : M state unit :=
  s ← get;
  if stop_ s then mret tt
  else
    _ ← modify (set_stop true);
    r ← deref (runner_ s);
    _ ← modify (set_runner (thread_runner.stop r.1, r.2));
    stop_bots.

(** [get_bot(index)] *)
Definition get_bot (index : nat) : M state nat :=
  s ← get;
  _ ← PLAY_CHECK (index <? length (bots_ s));
  deref (bots_ s !! index).

(** The wait at position [i] expires: bots wait on a strand, where the completion
    is the handler and nothing after it. *)
Definition expire (i : nat) : M state unit :=
  s ← get;
  r ← deref (runner_ s);
  w ← deref (timer_service.waiting (runner.timers r.2) !! i);
  _ ← on_runner (zoom runner.timers runner.set_timers (timer_service.expire (λ _ _, mret tt) i));
  update (timer.wait_handler w).
End ensure.
Arguments state {H0} V.
End ensure.

(** ** Lemmas *)
Section facts.
Context `{Build} `{JsonLaws} {V : Type} (hardware_concurrency : Z).
Implicit Types (s : ensure.state V) (w : act_ensure.world).
Import ensure.

(** A setting of the configuration. *)
Definition reads {A} (get : json → option A) (j : json) (path : str) (d v : A) : Prop :=
  ∀ S (x : S), json_reader.read_value get j path d x = (Ret v, x).

Lemma on_acts_run {A} (m : M act_ensure.world A) s a w :
  m (world_ s) = (Ret a, w) → on_acts m s = (Ret a, set_world w s).
Proof. intros Hm. unfold on_acts, zoom. by rewrite Hm. Qed.

Lemma on_runner_run {A} (m : M (runner.state unit) A) s r a x :
  runner_ s = Some r → m r.2 = (Ret a, x) → on_runner m s = (Ret a, set_runner (r.1, x) s).
Proof. intros Hr Hm. unfold on_runner. run. rewrite Hr. simpl. by rewrite Hm. Qed.

Lemma bind_deref {S A B} (a : A) (f : A → M S B) (x : S) : (deref (Some a) ≫= f) x = f a x.
Proof. done. Qed.

Lemma at_bot_run s b t : all_bots s !! b = Some t → at_bot b s = (Ret t, s).
Proof. intros Hb. unfold at_bot. run. by rewrite Hb. Qed.

Lemma update_bot_run s b t f :
  all_bots s !! b = Some t → update_bot b f s = (Ret tt, set_all_bots (<[b := f t]> (all_bots s)) s).
Proof. intros Hb. unfold update_bot. by rewrite (bind_run _ _ _ _ _ (at_bot_run _ _ _ Hb)). Qed.

(** The creators do not matter to the tree. *)
Definition set_creators (c : gmap str act_kind) w : act_ensure.world :=
  act_ensure.World (act_ensure.acts w) (act_ensure.next_act w) c (act_ensure.now w) (act_ensure.events w).

Lemma acts_ok_creators c w : acts_ok w → acts_ok (set_creators c w).
Proof.
  assert (∀ a names, lineage w a names → lineage (set_creators c w) a names) as Hl.
  { induction 1; [by apply lineage_root|by eapply lineage_child]. }
  intros [O1 O2 O3 O4 O5 O6]. split; try done. intros a t Ht.
  destruct (O2 a t Ht) as (names & ? & ?). exists names. split; [by apply Hl|done].
Qed.

(** Showing messages asks for no cancellation. *)
Lemma no_requests l : filter (λ e, is_cancel e = true) (map act_ensure.shown l) = [].
Proof. induction l as [|x l IH]; [done|]. simpl. by rewrite filter_cons, decide_False. Qed.

Lemma with_timer_run {A} p (m : M act_ensure.world A) s o w l :
  m (world_ s) = (o, w) → act_ensure.events w = act_ensure.events (world_ s) ++ map act_ensure.shown l →
  with_timer p m s = (o, set_world w s).
Proof.
  intros Hm He. unfold with_timer. rewrite Hm, He, drop_app_length, no_requests. done.
Qed.

(** A runner just made. *)
Definition new_runner (r : runner.state unit) : Prop :=
  runner.strands r = seq 0 64 ∧ runner.timers r = timer_service.make.
Lemma make_new : new_runner (runner.make $"ensure" runner.default_strand_count).
Proof. unfold new_runner, runner.make. by rewrite make_strands_spec. Qed.

(** The settings of a configuration for [count] bots. *)
Record settings (j : json) (conc port count index : Z) (prefix : str) (interval : Z) : Prop := {
  reads_concurrency : reads (λ j, u32 <$> get_int j) j $"ensure.concurrency" hardware_concurrency conc;
  reads_port : reads get_int j $"ensure.port" 7000%Z port;
  reads_bot_count : reads get_int j $"ensure.bot_count" 1%Z count;
  reads_start_index : reads get_int j $"ensure.bot_start_index" 1%Z index;
  reads_prefix : reads get_str j $"ensure.bot_prefix" $"bot_" prefix;
  reads_interval : reads get_int j $"ensure.update_interval" 200%Z interval
}.

(** Reading the settings leads to [start_bots]. *)
Lemma start_prepares s j conc port count index prefix interval :
  settings j conc port count index prefix interval →
  (∀ k, act_ensure.creators_ (world_ s) !! $"act_message" = Some k → k = message) →
  ∃ s1 th r, all_bots s1 = all_bots s ∧ bots_ s1 = bots_ s ∧ stop_ s1 = false ∧ jconf_ s1 = j ∧
    runner_ s1 = Some (th, r) ∧ new_runner r ∧ act_ensure.creators_ (world_ s1) !! $"act_message" = Some message ∧
    (∃ c, world_ s1 = set_creators c (world_ s)) ∧
    bot_count_ s1 = u64 count ∧
    start hardware_concurrency j s = try_catch (_ ← start_bots; mret true) (λ _, mret false) s1.
Proof.
  intros [R1 R2 R3 R4 R5 R6] Hk.
  set (c := act_ensure.add_creator $"act_wait_duration" wait_duration
    (act_ensure.add_creator $"act_message" message (act_ensure.creators_ (world_ s)))).
  set (s0 := set_jconf j (set_stop false s)). set (s1 := set_world (set_creators c (world_ s)) s0).
  set (th := thread_runner.make (Z.to_nat conc) (Z.to_nat hardware_concurrency)).
  set (r := runner.make (task:=unit) $"ensure" runner.default_strand_count).
  set (s2 := set_runner (th, r) s1).
  exists (set_settings (u64 count) (u64 index) prefix s2), th, r.
  split_and!; try reflexivity; [apply make_new| |by exists c|].
  - assert (c !! $"act_message" = Some message) as Hc; [|exact Hc]. unfold c, act_ensure.add_creator.
    destruct (act_ensure.creators_ (world_ s) !! $"act_message") as [k|] eqn:Hm.
    + rewrite (Hk k eq_refl) in Hm. destruct (_ !! $"act_wait_duration"); [done|].
      by rewrite lookup_insert_ne.
    + rewrite lookup_insert_ne by done. destruct (_ !! $"act_wait_duration"); [by rewrite lookup_insert_eq|].
      rewrite lookup_insert_ne by done. by rewrite lookup_insert_eq.
  - unfold start. rewrite (bind_run _ _ s tt (set_stop false s)) by done.
    rewrite (bind_run _ _ _ tt s0) by done. unfold try_catch at 1.
    rewrite (bind_run _ _ _ _ _ (R1 _ s0)), (bind_run _ _ _ _ _ (R2 _ s0)).
    rewrite (bind_run _ _ s0 tt s1) by done. rewrite (bind_run _ _ s1 tt s2) by done.
    rewrite (bind_run _ _ _ _ _ (R3 _ s2)), (bind_run _ _ _ _ _ (R4 _ s2)), (bind_run _ _ _ _ _ (R5 _ s2)).
    by rewrite (bind_run _ _ s2 tt (set_settings (u64 count) (u64 index) prefix s2)) by done.
Qed.

(** The bot is made; what follows is its [on_start]. *)
Lemma start_bot_made s i :
  ∃ s1 t, all_bots s1 = all_bots s ++ [t] ∧ bot.json_ t = jconf_ s ∧ (bot.flow_ t = None ∧ bot.bot_timer_ t = None) ∧ world_ s1 = world_ s ∧
    runner_ s1 = runner_ s ∧ bots_ s1 = bots_ s ∧ (stop_ s1 = stop_ s ∧ jconf_ s1 = jconf_ s) ∧
    start_bot i s = (rc ← try_catch (on_start (length (all_bots s))) (λ e, _ ← drop_bot (length (all_bots s)); throw e);
      if (rc : bool) then modify (λ s', set_bots (bots_ s' ++ [length (all_bots s)]) s')
      else drop_bot (length (all_bots s))) s1.
Proof.
  assert (∃ id q, dynamic_snowflake.next (act_ensure.now (world_ s)) (seq_ s) = (Ret id, q)) as (id & q & Hid)
    by (by do 2 eexists).
  set (t := bot.make (V:=V) (jconf_ s) (bot_name (bot_prefix_ s) (u64 (bot_start_index_ s + Z.of_nat i)))
    (u64 (bot_start_index_ s + Z.of_nat i)) id).
  exists (set_all_bots (all_bots s ++ [t]) (set_seq q s)), t. split_and!; try reflexivity.
  unfold start_bot. rewrite (bind_run _ _ s s s) by done.
  rewrite (bind_run _ _ s (length (all_bots s)) (set_all_bots (all_bots s ++ [t]) (set_seq q s))); [done|].
  unfold make_bot. rewrite (bind_run _ _ s s s) by done. rewrite (bind_run _ _ s id (set_seq q s)); [done|].
  unfold zoom. by rewrite Hid.
Qed.

(** A composite whose flow is null does not start. *)
Lemma activate_null_flow w a u f :
  act_ensure.acts w !! a = Some u → act_ensure.kind_ u = flow → act_ensure.active_ u = false →
  lookup_key (act_ensure.json_ u) $"flow" = Some f → is_null f = true →
  ∃ w', act_ensure.activate a w = (Ret false, w').
Proof.
  intros Hu Hk Ha Hf Hn. unfold act_ensure.activate. rewrite (bind_run _ _ _ _ _ (act_at_spec _ _ _ Hu)).
  cbn [act_ensure.activate_fuel]; unfold act_ensure.activate_body. rewrite (bind_run _ _ _ _ _ (act_at_spec _ _ _ Hu)), Ha, Hk.
  rewrite (bind_run _ _ w false w).
  - rewrite (bind_run _ _ _ _ _ (act_update_spec _ _ _ _ Hu)). by eexists.
  - unfold act_ensure.serial_on_activate, act_ensure.load_acts. rewrite (bind_run _ _ w false w); [done|].
    rewrite (bind_run _ _ _ _ _ (act_at_spec _ _ _ Hu)).
    rewrite (bind_run _ _ w f w) by (unfold act_ensure.flow_of; by rewrite Hf). by rewrite Hn.
Qed.

Lemma on_start_null s b t f :
  all_bots s !! b = Some t → acts_ok (world_ s) → lookup_key (bot.json_ t) $"flow" = Some f → is_null f = true →
  ∃ s1 t1, on_start b s = (Ret false, s1) ∧ all_bots s1 !! b = Some t1.
Proof.
  intros Hb Hok Hf Hn.
  destruct (construct_root (world_ s) (bot.json_ t) $"flow" Hok) as (w0 & u & R0 & _ & _ & _ & Hu & Hk & Hj & Ha & _).
  { by apply (bool_decide_unpack _). }
  set (a := act_ensure.next_act (world_ s)) in *.
  destruct (activate_null_flow w0 a u f Hu Hk Ha ltac:(by rewrite Hj) Hn) as (w1 & R1).
  unfold on_start. rewrite (bind_run _ _ _ _ _ (at_bot_run _ _ _ Hb)).
  unfold make_flow. rewrite (bind_run _ _ _ _ _ (on_acts_run _ s _ _ R0)). set (s1 := set_world w0 s).
  rewrite (bind_run _ _ s1 tt (set_all_bots (<[b := bot.set_flow a t]> (all_bots s)) s1))
    by (by apply (update_bot_run s1 b t)).
  set (s2 := set_all_bots _ s1). rewrite (bind_run _ _ _ _ _ (on_acts_run _ s2 false w1 R1)).
  eexists _, (bot.set_flow a t). split; [reflexivity|]. simpl. apply list_lookup_insert_eq.
  by eapply lookup_lt_Some.
Qed.
End facts.
