(* ===== verification/BotFrame.v ===== *)
(** * The bots of [ensure] do not touch each other

    All bots share the store of acts, the runner and its timers.  Whatever order their
    timers expire in, and whichever bots start or stop in between, the acts of a bot, its
    members, its timer and its waits change by its own operations only. *)

From S2P Require Import Prelude.
From S2P Require Import Serializer.
From S2P Require Import StringUtil.
From S2P Require Import ObjectPool.
From S2P Require Import Timer.
From S2P Require Import Runner.
From S2P Require Import App.
From S2P Require Import Json.
From S2P Require Import ActPath.
From S2P Require Import Acts.
From S2P Require Import ActFacts.
From S2P Require Import ActFind.
From S2P Require Import ActFuel.
From S2P Require Import ActFrame.
From S2P Require Import ActFlow.
From S2P Require Import Bot.

(** ** Operations on bots, interleaved *)
Module bot_tasks.
Section bot_tasks.
Context `{Build} `{Json} {V : Type}.

(** The loop of [start_bots] at [i], the expiry of a wait, and the stopping of one bot. *)
Inductive task := starting (i : nat) | expiring (i : nat) | stopping (b : nat).

Definition run (t : task) : M (ensure.state V) unit :=
  match t with
  | starting i => ensure.start_bot i
  | expiring i => ensure.expire i
  | stopping b => ensure.on_stop b
  end.

(** The timers of the runner, and the waits on them. *)
Definition timers_of (s : ensure.state V) : timer_service.state :=
  match ensure.runner_ s with Some r => runner.timers r.2 | None => timer_service.make end.
Definition waits (s : ensure.state V) : list timer.wait := timer_service.waiting (timers_of s).

Definition timer_objects (s : ensure.state V) : gmap nat (cell timer.state) :=
  object_pool.memory (timer_service.pool (timers_of s)).

(** The flow and the timer of a bot *)
Definition flow_of (s : ensure.state V) (b : nat) : option nat := ensure.all_bots s !! b ≫= bot.flow_.
Definition timer_of (s : ensure.state V) (b : nat) : option nat := ensure.all_bots s !! b ≫= bot.bot_timer_.

(** The bot a task is about; [starting] makes one of its own. *)
Definition about (s : ensure.state V) (t : task) : option nat :=
  match t with
  | starting _ => None
  | expiring i => timer.wait_handler <$> waits s !! i
  | stopping b => Some b
  end.

(** A task runs that is not about the bot [b]. *)
Definition step_of_others (b : nat) (s : ensure.state V) (t : task) (s' : ensure.state V) : Prop :=
  about s t ≠ Some b ∧ (run t s).2 = s'.
Definition any_step (s : ensure.state V) (t : task) (s' : ensure.state V) : Prop := (run t s).2 = s'.
End bot_tasks.
End bot_tasks.
Import bot_tasks.

(** A constructed root is a tree of its own. *)
Lemma frame_construct_root `{Build} `{JsonLaws} w k j name :
  acts_ok w → frame (act_ensure.next_act w) w (act_ensure.construct k None j name w).2 ∧
  ∀ b w', act_ensure.construct k None j name w = (Ret b, w') → b = act_ensure.next_act w ∧ top w' b b.
Proof.
  intros Hok. pose proof (act_construct_spec w k None j name Hok) as Hc.
  destruct (act_ensure.construct k None j name w) as [o w'] eqn:Hcons. simpl.
  specialize (Hc ltac:(done)). destruct o as [b|e| |]; try done.
  - destruct Hc as ([Hok' Hg] & -> & pa & Ha & _ & _).
    set (t := act_ensure.State k name None pa j false 0 (act_ensure.now w) [] 0 0) in *.
    assert (act_ensure.acts w' !! act_ensure.next_act w = Some t) as Ht by (rewrite Ha; apply lookup_insert_eq).
    assert (top w' (act_ensure.next_act w) (act_ensure.next_act w)) as Htop by (by apply (top_root _ _ t)).
    split; [|intros b w1 [= <- <-]; done]. split; [done|done| |].
    + intros b s Hs _. rewrite Ha, lookup_insert_ne; [done|]. pose proof (ok_fresh _ Hok b s Hs). lia.
    + intros b s Hn Hs. rewrite Ha in Hs. destruct (decide (b = act_ensure.next_act w)) as [->|]; [done|].
      rewrite lookup_insert_ne in Hs by done. congruence.
  - subst w'. split; [by apply frame_refl|]. intros b w1. done.
Qed.

(** Overwriting a living object. *)
Lemma pool_ok_overwrite {T} (s : object_pool.state T) p v v' :
  pool_ok s → object_pool.memory s !! p = Some (Alive v) →
  pool_ok (object_pool.State (object_pool.pool s) (object_pool.alloc_count s) (object_pool.free_count s)
    (object_pool.pool_size s) (<[p := Alive v']> (object_pool.memory s)) (object_pool.next s)).
Proof.
  intros [O1 O2 O3 O4] Hp. split; simpl; [done| | |].
  - intros q. destruct (decide (q = p)) as [->|]; [rewrite lookup_insert_eq|by rewrite lookup_insert_ne].
    rewrite O2, Hp. by split.
  - intros q. destruct (decide (q = p)) as [->|]; [intros _; by apply O3; exists (Alive v)|].
    rewrite lookup_insert_ne by done. apply O3.
  - destruct O4 as [k Hk]. exists k. rewrite Hk. do 3 f_equal. f_equal. apply set_eq. intros q.
    rewrite !elem_of_live. simpl. destruct (decide (q = p)) as [->|]; [|by rewrite lookup_insert_ne].
    rewrite lookup_insert_eq. naive_solver.
Qed.

Section isolation.
Context `{Build} `{JsonLaws} {V : Type}.
Implicit Types (s : ensure.state V) (w : act_ensure.world) (t : bot.state V).
Import ensure.

(** ** The invariant *)

(** Each bot has a tree and a timer of its own, and a wait calls the bot of its timer. *)
Record bots_ok s : Prop := {
  bo_acts : acts_ok (world_ s);
  bo_flow b f : flow_of s b = Some f → top (world_ s) f f;
  bo_flows b c f : flow_of s b = Some f → flow_of s c = Some f → b = c;
  bo_pool : pool_ok (timer_service.pool (timers_of s));
  bo_timer b p : timer_of s b = Some p → ∃ x, timer_objects s !! p = Some (Alive x);
  bo_timers b c p : timer_of s b = Some p → timer_of s c = Some p → b = c;
  bo_wait v : v ∈ waits s → timer.wait_repeat v = None ∧ timer_of s (timer.wait_handler v) = Some (timer.wait_timer v)
}.

(** What is bot [c]'s is as it was. *)
Record untouched (c : nat) s s' : Prop := {
  un_bot : all_bots s' !! c = all_bots s !! c;
  un_acts a f : flow_of s c = Some f → top (world_ s) a f →
    act_ensure.acts (world_ s') !! a = act_ensure.acts (world_ s) !! a;
  un_tree a f : flow_of s c = Some f → top (world_ s') a f → top (world_ s) a f;
  un_waits : filter (λ v, timer.wait_handler v = c) (waits s') = filter (λ v, timer.wait_handler v = c) (waits s);
  un_timer p : timer_of s c = Some p → timer_objects s' !! p = timer_objects s !! p
}.

Lemma flow_of_same s s' c : all_bots s' !! c = all_bots s !! c → flow_of s' c = flow_of s c.
Proof. unfold flow_of. by intros ->. Qed.
Lemma timer_of_same s s' c : all_bots s' !! c = all_bots s !! c → timer_of s' c = timer_of s c.
Proof. unfold timer_of. by intros ->. Qed.

Lemma untouched_trans c s s1 s2 :
  grows (world_ s) (world_ s1) → untouched c s s1 → untouched c s1 s2 → untouched c s s2.
Proof.
  intros Hg [B1 A1 T1 W1 X1] [B2 A2 T2 W2 X2]. pose proof (flow_of_same _ _ _ B1) as Hf.
  pose proof (timer_of_same _ _ _ B1) as Ht. split; [congruence| | |congruence|].
  - intros a f Hc Ha. rewrite (A2 a f); [by eapply A1|congruence|]. by apply (top_grows (world_ s)).
  - intros a f Hc Ha. apply (T1 a f); [done|]. apply (T2 a f); [congruence|done].
  - intros p Hc. rewrite X2 by congruence. by apply X1.
Qed.

(** From [s] to [s'] only the bot [b] has changed. *)
Record within (b : nat) s s' : Prop := {
  wi_ok : bots_ok s';
  wi_grows : grows (world_ s) (world_ s');
  wi_others c : c ≠ b → is_Some (all_bots s !! c) → untouched c s s';
  wi_length : length (all_bots s) ≤ length (all_bots s')
}.

Lemma untouched_refl c s : untouched c s s.
Proof. by split. Qed.

Lemma within_refl b s : bots_ok s → within b s s.
Proof. intros Hs. split; [done|reflexivity|intros c _ _; apply untouched_refl|done]. Qed.

Lemma within_trans b s s1 s2 : within b s s1 → within b s1 s2 → within b s s2.
Proof.
  intros [O1 G1 U1 L1] [O2 G2 U2 L2]. split; [done|by transitivity (world_ s1)| |lia].
  intros c Hc Hs. apply (untouched_trans c s s1); [done|by apply U1|]. apply U2; [done|].
  by rewrite (un_bot _ _ _ (U1 c Hc Hs)).
Qed.

Lemma within_bind {A B} b s (m : M (state V) A) (k : A → M (state V) B) :
  within b s (m s).2 → (∀ x s', m s = (Ret x, s') → within b s s' → within b s' (k x s').2) →
  within b s ((m ≫= k) s).2.
Proof.
  intros Hm Hk. unfold mbind, M_bind. destruct (m s) as [[x|e| |] s'] eqn:Hr; try done.
  apply (within_trans b s s'); [done|]. by apply Hk.
Qed.

(** Changes of the acts, in a tree that is no other bot's. *)
Lemma within_world b r s w' :
  bots_ok s → (∀ c, c ≠ b → flow_of s c ≠ Some r) → frame r (world_ s) w' → within b s (set_world w' s).
Proof.
  intros [O1 O2 O3 O4 O5 O6 O7] Hr [F1 F2 F3 F4]. split; [|done| |done].
  - split; try done. intros c f Hc. apply (top_grows (world_ s)); [done|]. by apply (O2 c).
  - intros c Hc _. split; try done.
    + intros a f Hf Ha. destruct (top_inv _ _ _ Ha) as (x & Hx & _). simpl. rewrite Hx. apply F3; [done|].
      intros Hr'. apply (Hr c Hc). by rewrite (top_unique _ _ _ _ Hr' Ha).
    + intros a f Hf Ha. simpl in Ha. destruct (act_ensure.acts (world_ s) !! a) as [x|] eqn:Hx.
      * destruct (top_exists _ _ _ O1 Hx) as [f' Hf']. pose proof (top_grows _ _ _ _ F2 Hf') as Hf1.
        by rewrite (top_unique _ _ _ _ Ha Hf1).
      * exfalso. destruct (top_inv _ _ _ Ha) as (y & Hy & _). apply (Hr c Hc). rewrite Hf.
        by rewrite (top_unique _ _ _ _ Ha (F4 a y Hx Hy)).
Qed.

(** The trees of other bots are others. *)
Lemma other_flows b s f : bots_ok s → flow_of s b = Some f → ∀ c, c ≠ b → flow_of s c ≠ Some f.
Proof. intros Hs Hb c Hc Hf. apply Hc. by apply (bo_flows _ Hs c b f). Qed.

(** ** The timers *)
Lemma filter_filter_skip {A} (P Q : A → Prop) `{∀ x, Decision (P x), ∀ x, Decision (Q x)} (l : list A) :
  (∀ x, x ∈ l → P x → Q x) → filter P (filter Q l) = filter P l.
Proof.
  induction l as [|x l IH]; intros Hl; [done|]. assert (filter P (filter Q l) = filter P l) as IH'.
  { apply IH. intros y Hy. apply Hl. by right. }
  rewrite !filter_cons. destruct (decide (P x)) as [Hp|Hp].
  - rewrite decide_True by (by apply Hl; [left|]). rewrite filter_cons, decide_True by done. by rewrite IH'.
  - destruct (decide (Q x)); [|done]. by rewrite filter_cons, decide_False.
Qed.

Lemma filter_delete {A} (P : A → Prop) `{∀ x, Decision (P x)} (l : list A) i x :
  l !! i = Some x → ¬ P x → filter P (delete i l) = filter P l.
Proof.
  intros Hi Hx. rewrite <-(take_drop_middle l i x Hi) at 2. rewrite delete_take_drop, !filter_app, filter_cons.
  by rewrite decide_False.
Qed.

Lemma elem_of_delete {A} (l : list A) i x : x ∈ delete i l → x ∈ l.
Proof.
  revert i. induction l as [|y l IH]; intros [|i]; try done; simpl; [by right|].
  intros [->|Hx]%elem_of_cons; [by left|]. right. by apply (IH i).
Qed.

Lemma within_timers b s r x :
  bots_ok s → runner_ s = Some r → pool_ok (timer_service.pool x) →
  (∀ q y, timer_objects s !! q = Some (Alive y) →
     (timer_of s b ≠ Some q → object_pool.memory (timer_service.pool x) !! q = Some (Alive y)) ∧
     ∃ y', object_pool.memory (timer_service.pool x) !! q = Some (Alive y')) →
  (∀ v, v ∈ timer_service.waiting x → v ∈ waits s) →
  (∀ c, c ≠ b → filter (λ v, timer.wait_handler v = c) (timer_service.waiting x)
                = filter (λ v, timer.wait_handler v = c) (waits s)) →
  within b s (set_runner (r.1, runner.set_timers x r.2) s).
Proof.
  intros Hs Hr Hpool Hobj Hin Hw. split; [|done| |done].
  - destruct Hs as [O1 O2 O3 O4 O5 O6 O7]. split; try done.
    + intros c p Hp. destruct (O5 c p Hp) as [y Hy]. by apply (Hobj p y).
    + intros v Hv. by apply O7, Hin.
  - intros c Hc _. split; try done; [by apply Hw|]. intros p Hp. destruct (bo_timer _ Hs c p Hp) as [y Hy].
    rewrite Hy. apply (Hobj p y Hy). intros Hb. apply Hc. by apply (bo_timers _ Hs c b p).
Qed.

Lemma on_runner_none {A} (m : M (runner.state unit) A) s : runner_ s = None → on_runner m s = (Undefined, s).
Proof. intros Hr. unfold on_runner. rewrite (bind_run _ _ s s s) by done. by rewrite Hr. Qed.

Lemma on_runner_some {A} (m : M (runner.state unit) A) s r :
  runner_ s = Some r → on_runner m s = ((m r.2).1, set_runner (r.1, (m r.2).2) s).
Proof.
  intros Hr. unfold on_runner. rewrite (bind_run _ _ s s s) by done. rewrite Hr, bind_deref.
  unfold zoom. by destruct (m r.2).
Qed.

Lemma within_cancel b p s : bots_ok s → timer_of s b = Some p → within b s (cancel_timer p s).2.
Proof.
  intros Hs Hb. destruct (runner_ s) as [r|] eqn:Hr.
  2:{ unfold cancel_timer. rewrite on_runner_none by done. by apply within_refl. }
  destruct (bo_timer _ Hs b p Hb) as [y Hy]. pose proof Hy as Hy'. unfold timer_objects, timers_of in Hy'. rewrite Hr in Hy'.
  unfold cancel_timer. rewrite (on_runner_some _ s r Hr). simpl. unfold zoom, timer_service.timer_cancel, timer_service.this.
  rewrite (bind_run _ _ _ y (runner.timers r.2)); [|rewrite (bind_run _ _ _ _ (runner.timers r.2)) by done; by rewrite Hy'].
  unfold when. destruct (timer.is_set y); simpl.
  - apply within_timers; [done|done| | | |]; simpl.
    + apply (pool_ok_overwrite _ p y); [|done]. pose proof (bo_pool _ Hs) as Hp. unfold timers_of in Hp. by rewrite Hr in Hp.
    + intros q z Hz. unfold timer_objects, timers_of in Hz. rewrite Hr in Hz. destruct (decide (q = p)) as [->|].
      * split; [by intros []|]. rewrite lookup_insert_eq. by eexists.
      * rewrite lookup_insert_ne by done. split; [done|by exists z].
    + intros v Hv. unfold waits, timers_of. rewrite Hr. by apply list_elem_of_filter in Hv as [_ Hv].
    + intros c Hc. unfold waits, timers_of. rewrite Hr. apply filter_filter_skip. intros v Hv Hvc Hvp.
      destruct (bo_wait _ Hs v) as [_ Hvt]; [unfold waits, timers_of; by rewrite Hr|].
      apply Hc. apply (bo_timers _ Hs c b p); [congruence|done].
  - apply within_timers; [done|done| | | |]; simpl; unfold waits, timer_objects, timers_of; rewrite ?Hr; try done.
    + pose proof (bo_pool _ Hs) as Hp. unfold timers_of in Hp. by rewrite Hr in Hp.
    + intros q z Hz. split; [done|by exists z].
Qed.

(** What a bot asks of its timer *)
Definition cancel_request (o : option nat) : M (state V) unit :=
  match o with Some p => cancel_timer p | None => mret tt end.

Lemma cancel_request_bots o s : all_bots (cancel_request o s).2 = all_bots s.
Proof.
  destruct o as [p|]; [|done]. simpl. unfold cancel_timer.
  destruct (runner_ s) as [r|] eqn:Hr; [by rewrite (on_runner_some _ s r Hr)|by rewrite on_runner_none].
Qed.

Lemma within_request b o s :
  bots_ok s → (∀ p, o = Some p → timer_of s b = Some p) → within b s (cancel_request o s).2.
Proof. intros Hs Ho. destruct o as [p|]; [by apply within_cancel; [|apply Ho]|by apply within_refl]. Qed.

Lemma within_cancels {A} b o (l : list A) : ∀ s,
  bots_ok s → (∀ p, o = Some p → timer_of s b = Some p) → within b s (for_each l (λ _, cancel_request o) s).2.
Proof.
  induction l as [|x l IH]; intros s Hs Ho; [by apply within_refl|]. cbn [for_each].
  apply within_bind; [by apply within_request|]. intros u s' Hr [Hs' _ _ _]. apply IH; [done|].
  intros p Hp. rewrite (timer_of_same s); [by apply Ho|]. pose proof (cancel_request_bots o s) as Hb. rewrite Hr in Hb.
  simpl in Hb. by rewrite Hb.
Qed.

(** ** What a bot does *)
Lemma frame_owner_stop t f w :
  bot.flow_ t = Some f → acts_ok w → top w f f → frame f w (owner_stop t w).2.
Proof.
  intros Hf Hok Ht. unfold owner_stop. apply frame_bind; [done| |].
  - destruct (bot.bot_timer_ t); [by apply frame_emit|by apply frame_refl].
  - intros u w' _ Hfr. rewrite Hf, bind_deref. apply frame_deactivate; [by destruct Hfr|by apply (top_frame f w)].
Qed.

Lemma bot_flow s b t f : all_bots s !! b = Some t → bot.flow_ t = Some f → flow_of s b = Some f.
Proof. unfold flow_of. by intros ->. Qed.
Lemma bot_timer s b t p : all_bots s !! b = Some t → bot.bot_timer_ t = Some p → timer_of s b = Some p.
Proof. unfold timer_of. by intros ->. Qed.

Lemma within_at_bot {A} b s (k : bot.state V → M (state V) A) :
  bots_ok s → (∀ t, all_bots s !! b = Some t → within b s (k t s).2) → within b s ((at_bot b ≫= k) s).2.
Proof.
  intros Hs Hk. unfold at_bot. destruct (all_bots s !! b) as [t|] eqn:Ht.
  - rewrite (bind_run _ _ s t s); [by apply Hk|]. rewrite (bind_run _ _ s s s) by done. by rewrite Ht.
  - rewrite (bind_stop _ _ s Undefined s); [by apply within_refl| |done].
    rewrite (bind_run _ _ s s s) by done. by rewrite Ht.
Qed.

Lemma within_deref_flow {A} b s t (k : nat → M (state V) A) :
  bots_ok s → all_bots s !! b = Some t → (∀ f, flow_of s b = Some f → bot.flow_ t = Some f → within b s (k f s).2) →
  within b s ((deref (bot.flow_ t) ≫= k) s).2.
Proof.
  intros Hs Ht Hk. destruct (bot.flow_ t) as [f|] eqn:Hf; [|by apply within_refl].
  rewrite bind_deref. apply Hk; [by apply (bot_flow s b t)|done].
Qed.

(** Acts of the bot's own tree. *)
Lemma within_acts {A} b f s (m : M act_ensure.world A) :
  bots_ok s → flow_of s b = Some f → frame f (world_ s) (m (world_ s)).2 → within b s (on_acts m s).2.
Proof.
  intros Hs Hf Hm. unfold on_acts, zoom. destruct (m (world_ s)) as [o w'] eqn:Hr. simpl.
  apply (within_world b f); [done|by apply other_flows|done].
Qed.

Lemma within_on_stop b s : bots_ok s → within b s (on_stop b s).2.
Proof.
  intros Hs. apply within_at_bot; [done|]. intros t Ht.
  change (within b s (( _ ← cancel_request (bot.bot_timer_ t); f ← deref (bot.flow_ t); on_acts (act_ensure.deactivate f)) s).2).
  apply within_bind; [apply within_request; [done|]; intros p; by apply (bot_timer s b t)|].
  intros u s1 Hr [Hs1 _ _ _]. pose proof (cancel_request_bots (bot.bot_timer_ t) s) as Hall. rewrite Hr in Hall. simpl in Hall.
  apply within_deref_flow; [done|by rewrite Hall|]. intros f Hf _.
  apply (within_acts b f); [done|done|]. apply frame_deactivate; [apply (bo_acts _ Hs1)|by apply (bo_flow _ Hs1 b)].
Qed.

Lemma within_update b s : bots_ok s → within b s (update b s).2.
Proof.
  intros Hs. apply within_at_bot; [done|]. intros t Ht. apply within_deref_flow; [done|done|]. intros f Hf Hft.
  pose proof (bo_acts _ Hs) as Hok. pose proof (bo_flow _ Hs b f Hf) as Htop.
  pose proof (frame_update_act (owner_stop t) f (λ w, frame_owner_stop t f w Hft) (world_ s) f Hok Htop) as Hfr.
  unfold with_timer. destruct (act_ensure.update (owner_stop t) f (world_ s)) as [o w'] eqn:Hu. simpl in Hfr.
  assert (within b s (set_world w' s)) as Hw1 by (by apply (within_world b f); [|apply other_flows|]).
  set (l := filter _ _). assert (within b s (for_each l (λ _, cancel_request (bot.bot_timer_ t)) (set_world w' s)).2) as Hw2.
  { apply (within_trans b s (set_world w' s)); [done|]. apply within_cancels; [by destruct Hw1|].
    intros p Hp. by apply (bot_timer s b t). }
  unfold cancel_request in Hw2. by destruct (for_each l _ (set_world w' s)) as [[] s'].
Qed.

(** A wait on a strand expires: it goes, and its bot is updated. *)
Lemma within_expire i b s :
  bots_ok s → timer.wait_handler <$> waits s !! i = Some b → within b s (expire i s).2.
Proof.
  intros Hs Hi. destruct (runner_ s) as [r|] eqn:Hr.
  2:{ unfold waits, timers_of in Hi. by rewrite Hr in Hi. }
  assert (waits s = timer_service.waiting (runner.timers r.2)) as Hwt by (unfold waits, timers_of; by rewrite Hr).
  destruct (waits s !! i) as [v|] eqn:Hv; [|done]. injection Hi as Hvb. pose proof Hv as Hv'. rewrite Hwt in Hv'.
  destruct (bo_wait _ Hs v (list_elem_of_lookup_2 _ _ _ Hv)) as [Hrep Hvt].
  unfold expire. rewrite (bind_run _ _ s s s) by done. rewrite Hr, bind_deref, Hv', bind_deref.
  set (x := timer_service.set_waits (delete i (waits s)) (timer_service.aborted (runner.timers r.2)) (runner.timers r.2)).
  set (x' := timer_service.record_call (timer.wait_handler v) (timer.wait_timer v) (timer_service.is_alive (timer.wait_timer v) x) x).
  rewrite (bind_run _ _ s tt (set_runner (r.1, runner.set_timers x' r.2) s)).
  2:{ rewrite (on_runner_some _ s r Hr). unfold zoom, timer_service.expire.
      rewrite (bind_run _ _ (runner.timers r.2) (runner.timers r.2) (runner.timers r.2)) by done. rewrite Hv', bind_deref.
      rewrite (bind_run _ _ (runner.timers r.2) tt x) by (unfold x; by rewrite Hwt).
      unfold timer_service.complete. by rewrite Hrep. }
  assert (within b s (set_runner (r.1, runner.set_timers x' r.2) s)) as Hw.
  { apply within_timers; [done|done| | | |].
    - pose proof (bo_pool _ Hs) as Hp. unfold timers_of in Hp. by rewrite Hr in Hp.
    - intros q y Hy. unfold timer_objects, timers_of in Hy. rewrite Hr in Hy. split; [done|by exists y].
    - intros u Hu. by eapply elem_of_delete, Hu.
    - intros c Hc. simpl. apply (filter_delete _ _ i v); [done|]. congruence. }
  apply (within_trans b s (set_runner (r.1, runner.set_timers x' r.2) s)); [done|].
  rewrite Hvb. apply within_update. by destruct Hw.
Qed.

(** ** Starting *)
Lemma flow_of_insert b t' s c : b < length (all_bots s) →
  flow_of (set_all_bots (<[b := t']> (all_bots s)) s) c = if decide (c = b) then bot.flow_ t' else flow_of s c.
Proof.
  intros Hb. unfold flow_of. simpl. destruct (decide (c = b)) as [->|]; [by rewrite list_lookup_insert_eq|].
  by rewrite list_lookup_insert_ne.
Qed.
Lemma timer_of_insert b t' s c : b < length (all_bots s) →
  timer_of (set_all_bots (<[b := t']> (all_bots s)) s) c = if decide (c = b) then bot.bot_timer_ t' else timer_of s c.
Proof.
  intros Hb. unfold timer_of. simpl. destruct (decide (c = b)) as [->|]; [by rewrite list_lookup_insert_eq|].
  by rewrite list_lookup_insert_ne.
Qed.

Lemma within_bot b t' s :
  bots_ok (set_all_bots (<[b := t']> (all_bots s)) s) → within b s (set_all_bots (<[b := t']> (all_bots s)) s).
Proof.
  intros Hs. split; [done|done| |simpl; by rewrite length_insert]. intros c Hc _. split; try done.
  simpl. by rewrite list_lookup_insert_ne.
Qed.

Lemma within_set_flow b t f s :
  bots_ok s → all_bots s !! b = Some t → top (world_ s) f f → (∀ c, c ≠ b → flow_of s c ≠ Some f) →
  within b s (update_bot b (bot.set_flow f) s).2.
Proof.
  intros [O1 O2 O3 O4 O5 O6 O7] Hb Htop Hne. rewrite (update_bot_run _ _ _ _ Hb). simpl.
  pose proof (lookup_lt_Some _ _ _ Hb) as Hlt. apply within_bot.
  assert (∀ c, timer_of (set_all_bots (<[b := bot.set_flow f t]> (all_bots s)) s) c = timer_of s c) as Ht.
  { intros c. rewrite timer_of_insert by done. destruct (decide (c = b)) as [->|]; [|done]. unfold timer_of. by rewrite Hb. }
  split; try done.
  - intros c g. rewrite flow_of_insert by done. destruct (decide (c = b)); [by intros [= <-]|apply O2].
  - intros c d g. rewrite !flow_of_insert by done.
    destruct (decide (c = b)) as [->|], (decide (d = b)) as [->|]; try done; [| |apply O3].
    + simpl. intros [= <-] Hd. by destruct (Hne d).
    + simpl. intros Hc [= <-]. by destruct (Hne c).
  - intros c p. rewrite Ht. apply O5.
  - intros c d p. rewrite !Ht. apply O6.
  - intros v. rewrite Ht. apply O7.
Qed.

Lemma repeat_effect (x : timer_service.state) st ms h :
  pool_ok (timer_service.pool x) →
  let p := next_address (timer_service.pool x) in
  ∃ x' tm, timer_service.repeat (Some st) ms h x = (Ret p, x') ∧ pool_ok (timer_service.pool x') ∧
    object_pool.memory (timer_service.pool x') = <[p := Alive tm]> (object_pool.memory (timer_service.pool x)) ∧
    timer_service.waiting x' = filter (λ v, timer.wait_timer v ≠ p) (timer_service.waiting x)
      ++ [timer.Wait p (Some st) None h].
Proof.
  intros Hok p. destruct (construct_spec (timer_service.pool x) (timer.make (Some st)) Hok) as (o & Ho & Hok1 & Hm & _).
  fold p in Ho, Hm. set (x1 := timer_service.set_pool o x). set (tm := timer.State (Some st) 0 true false true).
  assert (timer_at x1 p (timer.make (Some st)) (timer_service.waiting x) (timer_service.aborted x)) as Ht1.
  { split; [|done]. simpl. by rewrite Hm, lookup_insert_eq. }
  set (o' := object_pool.State (object_pool.pool o) (object_pool.alloc_count o) (object_pool.free_count o)
    (object_pool.pool_size o) (<[p := Alive tm]> (object_pool.memory o)) (object_pool.next o)).
  set (ws := timer_service.waiting x).
  exists (timer_service.set_waits (filter (λ v, timer.wait_timer v ≠ p) ws ++ [timer.Wait p (Some st) None h])
    (timer_service.aborted x ++ filter (λ v, timer.wait_timer v = p) ws) (timer_service.set_pool o' x)), tm. split_and!.
  - unfold timer_service.repeat. rewrite (bind_run _ _ x p x1) by (unfold zoom; by rewrite Ho).
    unfold timer_service.timer_repeat, mbind at 1, M_bind at 1.
    by rewrite (bind_run _ _ _ _ _ (this_spec _ _ _ _ _ Ht1)).
  - simpl. apply (pool_ok_overwrite o p (timer.make (Some st))); [done|]. by rewrite Hm, lookup_insert_eq.
  - simpl. by rewrite Hm, insert_insert_eq.
  - done.
Qed.

Lemma set_runner_same s r : runner_ s = Some r → set_runner (r.1, r.2) s = s.
Proof. destruct s, r. simpl. by intros ->. Qed.

(** The timer of a bot that has none yet. *)
Lemma bots_ok_armed b t s r x p tm st :
  bots_ok s → all_bots s !! b = Some t → bot.bot_timer_ t = None → runner_ s = Some r →
  pool_ok (timer_service.pool x) → p ∉ live (timer_service.pool (runner.timers r.2)) →
  object_pool.memory (timer_service.pool x)
    = <[p := Alive tm]> (object_pool.memory (timer_service.pool (runner.timers r.2))) →
  timer_service.waiting x = waits s ++ [timer.Wait p (Some st) None b] →
  within b s (set_all_bots (<[b := bot.set_timer p t]> (all_bots s)) (set_runner (r.1, runner.set_timers x r.2) s)).
Proof.
  intros Hs Hb Hnone Hr Hpool Hp Hm Hw. pose proof (lookup_lt_Some _ _ _ Hb) as Hlt.
  set (s1 := set_runner (r.1, runner.set_timers x r.2) s).
  assert (timer_objects s = object_pool.memory (timer_service.pool (runner.timers r.2))) as Ho.
  { unfold timer_objects, timers_of. by rewrite Hr. }
  assert (∀ c, timer_of s c ≠ Some p) as Hne.
  { intros c Hc. destruct (bo_timer _ Hs c p Hc) as [y Hy]. apply Hp. apply elem_of_live. exists y. by rewrite <-Ho. }
  assert (Hflow : ∀ c, flow_of (set_all_bots (<[b := bot.set_timer p t]> (all_bots s1)) s1) c = flow_of s c).
  { intros c. rewrite flow_of_insert by done. destruct (decide (c = b)) as [->|]; [|done].
    unfold flow_of. by rewrite Hb. }
  assert (∀ c, timer_of (set_all_bots (<[b := bot.set_timer p t]> (all_bots s1)) s1) c =
    if decide (c = b) then Some p else timer_of s c) as Htimer by (intros c; by rewrite timer_of_insert).
  assert (timer_of s b = None) as Hbn by (unfold timer_of; by rewrite Hb).
  split; [|done| |simpl; by rewrite length_insert].
  - destruct Hs as [O1 O2 O3 O4 O5 O6 O7]. split; try done.
    + intros c f. rewrite Hflow. apply O2.
    + intros c d f. rewrite !Hflow. apply O3.
    + intros c q. rewrite Htimer. unfold timer_objects, timers_of. simpl. rewrite Hm.
      destruct (decide (c = b)); [intros [= <-]; rewrite lookup_insert_eq; by eexists|]. intros Hq.
      rewrite lookup_insert_ne by (intros <-; by apply (Hne c)). rewrite <-Ho. by apply (O5 c).
    + intros c d q. rewrite !Htimer.
      destruct (decide (c = b)) as [->|], (decide (d = b)) as [->|]; try done; [| |apply O6].
      * intros [= <-] Hd. by destruct (Hne d).
      * intros Hc [= <-]. by destruct (Hne c).
    + intros v. rewrite Htimer. unfold waits at 1, timers_of at 1. simpl. rewrite Hw. intros [Hv|Hv]%elem_of_app.
      * destruct (O7 v Hv) as [Hv1 Hv2]. split; [done|]. rewrite decide_False; [done|]. intros Hvb. congruence.
      * apply list_elem_of_singleton in Hv as ->. simpl. by rewrite decide_True.
  - intros c Hc _. split; try done.
    + simpl. by rewrite list_lookup_insert_ne.
    + unfold waits at 1, timers_of at 1. simpl. rewrite Hw, filter_app, filter_cons, decide_False by done. simpl. by rewrite app_nil_r.
    + intros q Hq. unfold timer_objects at 1, timers_of at 1. simpl. rewrite Hm, Ho, lookup_insert_ne; [done|].
      intros <-. by apply (Hne c).
Qed.

(** A timer to be constructed has no waits. *)
Lemma fresh_timer s r :
  bots_ok s → runner_ s = Some r →
  let p := next_address (timer_service.pool (runner.timers r.2)) in
  pool_ok (timer_service.pool (runner.timers r.2)) ∧ p ∉ live (timer_service.pool (runner.timers r.2)) ∧
  filter (λ v, timer.wait_timer v ≠ p) (timer_service.waiting (runner.timers r.2)) = waits s.
Proof.
  intros Hs Hr p. pose proof (bo_pool _ Hs) as Hok. unfold timers_of in Hok. rewrite Hr in Hok.
  assert (waits s = timer_service.waiting (runner.timers r.2)) as Hwt by (unfold waits, timers_of; by rewrite Hr).
  assert (p ∉ live (timer_service.pool (runner.timers r.2))) as Hfree by (by apply next_address_free).
  split_and!; [done|done|]. rewrite <-Hwt. apply idle_filter, Forall_forall. intros v Hv Hvp.
  destruct (bo_wait _ Hs v Hv) as [_ Hvt]. destruct (bo_timer _ Hs _ _ Hvt) as [y Hy].
  apply Hfree. apply elem_of_live. exists y. unfold timer_objects, timers_of in Hy. rewrite Hr in Hy. by rewrite <-Hvp.
Qed.

Lemma within_arm b t s key ms :
  bots_ok s → all_bots s !! b = Some t → bot.bot_timer_ t = None →
  within b s ((p ← on_runner (runner.repeat_strand key ms b); _ ← update_bot b (bot.set_timer p); mret true) s).2.
Proof.
  intros Hs Hb Hnone. destruct (runner_ s) as [r|] eqn:Hr.
  2:{ rewrite (bind_stop _ _ s Undefined s); [by apply within_refl|by apply on_runner_none|done]. }
  destruct (fresh_timer s r Hs Hr) as (Hok & Hfree & Hwt).
  destruct (runner.get_strand key r.2) as [o r'] eqn:Hg.
  assert (r' = r.2) as ->.
  { assert (preserves (λ y, y = r.2) (runner.get_strand key)) as Hp; [unfold runner.get_strand; preserve|].
    specialize (Hp r.2 eq_refl). by rewrite Hg in Hp. }
  assert (Hstop : ∀ o, runner.get_strand key r.2 = (o, r.2) → (∀ st, o ≠ Ret st) →
    within b s ((p ← on_runner (runner.repeat_strand key ms b); _ ← update_bot b (bot.set_timer p); mret true) s).2).
  { intros o' Ho Hne. unfold mbind at 1, M_bind. rewrite (on_runner_some _ s r Hr). unfold runner.repeat_strand, mbind, M_bind.
    rewrite Ho. destruct o' as [st|e| |]; [by destruct (Hne st)|..]; simpl; rewrite set_runner_same by done; by apply within_refl. }
  destruct o as [st|e| |]; [clear Hstop|by eapply Hstop..].
  destruct (repeat_effect (runner.timers r.2) st ms b Hok) as (x & tm & Hx & Hpx & Hm & Hw).
  set (p := next_address (timer_service.pool (runner.timers r.2))) in *.
  rewrite (bind_run _ _ s p (set_runner (r.1, runner.set_timers x r.2) s)).
  2:{ rewrite (on_runner_some _ s r Hr). unfold runner.repeat_strand. rewrite (bind_run _ _ _ _ _ Hg). unfold zoom.
      by rewrite Hx. }
  set (s1 := set_runner _ s).
  rewrite (bind_run _ _ s1 tt (set_all_bots (<[b := bot.set_timer p t]> (all_bots s)) s1)) by (by apply (update_bot_run s1 b t)).
  apply (bots_ok_armed b t s r x p tm st); try done. by rewrite Hw, Hwt.
Qed.

Lemma within_on_start b t s :
  bots_ok s → all_bots s !! b = Some t → bot.bot_timer_ t = None → within b s (on_start b s).2.
Proof.
  intros Hs Hb Hnone. unfold on_start. rewrite (bind_run _ _ _ _ _ (at_bot_run _ _ _ Hb)).
  pose proof (bo_acts _ Hs) as Hok. set (f := act_ensure.next_act (world_ s)).
  assert (∀ c, flow_of s c ≠ Some f) as Hfresh.
  { intros c Hc. destruct (top_inv _ _ _ (bo_flow _ Hs c f Hc)) as (y & Hy & _).
    pose proof (ok_fresh _ Hok f y Hy). lia. }
  destruct (frame_construct_root (world_ s) flow (bot.json_ t) $"flow" Hok) as [Hfr Hres]. fold f in Hfr, Hres.
  assert (Hw0 : within b s (set_world (act_ensure.construct flow None (bot.json_ t) $"flow" (world_ s)).2 s)).
  { apply (within_world b f); [done| |done]. intros c _. apply Hfresh. }
  assert (Hmake : make_flow (bot.json_ t) s = let '(o, w) := act_ensure.construct flow None (bot.json_ t) $"flow" (world_ s) in
    (o, set_world w s)) by done.
  destruct (act_ensure.construct flow None (bot.json_ t) $"flow" (world_ s)) as [o w0] eqn:Hc. simpl in Hw0.
  apply within_bind; [by rewrite Hmake|]. intros a s1 Hr _. rewrite Hmake in Hr.
  injection Hr as -> <-. destruct (Hres a w0 eq_refl) as [-> Htop]. set (s1 := set_world w0 s) in *.
  pose proof Hw0 as [Hs1 _ _ _]. assert (all_bots s1 !! b = Some t) as Hb1 by done.
  pose proof (within_set_flow b t f s1 Hs1 Hb1 Htop (λ c _, Hfresh c)) as Hw1.
  rewrite (update_bot_run s1 b t _ Hb1) in Hw1. rewrite (bind_run _ _ _ _ _ (update_bot_run s1 b t _ Hb1)).
  set (s2 := set_all_bots _ s1) in *. apply (within_trans b s1 s2); [done|]. pose proof Hw1 as [Hs2 _ _ _].
  assert (all_bots s2 !! b = Some (bot.set_flow f t)) as Hb2.
  { simpl. apply list_lookup_insert_eq. by eapply lookup_lt_Some. }
  assert (flow_of s2 b = Some f) as Hf2 by (unfold flow_of; by rewrite Hb2).
  apply within_bind.
  { apply (within_acts b f); [done|done|]. apply frame_activate; [apply (bo_acts _ Hs2)|done]. }
  intros rc s3 Hr Hw3. unfold on_acts, zoom in Hr. destruct (act_ensure.activate f (world_ s2)) as [o' w3].
  injection Hr as -> <-. pose proof Hw3 as [Hs3 _ _ _]. destruct rc; [|by apply within_refl].
  apply within_bind.
  { rewrite (preserves_read_value (λ y, y = set_world w3 s2) _ _ _ _ _ eq_refl). by apply within_refl. }
  intros interval s4 Hr _. apply preserves_same in Hr as ->; [|apply preserves_read_value].
  by apply (within_arm b (bot.set_flow f t)).
Qed.

Lemma within_start_bot i s : bots_ok s → within (length (all_bots s)) s (start_bot i s).2.
Proof.
  intros Hs. destruct (start_bot_made s i) as (s1 & t & Ha & _ & (Hf & Htm) & Hw & Hr & _ & _ & ->).
  set (b := length (all_bots s)). assert (all_bots s1 !! b = Some t) as Hb by (rewrite Ha; by apply list_lookup_middle).
  assert (Hlook : ∀ c, c ≠ b → all_bots s1 !! c = all_bots s !! c).
  { intros c Hc. rewrite Ha. destruct (decide (c < b)) as [Hlt|Hge]; [by apply lookup_app_l|].
    rewrite (lookup_ge_None_2 (all_bots s)) by (unfold b in *; lia). apply lookup_ge_None_2. rewrite length_app.
    simpl. unfold b in *. lia. }
  assert (Hnone : all_bots s !! b = None) by (by apply lookup_ge_None_2).
  assert (Hflow : ∀ c, flow_of s1 c = flow_of s c).
  { intros c. unfold flow_of. destruct (decide (c = b)) as [->|]; [by rewrite Hb, Hnone|by rewrite Hlook]. }
  assert (Htimer : ∀ c, timer_of s1 c = timer_of s c).
  { intros c. unfold timer_of. destruct (decide (c = b)) as [->|]; [by rewrite Hb, Hnone|by rewrite Hlook]. }
  assert (timers_of s1 = timers_of s) as Hts by (unfold timers_of; by rewrite Hr).
  assert (Hs1 : within b s s1).
  { split; [| by rewrite Hw| |rewrite Ha, length_app; lia].
    - destruct Hs as [O1 O2 O3 O4 O5 O6 O7]. split; unfold timer_objects, waits in *; rewrite ?Hw, ?Hts; try done.
      + intros c f. rewrite Hflow. apply O2.
      + intros c d f. rewrite !Hflow. apply O3.
      + intros c p. rewrite Htimer. apply O5.
      + intros c d p. rewrite !Htimer. apply O6.
      + intros v. rewrite Htimer. apply O7.
    - intros c Hc _. split; unfold timer_objects, waits; rewrite ?Hw, ?Hts; try done. by apply Hlook. }
  apply (within_trans b s s1); [done|]. pose proof Hs1 as [Hok1 _ _ _].
  assert (Hdrop : ∀ v, preserves (λ y, y = v) (drop_bot (V:=V) b)).
  { intros v. unfold drop_bot, at_bot. preserve. }
  pose proof (within_on_start b t s1 Hok1 Hb Htm) as Hstart.
  apply within_bind.
  - unfold try_catch. destruct (on_start b s1) as [[rc|e| |] s2]; try done. simpl in *.
    unfold mbind, M_bind. specialize (Hdrop s2 s2 eq_refl). destruct (drop_bot b s2) as [[] s3]; simpl in *; by subst.
  - intros rc s2 _ [Hok2 _ _ _]. destruct rc.
    + split; [by destruct Hok2|done| |done]. intros c _ _. by split.
    + rewrite (Hdrop s2 s2 eq_refl). by apply within_refl.
Qed.

(** ** Runs *)
Definition no_bots s : Prop :=
  all_bots s = [] ∧ acts_ok (world_ s) ∧ waits s = [] ∧ pool_ok (timer_service.pool (timers_of s)).

Lemma no_bots_ok s : no_bots s → bots_ok s.
Proof.
  intros (Ha & Hok & Hw & Hp). split; try done.
  - intros b f. unfold flow_of. by rewrite Ha.
  - intros b c f. unfold flow_of. by rewrite Ha.
  - intros b p. unfold timer_of. by rewrite Ha.
  - intros b c p. unfold timer_of. by rewrite Ha.
  - intros v. rewrite Hw. by intros ?%elem_of_nil.
Qed.

Lemma no_bots_runner th r s : new_runner r → no_bots s → no_bots (set_runner (th, r) s).
Proof.
  intros [_ Hr] (Ha & Hok & _). unfold no_bots, waits, timers_of. simpl. rewrite Hr. split_and!; try done. apply make_ok.
Qed.

Lemma bots_ok_start_bots : preserves bots_ok (start_bots : M (state V) bool).
Proof.
  unfold start_bots. apply preserves_bind; [apply preserves_get|]. intros s0.
  apply preserves_bind; [|intros; apply preserves_ret]. apply preserves_for_each. intros i _ s Hs.
  by destruct (within_start_bot i s Hs).
Qed.

(** Preparing keeps it that there are no bots, and [start_bots] makes them. *)
Lemma no_bots_then {A B} (m : M (state V) A) (k : A → M (state V) B) :
  preserves no_bots m → (∀ x, triple no_bots (k x) (λ _, bots_ok)) → triple no_bots (m ≫= k) (λ _, bots_ok).
Proof.
  intros Hm Hk s Hs. specialize (Hm s Hs). unfold mbind, M_bind. destruct (m s) as [[x|e| |] s']; simpl in *.
  - by apply Hk.
  - by apply no_bots_ok.
  - by apply no_bots_ok.
  - by apply no_bots_ok.
Qed.

Lemma bots_ok_start hardware j w :
  acts_ok w → bots_ok (start hardware j (make w : state V)).2.
Proof.
  intros Hw. unfold start. set (s := make w).
  assert (no_bots (set_jconf j (set_stop false s))) as Hs by (split_and!; try done; apply make_ok).
  rewrite (bind_run _ _ s tt (set_stop false s)), (bind_run _ _ _ tt (set_jconf j (set_stop false s))) by done.
  set (s1 := set_jconf j (set_stop false s)) in *. unfold try_catch at 1.
  match goal with |- bots_ok (match ?m s1 with _ => _ end).2 => cut (triple no_bots m (λ _, bots_ok));
    [intros Hm; specialize (Hm s1 Hs); by destruct (m s1) as [[x|e| |] s']|] end.
  do 2 (apply no_bots_then; [apply preserves_read_value|intros ?]).
  apply no_bots_then; [|intros _].
  { intros v (Ha & Hok & Hv & Hp). split_and!; try done. simpl. by apply acts_ok_creators. }
  apply no_bots_then; [|intros _].
  { intros v Hv. apply no_bots_runner; [apply make_new|exact Hv]. }
  do 3 (apply no_bots_then; [apply preserves_read_value|intros ?]).
  apply no_bots_then; [intros v (Ha & Hok & Hv & Hp); by split_and!|intros _].
  intros v Hv. apply (preserves_bind bots_ok start_bots); [apply bots_ok_start_bots|intros; apply preserves_ret|].
  by apply no_bots_ok.
Qed.

Lemma run_within (k : task) s : bots_ok s →
  (run k s).2 = s ∨ ∃ b, within b s (run k s).2 ∧ (∀ c, is_Some (all_bots s !! c) → about s k ≠ Some c → c ≠ b).
Proof.
  intros Hs. destruct k as [i|i|b]; simpl.
  - right. exists (length (all_bots s)). split; [by apply within_start_bot|].
    intros c Hc _ ->. by apply lookup_lt_is_Some in Hc; lia.
  - destruct (waits s !! i) as [v|] eqn:Hv.
    + right. exists (timer.wait_handler v). split; [apply within_expire; [done|by rewrite Hv]|]. simpl. congruence.
    + left. unfold expire. rewrite (bind_run _ _ s s s) by done. unfold waits, timers_of in Hv.
      destruct (runner_ s) as [r|]; [|done]. rewrite bind_deref. by rewrite Hv.
  - right. exists b. split; [by apply within_on_stop|]. congruence.
Qed.

Lemma run_ok (k : task) s : bots_ok s → bots_ok (run k s).2 ∧ grows (world_ s) (world_ (run k s).2).
Proof.
  intros Hs. destruct (run_within k s Hs) as [->|(b & [Hok Hg _ _] & _)]; [|done]. split; [done|reflexivity].
Qed.

Lemma bots_ok_steps s ls s' : steps any_step s ls s' → bots_ok s → bots_ok s'.
Proof. apply (steps_invariant any_step bots_ok). intros v k v' <- Hv. by apply run_ok. Qed.

Lemma others_untouched c s ls s' :
  steps (step_of_others c) s ls s' → bots_ok s → is_Some (all_bots s !! c) →
  bots_ok s' ∧ grows (world_ s) (world_ s') ∧ untouched c s s'.
Proof.
  induction 1 as [s|s k s1 ls s2 [Hab <-] _ IH]; intros Hs Hc.
  - split_and!; [done|reflexivity|apply untouched_refl].
  - destruct (run_ok k s Hs) as [Hs1 Hg1].
    assert (untouched c s (run k s).2) as Hu.
    { destruct (run_within k s Hs) as [->|(b & [_ _ Hw _] & Hb)]; [apply untouched_refl|].
      apply Hw; [by apply Hb|done]. }
    destruct IH as (Hs2 & Hg2 & Hu2); [done|by rewrite (un_bot _ _ _ Hu)|].
    split_and!; [done|by transitivity (world_ (run k s).2)|by apply (untouched_trans c s (run k s).2)].
Qed.
End isolation.

(** ** Properties *)

(** C22. Bots do not touch each other.  After [ensure] has started, with whatever configuration
    and however far it got, and in every later order of starting bots, expiring timers and stopping
    bots, no two bots have a flow or a timer in common.  What then happens to other
    bots, in whatever order and with whatever outcome, leaves the bot [c] as it is: its
    members, the acts of its flow's tree, which act is in the tree, its timer and its waits. *)
Theorem bots_isolated `{Build} `{JsonLaws} {V : Type} (hardware : Z) (w : act_ensure.world) (j : json)
    (ls1 ls2 : list task) (s1 s2 : ensure.state V) (c : nat) :
  acts_ok w →
  steps any_step (ensure.start hardware j (ensure.make w)).2 ls1 s1 →
  steps (step_of_others c) s1 ls2 s2 →
  (∀ b d f, flow_of s1 b = Some f → flow_of s1 d = Some f → b = d) ∧
  (∀ b d p, timer_of s1 b = Some p → timer_of s1 d = Some p → b = d) ∧
  (c < length (ensure.all_bots s1) →
   ensure.all_bots s2 !! c = ensure.all_bots s1 !! c ∧
   (∀ a f, flow_of s1 c = Some f →
      (top (ensure.world_ s2) a f ↔ top (ensure.world_ s1) a f) ∧
      (top (ensure.world_ s1) a f →
         act_ensure.acts (ensure.world_ s2) !! a = act_ensure.acts (ensure.world_ s1) !! a)) ∧
   (∀ p, timer_of s1 c = Some p → timer_objects s2 !! p = timer_objects s1 !! p) ∧
   filter (λ v, timer.wait_handler v = c) (waits s2) = filter (λ v, timer.wait_handler v = c) (waits s1)).
Proof.
  intros Hw Hs1 Hs2. assert (bots_ok s1) as Hok by (apply (bots_ok_steps _ _ _ Hs1); by apply bots_ok_start).
  split_and!; [apply (bo_flows _ Hok)|apply (bo_timers _ Hok)|]. intros Hc.
  destruct (others_untouched c s1 ls2 s2 Hs2 Hok) as (_ & Hg & [B A T W X]); [by apply lookup_lt_is_Some|].
  split_and!; [done| |done|done]. intros a f Hf. split; [|by apply A].
  split; [by apply T|by apply (top_grows (ensure.world_ s1))].
Qed.

Definition two_bots_doc : tree :=
  tobject [($"ensure", tobject [($"bot_count", tint 2); ($"update_interval", tint 10)]);
           ($"flow", tarray [message_doc $"message_1" next_cmd; message_doc $"message_2" next_cmd;
                             message_doc $"message_3" next_cmd])].

(** Two bots; the timer of the second expires and then it is stopped, and the flow of the first is still
    at its first message. *)
Lemma bots_isolated_witness :
  let _ := debug_build in
  let w := empty_world (H:=tree_Json) ∅ in
  let s1 := (ensure.start (V:=unit) 4 (two_bots_doc : json (Json:=tree_Json)) (ensure.make w)).2 in
  let s2 := (ensure.on_stop 1 (ensure.expire 1 s1).2).2 in
  act_ensure.events (ensure.world_ s2) = map act_ensure.shown [$"message_1"; $"message_1"; $"message_2"] ∧
  ∃ f x, flow_of s1 0 = Some f ∧ act_ensure.acts (ensure.world_ s1) !! f = Some x ∧
    act_ensure.acts (ensure.world_ s2) !! f = Some x ∧ act_ensure.current_act_index_ x = 0.
Proof.
  intros d w s1 s2. split; [vm_compute; reflexivity|].
  destruct (bots_isolated (H0:=tree_Json) 4 w (two_bots_doc : json (Json:=tree_Json)) [] [expiring 1; stopping 1] s1 s2 0)
    as (_ & _ & Hc).
  - apply empty_world_ok.
  - apply steps_nil.
  - apply (steps_cons _ _ _ (ensure.expire 1 s1).2); [|apply (steps_cons _ _ _ s2); [|apply steps_nil]].
    + split; [vm_compute; discriminate|reflexivity].
    + split; [vm_compute; discriminate|reflexivity].
  - destruct Hc as (_ & Ha & _); [apply (bool_decide_unpack _); vm_compute; exact I|].
    destruct (flow_of s1 0) as [f|] eqn:Hf; [|vm_compute in Hf; discriminate].
    destruct (act_ensure.acts (ensure.world_ s1) !! f) as [x|] eqn:Hx.
    + exists f, x. split; [reflexivity|]. split; [exact Hx|]. split.
      * rewrite <-Hx. apply (Ha f f eq_refl). apply (top_root _ _ x); [exact Hx|].
        vm_compute in Hf. injection Hf as <-. vm_compute in Hx. injection Hx as <-. reflexivity.
      * vm_compute in Hf. injection Hf as <-. vm_compute in Hx. injection Hx as <-. reflexivity.
    + exfalso. vm_compute in Hf. injection Hf as <-. vm_compute in Hx. discriminate.
Defined.
