(* ===== verification/BotRun.v ===== *)
(** * A run of [ensure]: all its bots, from [start] to [stop]

    [ensure] is started with a configuration for any number of bots whose flow is a sequence
    of messages, the timers expire in any order, and [ensure] is stopped. *)

From S2P Require Import Prelude.
From S2P Require Import Serializer.
From S2P Require Import StringUtil.
From S2P Require Import ObjectPool.
From S2P Require Import Timer.
From S2P Require Import Runner.
From S2P Require Import App.
From S2P Require Import Json.
From S2P Require Import ActPath.
From S2P Require Import Acts.
From S2P Require Import ActFacts.
From S2P Require Import ActFind.
From S2P Require Import ActFrame.
From S2P Require Import ActFlow.
From S2P Require Import Bot.
From S2P Require Import BotFrame.
Import bot_tasks.

(** Positions at which waits of [n] can expire one after another until none is left. *)
Fixpoint positions (n : nat) (l : list nat) : Prop :=
  match l with [] => n = 0 | i :: l => i < n ∧ positions (n - 1) l end.

Section run.
Context `{Build} `{JsonLaws} {V : Type}.
Implicit Types (s : ensure.state V) (w : act_ensure.world) (t : bot.state V).
Import ensure.

(** ** One bot among others *)

(** The flow of a bot that nobody touched. *)
Lemma fs_untouched c s s' f cs texts i act :
  bots_ok s → bots_ok s' → flow_of s c = Some f → untouched c s s' →
  flow_state (world_ s) f cs texts i act → flow_state (world_ s') f cs texts i act.
Proof.
  intros Hs Hs' Hf Hu [F1 F2 F3 (y & Hy & F4) F5]. pose proof (bo_flow _ Hs c f Hf) as Htop.
  split; [apply (bo_acts _ Hs')|done|done| |].
  - exists y. by rewrite (un_acts _ _ _ Hu f f).
  - intros k c' text Hc Ht. destruct (F5 k c' text Hc Ht) as (u & Hcu & Hk & Hp & Hrest). exists u.
    rewrite (un_acts _ _ _ Hu c' f); [done|done|]. by apply (top_parent _ _ u f).
Qed.

(** The flow of a bot is at its [k]-th message, the ones before having been shown. *)
Definition shows s (texts : list str) (b k : nat) : Prop :=
  ∃ f cs, flow_of s b = Some f ∧ flow_state (world_ s) f cs texts (min k (length texts - 1)) (λ m, bool_decide (m = k)).

Lemma shows_untouched s s' texts b k :
  bots_ok s → bots_ok s' → untouched b s s' → shows s texts b k → shows s' texts b k.
Proof.
  intros Hs Hs' Hu (f & cs & Hf & Hfs). exists f, cs. split; [by rewrite (flow_of_same s s') by apply Hu|].
  by apply (fs_untouched b s).
Qed.

(** What starting another bot needs. *)
Record ready s (texts : list str) (interval : Z) : Prop := {
  rd_runner : ∃ r, runner_ s = Some r ∧ runner.strands r.2 = seq 0 64;
  rd_creator : act_ensure.creators_ (world_ s) !! $"act_message" = Some message;
  rd_flow : ∃ f, lookup_key (jconf_ s) $"flow" = Some f ∧ is_null f = false ∧ Forall2 is_message (items f) texts;
  rd_interval : reads get_int (jconf_ s) $"ensure.update_interval" 200%Z interval
}.

Lemma start_bot_run i s texts interval :
  bots_ok s → ready s texts interval → texts ≠ [] →
  ∃ s' v, start_bot i s = (Ret tt, s') ∧ ready s' texts interval ∧ shows s' texts (length (all_bots s)) 0 ∧
    bots_ s' = bots_ s ++ [length (all_bots s)] ∧ length (all_bots s') = S (length (all_bots s)) ∧ stop_ s' = stop_ s ∧
    waits s' = waits s ++ [v] ∧ timer.wait_handler v = length (all_bots s) ∧
    act_ensure.events (world_ s') = act_ensure.events (world_ s) ++ map act_ensure.shown (take 1 texts).
Proof.
  intros Hs [(r & Hr & Hstr) Hcr (f & Hfl & Hnull & Hdocs) Hint] Hne.
  pose proof (within_start_bot i s Hs) as Hwithin. set (b := length (all_bots s)) in *.
  destruct (start_bot_made s i) as (s1 & t & Ha & Hj & (_ & Htm) & Hw & Hr1 & Hb1 & (Hst1 & Hj1) & Hmade). fold b in Hmade.
  assert (all_bots s1 !! b = Some t) as Hbt by (rewrite Ha; by apply list_lookup_middle).
  assert (b < length (all_bots s1)) as Hlt by (by eapply lookup_lt_Some).
  destruct (start_flow (world_ s1) (bot.json_ t) f (items f) texts $"flow") as (w0 & w1 & cs & R0 & R1 & F1 & E1); try done.
  { rewrite Hw. apply (bo_acts _ Hs). }
  { by rewrite Hw. } { by apply (bool_decide_unpack _). } { by rewrite Hj. }
  set (a := act_ensure.next_act (world_ s1)) in *.
  destruct (fresh_timer s r Hs Hr) as (Hpool & _ & Hwt).
  set (key := Z.to_nat (bot.id_ t)). set (p := next_address (timer_service.pool (runner.timers r.2))) in *.
  destruct (repeat_effect (runner.timers r.2) (key mod 64) interval b Hpool) as (x & tm & Hx & _ & _ & Hwx).
  fold p in Hx, Hwx. rewrite Hwt in Hwx.
  set (s2 := set_all_bots (<[b := bot.set_flow a t]> (all_bots s1)) (set_world w0 s1)).
  set (s3 := set_runner (r.1, runner.set_timers x r.2) (set_world w1 s2)).
  assert (all_bots s3 !! b = Some (bot.set_flow a t)) as Hb3 by (by apply list_lookup_insert_eq).
  set (s4 := set_all_bots (<[b := bot.set_timer p (bot.set_flow a t)]> (all_bots s3)) s3).
  assert (on_start b s1 = (Ret true, s4)) as Hon.
  { unfold on_start. rewrite (bind_run _ _ _ _ _ (at_bot_run _ _ _ Hbt)).
    unfold make_flow. rewrite (bind_run _ _ _ _ _ (on_acts_run _ s1 _ _ R0)).
    rewrite (bind_run _ _ _ tt s2) by (by apply (update_bot_run (set_world w0 s1) b t)).
    rewrite (bind_run _ _ _ _ _ (on_acts_run _ s2 true w1 R1)). rewrite Hj.
    rewrite (bind_run _ _ _ _ _ (Hint _ (set_world w1 s2))).
    rewrite (bind_run _ _ _ p s3).
    { by rewrite (bind_run _ _ _ _ _ (update_bot_run s3 b _ (bot.set_timer p) Hb3)). }
    rewrite (on_runner_some _ _ r) by (by rewrite <-Hr, <-Hr1). unfold runner.repeat_strand.
    rewrite (bind_run _ _ r.2 (key mod 64) r.2); [unfold zoom; by rewrite Hx|].
    unfold runner.get_strand. rewrite (bind_run _ _ r.2 r.2 r.2) by done. rewrite Hstr, length_seq, decide_False by done.
    by rewrite lookup_seq_lt by (by apply Nat.mod_upper_bound). }
  set (s5 := set_bots (bots_ s ++ [b]) s4). assert (start_bot i s = (Ret tt, s5)) as Hrun.
  { rewrite Hmade. unfold try_catch. rewrite (bind_run _ _ s1 true s4) by (by rewrite Hon).
    unfold modify. simpl. by rewrite Hb1. }
  rewrite Hrun in Hwithin. destruct Hwithin as [_ (_ & Hcr5 & _) _ _].
  change (act_ensure.creators_ (world_ s5) = act_ensure.creators_ (world_ s)) in Hcr5.
  exists s5, (timer.Wait p (Some (key mod 64)) None b). split_and!; [done| | |done| |done| |done|].
  - split; [by eexists|by rewrite Hcr5|exists f; simpl; by rewrite Hj1|simpl; by rewrite Hj1].
  - exists a, cs. split; [|done]. unfold flow_of. simpl. by rewrite list_lookup_insert_eq by (by rewrite length_insert).
  - simpl. rewrite !length_insert, Ha, length_app. simpl. unfold b. lia.
  - unfold waits at 1, timers_of at 1. simpl. exact Hwx.
  - simpl. by rewrite E1, Hw.
Qed.

(** ** All of them *)

(** [fired b] is how often the timer of [b] has expired; the others are waited for. *)
Record running s (texts : list str) (fired : nat → nat) : Prop := {
  rn_ok : bots_ok s;
  rn_shows b : b < length (all_bots s) → fired b ≤ 1 ∧ shows s texts b (fired b);
  rn_waits : map timer.wait_handler (waits s) ≡ₚ filter (λ b, fired b = 0) (seq 0 (length (all_bots s)))
}.

Lemma running_started s s' texts v :
  running s texts (λ _, 0) → within (length (all_bots s)) s s' → shows s' texts (length (all_bots s)) 0 →
  length (all_bots s') = S (length (all_bots s)) → waits s' = waits s ++ [v] →
  timer.wait_handler v = length (all_bots s) → running s' texts (λ _, 0).
Proof.
  intros [Hs Hsh Hw] [Hs' _ Hu _] Hnew Hlen Hwaits Hv. split; [done| |].
  - intros b Hb. split; [lia|]. destruct (decide (b = length (all_bots s))) as [->|Hne]; [done|].
    assert (b < length (all_bots s)) as Hlt by lia.
    apply (shows_untouched s); [done|done|apply Hu; [done|by apply lookup_lt_is_Some]|by apply Hsh].
  - rewrite Hwaits, map_app, Hlen, seq_S, filter_app. simpl. rewrite filter_cons, decide_True by done. simpl.
    by rewrite Hv, Hw.
Qed.

Lemma start_bots_run l texts interval : ∀ s,
  running s texts (λ _, 0) → ready s texts interval → texts ≠ [] →
  ∃ s', for_each l start_bot s = (Ret tt, s') ∧ running s' texts (λ _, 0) ∧ ready s' texts interval ∧
    length (all_bots s') = length (all_bots s) + length l ∧
    bots_ s' = bots_ s ++ seq (length (all_bots s)) (length l) ∧ stop_ s' = stop_ s ∧
    act_ensure.events (world_ s') = act_ensure.events (world_ s) ++
      map act_ensure.shown (concat (replicate (length l) (take 1 texts))).
Proof.
  induction l as [|i l IH]; intros s Hs Hr Hne.
  { exists s. simpl. rewrite !app_nil_r. by split_and!. }
  pose proof (within_start_bot i s (rn_ok _ _ _ Hs)) as Hw.
  destruct (start_bot_run i s texts interval (rn_ok _ _ _ Hs) Hr Hne)
    as (s1 & v & R1 & Hr1 & Hsh & Hb1 & Hl1 & Hst1 & Hw1 & Hv & E1).
  rewrite R1 in Hw. pose proof (running_started s s1 texts v Hs Hw Hsh Hl1 Hw1 Hv) as Hs1.
  destruct (IH s1 Hs1 Hr1 Hne) as (s2 & R2 & Hs2 & Hr2 & Hl2 & Hb2 & Hst2 & E2).
  exists s2. cbn [for_each]. rewrite (bind_run _ _ _ _ _ R1). split_and!; [done|done|done| | |congruence|].
  - rewrite Hl2, Hl1. simpl. lia.
  - rewrite Hb2, Hb1, Hl1, <-(assoc_L app). done.
  - rewrite E2, E1, <-(assoc_L app), <-map_app. done.
Qed.

(** ** Expiry *)
Lemma expire_run s texts b i v :
  bots_ok s → shows s texts b 0 → waits s !! i = Some v → timer.wait_handler v = b → texts ≠ [] →
  ∃ s', expire i s = (Ret tt, s') ∧ shows s' texts b 1 ∧ all_bots s' = all_bots s ∧ bots_ s' = bots_ s ∧
    stop_ s' = stop_ s ∧ is_Some (runner_ s') ∧ waits s' = delete i (waits s) ∧
    act_ensure.events (world_ s') = act_ensure.events (world_ s) ++ map act_ensure.shown (take 1 (drop 1 texts)).
Proof.
  intros Hs (f & cs & Hf & Hfs) Hv Hvb Hne. destruct (bo_wait _ Hs v (list_elem_of_lookup_2 _ _ _ Hv)) as [Hrep _].
  destruct (runner_ s) as [r|] eqn:Hr; [|unfold waits, timers_of in Hv; by rewrite Hr in Hv].
  assert (waits s = timer_service.waiting (runner.timers r.2)) as Hwt by (unfold waits, timers_of; by rewrite Hr).
  pose proof Hf as Hf'. unfold flow_of in Hf'. destruct (all_bots s !! b) as [t|] eqn:Ht; [|done].
  rewrite Hwt in Hv. destruct (fs_updates (owner_stop t) (world_ s) f cs texts 0 1 Hfs Hne) as (w & R3 & F3 & E3).
  set (x1 := timer_service.set_waits (delete i (waits s)) (timer_service.aborted (runner.timers r.2)) (runner.timers r.2)).
  set (x2 := timer_service.record_call b (timer.wait_timer v) (timer_service.is_alive (timer.wait_timer v) x1) x1).
  set (s1 := set_runner (r.1, runner.set_timers x2 r.2) s). exists (set_world w s1).
  split_and!; [|by exists f, cs|done|done|done|by eexists|done|exact E3].
  unfold expire. rewrite (bind_run _ _ s s s) by done. rewrite Hr, bind_deref, Hv, bind_deref.
  rewrite (bind_run _ _ s tt s1).
  2:{ rewrite (on_runner_some _ s r Hr). unfold zoom, timer_service.expire.
      rewrite (bind_run _ _ (runner.timers r.2) (runner.timers r.2) (runner.timers r.2)) by done. rewrite Hv, bind_deref.
      rewrite (bind_run _ _ (runner.timers r.2) tt x1) by (unfold x1; by rewrite Hwt).
      unfold timer_service.complete. rewrite Hrep, Hvb. done. }
  rewrite Hvb. unfold update. rewrite (bind_run _ _ s1 t s1) by (by apply at_bot_run).
  simpl in Hf'. rewrite Hf', bind_deref. apply (with_timer_run _ _ _ _ _ (take 1 (drop 1 texts))); [|done].
  cbn [for_each seq] in R3. simpl world_.
  destruct (act_ensure.update (owner_stop t) f (world_ s)) as [[[]|?| |] w'] eqn:Hup;
    unfold mbind, M_bind in R3; rewrite Hup in R3; by simplify_eq.
Qed.

Lemma expire_permutation (fired : nat → nat) (ws : list timer.wait) n i v :
  map timer.wait_handler ws ≡ₚ filter (λ b, fired b = 0) (seq 0 n) → ws !! i = Some v →
  map timer.wait_handler (delete i ws) ≡ₚ
    filter (λ b, (if decide (b = timer.wait_handler v) then 1 else fired b) = 0) (seq 0 n).
Proof.
  intros Hp Hi. set (b := timer.wait_handler v). pose proof (delete_Permutation ws i v Hi) as Hd.
  assert (b :: map timer.wait_handler (delete i ws) ≡ₚ filter (λ b, fired b = 0) (seq 0 n)) as Hp'.
  { rewrite <-Hp. symmetry. exact (Permutation_map timer.wait_handler Hd). }
  assert (NoDup (b :: map timer.wait_handler (delete i ws))) as [Hb Hnd]%NoDup_cons.
  { rewrite Hp'. apply NoDup_filter, NoDup_seq. }
  apply NoDup_Permutation; [done|apply NoDup_filter, NoDup_seq|]. intros c.
  rewrite list_elem_of_filter. assert (c ∈ b :: map timer.wait_handler (delete i ws) ↔ fired c = 0 ∧ c ∈ seq 0 n) as Hc.
  { by rewrite Hp', list_elem_of_filter. }
  rewrite elem_of_cons in Hc. destruct (decide (c = b)) as [->|]; naive_solver.
Qed.

Lemma expire_one s texts fired i :
  running s texts fired → i < length (waits s) → texts ≠ [] →
  ∃ s' fired', expire i s = (Ret tt, s') ∧ running s' texts fired' ∧ all_bots s' = all_bots s ∧ bots_ s' = bots_ s ∧
    stop_ s' = stop_ s ∧ is_Some (runner_ s') ∧ length (waits s') = length (waits s) - 1 ∧
    act_ensure.events (world_ s') = act_ensure.events (world_ s) ++ map act_ensure.shown (take 1 (drop 1 texts)).
Proof.
  intros [Hs Hsh Hw] Hi Hne. destruct (lookup_lt_is_Some_2 (waits s) i Hi) as [v Hv].
  set (b := timer.wait_handler v).
  assert (fired b = 0 ∧ b ∈ seq 0 (length (all_bots s))) as [Hb0 Hb].
  { apply (list_elem_of_filter (λ b, fired b = 0)). rewrite <-Hw. apply list_elem_of_fmap. exists v. split; [done|].
    by eapply list_elem_of_lookup_2. }
  apply elem_of_seq in Hb. destruct (Hsh b) as [_ Hshow]; [lia|]. rewrite Hb0 in Hshow.
  destruct (expire_run s texts b i v Hs Hshow Hv eq_refl Hne) as (s1 & R1 & Hsh1 & Ha1 & Hb1 & Hst1 & Hr1 & Hw1 & E1).
  assert (within b s s1) as [Hok1 _ Hu _].
  { pose proof (within_expire i b s Hs) as Hin. rewrite R1 in Hin. apply Hin. by rewrite Hv. }
  exists s1, (λ c, if decide (c = b) then 1 else fired c). split_and!; try done.
  - split; [done| |].
    + intros c Hc. rewrite Ha1 in Hc. destruct (decide (c = b)) as [->|Hcb]; [by split; [lia|]|].
      destruct (Hsh c Hc) as [Hfc Hsc]. split; [done|]. apply (shows_untouched s); [done|done| |done].
      apply Hu; [done|by apply lookup_lt_is_Some].
    + rewrite Hw1, Ha1. by apply expire_permutation.
  - rewrite Hw1. by rewrite length_delete.
Qed.

Lemma expiries_run texts l : ∀ s fired,
  running s texts fired → positions (length (waits s)) l → texts ≠ [] → is_Some (runner_ s) →
  ∃ s' fired', for_each l expire s = (Ret tt, s') ∧ running s' texts fired' ∧ waits s' = [] ∧
    all_bots s' = all_bots s ∧ bots_ s' = bots_ s ∧ stop_ s' = stop_ s ∧ is_Some (runner_ s') ∧
    act_ensure.events (world_ s') = act_ensure.events (world_ s) ++
      map act_ensure.shown (concat (replicate (length l) (take 1 (drop 1 texts)))).
Proof.
  induction l as [|i l IH]; intros s fired Hs Hl Hne Hr.
  { exists s, fired. simpl in *. rewrite app_nil_r. split_and!; try done. by apply length_zero_iff_nil. }
  destruct Hl as [Hi Hl]. destruct (expire_one s texts fired i Hs Hi Hne)
    as (s1 & fired1 & R1 & Hs1 & Ha1 & Hb1 & Hst1 & Hr1 & Hw1 & E1).
  destruct (IH s1 fired1 Hs1) as (s2 & fired2 & R2 & Hs2 & Hw2 & Ha2 & Hb2 & Hst2 & Hr2 & E2); [by rewrite Hw1|done|done|].
  exists s2, fired2. cbn [for_each]. rewrite (bind_run _ _ _ _ _ R1). split_and!; try done; try congruence.
  rewrite E2, E1, <-(assoc_L app), <-map_app. done.
Qed.

(** When nothing is waited for, every bot is where its second message is. *)
Lemma running_quiet s texts fired b :
  running s texts fired → waits s = [] → b < length (all_bots s) → shows s texts b 1.
Proof.
  intros [_ Hsh Hw] Hnil Hb. destruct (Hsh b Hb) as [Hle Hs]. rewrite Hnil in Hw. simpl in Hw.
  apply Permutation_nil_l in Hw. destruct (fired b) as [|[|k]] eqn:Hf; [exfalso|done|lia].
  assert (b ∈ filter (λ b, fired b = 0) (seq 0 (length (all_bots s)))) as Hin.
  { apply list_elem_of_filter. split; [done|]. apply elem_of_seq. lia. }
  rewrite <-Hw in Hin. by apply elem_of_nil in Hin.
Qed.

(** ** Stopping *)
Definition inactive s (s0 : state V) (b : nat) : Prop :=
  ∃ f u, flow_of s0 b = Some f ∧ act_ensure.acts (world_ s) !! f = Some u ∧ act_ensure.active_ u = false.

Lemma on_stop_run s texts b k :
  bots_ok s → is_Some (runner_ s) → shows s texts b k → texts ≠ [] →
  ∃ s', on_stop b s = (Ret tt, s') ∧ inactive s' s b ∧ stop_ s' = stop_ s ∧ is_Some (runner_ s') ∧
    all_bots s' = all_bots s ∧ act_ensure.events (world_ s') = act_ensure.events (world_ s).
Proof.
  intros Hs [r Hr] (f & cs & Hf & Hfs) Hne. pose proof Hf as Hf'. unfold flow_of in Hf'.
  destruct (all_bots s !! b) as [t|] eqn:Ht; [|done]. simpl in Hf'.
  destruct (lookup_lt_is_Some_2 cs (min k (length texts - 1))) as [c Hc].
  { rewrite (fs_length _ _ _ _ _ _ Hfs). assert (length texts ≠ 0) by (by destruct texts). lia. }
  destruct (fs_deactivate_flow _ _ _ _ _ _ _ Hfs Hc) as (w & u & R1 & E1 & Hu & Ha).
  assert (∃ r', cancel_request (bot.bot_timer_ t) s = (Ret tt, set_runner r' s)) as [r' Hcan].
  { destruct (bot.bot_timer_ t) as [p|] eqn:Hp; [|exists (r.1, r.2); by rewrite set_runner_same]. simpl. unfold cancel_timer.
    destruct (bo_timer _ Hs b p) as [y Hy]; [by apply (bot_timer s b t)|]. unfold timer_objects, timers_of in Hy. rewrite Hr in Hy.
    rewrite (on_runner_some _ s r Hr). unfold zoom, timer_service.timer_cancel, timer_service.this.
    rewrite (bind_run _ _ _ y (runner.timers r.2)); [|rewrite (bind_run _ _ _ _ (runner.timers r.2)) by done; by rewrite Hy].
    unfold when. destruct (timer.is_set y); by eexists. }
  exists (set_world w (set_runner r' s)). split_and!; try done; [|by exists f, u].
  unfold on_stop. rewrite (bind_run _ _ _ _ _ (at_bot_run _ _ _ Ht)).
  rewrite (bind_run _ _ s tt (set_runner r' s) Hcan), Hf', bind_deref. by apply (on_acts_run _ (set_runner r' s)).
Qed.

Lemma stop_bots_run texts k l : ∀ s,
  NoDup l → bots_ok s → is_Some (runner_ s) → texts ≠ [] → (∀ b, b ∈ l → shows s texts b k) →
  ∃ s', for_each l on_stop s = (Ret tt, s') ∧ (∀ b, b ∈ l → inactive s' s b) ∧ stop_ s' = stop_ s ∧
    act_ensure.events (world_ s') = act_ensure.events (world_ s) ∧ bots_ok s' ∧
    (∀ c, c ∉ l → is_Some (all_bots s !! c) → untouched c s s').
Proof.
  induction l as [|b l IH]; intros s Hnd Hs Hr Hne Hsh.
  { exists s. split_and!; try done. by intros b ?%elem_of_nil. }
  apply NoDup_cons in Hnd as [Hb Hnd].
  destruct (on_stop_run s texts b k Hs Hr (Hsh b ltac:(by left)) Hne) as (s1 & R1 & Hin1 & Hst1 & Hr1 & Ha1 & E1).
  pose proof (within_on_stop b s Hs) as Hw. rewrite R1 in Hw. destruct Hw as [Hok1 Hg1 Hu1 _]. simpl in *.
  assert (Hsome : ∀ c, shows s texts c k → is_Some (all_bots s !! c)).
  { intros c (f & cs & Hf & _). unfold flow_of in Hf. destruct (all_bots s !! c); [by eexists|done]. }
  destruct (IH s1 Hnd Hok1 Hr1 Hne) as (s2 & R2 & Hin2 & Hst2 & E2 & Hok2 & Hu2).
  { intros c Hc. apply (shows_untouched s); [done|done| |apply Hsh; by right].
    apply Hu1; [by intros ->|apply Hsome, Hsh; by right]. }
  exists s2. rewrite (bind_run _ _ _ _ _ R1). split_and!; try done; try congruence.
  - intros c [->|Hc]%elem_of_cons.
    + destruct Hin1 as (f & u & Hf & Hu & Hact). exists f, u. split_and!; [done| |done].
      assert (untouched b s1 s2) as Hut by (apply Hu2; [done|rewrite Ha1; by apply Hsome, Hsh; left]).
      rewrite (un_acts _ _ _ Hut f f); [done| |].
      * by rewrite (flow_of_same s s1) by (by rewrite Ha1).
      * apply (top_grows (world_ s)); [done|]. by apply (bo_flow _ Hs b).
    + destruct (Hin2 c Hc) as (f & u & Hf & Hrest). exists f, u. split; [|done].
      by rewrite <-(flow_of_same s s1) by (by rewrite Ha1).
  - intros c Hc Hcs. apply not_elem_of_cons in Hc as [Hcb Hc]. apply (untouched_trans c s s1); [done|by apply Hu1|].
    apply Hu2; [done|by rewrite Ha1].
Qed.

Lemma bots_ok_stopping s r th b :
  bots_ok s → runner_ s = Some r → bots_ok (set_runner (th, r.2) (set_stop b s)).
Proof.
  intros [O1 O2 O3 O4 O5 O6 O7] Hr. unfold timer_objects, waits, timers_of in *. rewrite Hr in *. by split.
Qed.

Lemma stop_run s texts n :
  bots_ok s → is_Some (runner_ s) → stop_ s = false → bots_ s = seq 0 n → texts ≠ [] →
  (∀ b, b < n → shows s texts b 1) →
  ∃ s', stop s = (Ret tt, s') ∧ act_ensure.events (world_ s') = act_ensure.events (world_ s) ∧
    ∀ b, b < n → inactive s' s b.
Proof.
  intros Hs [r Hr] Hst Hb Hne Hsh. set (s1 := set_runner (thread_runner.stop r.1, r.2) (set_stop true s)).
  destruct (stop_bots_run texts 1 (seq 0 n) s1) as (s2 & R2 & Hin & _ & E2 & _); try done.
  { apply NoDup_seq. } { by apply bots_ok_stopping. } { by intros b [_ ?]%elem_of_seq; apply Hsh. }
  exists s2. split_and!; [|done|intros b Hlt; apply Hin, elem_of_seq; lia].
  unfold stop. rewrite (bind_run _ _ s s s) by done. rewrite Hst.
  rewrite (bind_run _ _ s tt (set_stop true s)) by done. rewrite Hr, bind_deref.
  rewrite (bind_run _ _ _ tt s1) by done. unfold stop_bots. rewrite (bind_run _ _ s1 s1 s1) by done.
  change (bots_ s1) with (bots_ s). by rewrite Hb.
Qed.

Lemma positions_length n l : positions n l → length l = n.
Proof. revert n. induction l as [|i l IH]; simpl; intros n; [done|]. intros [? ?%IH]. lia. Qed.

(** What [start] has prepared is ready for bots. *)
Lemma prepared_running s th r :
  all_bots s = [] → acts_ok (world_ s) → runner_ s = Some (th, r) → new_runner r → no_bots s.
Proof.
  intros Ha Hok Hr [_ Hn]. unfold no_bots, waits, timers_of. rewrite Hr. simpl. rewrite Hn.
  split_and!; try done. apply make_ok.
Qed.

Lemma start_bots_null s f :
  bots_ok s → 0 < Z.to_nat (bot_count_ s) → lookup_key (jconf_ s) $"flow" = Some f → is_null f = true →
  (start_bots s).1 = Undefined.
Proof.
  intros Hs Hn Hf Hnull. destruct (start_bot_made s 0) as (s2 & t & Ha2 & Hj2 & _ & Hw2 & _ & _ & _ & Hmade).
  set (b := length (all_bots s)) in *.
  destruct (on_start_null s2 b t f) as (s3 & t3 & R3 & Hb3); try done.
  { rewrite Ha2. by apply list_lookup_middle. } { rewrite Hw2. apply (bo_acts _ Hs). } { by rewrite Hj2. }
  assert (∃ s4, drop_bot b s3 = (Undefined, s4)) as [s4 Hd].
  { unfold drop_bot. rewrite (bind_run _ _ _ _ _ (at_bot_run _ _ _ Hb3)). by eexists. }
  unfold start_bots. rewrite (bind_run _ _ s s s) by done.
  destruct (Z.to_nat (bot_count_ s)) as [|n]; [lia|]. cbn [seq for_each].
  rewrite (bind_stop _ _ s Undefined s4); [done| |done]. rewrite (bind_stop _ _ s Undefined s4); [done| |done].
  rewrite Hmade. unfold try_catch. by rewrite (bind_run _ _ s2 false s3) by (by rewrite R3).
Qed.
End run.

(** C21. A run of [ensure].  Started with a configuration for any number of bots whose flow is a
    sequence of messages, [ensure] has that many bots, each of which has shown the first message and
    waits for its timer.  In whatever order the timers expire, every bot shows the second
    message once, and then nothing is waited for: the rest of the flows never runs, however long
    they are.  [stop] deactivates the flow of every bot.  When the flow is null the first bot does
    not start, and dropping it runs into the pure virtual [on_stop] instead of an error. *)
Theorem ensure_runs_bots `{Build} `{JsonLaws} {V : Type} (hardware : Z) (w : act_ensure.world) (j f : json)
    (conc port count index : Z) (prefix : str) (interval : Z) (texts : list str) (l : list nat) :
  acts_ok w → settings hardware j conc port count index prefix interval →
  (∀ k, act_ensure.creators_ w !! $"act_message" = Some k → k = message) →
  lookup_key j $"flow" = Some f →
  let n := Z.to_nat (u64 count) in
  let s : ensure.state V := ensure.make w in
  (is_null f = false → Forall2 is_message (items f) texts → texts ≠ [] → positions n l →
   ∃ s1 s2 s3,
     ensure.start hardware j s = (Ret true, s1) ∧ ensure.bots_ s1 = seq 0 n ∧ length (waits s1) = n ∧
     act_ensure.events (ensure.world_ s1)
       = act_ensure.events w ++ map act_ensure.shown (concat (replicate n (take 1 texts))) ∧
     for_each l ensure.expire s1 = (Ret tt, s2) ∧ waits s2 = [] ∧ (∀ b, b < n → shows s2 texts b 1) ∧
     act_ensure.events (ensure.world_ s2)
       = act_ensure.events (ensure.world_ s1) ++ map act_ensure.shown (concat (replicate n (take 1 (drop 1 texts)))) ∧
     ensure.stop s2 = (Ret tt, s3) ∧ (∀ b, b < n → inactive s3 s2 b) ∧
     act_ensure.events (ensure.world_ s3) = act_ensure.events (ensure.world_ s2)) ∧
  (is_null f = true → 0 < n → (ensure.start hardware j s).1 = Undefined).
Proof.
  intros Hok Hset Hk Hfl n s.
  destruct (start_prepares hardware s j conc port count index prefix interval Hset Hk)
    as (s0 & th & r & Ha0 & Hb0 & Hst0 & Hj0 & Hr0 & Hnew & Hcr & (c & Hw0) & Hn0 & Hstart).
  assert (no_bots s0) as Hno by (apply (prepared_running s0 th r); try done; rewrite Hw0; by apply acts_ok_creators).
  pose proof (no_bots_ok _ Hno) as Hok0. destruct Hno as (_ & _ & Hw00 & _).
  split.
  - intros Hnull Hdocs Hne Hl.
    destruct (start_bots_run (seq 0 n) texts interval s0) as (s1 & R1 & Hrun1 & Hready1 & Hlen1 & Hb1 & Hst1 & E1); try done.
    { split; [done|intros b; rewrite Ha0; simpl; lia|by rewrite Hw00, Ha0]. }
    { split; [by exists (th, r); split; [|apply Hnew]|done|exists f; by rewrite Hj0|rewrite Hj0; apply (reads_interval _ _ _ _ _ _ _ _ Hset)]. }
    rewrite length_seq in Hlen1, Hb1, E1. rewrite Ha0 in Hlen1, Hb1. rewrite Hb0 in Hb1. simpl in Hlen1, Hb1.
    assert (length (waits s1) = n) as Hw1.
    { pose proof (rn_waits _ _ _ Hrun1) as Hp. apply Permutation_length in Hp. rewrite length_map, Hlen1 in Hp. rewrite Hp.
      clear. assert (filter (λ _ : nat, 0 = 0) (seq 0 n) = seq 0 n) as ->; [|apply length_seq].
      induction (seq 0 n) as [|x l IH]; [done|]. by rewrite filter_cons, decide_True, IH. }
    destruct (rd_runner _ _ _ Hready1) as (r1 & Hr1 & _).
    destruct (expiries_run texts l s1 (λ _, 0)) as (s2 & fired & R2 & Hrun2 & Hw2 & Ha2 & Hb2 & Hst2 & Hr2 & E2); try done.
    { by rewrite Hw1. }
    assert (∀ b, b < n → shows s2 texts b 1) as Hsh2.
    { intros b Hb. apply (running_quiet s2 texts fired); [done|done|]. by rewrite Ha2, Hlen1. }
    destruct (stop_run s2 texts n) as (s3 & R3 & E3 & Hin3); try done.
    { apply (rn_ok _ _ _ Hrun2). } { by rewrite Hst2, Hst1. } { by rewrite Hb2. }
    exists s1, s2, s3. split_and!; try done.
    + rewrite Hstart. unfold try_catch. rewrite (bind_run _ _ s0 true s1); [done|].
      unfold ensure.start_bots. rewrite (bind_run _ _ s0 s0 s0) by done. rewrite Hn0. by rewrite (bind_run _ _ s0 tt s1).
    + by rewrite E1, Hw0.
    + by rewrite E2, (positions_length _ _ Hl).
  - intros Hnull Hn. assert ((ensure.start_bots s0).1 = Undefined) as Hu.
    { apply (start_bots_null s0 f); try done; [by rewrite Hn0|by rewrite Hj0]. }
    rewrite Hstart. unfold try_catch. destruct (ensure.start_bots s0) as [o s1] eqn:Hr1. simpl in Hu. subst o.
    by rewrite (bind_stop _ _ s0 Undefined s1).
Qed.

(** Three bots; the second, the third and the first expire, and no third message is ever shown. *)
Definition three_bots_doc : tree :=
  tobject [($"ensure", tobject [($"bot_count", tint 3); ($"update_interval", tint 10)]);
           ($"flow", tarray [message_doc $"message_1" next_cmd; message_doc $"message_2" next_cmd;
                             message_doc $"message_3" next_cmd])].

Lemma ensure_runs_bots_witness :
  let _ := debug_build in
  let w := empty_world (H:=tree_Json) ∅ in
  ∃ s1 s2 s3, ensure.start (V:=unit) 4 (three_bots_doc : json (Json:=tree_Json)) (ensure.make w) = (Ret true, s1) ∧
    for_each [1; 1; 0] ensure.expire s1 = (Ret tt, s2) ∧ waits s2 = [] ∧ ensure.stop s2 = (Ret tt, s3) ∧
    act_ensure.events (ensure.world_ s2) = map act_ensure.shown
      [$"message_1"; $"message_1"; $"message_1"; $"message_2"; $"message_2"; $"message_2"].
Proof.
  intros d w.
  destruct (ensure_runs_bots (H0:=tree_Json) (V:=unit) 4 w (three_bots_doc : json (Json:=tree_Json))
    (tarray [message_doc $"message_1" next_cmd; message_doc $"message_2" next_cmd; message_doc $"message_3" next_cmd])
    4 7000 3 1 $"bot_" 10 [$"message_1"; $"message_2"; $"message_3"] [1; 1; 0]) as [Hrun _].
  - apply empty_world_ok.
  - split; intros S x; reflexivity.
  - intros k Hk. vm_compute in Hk. discriminate.
  - reflexivity.
  - destruct Hrun as (s1 & s2 & s3 & R1 & _ & _ & E1 & R2 & W2 & _ & E2 & R3 & _).
    + reflexivity.
    + constructor; [|constructor; [|constructor; [|constructor]]];
        apply message_doc_message, (bool_decide_unpack _); vm_compute; exact I.
    + discriminate.
    + vm_compute. lia.
    + exists s1, s2, s3. split; [exact R1|split; [exact R2|split; [exact W2|split; [exact R3|]]]].
      rewrite E2, E1. vm_compute. reflexivity.
Defined.
