(* ===== verification/AlphaNet.v ===== *)
(** * play/sample/alpha: what the actors say and how

    The messages of the sample application (the generated structures of
    alpha/share/fb), and the part of a pulse its services and actors use: whether it
    exists, the session it is bound to and the topics it subscribed to.  What goes to
    a session is appended to a log; the answer of [session::send] is the parameter
    [ok]. *)

From S2P Require Import Prelude.
From S2P Require Import Serializer.

Inductive error_code :=
  | success | fail_backend_not_responding | fail_user_not_authenticated
  | fail_kickout_by_duplicate_login | fail_room_not_found | fail_room_full
  | fail_room_user_not_found | fail_room_runner_not_found.

Inductive topic :=
  | topic_estalished | topic_closed
  | auth_req_login | auth_req_login_f2b | auth_syn_login_b2f | auth_res_login
  | auth_req_logout | auth_req_logout_f2b | auth_syn_logout_b2f | auth_res_logout_b2f | auth_res_logout
  | room_syn_runner_up
  | room_req_create | room_req_create_f2b | room_req_create_b2f | room_res_create_f2b
  | room_res_create_b2f | room_res_create
  | room_req_page | room_req_page_f2b | room_res_page_b2f | room_res_page
  | room_req_reserve | room_req_reserve_f2b | room_req_reserve_b2f | room_res_reserve_f2b
  | room_res_reserve_b2f | room_res_reserve
  | room_req_checkin | room_res_checkin | room_req_chat | room_res_chat | room_syn_chat
  | room_req_leave | room_syn_leave_f2b | room_res_leave.

(** [room_infoT]; the numbers are 16 bits wide. *)
Record room_info := RoomInfo {
  info_name : str;
  info_capacity : Z;
  info_current : Z;
  info_uuid : str
}.

(** The objects; [None] is an empty [unique_ptr]. *)
Inductive object :=
  | req_login_f2b (name password : str)
  | syn_login_b2f (ec : error_code) (name : str)
  | res_login (ec : error_code)
  | syn_kickout (ec : error_code)
  | req_logout_f2b (name : str)
  | syn_logout_b2f (name : str)
  | req_create (user_name : str) (room : option room_info)
  | res_create (ec : error_code) (user_name : str) (room : option room_info)
  | req_page (page : Z)
  | res_page (ec : error_code)
  | res_reserve (ec : error_code) (user_name : str) (room : option room_info)
  | res_checkin (ec : error_code) (users : list str)
  | res_chat (ec : error_code)
  | syn_chat (user_name message : str)
  | res_leave (user_name : str) (room : option room_info).

Module fb_pulse.
Record pulse := Pulse { session_ : option Z; subs_ : list topic }.

(** What a session was asked to send, and the calls that wait for a response. *)
Inductive effect := sent (se : Z) (t : topic) (o : object) | awaits (req res : topic).

(** [sub(topic, fn)] *)
Definition sub (t : topic) (p : pulse) : pulse := Pulse (session_ p) (subs_ p ++ [t]).

Section fb_pulse.
Context `{Build} {S : Type} (log : effect → S → S) (ok : Z → bool).

(** [pulse_fb::send(se, topic, obj)] *)
Definition send_to (se : option Z) (t : topic) (o : object) : M S bool :=
  se ← deref se;
  _ ← modify (log (sent se t o));
  mret (ok se).

(** [pulse_fb::send(topic, obj)] *)
Definition send (p : option pulse) (t : topic) (o : object) : M S bool :=
  p ← deref p;
  _ ← PLAY_CHECK (bool_decide (is_Some (session_ p)));
  send_to (session_ p) t o.

(** [pulse_fb::call(req, res, obj, cb)], without a response the second *)
Definition call (p : option pulse) (req res : topic) (o : object) (cb : M S unit) : M S unit :=
  p ← deref p;
  _ ← PLAY_CHECK (bool_decide (is_Some (session_ p)));
  rc ← send_to (session_ p) req o;
  if (rc : bool) then modify (log (awaits req res)) else cb.
Definition call_closed (p : option pulse) (req : topic) (o : object) (cb : M S unit) : M S unit :=
  p ← deref p;
  _ ← PLAY_CHECK (bool_decide (is_Some (session_ p)));
  rc ← send_to (session_ p) req o;
  if (rc : bool) then mret tt else cb.

(** ** Lemmas *)
Lemma fb_send_run se subs t o (s : S) :
  send (Some (Pulse (Some se) subs)) t o s = (Ret (ok se), log (sent se t o) s).
Proof. done. Qed.

Lemma send_no_session subs t o (s : S) :
  (send (Some (Pulse None subs)) t o s).1 = if assertions then Aborted else Undefined.
Proof. unfold send. run. unfold PLAY_CHECK. simpl. by destruct assertions. Qed.

Lemma fb_call_run se subs req res o cb (s : S) :
  ok se = true →
  call (Some (Pulse (Some se) subs)) req res o cb s
  = (Ret tt, log (awaits req res) (log (sent se req o) s)).
Proof. intros Hok. unfold call, send_to. run. by rewrite Hok. Qed.

Lemma call_no_session subs req res o cb (s : S) :
  (call (Some (Pulse None subs)) req res o cb s).1 = if assertions then Aborted else Undefined.
Proof. unfold call. run. unfold PLAY_CHECK. simpl. by destruct assertions. Qed.

Lemma preserves_send_to (I : S → Prop) se t o :
  (∀ e s, I s → I (log e s)) → preserves I (send_to se t o).
Proof. intros Hlog. unfold send_to. preserve. by apply Hlog. Qed.

Lemma preserves_send (I : S → Prop) p t o :
  (∀ e s, I s → I (log e s)) → preserves I (send p t o).
Proof. intros Hlog. unfold send. preserve. by apply preserves_send_to. Qed.
End fb_pulse.
End fb_pulse.
