(* ===== verification/AlphaLogin.v ===== *)
(** * play/sample/alpha: logging in

    The back service [user_master] and the front service [lobby_runner] with its
    actors.  The services are reached through their handlers; the identifiers and
    uuids of new actors are arguments of the handlers that make them.  The session a handler
    is called with is [None] when it is the null pointer; as net/pulse.ipp:462 dispatches
    to pulses without a session of their own, it always is (see [AlphaApp]). *)

From S2P Require Import Prelude.
From S2P Require Import Serializer.
From S2P Require Import StringUtil.
From S2P Require Import App.
From S2P Require Import AlphaNet.

(** ** back/user_proxy, back/user_master *)
Module user_proxy.
Record state := State { id_ : Z; name_ : str; session_ : option Z; password_ : str; uuid_ : Z }.

(** [do_logout()], [on_start()], [on_stop()] *)
Definition do_logout (s : state) : state := s.
Definition on_start (s : state) : bool * state := (true, s).
Definition on_stop (s : state) : state := s.
End user_proxy.

Module user_master.
#[local] Instance config : actor_container.Config := {| actor_container.HasName := true;
  actor_container.HasSession := false; actor_container.HasUuid := true |}.

Section user_master.
Context `{Build} (ok : Z → bool).

Record state := State {
  pulse_ : bool;
  fronts_ : session_container.state (object := topic * object);
  users_ : actor_container.state;
  proxies : gmap Z user_proxy.state;
  posted : list Z
}.
Definition make : state := State false session_container.make actor_container.make ∅ [].
Definition set_fronts (f : session_container.state) (s : state) : state :=
  State (pulse_ s) f (users_ s) (proxies s) (posted s).
Definition set_users (u : actor_container.state) (s : state) : state :=
  State (pulse_ s) (fronts_ s) u (proxies s) (posted s).
Definition set_proxies (p : gmap Z user_proxy.state) (s : state) : state :=
  State (pulse_ s) (fronts_ s) (users_ s) p (posted s).
Definition set_pulse (b : bool) (s : state) : state :=
  State b (fronts_ s) (users_ s) (proxies s) (posted s).
Definition set_posted (l : list Z) (s : state) : state :=
  State (pulse_ s) (fronts_ s) (users_ s) (proxies s) l.

(** [post_del_user(id)], and the posted task *)
Definition post_del_user (id : Z) : M state unit := modify (λ s, set_posted (posted s ++ [id]) s).
Definition del_user (id : Z) : M state unit :=
  zoom users_ set_users (actor_container.del (actor_container.by_id id)).
Definition run_posted : M state unit :=
  s ← get;
  match posted s with
  | [] => mret tt
  | id :: rest => _ ← modify (set_posted rest); del_user id
  end.

(** [on_start()], [on_stop()] *)
Definition on_start : M state bool :=
  _ ← modify (set_pulse true);
  _ ← zoom fronts_ set_fronts (session_container.bind true);
  mret true.
Definition on_stop : M state unit := modify (set_pulse false).

(** [on_auth_req_login_f2b]: the new proxy is dropped when the container has one of
    its identifier. *)
Definition on_auth_req_login_f2b (id uuid : Z) (se : option Z) (name password : str) : M state unit :=
  s ← get;
  let user := user_proxy.State id name se password uuid in
  let '(added, users) := actor_container.add (ActorInfo id name 0 uuid) (users_ s) in
  _ ← modify (set_users users);
  _ ← modify (λ s, if added then set_proxies (<[id := (user_proxy.on_start user).2]> (proxies s)) s else s);
  _ ← zoom fronts_ set_fronts (session_container.send ok (auth_syn_login_b2f, syn_login_b2f success name));
  if added then mret tt else zoom (λ _, actor.make id) (λ _ s, s) actor.destroy.

(** [on_auth_req_logout_f2b] *)
Definition on_auth_req_logout_f2b (name : str) : M state unit :=
  s ← get;
  match actor_container.find (actor_container.by_name name) (users_ s) with
  | Some user =>
      _ ← modify (λ s, set_proxies (alter user_proxy.do_logout (get_id user) (proxies s)) s);
      _ ← post_del_user (get_id user);
      _ ← zoom fronts_ set_fronts
            (session_container.send ok (auth_syn_login_b2f, syn_logout_b2f (get_name user)));
      mret tt
  | None => mret tt
  end.

(** [on_front_established], [on_front_closed] *)
Definition on_front_established (se : option Z) : M state unit :=
  modify (λ s, set_fronts (session_container.add se (fronts_ s)).2 s).
Definition on_front_closed (se : option Z) : M state unit :=
  modify (λ s, set_fronts (session_container.del se (fronts_ s)) s).
End user_master.
End user_master.

(** ** front/lobby_user_actor, front/lobby_runner *)
Module lobby_user_actor.
Inductive phase := pending | login.
Record state := State {
  id_ : Z;
  name_ : str;
  session_ : option Z;
  state_ : phase;
  pulse_ : option fb_pulse.pulse;
  password_ : str
}.
Definition set_state (p : phase) (s : state) : state :=
  State (id_ s) (name_ s) (session_ s) p (pulse_ s) (password_ s).
Definition set_pulse (p : option fb_pulse.pulse) (s : state) : state :=
  State (id_ s) (name_ s) (session_ s) (state_ s) p (password_ s).
End lobby_user_actor.

Module lobby_runner.
Import lobby_user_actor.
#[local] Instance config : actor_container.Config := {| actor_container.HasName := true;
  actor_container.HasSession := true; actor_container.HasUuid := false |}.

Section lobby_runner.
Context `{Build} (ok : Z → bool).

(** The actors are kept by their pulses as well as by [users_]. *)
Record state := State {
  pulse_back_ : option fb_pulse.pulse;
  pulse_front_ : option fb_pulse.pulse;
  users_ : actor_container.state;
  actors : gmap Z lobby_user_actor.state;
  posted : list Z;
  out : list fb_pulse.effect
}.
Definition make : state := State None None actor_container.make ∅ [] [].
Definition set_back (p : option fb_pulse.pulse) (s : state) : state :=
  State p (pulse_front_ s) (users_ s) (actors s) (posted s) (out s).
Definition set_front (p : option fb_pulse.pulse) (s : state) : state :=
  State (pulse_back_ s) p (users_ s) (actors s) (posted s) (out s).
Definition set_users (u : actor_container.state) (s : state) : state :=
  State (pulse_back_ s) (pulse_front_ s) u (actors s) (posted s) (out s).
Definition set_actors (m : gmap Z lobby_user_actor.state) (s : state) : state :=
  State (pulse_back_ s) (pulse_front_ s) (users_ s) m (posted s) (out s).
Definition set_posted (l : list Z) (s : state) : state :=
  State (pulse_back_ s) (pulse_front_ s) (users_ s) (actors s) l (out s).
Definition log (e : fb_pulse.effect) (s : state) : state :=
  State (pulse_back_ s) (pulse_front_ s) (users_ s) (actors s) (posted s) (out s ++ [e]).

Definition send := fb_pulse.send log ok.
Definition call := fb_pulse.call log ok.
Definition call_closed := fb_pulse.call_closed log ok.

(** [post_del_user(id)], and the posted task *)
Definition post_del_user (id : Z) : M state unit :=
  s ← get; _ ← deref (pulse_front_ s); modify (λ s, set_posted (posted s ++ [id]) s).
Definition del_user (id : Z) : M state unit :=
  zoom users_ set_users (actor_container.del (actor_container.by_id id)).
Definition run_posted : M state unit :=
  s ← get;
  match posted s with
  | [] => mret tt
  | id :: rest => _ ← modify (set_posted rest); del_user id
  end.

(** [on_start()], [on_stop()] *)
Definition on_start : M state bool :=
  _ ← modify (set_front (Some (fb_pulse.Pulse None [auth_req_login; room_res_create_b2f])));
  _ ← modify (set_back (Some (fb_pulse.Pulse None [topic_estalished])));
  mret true.
Definition on_stop : M state unit := _ ← modify (set_front None); modify (set_back None).

(** [on_established_back] *)
Definition on_established_back (se : option Z) : M state unit :=
  _ ← modify (set_back None);
  modify (set_back (Some (fb_pulse.Pulse se
    [topic_estalished; auth_syn_login_b2f; auth_syn_logout_b2f]))).

(** *** lobby_user_actor *)
Definition at_user (id : Z) : M state lobby_user_actor.state := s ← get; deref (actors s !! id).
Definition update_user (id : Z) (f : lobby_user_actor.state → lobby_user_actor.state) : M state unit :=
  u ← at_user id; modify (λ s, set_actors (<[id := f u]> (actors s)) s).

(** [on_login_fail_pending()] *)
Definition on_login_fail_pending (id : Z) : M state unit :=
  u ← at_user id;
  _ ← send (lobby_user_actor.pulse_ u) auth_res_login (res_login fail_backend_not_responding);
  post_del_user id.

(** [on_start()] *)
Definition user_on_start (id : Z) : M state bool :=
  u ← at_user id;
  s ← get;
  _ ← PLAY_CHECK (bool_decide (is_Some (session_ u)));
  _ ← PLAY_CHECK (bool_decide (is_Some (pulse_front_ s)));
  _ ← deref (pulse_front_ s);
  _ ← update_user id (set_pulse (Some (fb_pulse.Pulse (session_ u) [auth_req_logout; topic_closed])));
  _ ← call (pulse_back_ s) auth_req_login_f2b auth_syn_login_b2f (req_login_f2b (name_ u) (password_ u))
        (on_login_fail_pending id);
  mret true.

(** [do_login(syn)] *)
Definition do_login (id : Z) (ec : error_code) : M state unit :=
  u ← at_user id;
  match ec with
  | success =>
      match state_ u with
      | pending =>
          _ ← update_user id (set_state login);
          _ ← send (lobby_user_actor.pulse_ u) auth_res_login (res_login success);
          update_user id (λ u, set_pulse
            (fb_pulse.sub room_req_page <$> (fb_pulse.sub room_req_create <$> lobby_user_actor.pulse_ u)) u)
      | login =>
          _ ← send (lobby_user_actor.pulse_ u) auth_res_login (syn_kickout fail_kickout_by_duplicate_login);
          post_del_user id
      end
  | _ =>
      _ ← send (lobby_user_actor.pulse_ u) auth_res_login (res_login ec);
      post_del_user id
  end.

(** [on_auth_req_logout], [on_session_closed] *)
Definition on_auth_req_logout (id : Z) : M state unit :=
  u ← at_user id;
  s ← get;
  call_closed (pulse_back_ s) auth_req_logout_f2b (req_logout_f2b (name_ u)) (mret tt).
Definition on_session_closed (id : Z) : M state unit := on_auth_req_logout id.

(** [on_room_req_create], [on_room_req_page]: the callbacks answer on the user's pulse. *)
Definition on_room_req_create (id : Z) (user_name : str) (room : option room_info) : M state unit :=
  u ← at_user id;
  s ← get;
  call (pulse_back_ s) room_req_create_f2b room_res_create_b2f (req_create user_name room)
    (_ ← send (lobby_user_actor.pulse_ u) room_res_create (res_create fail_backend_not_responding [] None);
     mret tt).
Definition on_room_req_page (id : Z) (page : Z) : M state unit :=
  u ← at_user id;
  s ← get;
  call (pulse_back_ s) room_req_page_f2b room_res_page_b2f (req_page page)
    (_ ← send (lobby_user_actor.pulse_ u) room_res_page (res_page fail_backend_not_responding); mret tt).

(** *** lobby_runner *)

(** [on_auth_req_login] *)
Definition on_auth_req_login (id : Z) (se : option Z) (name password : str) : M state unit :=
  _ ← modify (λ s, set_actors (<[id := lobby_user_actor.State id name se pending None password]> (actors s)) s);
  s ← get;
  _ ← modify (set_users (actor_container.add (ActorInfo id name (default 0%Z se) 0) (users_ s)).2);
  _ ← user_on_start id;
  mret tt.

(** [on_auth_syn_login_b2f], [on_auth_syn_logout_b2f], [on_room_res_create_b2f],
    [on_room_res_reserve_b2f]; the actors' handlers of the last two are empty. *)
Definition on_auth_syn_login_b2f (ec : error_code) (name : str) : M state unit :=
  s ← get;
  match actor_container.find (actor_container.by_name name) (users_ s) with
  | Some user => do_login (get_id user) ec
  | None => mret tt
  end.
Definition on_auth_syn_logout_b2f : M state unit := mret tt.
Definition do_room_res_create_b2f (id : Z) : M state unit := mret tt.
Definition do_room_res_reserve_b2f (id : Z) : M state unit := mret tt.
Definition on_room_res_create_b2f (user_name : str) : M state unit :=
  s ← get;
  match actor_container.find (actor_container.by_name user_name) (users_ s) with
  | Some user => do_room_res_create_b2f (get_id user)
  | None => mret tt
  end.
Definition on_room_res_reserve_b2f (user_name : str) : M state unit :=
  s ← get;
  match actor_container.find (actor_container.by_name user_name) (users_ s) with
  | Some user => do_room_res_reserve_b2f (get_id user)
  | None => mret tt
  end.
End lobby_runner.
End lobby_runner.

(** ** Lemmas *)
Section facts.
Context `{Build} (ok : Z → bool).
Import lobby_user_actor lobby_runner.
#[local] Existing Instance lobby_runner.config.
Implicit Types (L : lobby_runner.state) (u : lobby_user_actor.state).

Lemma at_user_run L id u : actors L !! id = Some u → at_user id L = (Ret u, L).
Proof. intros Hu. unfold at_user. run. by rewrite Hu. Qed.

Lemma update_user_run L id u f :
  actors L !! id = Some u → update_user id f L = (Ret tt, set_actors (<[id := f u]> (actors L)) L).
Proof. intros Hu. unfold update_user. by rewrite (bind_run _ _ _ _ _ (at_user_run _ _ _ Hu)). Qed.

(** A lobby that reached the back: its pulses and the actors it holds. *)
Record online L (b : Z) (acc : list actor_info) : Prop := {
  online_back : ∃ subs, pulse_back_ L = Some (fb_pulse.Pulse (Some b) subs);
  online_front : is_Some (pulse_front_ L);
  online_users : holds_actors acc (users_ L)
}.

(** The pulse of an actor when it starts, and the actor. *)
Definition user_pulse (se : option Z) : fb_pulse.pulse := fb_pulse.Pulse se [auth_req_logout; topic_closed].
Definition started (id : Z) (se : option Z) (name password : str) : lobby_user_actor.state :=
  lobby_user_actor.State id name se pending (Some (user_pulse se)) password.
Definition logged_in (id se : Z) (name password : str) : lobby_user_actor.state :=
  lobby_user_actor.State id name (Some se) login
    (Some (fb_pulse.Pulse (Some se) [auth_req_logout; topic_closed; room_req_create; room_req_page])) password.

(** A login request: the actor is pending and the back was asked, unless the session is
    null and the build checks it. *)
Lemma login_request L b acc id se name password :
  online L b acc → id ∉ map get_id acc → ok b = true → (assertions = true → is_Some se) →
  ∃ L1, on_auth_req_login ok id se name password L = (Ret tt, L1) ∧
    online L1 b (acc ++ [ActorInfo id name (default 0%Z se) 0]) ∧
    actors L1 = <[id := started id se name password]> (actors L) ∧ posted L1 = posted L ∧
    out L1 = out L ++ [fb_pulse.sent b auth_req_login_f2b (req_login_f2b name password);
                       fb_pulse.awaits auth_req_login_f2b auth_syn_login_b2f].
Proof.
  intros [(subs & Hb) [front Hf] Hu] Hid Hok Hse.
  set (u := lobby_user_actor.State id name se pending None password).
  set (L0 := set_actors (<[id := u]> (actors L)) L). set (a := ActorInfo id name (default 0%Z se) 0).
  destruct (add_spec acc (users_ L) a Hu) as [_ Hadd].
  rewrite decide_False in Hadd by done.
  set (L1 := set_users (actor_container.add a (users_ L)).2 L0).
  set (L2 := set_actors (<[id := started id se name password]> (actors L)) L1).
  eexists. split.
  - unfold on_auth_req_login. rewrite (bind_run _ _ L tt L0) by done. rewrite (bind_run _ _ L0 L0 L0) by done.
    rewrite (bind_run _ _ L0 tt L1) by done.
    assert (actors L1 !! id = Some u) as Hlk by apply lookup_insert_eq.
    unfold user_on_start. unfold mbind at 1, M_bind at 1.
    rewrite (bind_run _ _ _ _ _ (at_user_run _ _ _ Hlk)), (bind_run _ _ L1 L1 L1) by done.
    rewrite (bind_run _ _ L1 tt L1) by (apply check_pass; intros Ha; by apply bool_decide_true, Hse).
    assert (pulse_front_ L1 = Some front) as Hf1 by done. rewrite Hf1.
    rewrite (bind_run _ _ L1 tt L1) by (by apply check_true). rewrite (bind_run _ _ L1 front L1) by done.
    rewrite (bind_run _ _ L1 tt L2).
    2:{ rewrite (update_user_run _ _ _ _ Hlk). unfold L2, L1, L0. simpl. by rewrite insert_insert_eq. }
    assert (pulse_back_ L1 = Some (fb_pulse.Pulse (Some b) subs)) as Hb1 by done. rewrite Hb1. unfold call.
    rewrite (bind_run _ _ _ _ _ (fb_pulse.fb_call_run log ok b subs _ _ _ _ L2 Hok)). done.
  - split_and!; [|done|done|simpl; by rewrite <-(assoc_L app)]. split; [by exists subs|by exists front|exact Hadd].
Qed.

(** The back's answer for a name goes to the first actor of that name. *)
Lemma syn_login_first L b acc name ec :
  online L b acc →
  on_auth_syn_login_b2f ok ec name L
  = match head (filter (λ a, get_name a = name) acc) with
    | Some a => do_login ok (get_id a) ec L
    | None => (Ret tt, L)
    end.
Proof.
  intros Ho. unfold on_auth_syn_login_b2f. rewrite (bind_run _ _ L L L) by done.
  rewrite (find_spec acc _ _ (online_users _ _ _ Ho)) by done. simpl.
  change (filter (matches (actor_container.by_name name)) acc) with (filter (λ a, get_name a = name) acc).
  by destruct (head _).
Qed.

Lemma do_login_pending L b acc id se name password :
  online L b acc → actors L !! id = Some (started id (Some se) name password) →
  ∃ L', do_login ok id success L = (Ret tt, L') ∧ online L' b acc ∧ posted L' = posted L ∧
    actors L' = <[id := logged_in id se name password]> (actors L) ∧
    out L' = out L ++ [fb_pulse.sent se auth_res_login (res_login success)].
Proof.
  intros [Hb Hf Hu] Hlk. set (u1 := set_state login (started id (Some se) name password)).
  set (L1 := set_actors (<[id := u1]> (actors L)) L).
  set (L2 := log (fb_pulse.sent se auth_res_login (res_login success)) L1).
  assert (actors L2 !! id = Some u1) as Hlk2 by apply lookup_insert_eq.
  eexists. split.
  - unfold do_login. rewrite (bind_run _ _ _ _ _ (at_user_run _ _ _ Hlk)). change (state_ (started _ _ _ _)) with pending. cbv iota.
    rewrite (bind_run _ _ _ _ _ (update_user_run _ _ _ _ Hlk)). fold u1 L1.
    rewrite (bind_run _ _ L1 (ok se) L2) by done.
    exact (update_user_run _ _ _ _ Hlk2).
  - split_and!; [by split|done| |done]. simpl. by rewrite insert_insert_eq.
Qed.

Lemma do_login_again L b acc id se name password :
  online L b acc → actors L !! id = Some (logged_in id se name password) →
  ∃ L', do_login ok id success L = (Ret tt, L') ∧ online L' b acc ∧ actors L' = actors L ∧
    posted L' = posted L ++ [id] ∧
    out L' = out L ++ [fb_pulse.sent se auth_res_login (syn_kickout fail_kickout_by_duplicate_login)].
Proof.
  intros [Hb [front Hf] Hu] Hlk.
  set (L1 := log (fb_pulse.sent se auth_res_login (syn_kickout fail_kickout_by_duplicate_login)) L).
  exists (set_posted (posted L1 ++ [id]) L1). split.
  - unfold do_login. rewrite (bind_run _ _ _ _ _ (at_user_run _ _ _ Hlk)). change (state_ (logged_in _ _ _ _)) with login. cbv iota.
    rewrite (bind_run _ _ L (ok se) L1) by done. unfold post_del_user. rewrite (bind_run _ _ L1 L1 L1) by done.
    assert (pulse_front_ L1 = Some front) as -> by done. by rewrite (bind_run _ _ L1 front L1).
  - split_and!; [|done|done|done]. split; [done|by exists front|done].
Qed.

(** The posted deletion of an actor the lobby holds. *)
Lemma run_posted_undefined L b acc id rest :
  online L b acc → id ∈ map get_id acc → posted L = id :: rest → (run_posted L).1 = Undefined.
Proof.
  intros Ho Hid Hp. unfold run_posted. rewrite (bind_run _ _ L L L) by done. rewrite Hp.
  rewrite (bind_run _ _ L tt (set_posted rest L)) by done. unfold del_user, zoom.
  apply list_elem_of_fmap in Hid as (a & -> & Ha).
  pose proof (online_users _ _ _ Ho) as Hu. simpl users_.
  rewrite (del_found _ (users_ L) (get_id a)); [done|done|].
  simpl. rewrite (holds_actors_in _ _ _ Hu Ha). by rewrite decide_True by (by eexists).
Qed.

(** A request that comes with the null session: checked in a debug build, dereferenced when the
    answer of the back is passed on in another. *)
Lemma login_null_checked L id name password :
  assertions = true → (on_auth_req_login ok id None name password L).1 = Aborted.
Proof.
  intros Ha. unfold on_auth_req_login.
  set (u := lobby_user_actor.State id name None pending None password).
  set (L0 := set_actors (<[id := u]> (actors L)) L).
  rewrite (bind_run _ _ L tt L0) by done. rewrite (bind_run _ _ L0 L0 L0) by done.
  set (L1 := set_users (actor_container.add (ActorInfo id name 0 0) (users_ L0)).2 L0).
  rewrite (bind_run _ _ L0 tt L1) by done.
  assert (actors L1 !! id = Some u) as Hlk by apply lookup_insert_eq.
  rewrite (bind_stop _ _ L1 Aborted L1); [done| |done].
  unfold user_on_start. rewrite (bind_run _ _ _ _ _ (at_user_run _ _ _ Hlk)), (bind_run _ _ L1 L1 L1) by done.
  rewrite (bind_stop _ _ L1 Aborted L1); [done| |done]. by apply check_fails.
Qed.

Lemma do_login_null L id name password :
  assertions = false → actors L !! id = Some (started id None name password) →
  (do_login ok id success L).1 = Undefined.
Proof.
  intros Ha Hlk. unfold do_login. rewrite (bind_run _ _ _ _ _ (at_user_run _ _ _ Hlk)).
  change (state_ (started _ _ _ _)) with pending. cbv iota.
  rewrite (bind_run _ _ _ _ _ (update_user_run _ _ _ _ Hlk)). set (L1 := set_actors _ L).
  pose proof (fb_pulse.send_no_session log ok [auth_req_logout; topic_closed] auth_res_login (res_login success) L1) as Hs.
  rewrite Ha in Hs. unfold mbind, M_bind, send. simpl lobby_user_actor.pulse_. unfold user_pulse.
  destruct (fb_pulse.send _ _ _ _ _ L1) as [o L']. simpl in Hs. by subst o.
Qed.

(** The request of an actor when its pulse to the back has no session. *)
Lemma login_offline L id se name password subs :
  is_Some (pulse_front_ L) → pulse_back_ L = Some (fb_pulse.Pulse None subs) →
  (on_auth_req_login ok id se name password L).1 = if assertions then Aborted else Undefined.
Proof.
  intros [front Hf] Hb. destruct (decide (assertions = true ∧ se = None)) as [[Ha ->]|Hn].
  { rewrite Ha. by apply login_null_checked. }
  unfold on_auth_req_login.
  set (u := lobby_user_actor.State id name se pending None password).
  set (L0 := set_actors (<[id := u]> (actors L)) L).
  rewrite (bind_run _ _ L tt L0) by done. rewrite (bind_run _ _ L0 L0 L0) by done.
  set (L1 := set_users (actor_container.add (ActorInfo id name (default 0%Z se) 0) (users_ L)).2 L0).
  rewrite (bind_run _ _ L0 tt L1) by done.
  assert (actors L1 !! id = Some u) as Hlk by apply lookup_insert_eq.
  assert (∃ L', user_on_start ok id L1 = ((if assertions then Aborted else Undefined), L')) as [L' HL].
  { unfold user_on_start. rewrite (bind_run _ _ _ _ _ (at_user_run _ _ _ Hlk)), (bind_run _ _ L1 L1 L1) by done.
    rewrite (bind_run _ _ L1 tt L1)
      by (apply check_pass; intros Ha; destruct se; [by apply bool_decide_true|by destruct Hn]).
    assert (pulse_front_ L1 = Some front) as -> by done.
    rewrite (bind_run _ _ L1 tt L1) by (by apply check_true). rewrite (bind_run _ _ L1 front L1) by done.
    rewrite (bind_run _ _ _ _ _ (update_user_run _ _ _ _ Hlk)). set (L2 := set_actors _ L1).
    assert (pulse_back_ L1 = Some (fb_pulse.Pulse None subs)) as -> by done.
    pose proof (fb_pulse.call_no_session log ok subs auth_req_login_f2b auth_syn_login_b2f
      (req_login_f2b (name_ u) (password_ u)) (on_login_fail_pending ok id) L2) as Hc.
    fold (call ok (Some (fb_pulse.Pulse None subs)) auth_req_login_f2b auth_syn_login_b2f
      (req_login_f2b (name_ u) (password_ u)) (on_login_fail_pending ok id) L2) in Hc.
    destruct (call ok _ _ _ _ _ L2) as [o L'] eqn:Hcall. simpl in Hc. subst o.
    exists L'. unfold mbind, M_bind. rewrite Hcall. by destruct assertions. }
  unfold mbind, M_bind. rewrite HL. by destruct assertions.
Qed.
End facts.

(** The back's answer to a login request. *)
Lemma back_login `{Build} (ok : Z → bool) (B : user_master.state) acc id uuid se name password :
  holds_actors (H := user_master.config) acc (user_master.users_ B) → id ∉ map get_id acc →
  session_container.pulse_ (user_master.fronts_ B) = true →
  (∀ f, f ∈ session_container.sessions_ (user_master.fronts_ B) → 0 < f)%Z →
  let fronts := merge_sort Z.le (elements (session_container.sessions_ (user_master.fronts_ B))) in
  ∃ B1, user_master.on_auth_req_login_f2b ok id uuid se name password B = (Ret tt, B1) ∧
    holds_actors (H := user_master.config) (acc ++ [ActorInfo id name 0 uuid]) (user_master.users_ B1) ∧
    session_container.sent (user_master.fronts_ B1) = session_container.sent (user_master.fronts_ B) ++
      map (λ f, (f, (auth_syn_login_b2f, syn_login_b2f success name))) (asked ok fronts).
Proof.
  intros Hu Hid Hp Hpos fronts.
  destruct (add_spec (H := user_master.config) acc (user_master.users_ B) (ActorInfo id name 0 uuid) Hu) as [Ha Hadd].
  rewrite decide_False in Hadd by done. rewrite bool_decide_true in Ha by done.
  unfold user_master.on_auth_req_login_f2b. rewrite (bind_run _ _ B B B) by done.
  destruct (actor_container.add (ActorInfo id name 0 uuid) (user_master.users_ B)) as [added users] eqn:E.
  simpl in Ha, Hadd. subst added.
  set (B0 := user_master.set_proxies (<[id := user_proxy.State id name se password uuid]> (user_master.proxies B))
    (user_master.set_users users B)).
  eexists. split.
  - rewrite (bind_run _ _ B tt (user_master.set_users users B)) by done.
    rewrite (bind_run _ _ (user_master.set_users users B) tt B0) by done.
    erewrite (bind_run _ _ B0 _); [reflexivity|]. unfold zoom, session_container.send. unfold mbind at 1, M_bind at 1.
    unfold get at 1. rewrite send_all_spec by (done || by apply send_order_null). reflexivity.
  - split; [exact Hadd|reflexivity].
Qed.

(** A null session among the fronts. *)
Lemma back_login_null `{Build} (ok : Z → bool) (B : user_master.state) id uuid se name password :
  session_container.pulse_ (user_master.fronts_ B) = true →
  (∀ f, f ∈ session_container.sessions_ (user_master.fronts_ B) → 0 < f)%Z →
  (user_master.on_auth_req_login_f2b ok id uuid se name password (user_master.on_front_established None B).2).1 = Undefined.
Proof.
  intros Hp Hpos. unfold user_master.on_auth_req_login_f2b.
  set (B0 := (user_master.on_front_established None B).2). rewrite (bind_run _ _ B0 B0 B0) by done.
  destruct (actor_container.add (ActorInfo id name 0 uuid) (user_master.users_ B0)) as [added users].
  rewrite (bind_run _ _ B0 tt (user_master.set_users users B0)) by done.
  set (B1 := if added then user_master.set_proxies
    (<[id := user_proxy.State id name se password uuid]> (user_master.proxies B0)) (user_master.set_users users B0)
    else user_master.set_users users B0).
  rewrite (bind_run _ _ (user_master.set_users users B0) tt B1) by (unfold B1; by destruct added).
  assert (user_master.fronts_ B1 = (session_container.add None (user_master.fronts_ B)).2) as Hf by by destruct added.
  pose proof (send_null ok (auth_syn_login_b2f, syn_login_b2f success name) (user_master.fronts_ B1)) as Hs.
  unfold zoom. unfold mbind at 1, M_bind at 1.
  destruct (session_container.send ok _ (user_master.fronts_ B1)) as [o fr]. simpl in Hs.
  rewrite Hs; [done|by rewrite Hf| |rewrite Hf; simpl; set_solver].
  rewrite Hf. intros f. simpl. rewrite elem_of_union, elem_of_singleton. intros [->|Hin]; [done|]. specialize (Hpos f Hin). lia.
Qed.

Lemma filter_name_snoc acc a name :
  name ∉ map get_name acc → get_name a = name → head (filter (λ a, get_name a = name) (acc ++ [a])) = Some a.
Proof.
  intros Hn Ha. rewrite head_filter_snoc. destruct (head (filter _ acc)) as [x|] eqn:Hx.
  - apply head_filter_Some in Hx as [Hx Hin]. destruct Hn. rewrite <-Hx. by apply list_elem_of_fmap_2.
  - by rewrite decide_True.
Qed.

(** A login and another by the same name, with their sessions. *)
Lemma login_twice `{Build} (ok : Z → bool) (L : lobby_runner.state) (B : user_master.state)
    (acc accb : list actor_info) (id id2 uid uuid b se se2 : Z) (se' : option Z) (name password password2 : str) :
  online L b acc → lobby_runner.posted L = [] → id ≠ id2 → id ∉ map get_id acc → id2 ∉ map get_id acc →
  name ∉ map get_name acc → ok b = true →
  holds_actors (H := user_master.config) accb (user_master.users_ B) → uid ∉ map get_id accb →
  session_container.pulse_ (user_master.fronts_ B) = true →
  (∀ f, f ∈ session_container.sessions_ (user_master.fronts_ B) → 0 < f)%Z →
  let fronts := merge_sort Z.le (elements (session_container.sessions_ (user_master.fronts_ B))) in
  ∃ L1 B1 L2 L3 L4,
    lobby_runner.on_auth_req_login ok id (Some se) name password L = (Ret tt, L1) ∧
    lobby_runner.actors L1 !! id = Some (started id (Some se) name password) ∧
    lobby_runner.out L1 = lobby_runner.out L ++
      [fb_pulse.sent b auth_req_login_f2b (req_login_f2b name password);
       fb_pulse.awaits auth_req_login_f2b auth_syn_login_b2f] ∧
    user_master.on_auth_req_login_f2b ok uid uuid se' name password B = (Ret tt, B1) ∧
    session_container.sent (user_master.fronts_ B1) = session_container.sent (user_master.fronts_ B) ++
      map (λ f, (f, (auth_syn_login_b2f, syn_login_b2f success name))) (asked ok fronts) ∧
    lobby_runner.on_auth_syn_login_b2f ok success name L1 = (Ret tt, L2) ∧
    lobby_runner.actors L2 !! id = Some (logged_in id se name password) ∧
    lobby_runner.out L2 = lobby_runner.out L1 ++ [fb_pulse.sent se auth_res_login (res_login success)] ∧
    lobby_runner.on_auth_req_login ok id2 (Some se2) name password2 L2 = (Ret tt, L3) ∧
    lobby_runner.on_auth_syn_login_b2f ok success name L3 = (Ret tt, L4) ∧
    lobby_runner.actors L4 !! id2 = Some (started id2 (Some se2) name password2) ∧
    lobby_runner.out L4 = lobby_runner.out L3 ++
      [fb_pulse.sent se auth_res_login (syn_kickout fail_kickout_by_duplicate_login)] ∧
    (lobby_runner.run_posted L4).1 = Undefined.
Proof.
  intros Ho Hposted Hne Hid Hid2 Hname Hok HB Huid Hp Hpos fronts.
  destruct (login_request ok L b acc id (Some se) name password Ho Hid Hok ltac:(done)) as (L1 & R1 & O1 & A1 & P1 & E1).
  destruct (back_login ok B accb uid uuid se' name password HB Huid Hp Hpos) as (B1 & RB & _ & EB).
  assert (lobby_runner.actors L1 !! id = Some (started id (Some se) name password)) as K1
    by (rewrite A1; apply lookup_insert_eq).
  destruct (do_login_pending ok L1 b _ id se name password O1 K1) as (L2 & R2 & O2 & P2 & A2 & E2).
  destruct (login_request ok L2 b _ id2 (Some se2) name password2 O2) as (L3 & R3 & O3 & A3 & P3 & _); [|done|done|].
  { rewrite map_app. intros [?|Hx]%elem_of_app; [done|]. apply list_elem_of_singleton in Hx. done. }
  assert (lobby_runner.actors L3 !! id = Some (logged_in id se name password)) as K3.
  { rewrite A3, lookup_insert_ne, A2 by done. apply lookup_insert_eq. }
  destruct (do_login_again ok L3 b _ id se name password O3 K3) as (L4 & R4 & O4 & A4 & P4 & E4).
  assert (∀ x, head (filter (λ a, get_name a = name) ((acc ++ [ActorInfo id name se 0]) ++ x)) = Some (ActorInfo id name se 0)) as Hfirst.
  { intros x. rewrite filter_app. pose proof (filter_name_snoc acc (ActorInfo id name se 0) name Hname eq_refl) as Hf.
    destruct (filter _ (acc ++ _)); [done|exact Hf]. }
  exists L1, B1, L2, L3, L4. split_and!; try done.
  - rewrite (syn_login_first ok L1 b _ name success O1). rewrite <-(app_nil_r (acc ++ _)), Hfirst. exact R2.
  - rewrite A2. apply lookup_insert_eq.
  - rewrite (syn_login_first ok L3 b _ name success O3), Hfirst. exact R4.
  - rewrite A4, A3. apply lookup_insert_eq.
  - apply (run_posted_undefined L4 b _ id [] O4).
    + rewrite !map_app. set_solver.
    + by rewrite P4, P3, P2, P1, Hposted.
Qed.

(** ** Properties *)

(** C23. Logging in, from the front to the back and again to the front, by requests that come
    with the session of their frame.  The lobby
    makes a pending actor, asks the back and remembers the call; the back accepts
    whatever the password is, and tells all fronts up to the first that refuses; the
    lobby's actor is logged in, answers the user and subscribes to the room topics.
    When someone logs in by the same name again, in this lobby or another, the
    first actor is told it is kicked out, on the topic of a login response; the
    second stays pending; and the deletion of the first that was posted reads the
    erased entry.  With the null session, which is what [pulse::dispatch] gives
    these handlers today, a login never succeeds: the request ends a debug build, and in another the null pointer is
    dereferenced when the answer arrives; a lobby that was told of the back with
    the null session ends in the same ways at the request, whatever it comes with; and a back that
    was told of a front with the null session dereferences it at every login. *)
Theorem alpha_login `{Build} (ok : Z → bool) (L : lobby_runner.state) (B : user_master.state)
    (acc accb : list actor_info) (id id2 uid uuid b se se2 : Z) (se' : option Z) (name password password2 : str) :
  online L b acc → lobby_runner.posted L = [] → NoDup (id :: id2 :: map get_id acc) →
  name ∉ map get_name acc → ok b = true →
  holds_actors (H := user_master.config) accb (user_master.users_ B) → uid ∉ map get_id accb →
  session_container.pulse_ (user_master.fronts_ B) = true →
  (∀ f, f ∈ session_container.sessions_ (user_master.fronts_ B) → 0 < f)%Z →
  let fronts := merge_sort Z.le (elements (session_container.sessions_ (user_master.fronts_ B))) in
  (∃ L1 B1 L2 L3 L4,
    lobby_runner.on_auth_req_login ok id (Some se) name password L = (Ret tt, L1) ∧
    lobby_runner.actors L1 !! id = Some (started id (Some se) name password) ∧
    lobby_runner.out L1 = lobby_runner.out L ++
      [fb_pulse.sent b auth_req_login_f2b (req_login_f2b name password);
       fb_pulse.awaits auth_req_login_f2b auth_syn_login_b2f] ∧
    user_master.on_auth_req_login_f2b ok uid uuid se' name password B = (Ret tt, B1) ∧
    session_container.sent (user_master.fronts_ B1) = session_container.sent (user_master.fronts_ B) ++
      map (λ f, (f, (auth_syn_login_b2f, syn_login_b2f success name))) (asked ok fronts) ∧
    lobby_runner.on_auth_syn_login_b2f ok success name L1 = (Ret tt, L2) ∧
    lobby_runner.actors L2 !! id = Some (logged_in id se name password) ∧
    lobby_runner.out L2 = lobby_runner.out L1 ++ [fb_pulse.sent se auth_res_login (res_login success)] ∧
    lobby_runner.on_auth_req_login ok id2 (Some se2) name password2 L2 = (Ret tt, L3) ∧
    lobby_runner.on_auth_syn_login_b2f ok success name L3 = (Ret tt, L4) ∧
    lobby_runner.actors L4 !! id2 = Some (started id2 (Some se2) name password2) ∧
    lobby_runner.out L4 = lobby_runner.out L3 ++
      [fb_pulse.sent se auth_res_login (syn_kickout fail_kickout_by_duplicate_login)] ∧
    (lobby_runner.run_posted L4).1 = Undefined) ∧
  ((_ ← lobby_runner.on_auth_req_login ok id None name password;
    lobby_runner.on_auth_syn_login_b2f ok success name) L).1 = (if assertions then Aborted else Undefined) ∧
  (∀ any, (lobby_runner.on_auth_req_login ok id any name password (lobby_runner.on_established_back None L).2).1
          = if assertions then Aborted else Undefined) ∧
  (user_master.on_auth_req_login_f2b ok uid uuid se' name password (user_master.on_front_established None B).2).1
    = Undefined.
Proof.
  intros Ho Hposted Hnd Hname Hok HB Huid Hp Hpos fronts.
  apply NoDup_cons in Hnd as [Hid Hnd]. apply NoDup_cons in Hnd as [Hid2 _].
  apply not_elem_of_cons in Hid as [Hne Hid].
  split; [|split; [|split]].
  - by apply (login_twice ok L B acc accb).
  - unfold mbind at 1, M_bind at 1. destruct (decide (assertions = true)) as [Ha|Ha%not_true_iff_false].
    + pose proof (login_null_checked ok L id name password Ha) as Hl. rewrite Ha.
      destruct (lobby_runner.on_auth_req_login ok id None name password L) as [o L']. simpl in Hl. by subst o.
    + destruct (login_request ok L b acc id None name password Ho Hid Hok) as (L1 & R1 & O1 & A1 & _); [congruence|].
      rewrite R1, Ha, (syn_login_first ok L1 b _ name success O1), (filter_name_snoc acc _ name) by done.
      apply (do_login_null ok L1 id name password Ha). rewrite A1. apply lookup_insert_eq.
  - intros any. eapply login_offline; [exact (online_front _ _ _ Ho)|reflexivity].
  - by apply back_login_null.
Qed.

(** A lobby and a back with one front each. *)
Lemma alpha_login_witness :
  let _ := debug_build in
  let ok (se : Z) := true in
  let L := (lobby_runner.on_established_back (Some 7%Z) (lobby_runner.on_start lobby_runner.make).2).2 in
  let B := (user_master.on_front_established (Some 9%Z) (user_master.on_start user_master.make).2).2 in
  (∃ L1 B1 L2,
    lobby_runner.on_auth_req_login ok 1 (Some 3%Z) $"hulk" $"secret" L = (Ret tt, L1) ∧
    user_master.on_auth_req_login_f2b ok 1 0 (Some 9%Z) $"hulk" $"secret" B = (Ret tt, B1) ∧
    session_container.sent (user_master.fronts_ B1) = [(9%Z, (auth_syn_login_b2f, syn_login_b2f success $"hulk"))] ∧
    lobby_runner.on_auth_syn_login_b2f ok success $"hulk" L1 = (Ret tt, L2) ∧
    lobby_runner.actors L2 !! 1%Z = Some (logged_in 1 3 $"hulk" $"secret")) ∧
  (lobby_runner.on_auth_req_login ok 1 None $"hulk" $"secret" (lobby_runner.on_established_back None L).2).1 = Aborted.
Proof.
  intros d ok L B.
  destruct (alpha_login ok L B [] [] 1 2 1 0 7 3 4 (Some 9%Z) $"hulk" $"secret" $"guess")
    as ((L1 & B1 & L2 & L3 & L4 & R1 & _ & _ & RB & EB & R2 & A2 & _) & _ & Hoff & _).
  - split; [eexists; reflexivity|eexists; reflexivity|apply holds_actors_make].
  - reflexivity.
  - apply (bool_decide_unpack _). vm_compute. exact I.
  - apply not_elem_of_nil.
  - reflexivity.
  - apply (holds_actors_make (H := user_master.config)).
  - apply not_elem_of_nil.
  - reflexivity.
  - intros f. change (f ∈ ({[9%Z]} ∪ ∅ : gset Z) → (0 < f)%Z). rewrite elem_of_union, elem_of_singleton.
    intros [->|Hf]; [reflexivity|by apply elem_of_empty in Hf].
  - split; [|exact (Hoff None)].
    exists L1, B1, L2. split; [exact R1|split; [exact RB|split; [exact EB|split; [exact R2|exact A2]]]].
Defined.
