(* ===== verification/AlphaRooms.v ===== *)
(** * play/sample/alpha: rooms

    The back service [room_master], and the front service [room_runner] with the
    actors of its rooms and of the users in them.  Rooms and users are actors by
    identifier; the identifiers and uuids of new actors are arguments of the handlers
    that make them. *)

From S2P Require Import Prelude.
From S2P Require Import Serializer.
From S2P Require Import StringUtil.
From S2P Require Import App.
From S2P Require Import AlphaNet.

(** ** back/room/room_property, room_runner_property, back/room_master *)
Module room_property.
Record user := User { name : str; checkin : bool }.
Record state := State {
  info_ : room_info;
  pending_ : bool;
  user_name_ : str;
  session_ : option Z;
  users_ : list user
}.
Definition make (user_name : str) (se : option Z) (info : room_info) : state :=
  State info true user_name se [].
End room_property.

Module room_runner_property.
Record state := State {
  remote_addr_ : str;
  session_ : option Z;
  rooms_ : gmap str room_property.state
}.
Definition make (remote_addr : str) (se : option Z) : state := State remote_addr se ∅.
Definition get_room_count (s : state) : nat := size (rooms_ s).

(** [do_create_room], [do_res_create], [do_reserve], [do_checkin], [do_leave] are empty. *)
Definition do_create_room (room : room_property.state) (s : state) : state := s.
Definition do_res_create (uuid : str) (s : state) : state := s.
Definition do_reserve (uuid user_name : str) (s : state) : state := s.
Definition do_checkin (uuid user_name : str) (s : state) : state := s.
Definition do_leave (uuid user_name : str) (s : state) : state := s.
End room_runner_property.

Module room_master.
Section room_master.
Context `{Build} (ok : Z → bool).

Record state := State {
  pulse_ : option fb_pulse.pulse;
  room_runners_ : gmap Z room_runner_property.state;
  out : list fb_pulse.effect
}.
Definition make : state := State None ∅ [].
Definition log (e : fb_pulse.effect) (s : state) : state := State (pulse_ s) (room_runners_ s) (out s ++ [e]).

(** [on_start()], [on_stop()] *)
Definition on_start : M state bool :=
  _ ← modify (λ s, State (Some (fb_pulse.Pulse None
        [topic_estalished; topic_closed; room_syn_runner_up; room_req_create_f2b; room_res_create_f2b;
         room_req_page_f2b; room_req_reserve_f2b; room_res_reserve_f2b])) (room_runners_ s) (out s));
  mret true.
Definition on_stop : M state unit := modify (λ s, State None (room_runners_ s) (out s)).

(** [on_room_syn_runner_up]; the session is asked for its address. *)
Definition on_room_syn_runner_up (se : option Z) (remote_addr : str) : M state unit :=
  key ← deref se;
  modify (λ s, match room_runners_ s !! key with
               | Some _ => s
               | None => State (pulse_ s) (<[key := room_runner_property.make remote_addr se]> (room_runners_ s)) (out s)
               end).

(** The order of the sort: [r1->get_room_count() > r2->get_room_count()] *)
Definition more_rooms (r1 r2 : Z * room_runner_property.state) : Prop :=
  room_runner_property.get_room_count r2.2 ≤ room_runner_property.get_room_count r1.2.
#[export] Instance more_rooms_dec r1 r2 : Decision (more_rooms r1 r2).
Proof. unfold more_rooms. apply _. Defined.

(** [on_room_req_create_f2b]: the sorted runners are not used. *)
Definition on_room_req_create_f2b (user_name : str) (room : option room_info) : M state unit :=
  s ← get;
  if decide (room_runners_ s = ∅) then
    _ ← fb_pulse.send log ok (pulse_ s) room_res_create_b2f
          (res_create fail_room_runner_not_found user_name room);
    mret tt
  else
    let runners := merge_sort more_rooms (entries_in_order (room_runners_ s)) in
    PLAY_CHECK (negb (length runners =? 0)).

(** [on_room_res_create_f2b], [on_room_req_page_f2b], [on_room_req_reserve_f2b],
    [on_room_res_reserve_f2b], [on_room_syn_leave_f2b], [on_front_established] and
    [on_front_closed] are empty. *)
Definition on_ignored : M state unit := mret tt.
End room_master.
End room_master.

(** ** front/room_user_actor, front/room_actor *)
Module room_user_actor.
Record state := State {
  id_ : Z;
  name_ : str;
  session_ : option Z;
  pulse_ : option fb_pulse.pulse
}.
Definition set_pulse (p : option fb_pulse.pulse) (s : state) : state :=
  State (id_ s) (name_ s) (session_ s) p.
End room_user_actor.

Module room_actor.
(** [user_container] and [user_pending_container] *)
Definition by_name_and_session : actor_container.Config := {| actor_container.HasName := true;
  actor_container.HasSession := true; actor_container.HasUuid := false |}.
Definition by_name_only : actor_container.Config := {| actor_container.HasName := true;
  actor_container.HasSession := false; actor_container.HasUuid := false |}.

(** [members] are all user actors ever made for the room, [posted] the deletions. *)
Record state := State {
  id_ : Z;
  name_ : str;
  capacity_ : Z;
  creator_ : str;
  uuid_ : Z;
  pulse_ : option fb_pulse.pulse;
  users_ : actor_container.state;
  pending_users_ : actor_container.state;
  members : gmap Z room_user_actor.state;
  posted : list Z
}.
Definition make (id : Z) (name : str) (capacity : Z) (creator : str) (uuid : Z) : state :=
  State id name capacity creator uuid None actor_container.make actor_container.make ∅ [].
Definition set_pulse (p : option fb_pulse.pulse) (s : state) : state :=
  State (id_ s) (name_ s) (capacity_ s) (creator_ s) (uuid_ s) p (users_ s) (pending_users_ s) (members s) (posted s).
Definition set_users (u : actor_container.state) (s : state) : state :=
  State (id_ s) (name_ s) (capacity_ s) (creator_ s) (uuid_ s) (pulse_ s) u (pending_users_ s) (members s) (posted s).
Definition set_pending (u : actor_container.state) (s : state) : state :=
  State (id_ s) (name_ s) (capacity_ s) (creator_ s) (uuid_ s) (pulse_ s) (users_ s) u (members s) (posted s).
Definition set_members (m : gmap Z room_user_actor.state) (s : state) : state :=
  State (id_ s) (name_ s) (capacity_ s) (creator_ s) (uuid_ s) (pulse_ s) (users_ s) (pending_users_ s) m (posted s).
Definition set_posted (l : list Z) (s : state) : state :=
  State (id_ s) (name_ s) (capacity_ s) (creator_ s) (uuid_ s) (pulse_ s) (users_ s) (pending_users_ s) (members s) l.
End room_actor.

(** ** front/room_runner, with the handlers of its rooms and their users *)
Module room_runner.
#[local] Instance config : actor_container.Config := {| actor_container.HasName := true;
  actor_container.HasSession := false; actor_container.HasUuid := true |}.

Section room_runner.
Context `{Build} (ok : Z → bool).
(** [uuid::to_string] and [uuid::from], which throws for what is no uuid *)
Context (to_string : Z → str) (from : str → option Z).

Record state := State {
  pulse_back_ : option fb_pulse.pulse;
  pulse_front_ : option fb_pulse.pulse;
  rooms_ : actor_container.state;
  rooms : gmap Z room_actor.state;
  out : list fb_pulse.effect
}.
Definition make : state := State None None actor_container.make ∅ [].
Definition set_back (p : option fb_pulse.pulse) (s : state) : state :=
  State p (pulse_front_ s) (rooms_ s) (rooms s) (out s).
Definition set_front (p : option fb_pulse.pulse) (s : state) : state :=
  State (pulse_back_ s) p (rooms_ s) (rooms s) (out s).
Definition set_container (c : actor_container.state) (s : state) : state :=
  State (pulse_back_ s) (pulse_front_ s) c (rooms s) (out s).
Definition set_rooms (m : gmap Z room_actor.state) (s : state) : state :=
  State (pulse_back_ s) (pulse_front_ s) (rooms_ s) m (out s).
Definition log (e : fb_pulse.effect) (s : state) : state :=
  State (pulse_back_ s) (pulse_front_ s) (rooms_ s) (rooms s) (out s ++ [e]).

Definition send := fb_pulse.send log ok.
Definition send_to := fb_pulse.send_to log ok.

(** Access to a room, and running an operation of one. *)
Definition at_room (r : Z) : M state room_actor.state := s ← get; deref (rooms s !! r).
Definition update_room (r : Z) (f : room_actor.state → room_actor.state) : M state unit :=
  t ← at_room r; modify (λ s, set_rooms (<[r := f t]> (rooms s)) s).
Definition at_member (r u : Z) : M state room_user_actor.state :=
  t ← at_room r; deref (room_actor.members t !! u).

(** [on_start()], [on_stop()], [on_established_back] of [room_runner] *)
Definition on_start : M state bool :=
  _ ← modify (set_front (Some (fb_pulse.Pulse None [room_req_checkin])));
  _ ← modify (set_back (Some (fb_pulse.Pulse None [topic_estalished])));
  mret true.
Definition on_stop : M state unit := _ ← modify (set_front None); modify (set_back None).
Definition on_established_back (se : option Z) : M state unit :=
  _ ← modify (set_back None);
  modify (set_back (Some (fb_pulse.Pulse se
    [topic_estalished; room_req_create_b2f; room_req_reserve_b2f]))).

(** *** room_actor *)

(** [post_del_user(id)], and the posted task *)
Definition post_del_user (r id : Z) : M state unit :=
  t ← at_room r;
  _ ← deref (room_actor.pulse_ t);
  update_room r (λ t, room_actor.set_posted (room_actor.posted t ++ [id]) t).
Definition del_user (r id : Z) : M state unit :=
  t ← at_room r;
  zoom (λ _, room_actor.users_ t) (λ u s, set_rooms (<[r := room_actor.set_users u t]> (rooms s)) s)
    (actor_container.del (H := room_actor.by_name_and_session) (actor_container.by_id id)).
Definition run_posted (r : Z) : M state unit :=
  t ← at_room r;
  match room_actor.posted t with
  | [] => mret tt
  | id :: rest => _ ← update_room r (room_actor.set_posted rest); del_user r id
  end.

(** [on_start()], [on_stop()] *)
Definition room_on_start (r : Z) : M state bool :=
  s ← get;
  _ ← PLAY_CHECK (bool_decide (is_Some (pulse_front_ s)));
  _ ← deref (pulse_front_ s);
  _ ← update_room r (room_actor.set_pulse (Some (fb_pulse.Pulse None [])));
  mret true.
Definition room_on_stop (r : Z) : M state unit := update_room r (room_actor.set_pulse None).

(** The number of users and reservations. *)
Definition seats (t : room_actor.state) : nat :=
  actor_container.container_size (room_actor.users_ t)
  + actor_container.container_size (room_actor.pending_users_ t).

(** [send_res_reserve_f2b(user_name, ec)] *)
Definition send_res_reserve_f2b (r : Z) (user_name : str) (ec : error_code) : M state unit :=
  t ← at_room r;
  s ← get;
  _ ← send (pulse_back_ s) room_res_reserve_f2b
        (res_reserve ec user_name (Some (RoomInfo [] (u16 (room_actor.capacity_ t)) (u16 (Z.of_nat (seats t)))
           (to_string (room_actor.uuid_ t)))));
  mret tt.

(** [do_reserve(req)]: a user actor the container refuses is dropped. *)
Definition do_reserve (r id : Z) (user_name : str) : M state unit :=
  t ← at_room r;
  if (Z.of_nat (seats t) <? room_actor.capacity_ t)%Z then
    let user := room_user_actor.State id user_name None None in
    let '(added, pending) := actor_container.add (H := room_actor.by_name_only) (ActorInfo id user_name 0 0)
                               (room_actor.pending_users_ t) in
    _ ← update_room r (λ t, room_actor.set_pending pending
          (room_actor.set_members (<[id := user]> (room_actor.members t)) t));
    _ ← send_res_reserve_f2b r user_name success;
    if (added : bool) then mret tt else zoom (λ _, actor.make id) (λ _ s, s) actor.destroy
  else send_res_reserve_f2b r user_name fail_room_full.

(** [room_user_actor::on_start()], [on_stop()] *)
Definition user_on_start (r u : Z) : M state bool :=
  m ← at_member r u;
  s ← get;
  _ ← PLAY_CHECK (bool_decide (is_Some (pulse_front_ s)));
  _ ← deref (pulse_front_ s);
  _ ← update_room r (λ t, room_actor.set_members (<[u := room_user_actor.set_pulse
        (Some (fb_pulse.Pulse (room_user_actor.session_ m) [room_req_chat; room_req_leave; topic_closed])) m]>
        (room_actor.members t)) t);
  mret true.
Definition user_on_stop (r u : Z) : M state unit :=
  m ← at_member r u;
  update_room r (λ t, room_actor.set_members (<[u := room_user_actor.set_pulse None m]> (room_actor.members t)) t).

(** [do_chekin(se, req)] *)
Definition do_chekin (r id : Z) (se : option Z) (user_name : str) : M state unit :=
  t ← at_room r;
  match actor_container.find (actor_container.by_name user_name)
          (room_actor.pending_users_ t) with
  | Some _ =>
      let user := room_user_actor.State id user_name se None in
      _ ← update_room r (λ t, room_actor.set_members (<[id := user]> (room_actor.members t)) t);
      _ ← update_room r (λ t, room_actor.set_users
            (actor_container.add (H := room_actor.by_name_and_session)
               (ActorInfo id user_name (default 0%Z se) 0) (room_actor.users_ t)).2 t);
      _ ← user_on_start r id;
      t ← at_room r;
      _ ← zoom (λ _, room_actor.pending_users_ t)
            (λ p s, set_rooms (<[r := room_actor.set_pending p t]> (rooms s)) s)
            (actor_container.del (H := room_actor.by_name_only) (actor_container.by_name user_name));
      t ← at_room r;
      let names := map (λ kv, get_name kv.2) (entries_in_order (actor_container.actors_ (room_actor.users_ t))) in
      _ ← deref (room_actor.pulse_ t);
      _ ← send_to se room_res_checkin (res_checkin success names);
      mret tt
  | None =>
      _ ← deref (room_actor.pulse_ t);
      _ ← send_to se room_res_checkin (res_checkin fail_room_user_not_found []);
      mret tt
  end.

(** [broadcast(topic, obj)], [do_chat(req)] *)
Definition broadcast (r : Z) (t : topic) (o : object) : M state unit :=
  room ← at_room r;
  actor_container.for_each_actor (λ a,
    m ← at_member r (get_id a);
    _ ← send (room_user_actor.pulse_ m) t o;
    mret tt) (room_actor.users_ room).
Definition do_chat (r : Z) (message : str) : M state unit :=
  broadcast r room_syn_chat (syn_chat [] message).

(** *** room_user_actor *)

(** [fill_room_info(info)] *)
Definition fill_room_info (t : room_actor.state) : room_info :=
  RoomInfo (room_actor.name_ t) (u16 (room_actor.capacity_ t))
    (u16 (Z.of_nat (actor_container.container_size (room_actor.users_ t)))) (to_string (room_actor.uuid_ t)).

(** [send_syn_leave_f2b()] *)
Definition send_syn_leave_f2b (r u : Z) : M state unit :=
  m ← at_member r u;
  t ← at_room r;
  s ← get;
  _ ← send (pulse_back_ s) room_syn_leave_f2b (res_leave (room_user_actor.name_ m) (Some (fill_room_info t)));
  mret tt.

(** [on_req_chat], [on_req_leave], [on_closed] *)
Definition on_req_chat (r u : Z) (message : str) : M state unit :=
  m ← at_member r u;
  _ ← send (room_user_actor.pulse_ m) room_res_chat (res_chat success);
  do_chat r message.
Definition on_req_leave (r u : Z) : M state unit :=
  _ ← send_syn_leave_f2b r u;
  _ ← post_del_user r u;
  m ← at_member r u;
  t ← at_room r;
  let res := res_leave (room_user_actor.name_ m) (Some (fill_room_info t)) in
  _ ← send (room_user_actor.pulse_ m) room_res_leave res;
  s ← get;
  _ ← send (pulse_back_ s) room_res_leave res;
  mret tt.
Definition on_closed (r u : Z) : M state unit :=
  _ ← send_syn_leave_f2b r u;
  post_del_user r u.

(** *** room_runner *)

(** [on_room_req_create_b2f]: the room of the response is an empty pointer. *)
Definition on_room_req_create_b2f (id uuid : Z) (user_name : str) (room : option room_info) : M state unit :=
  info ← deref room;
  _ ← modify (λ s, set_rooms
        (<[id := room_actor.make id (info_name info) (info_capacity info) user_name uuid]> (rooms s)) s);
  _ ← room_on_start id;
  _ ← modify (λ s, set_container (actor_container.add (ActorInfo id (info_name info) 0 uuid) (rooms_ s)).2 s);
  _ ← deref (None : option room_info);
  s ← get;
  _ ← send (pulse_back_ s) room_res_create_f2b
        (res_create success [] (Some (RoomInfo (info_name info) (info_capacity info) 0 (to_string uuid))));
  mret tt.

(** [on_room_req_reserve_b2f]: a uuid that is a string is looked up as a name. *)
Definition on_room_req_reserve_b2f (id : Z) (user_name uuid : str) : M state unit :=
  s ← get;
  match actor_container.find (actor_container.by_name uuid) (rooms_ s) with
  | Some room => do_reserve (get_id room) id user_name
  | None =>
      _ ← send (pulse_back_ s) room_res_reserve_f2b
            (res_reserve fail_room_not_found user_name (Some (RoomInfo [] 0 0 uuid)));
      mret tt
  end.

(** [on_room_req_checkin] *)
Definition on_room_req_checkin (id : Z) (se : option Z) (user_name : str) (room : option room_info) : M state unit :=
  info ← deref room;
  uuid ← match from (info_uuid info) with
         | Some u => mret u
         | None => throw (std_exception $"invalid uuid string")
         end;
  s ← get;
  match actor_container.find (actor_container.by_uuid uuid) (rooms_ s) with
  | Some room => do_chekin (get_id room) id se user_name
  | None =>
      _ ← send (pulse_front_ s) room_res_checkin (res_checkin fail_room_not_found []);
      mret tt
  end.
End room_runner.
End room_runner.

(** ** Lemmas *)
Section facts.
Context `{Build} (ok : Z → bool) (to_string : Z → str) (from : str → option Z).
Import room_runner.
Implicit Types (s : room_runner.state) (t : room_actor.state).

Lemma container_add_size {C : actor_container.Config} a (c : actor_container.state) :
  actor_container.container_size (actor_container.add a c).2
  = if (actor_container.add a c).1 then S (actor_container.container_size c) else actor_container.container_size c.
Proof.
  unfold actor_container.add, actor_container.container_size.
  destruct (actor_container.actors_ c !! get_id a) eqn:Hl; [done|]. simpl. by rewrite map_size_insert_None.
Qed.

Lemma container_find_iter k (c : actor_container.state) a :
  actor_container.find k c = Some a →
  ∃ id, actor_container.find_iter k c = Some id ∧ actor_container.actors_ c !! id = Some a.
Proof. unfold actor_container.find. destruct (actor_container.find_iter k c); [|done]. by eexists. Qed.

Lemma at_room_run s r t : rooms s !! r = Some t → at_room r s = (Ret t, s).
Proof. intros Ht. unfold at_room. run. by rewrite Ht. Qed.

Lemma update_room_run s r t f :
  rooms s !! r = Some t → update_room r f s = (Ret tt, set_rooms (<[r := f t]> (rooms s)) s).
Proof. intros Ht. unfold update_room. by rewrite (bind_run _ _ _ _ _ (at_room_run _ _ _ Ht)). Qed.

(** Checking in with a reservation: the user is in the room, the reservation gone, and the
    erased entry read. *)
Lemma checkin_run s r t id se name a :
  rooms s !! r = Some t → is_Some (pulse_front_ s) →
  actor_container.find (actor_container.by_name name) (room_actor.pending_users_ t) = Some a →
  ∃ s' t' i, do_chekin ok r id se name s = (Undefined, s') ∧ pulse_front_ s' = pulse_front_ s ∧
    rooms s' = <[r := t']> (rooms s) ∧ room_actor.capacity_ t' = room_actor.capacity_ t ∧
    room_actor.users_ t' = (actor_container.add (H := room_actor.by_name_and_session)
      (ActorInfo id name (default 0%Z se) 0) (room_actor.users_ t)).2 ∧
    actor_container.actors_ (room_actor.pending_users_ t) !! i = Some a ∧
    actor_container.actors_ (room_actor.pending_users_ t')
      = delete i (actor_container.actors_ (room_actor.pending_users_ t)).
Proof.
  intros Ht [front Hf] Ha. destruct (container_find_iter _ _ _ Ha) as (i & Hi & Hia).
  set (u := room_user_actor.State id name se None).
  set (t1 := room_actor.set_members (<[id := u]> (room_actor.members t)) t).
  set (s1 := set_rooms (<[r := t1]> (rooms s)) s).
  set (t2 := room_actor.set_users (actor_container.add (H := room_actor.by_name_and_session)
    (ActorInfo id name (default 0%Z se) 0) (room_actor.users_ t)).2 t1).
  set (s2 := set_rooms (<[r := t2]> (rooms s1)) s1).
  assert (rooms s1 !! r = Some t1) as Ht1 by apply lookup_insert_eq.
  assert (rooms s2 !! r = Some t2) as Ht2 by apply lookup_insert_eq.
  assert (at_member r id s2 = (Ret u, s2)) as Hm.
  { unfold at_member. rewrite (bind_run _ _ _ _ _ (at_room_run _ _ _ Ht2)). simpl.
    by rewrite lookup_insert_eq. }
  set (t3 := room_actor.set_members (<[id := room_user_actor.set_pulse
    (Some (fb_pulse.Pulse se [room_req_chat; room_req_leave; topic_closed])) u]> (room_actor.members t2)) t2).
  set (s3 := set_rooms (<[r := t3]> (rooms s2)) s2).
  assert (user_on_start r id s2 = (Ret true, s3)) as Hstart.
  { unfold user_on_start. rewrite (bind_run _ _ _ _ _ Hm), (bind_run _ _ s2 s2 s2) by done.
    assert (pulse_front_ s2 = Some front) as -> by done.
    rewrite (bind_run _ _ s2 tt s2) by (by apply check_true). rewrite (bind_run _ _ s2 front s2) by done.
    by rewrite (bind_run _ _ _ _ _ (update_room_run _ _ _ _ Ht2)). }
  assert (rooms s3 !! r = Some t3) as Ht3 by apply lookup_insert_eq.
  set (p := room_actor.pending_users_ t) in *.
  set (t4 := room_actor.set_pending (actor_container.State (delete i (actor_container.actors_ p))
    (actor_container.index_name p) (actor_container.index_session p) (actor_container.index_uuid p)) t3).
  exists (set_rooms (<[r := t4]> (rooms s3)) s3), t4, i. split_and!; try done.
  - unfold do_chekin. rewrite (bind_run _ _ _ _ _ (at_room_run _ _ _ Ht)). fold p. rewrite Ha.
    rewrite (bind_run _ _ _ _ _ (update_room_run _ _ _ _ Ht)).
    rewrite (bind_run _ _ _ _ _ (update_room_run _ _ _ _ Ht1)).
    rewrite (bind_run _ _ _ _ _ Hstart), (bind_run _ _ _ _ _ (at_room_run _ _ _ Ht3)).
    rewrite (bind_stop _ _ s3 Undefined (set_rooms (<[r := t4]> (rooms s3)) s3)); [done| |done].
    unfold zoom. change (room_actor.pending_users_ t3) with p.
    by rewrite (del_found (H := room_actor.by_name_only) _ p i).
  - simpl. by rewrite !insert_insert_eq.
Qed.

(** No room has more users and reservations than seats. *)
Definition room_ok t : Prop := (Z.of_nat (seats t) ≤ Z.max 0 (room_actor.capacity_ t))%Z.
Definition rooms_ok s : Prop :=
  is_Some (pulse_front_ s) ∧ ∀ r t, rooms s !! r = Some t → room_ok t.

Lemma rooms_ok_insert s r t : rooms_ok s → room_ok t → rooms_ok (set_rooms (<[r := t]> (rooms s)) s).
Proof.
  intros [Hf Hs] Ht. split; [done|]. intros r' t' Hr'. simpl in Hr'.
  destruct (decide (r' = r)) as [->|Hne]; [rewrite lookup_insert_eq in Hr'; by simplify_eq|].
  rewrite lookup_insert_ne in Hr' by done. by apply (Hs r').
Qed.

Lemma preserves_at_room {A} r (f : room_actor.state → M room_runner.state A) :
  (∀ s t, rooms_ok s → rooms s !! r = Some t → rooms_ok (f t s).2) → preserves rooms_ok (t ← at_room r; f t).
Proof.
  intros Hf s Hs. destruct (rooms s !! r) as [t|] eqn:Ht.
  - rewrite (bind_run _ _ _ _ _ (at_room_run _ _ _ Ht)). by apply Hf.
  - assert (at_room r s = (Undefined, s)) as Hr by (unfold at_room; run; by rewrite Ht).
    by rewrite (bind_stop _ _ _ _ _ Hr).
Qed.

Lemma preserves_read_room r : preserves rooms_ok (at_room r).
Proof. unfold at_room. preserve. Qed.

Lemma preserves_update_room r f : (∀ t, room_ok t → room_ok (f t)) → preserves rooms_ok (update_room r f).
Proof.
  intros Hf. unfold update_room. apply preserves_at_room. intros s t Hs Ht. simpl.
  apply rooms_ok_insert; [done|]. apply Hf. by apply (proj2 Hs r).
Qed.

Lemma preserves_room_send p tp o : preserves rooms_ok (send ok p tp o).
Proof. apply fb_pulse.preserves_send. intros e s Hs. exact Hs. Qed.
Lemma preserves_room_send_to se tp o : preserves rooms_ok (send_to ok se tp o).
Proof. apply fb_pulse.preserves_send_to. intros e s Hs. exact Hs. Qed.
#[local] Hint Resolve preserves_read_room preserves_room_send preserves_room_send_to : play.

Lemma preserves_read_member r u : preserves rooms_ok (at_member r u).
Proof. unfold at_member. preserve. Qed.
#[local] Hint Resolve preserves_read_member : play.

Lemma preserves_send_res r name ec : preserves rooms_ok (send_res_reserve_f2b ok to_string r name ec).
Proof. unfold send_res_reserve_f2b. preserve. Qed.
#[local] Hint Resolve preserves_send_res : play.

(** Deleting never adds. *)
Lemma container_del_size {C : actor_container.Config} k (c : actor_container.state) :
  actor_container.container_size (actor_container.del k c).2 ≤ actor_container.container_size c.
Proof.
  assert (preserves (λ c', actor_container.container_size c' ≤ actor_container.container_size c)
    (actor_container.del k)) as Hdel; [|exact (Hdel c (le_n _))].
  unfold actor_container.del, actor_container.second. preserve.
  all: intros c' Hc'; unfold actor_container.container_size in *; simpl in *; try done.
  etrans; [|exact Hc']. apply map_subseteq_size, delete_subseteq.
Qed.

Lemma preserves_room_del r id : preserves rooms_ok (del_user r id).
Proof.
  unfold del_user. apply preserves_at_room. intros s t Hs Ht. unfold zoom.
  pose proof (container_del_size (C := room_actor.by_name_and_session) (actor_container.by_id id) (room_actor.users_ t)) as Hsz.
  destruct (actor_container.del _ _) as [o u] eqn:E. simpl in *. apply rooms_ok_insert; [done|].
  pose proof (proj2 Hs r t Ht) as Hok. unfold room_ok, seats in *. simpl. lia.
Qed.

Lemma preserves_reserve r id name : preserves rooms_ok (do_reserve ok to_string r id name).
Proof.
  unfold do_reserve. apply preserves_at_room. intros s t Hs Ht.
  destruct (Z.ltb_spec (Z.of_nat (seats t)) (room_actor.capacity_ t)) as [Hlt|]; [|by apply preserves_send_res].
  pose proof (container_add_size (C := room_actor.by_name_only) (ActorInfo id name 0 0) (room_actor.pending_users_ t)) as Hsz.
  destruct (actor_container.add _ _) as [added p] eqn:E. simpl in Hsz.
  rewrite (bind_run _ _ _ _ _ (update_room_run _ _ _ _ Ht)). set (s1 := set_rooms _ s).
  assert (rooms_ok s1) as Hs1.
  { apply rooms_ok_insert; [done|]. unfold room_ok, seats in *. simpl. rewrite Hsz. destruct added; lia. }
  clearbody s1. revert s1 Hs1. change (preserves rooms_ok (_ ← send_res_reserve_f2b ok to_string r name success;
    if added then mret tt else zoom (λ _, actor.make id) (λ _ s, s) actor.destroy)).
  preserve.
Qed.

Lemma preserves_checkin r id se name : preserves rooms_ok (do_chekin ok r id se name).
Proof.
  intros s Hs. destruct (rooms s !! r) as [t|] eqn:Ht.
  2:{ unfold do_chekin. assert (at_room r s = (Undefined, s)) as Hr by (unfold at_room; run; by rewrite Ht).
      by rewrite (bind_stop _ _ _ _ _ Hr). }
  destruct (actor_container.find (actor_container.by_name name) (room_actor.pending_users_ t)) as [a|] eqn:Ha.
  - destruct (checkin_run s r t id se name a Ht (proj1 Hs) Ha) as (s' & t' & i & -> & Hf & Hr & Hc & Hu & Hi & Hp).
    simpl. split; [rewrite Hf; by apply Hs|]. rewrite Hr. intros r' t0 Hr'.
    destruct (decide (r' = r)) as [->|Hne]; [|rewrite lookup_insert_ne in Hr' by done; by apply (proj2 Hs r')].
    rewrite lookup_insert_eq in Hr'. injection Hr' as <-.
    pose proof (proj2 Hs r t Ht) as Hok. unfold room_ok, seats in *. rewrite Hc, Hu, container_add_size.
    unfold actor_container.container_size in *. rewrite Hp, map_size_delete_Some by (by eexists).
    assert (size (actor_container.actors_ (room_actor.pending_users_ t)) ≠ 0).
    { intros Hz%map_size_empty_inv. by rewrite Hz, lookup_empty in Hi. }
    destruct (actor_container.add _ _).1; lia.
  - unfold do_chekin. rewrite (bind_run _ _ _ _ _ (at_room_run _ _ _ Ht)), Ha.
    assert (preserves rooms_ok (_ ← deref (room_actor.pulse_ t);
      _ ← send_to ok se room_res_checkin (res_checkin fail_room_user_not_found []); mret tt)) as Hp by preserve.
    by apply Hp.
Qed.
#[local] Hint Resolve preserves_room_del preserves_reserve preserves_checkin : play.

(** The operations of a running service, and those of its rooms and users. *)
Inductive room_op :=
  | established (se : option Z)
  | create_request (id uuid : Z) (user_name : str) (room : option room_info)
  | reserve_request (id : Z) (user_name uuid : str)
  | checkin_request (id : Z) (se : option Z) (user_name : str) (room : option room_info)
  | chat (r u : Z) (message : str)
  | leave (r u : Z)
  | closed (r u : Z)
  | deletion (r : Z)
  | stop_room (r : Z)
  | stop_user (r u : Z).
Definition run_op (op : room_op) : M room_runner.state unit :=
  match op with
  | established se => on_established_back se
  | create_request id uuid name room => on_room_req_create_b2f ok to_string id uuid name room
  | reserve_request id name uuid => on_room_req_reserve_b2f ok to_string id name uuid
  | checkin_request id se name room => on_room_req_checkin ok from id se name room
  | chat r u m => on_req_chat ok r u m
  | leave r u => on_req_leave ok to_string r u
  | closed r u => on_closed ok to_string r u
  | deletion r => run_posted r
  | stop_room r => room_on_stop r
  | stop_user r u => user_on_stop r u
  end.

Lemma preserves_broadcast r tp o : preserves rooms_ok (broadcast ok r tp o).
Proof. unfold broadcast, actor_container.for_each_actor. preserve. Qed.
Lemma preserves_syn_leave r u : preserves rooms_ok (send_syn_leave_f2b ok to_string r u).
Proof. unfold send_syn_leave_f2b. preserve. Qed.
Lemma preserves_post_del r u : preserves rooms_ok (post_del_user r u).
Proof. unfold post_del_user. preserve. by apply preserves_update_room. Qed.
#[local] Hint Resolve preserves_broadcast preserves_syn_leave preserves_post_del : play.

Lemma preserves_run_op op : preserves rooms_ok (run_op op).
Proof.
  destruct op; simpl; unfold on_room_req_reserve_b2f, on_room_req_checkin, on_req_chat, do_chat, on_req_leave,
    on_closed, run_posted, room_on_stop, user_on_stop.
  - unfold on_established_back. preserve; by intros s Hs.
  - unfold on_room_req_create_b2f, room_on_start. preserve; [..|by apply preserves_update_room|]; intros s Hs.
    + apply (rooms_ok_insert s); [done|]. unfold room_ok, seats. simpl.
      change (actor_container.container_size actor_container.make) with 0. lia.
    + exact Hs.
  - preserve.
  - preserve.
  - preserve.
  - preserve.
  - preserve.
  - preserve; by apply preserves_update_room.
  - by apply preserves_update_room.
  - preserve; by apply preserves_update_room.
Qed.

(** A reservation with the back online. *)
Lemma reserve_run s r t id name b subs :
  rooms s !! r = Some t → pulse_back_ s = Some (fb_pulse.Pulse (Some b) subs) →
  actor_container.actors_ (room_actor.pending_users_ t) !! id = None →
  let free := bool_decide (Z.of_nat (seats t) < room_actor.capacity_ t)%Z in
  ∃ s' t', do_reserve ok to_string r id name s = (Ret tt, s') ∧ pulse_back_ s' = pulse_back_ s ∧
    rooms s' !! r = Some t' ∧ room_actor.capacity_ t' = room_actor.capacity_ t ∧
    room_actor.uuid_ t' = room_actor.uuid_ t ∧ seats t' = (if free then S (seats t) else seats t) ∧
    (∀ i, i ≠ id → actor_container.actors_ (room_actor.pending_users_ t') !! i
      = actor_container.actors_ (room_actor.pending_users_ t) !! i) ∧
    out s' = out s ++ [fb_pulse.sent b room_res_reserve_f2b (res_reserve (if free then success else fail_room_full)
      name (Some (RoomInfo [] (u16 (room_actor.capacity_ t)) (u16 (Z.of_nat (seats t')))
        (to_string (room_actor.uuid_ t)))))].
Proof.
  intros Ht Hb Hid free. unfold do_reserve. rewrite (bind_run _ _ _ _ _ (at_room_run _ _ _ Ht)).
  assert (∀ s1 t1 ec, rooms s1 !! r = Some t1 → pulse_back_ s1 = pulse_back_ s →
    send_res_reserve_f2b ok to_string r name ec s1 = (Ret tt, log (fb_pulse.sent b room_res_reserve_f2b
      (res_reserve ec name (Some (RoomInfo [] (u16 (room_actor.capacity_ t1)) (u16 (Z.of_nat (seats t1)))
        (to_string (room_actor.uuid_ t1)))))) s1)) as Hsend.
  { intros s1 t1 ec Ht1 Hb1. unfold send_res_reserve_f2b. rewrite (bind_run _ _ _ _ _ (at_room_run _ _ _ Ht1)).
    rewrite (bind_run _ _ s1 s1 s1) by done. rewrite Hb1, Hb. done. }
  unfold free. destruct (Z.ltb_spec (Z.of_nat (seats t)) (room_actor.capacity_ t)).
  - rewrite bool_decide_true by done.
    pose proof (container_add_size (C := room_actor.by_name_only) (ActorInfo id name 0 0) (room_actor.pending_users_ t)) as Hsz.
    assert ((actor_container.add (H := room_actor.by_name_only) (ActorInfo id name 0 0) (room_actor.pending_users_ t)).1 = true
      ∧ actor_container.actors_ (actor_container.add (H := room_actor.by_name_only) (ActorInfo id name 0 0)
          (room_actor.pending_users_ t)).2
        = <[id := ActorInfo id name 0 0]> (actor_container.actors_ (room_actor.pending_users_ t))) as [Hadded Hacts]
      by (unfold actor_container.add; simpl; by rewrite Hid).
    destruct (actor_container.add _ _) as [added p] eqn:E. simpl in Hsz, Hadded, Hacts. subst added.
    rewrite (bind_run _ _ _ _ _ (update_room_run _ _ _ _ Ht)). set (s1 := set_rooms _ s).
    set (t1 := room_actor.set_pending p (room_actor.set_members
      (<[id := room_user_actor.State id name None None]> (room_actor.members t)) t)).
    assert (rooms s1 !! r = Some t1) as Ht1 by apply lookup_insert_eq.
    rewrite (bind_run _ _ _ _ _ (Hsend s1 t1 success Ht1 eq_refl)).
    eexists _, t1. split_and!; try done.
    + unfold seats. simpl. lia.
    + intros i Hi. simpl. by rewrite Hacts, lookup_insert_ne.
  - rewrite bool_decide_false by lia. rewrite (Hsend s t fail_room_full Ht eq_refl). by eexists _, t.
Qed.

(** A number of reservations, each by a new actor. *)
Lemma reserve_all l s r t b subs :
  rooms s !! r = Some t → pulse_back_ s = Some (fb_pulse.Pulse (Some b) subs) → NoDup (map fst l) →
  (∀ id, id ∈ map fst l → actor_container.actors_ (room_actor.pending_users_ t) !! id = None) →
  let free := Z.to_nat (room_actor.capacity_ t - Z.of_nat (seats t)) in
  ∃ s' t', for_each l (λ rq, do_reserve ok to_string r rq.1 rq.2) s = (Ret tt, s') ∧ rooms s' !! r = Some t' ∧
    seats t' = seats t + min (length l) free ∧
    out s' = out s ++ imap (λ k rq, fb_pulse.sent b room_res_reserve_f2b
      (res_reserve (if k <? free then success else fail_room_full) rq.2
        (Some (RoomInfo [] (u16 (room_actor.capacity_ t)) (u16 (Z.of_nat (seats t + min (S k) free)))
          (to_string (room_actor.uuid_ t)))))) l.
Proof.
  revert s t. induction l as [|[id name] l IH]; intros s t Ht Hb Hnd Hnew free.
  { exists s, t. rewrite app_nil_r, Nat.min_0_l, Nat.add_0_r. done. }
  simpl in Hnd. apply NoDup_cons in Hnd as [Hid Hnd].
  destruct (reserve_run s r t id name b subs Ht Hb) as (s1 & t1 & R1 & B1 & Ht1 & C1 & U1 & S1 & P1 & E1).
  { apply Hnew. by left. }
  destruct (IH s1 t1 Ht1 ltac:(by rewrite B1) Hnd) as (s2 & t2 & R2 & Ht2 & S2 & E2).
  { intros i Hi. rewrite P1 by (intros ->; done). apply Hnew. by right. }
  exists s2, t2. cbn [for_each]. rewrite (bind_run _ _ _ _ _ R1).
  rewrite C1 in S2, E2.
  assert (Z.to_nat (room_actor.capacity_ t - Z.of_nat (seats t1)) = free - 1) as Hfree.
  { unfold free. rewrite S1. case_bool_decide; lia. }
  assert (seats t1 = seats t + min 1 free) as Hseats by (unfold free; rewrite S1; case_bool_decide; lia).
  split_and!; [exact R2|exact Ht2| |].
  - rewrite S2, Hfree, Hseats. simpl length. lia.
  - rewrite E2, E1, <-(assoc_L app), U1, Hfree. f_equal. cbn [imap app]. f_equal.
    + rewrite Hseats. replace (0 <? free) with (bool_decide (Z.of_nat (seats t) < room_actor.capacity_ t)%Z); [done|].
      unfold free. case_bool_decide; symmetry; [apply Nat.ltb_lt|apply Nat.ltb_ge]; lia.
    + apply imap_ext. intros k rq _. cbv beta. unfold compose. rewrite Hseats.
      replace (k <? free - 1) with (S k <? free) by (destruct (Nat.ltb_spec (S k) free), (Nat.ltb_spec k (free - 1)); lia).
      by replace (seats t + min 1 free + min (S k) (free - 1)) with (seats t + min (S (S k)) free) by lia.
Qed.

(** The operations of a service, one after the other, each handler ending as it may. *)
Definition run_ops (ops : list room_op) s : room_runner.state := fold_left (λ s op, (run_op op s).2) ops s.

Lemma run_ops_ok ops s : rooms_ok s → rooms_ok (run_ops ops s).
Proof.
  revert s. induction ops as [|op ops IH]; intros s Hs; [done|]. apply IH. by apply preserves_run_op.
Qed.

(** The front of a request without a session. *)
Lemma checkin_unknown s id se name info uuid subs :
  pulse_front_ s = Some (fb_pulse.Pulse None subs) → from (info_uuid info) = Some uuid →
  actor_container.find (actor_container.by_uuid uuid) (rooms_ s) = None →
  (on_room_req_checkin ok from id se name (Some info) s).1 = if assertions then Aborted else Undefined.
Proof.
  intros Hf Hu Hr. unfold on_room_req_checkin. rewrite (bind_run _ _ s info s) by done. rewrite Hu.
  rewrite (bind_run _ _ s uuid s) by done. rewrite (bind_run _ _ s s s) by done. rewrite Hr, Hf.
  pose proof (fb_pulse.send_no_session log ok subs room_res_checkin (res_checkin fail_room_not_found []) s) as Hs.
  unfold send. destruct (fb_pulse.send log ok _ _ _ s) as [o s'] eqn:E. simpl in Hs. subst o.
  unfold mbind, M_bind. rewrite E. by destruct assertions.
Qed.
(** Creating a room ends at the empty pointer of the response. *)
Lemma create_undefined s id uuid name info :
  is_Some (pulse_front_ s) → (on_room_req_create_b2f ok to_string id uuid name (Some info) s).1 = Undefined.
Proof.
  intros [front Hf]. unfold on_room_req_create_b2f. rewrite (bind_run _ _ s info s) by done.
  set (t := room_actor.make id (info_name info) (info_capacity info) name uuid).
  set (s1 := set_rooms (<[id := t]> (rooms s)) s). rewrite (bind_run _ _ s tt s1) by done.
  set (s2 := set_rooms (<[id := room_actor.set_pulse (Some (fb_pulse.Pulse None [])) t]> (rooms s1)) s1).
  rewrite (bind_run _ _ s1 true s2); [done|]. unfold room_on_start. rewrite (bind_run _ _ s1 s1 s1) by done.
  assert (pulse_front_ s1 = Some front) as -> by done.
  rewrite (bind_run _ _ s1 tt s1) by (by apply check_true). rewrite (bind_run _ _ s1 front s1) by done.
  rewrite (bind_run _ _ s1 tt s2); [done|]. apply (update_room_run s1 id t). apply lookup_insert_eq.
Qed.

(** A request to the master, without and with a runner. *)
Lemma master_unanswered name info :
  let m := (room_master.on_start room_master.make).2 in
  (room_master.on_room_req_create_f2b ok name (Some info) m).1 = (if assertions then Aborted else Undefined) ∧
  ∀ runner addr, let m1 := (room_master.on_room_syn_runner_up (Some runner) addr m).2 in
    room_master.on_room_req_create_f2b ok name (Some info) m1 = (Ret tt, m1).
Proof.
  intros m. split.
  - unfold room_master.on_room_req_create_f2b. rewrite (bind_run _ _ m m m) by done. rewrite decide_True by done.
    pose proof (fb_pulse.send_no_session room_master.log ok (fb_pulse.subs_ (default (fb_pulse.Pulse None []) (room_master.pulse_ m)))
      room_res_create_b2f (res_create fail_room_runner_not_found name (Some info)) m) as Hs.
    unfold mbind, M_bind. simpl room_master.pulse_ in *. simpl fb_pulse.subs_ in Hs.
    destruct (fb_pulse.send _ _ _ _ _ m) as [o m']. simpl in Hs. subst o. by destruct assertions.
  - intros runner addr m1. unfold room_master.on_room_req_create_f2b. rewrite (bind_run _ _ m1 m1 m1) by done.
    assert (room_master.room_runners_ m1 = <[runner := room_runner_property.make addr (Some runner)]> ∅) as Hm by done.
    rewrite decide_False by (rewrite Hm; apply insert_non_empty). apply check_true.
    rewrite merge_sort_Permutation. unfold entries_in_order. rewrite merge_sort_Permutation.
    by rewrite Hm, map_to_list_insert, map_to_list_empty.
Qed.
End facts.

(** ** Properties *)

(** C24. Seats.  Whatever requests a running [room_runner] and its rooms handle, in any
    order and however each handler ends, no room ever has more users and
    reservations together than its capacity.  Reservations of different users are
    accepted while there are seats and refused after that, and each answer goes to the
    back with the number of seats taken. *)
Theorem room_seats `{Build} (ok : Z → bool) (to_string : Z → str) (from : str → option Z)
    (ops : list room_op) (s : room_runner.state) :
  rooms_ok s →
  let s1 := run_ops ok to_string from ops s in
  rooms_ok s1 ∧
  ∀ r t b subs l, room_runner.rooms s1 !! r = Some t →
    room_runner.pulse_back_ s1 = Some (fb_pulse.Pulse (Some b) subs) → NoDup (map fst l) →
    (∀ id, id ∈ map fst l → actor_container.actors_ (room_actor.pending_users_ t) !! id = None) →
    let free := Z.to_nat (room_actor.capacity_ t - Z.of_nat (room_runner.seats t)) in
    ∃ s2 t2, for_each l (λ rq, room_runner.do_reserve ok to_string r rq.1 rq.2) s1 = (Ret tt, s2) ∧
      room_runner.rooms s2 !! r = Some t2 ∧
      room_runner.seats t2 = room_runner.seats t + min (length l) free ∧
      room_runner.out s2 = room_runner.out s1 ++ imap (λ k rq, fb_pulse.sent b room_res_reserve_f2b
        (res_reserve (if k <? free then success else fail_room_full) rq.2
          (Some (RoomInfo [] (u16 (room_actor.capacity_ t)) (u16 (Z.of_nat (room_runner.seats t + min (S k) free)))
            (to_string (room_actor.uuid_ t)))))) l.
Proof.
  intros Hs s1. split; [by apply run_ops_ok|]. intros r t b subs l Ht Hb Hnd Hnew free.
  by apply (reserve_all ok to_string l s1 r t b subs).
Qed.

(** A service with one room of two seats. *)
Definition example_rooms : room_runner.state :=
  room_runner.set_rooms {[1%Z := room_actor.set_pulse (Some (fb_pulse.Pulse None []))
                                   (room_actor.make 1 $"lounge" 2 $"hulk" 77)]}
    (room_runner.on_established_back (Some 5%Z) (room_runner.on_start room_runner.make).2).2.

(** Three reservations for two seats. *)
Lemma room_seats_witness :
  let _ := debug_build in
  let ok (se : Z) := true in
  let s1 := run_ops ok (λ _, []) (λ _, None) [established (Some 6%Z)] example_rooms in
  ∃ s2, for_each [(11%Z, $"a"); (12%Z, $"b"); (13%Z, $"c")]
      (λ rq, room_runner.do_reserve ok (λ _, []) 1 rq.1 rq.2) s1 = (Ret tt, s2) ∧
    map (λ e, match e with
              | fb_pulse.sent _ _ (res_reserve ec name _) => Some (ec, name)
              | _ => None
              end) (room_runner.out s2)
    = [Some (success, $"a"); Some (success, $"b"); Some (fail_room_full, $"c")].
Proof.
  intros d ok s1.
  destruct (room_seats ok (λ _, []) (λ _, None) [established (Some 6%Z)] example_rooms) as [_ Hall].
  - split; [by eexists|]. intros r t Hr. unfold example_rooms in Hr. simpl in Hr. apply lookup_singleton_Some in Hr as [_ <-].
    unfold room_ok. vm_compute. discriminate.
  - destruct (Hall 1%Z (room_actor.set_pulse (Some (fb_pulse.Pulse None [])) (room_actor.make 1 $"lounge" 2 $"hulk" 77)) 6%Z
      [topic_estalished; room_req_create_b2f; room_req_reserve_b2f]
      [(11%Z, $"a"); (12%Z, $"b"); (13%Z, $"c")]) as (s2 & t2 & R2 & _ & _ & E2).
    + reflexivity.
    + reflexivity.
    + apply (bool_decide_unpack _). vm_compute. exact I.
    + intros id _. reflexivity.
    + exists s2. split; [exact R2|]. rewrite E2. reflexivity.
Defined.

(** What goes wrong with rooms.  Checking in with a reservation reads the erased
    entry of the reservation; checking in to a room nobody has is answered on a pulse
    without a session; a room made for the back is answered through an empty pointer; a
    reservation by uuid does not find the room of that uuid, since a string is looked up
    as a name; and [room_master] answers a request to create a room on a pulse
    without a session, or, once a runner is up, not at all. *)
Theorem room_hazards `{Build} (ok : Z → bool) (to_string : Z → str) (from : str → option Z)
    (s : room_runner.state) (acc : list actor_info) (id uuid b : Z) (se : option Z) (name : str) (info : room_info)
    (subs back : list topic) :
  room_runner.pulse_front_ s = Some (fb_pulse.Pulse None subs) →
  room_runner.pulse_back_ s = Some (fb_pulse.Pulse (Some b) back) →
  holds_actors (H := room_runner.config) acc (room_runner.rooms_ s) →
  let failed := if assertions then Aborted else Undefined in
  (∀ r t a, room_runner.rooms s !! r = Some t →
     actor_container.find (actor_container.by_name name) (room_actor.pending_users_ t) = Some a →
     (room_runner.do_chekin ok r id se name s).1 = Undefined) ∧
  (from (info_uuid info) = Some uuid → uuid ∉ map get_uuid acc →
     (room_runner.on_room_req_checkin ok from id se name (Some info) s).1 = failed) ∧
  (room_runner.on_room_req_create_b2f ok to_string id uuid name (Some info) s).1 = Undefined ∧
  (∀ a, a ∈ acc → to_string (get_uuid a) ∉ map get_name acc →
     room_runner.on_room_req_reserve_b2f ok to_string id name (to_string (get_uuid a)) s
     = (Ret tt, room_runner.log (fb_pulse.sent b room_res_reserve_f2b (res_reserve fail_room_not_found name
         (Some (RoomInfo [] 0 0 (to_string (get_uuid a)))))) s)) ∧
  let m := (room_master.on_start room_master.make).2 in
  (room_master.on_room_req_create_f2b ok name (Some info) m).1 = failed ∧
  ∀ runner addr, let m1 := (room_master.on_room_syn_runner_up (Some runner) addr m).2 in
    room_master.on_room_req_create_f2b ok name (Some info) m1 = (Ret tt, m1).
Proof.
  intros Hf Hb Hacc failed. split_and!.
  - intros r t a Ht Ha. destruct (checkin_run ok s r t id se name a Ht ltac:(by eexists) Ha) as (s' & ? & ? & -> & _).
    done.
  - intros Hu Hn. apply (checkin_unknown ok from s id se name info uuid subs Hf Hu).
    rewrite (find_spec (H := room_runner.config) acc _ _ Hacc) by done.
    destruct (head _) as [a|] eqn:Ha; [|done]. apply head_filter_Some in Ha as [Ha Hin]. simpl in Ha.
    destruct Hn. rewrite <-Ha. by apply list_elem_of_fmap_2.
  - apply create_undefined. by eexists.
  - intros a Ha Hn. unfold room_runner.on_room_req_reserve_b2f. rewrite (bind_run _ _ s s s) by done.
    rewrite (find_spec (H := room_runner.config) acc _ _ Hacc) by done.
    destruct (head _) as [x|] eqn:Hx.
    + apply head_filter_Some in Hx as [Hx Hin]. simpl in Hx. destruct Hn. rewrite <-Hx. by apply list_elem_of_fmap_2.
    + by rewrite Hb.
  - apply master_unanswered.
Qed.

(** The example, with a reservation. *)
Lemma room_hazards_witness :
  let _ := debug_build in
  let ok (se : Z) := true in
  let s := (room_runner.do_reserve ok (λ _, []) 1 11 $"a" example_rooms).2 in
  (room_runner.do_chekin ok 1 12 (Some 3%Z) $"a" s).1 = Undefined.
Proof.
  intros d ok s.
  destruct (room_hazards ok (λ _, []) (λ _, None) s [] 12 0 5 (Some 3%Z) $"a" (RoomInfo [] 0 0 [])
    [room_req_checkin] [topic_estalished; room_req_create_b2f; room_req_reserve_b2f]) as [Hcheckin _].
  - reflexivity.
  - reflexivity.
  - apply (holds_actors_make (H := room_runner.config)).
  - destruct (room_runner.rooms s !! 1%Z) as [t|] eqn:Ht; [|vm_compute in Ht; discriminate].
    apply (Hcheckin 1%Z t (ActorInfo 11 $"a" 0 0) Ht).
    vm_compute in Ht. injection Ht as <-. vm_compute. reflexivity.
Defined.
