(* ===== verification/AlphaApp.v ===== *)
(** * play/sample/alpha/app/app: the sample application

    Starting and stopping the application: its two pulses, its services and their
    pulses, over [Pulse] and [App].  The pulses of the application are at the
    addresses 1 ([pulse_]) and 2 ([pulse_back_]), and services are named by the order
    in which they are made.  What the services do with requests is in [AlphaLogin] and
    [AlphaRooms]. *)

From S2P Require Import Prelude.
From S2P Require Import Serializer.
From S2P Require Import StringUtil.
From S2P Require Import App.
From S2P Require Import Json.
From S2P Require Import Pulse.
From S2P Require Import PulseTree.
From S2P Require Import PulseCalls.
From S2P Require Import Bot.
From S2P Require Import AlphaNet.
From S2P Require Import AlphaLogin.
From S2P Require Import AlphaRooms.

(** The numbers of the topics. *)
Definition number (t : topic) : Z :=
  match t with
  | topic_estalished => 1 | topic_closed => 2
  | auth_req_login => 201 | auth_req_login_f2b => 202 | auth_syn_login_b2f => 203 | auth_res_login => 204
  | auth_req_logout => 205 | auth_req_logout_f2b => 206 | auth_syn_logout_b2f => 207
  | auth_res_logout_b2f => 208 | auth_res_logout => 209
  | room_syn_runner_up => 301
  | room_req_create => 302 | room_req_create_f2b => 303 | room_req_create_b2f => 304
  | room_res_create_f2b => 305 | room_res_create_b2f => 306 | room_res_create => 307
  | room_req_page => 308 | room_req_page_f2b => 309 | room_res_page_b2f => 310 | room_res_page => 311
  | room_req_reserve => 312 | room_req_reserve_f2b => 313 | room_req_reserve_b2f => 314
  | room_res_reserve_f2b => 315 | room_res_reserve_b2f => 316 | room_res_reserve => 317
  | room_req_checkin => 318 | room_res_checkin => 319 | room_req_chat => 320 | room_res_chat => 321
  | room_syn_chat => 322 | room_req_leave => 323 | room_syn_leave_f2b => 324 | room_res_leave => 325
  end.

Module alpha_app.
(** The types of services; for the order of their [type_index] the one given here is
    taken. *)
Inductive service_kind := lobby_runner_t | room_master_t | room_runner_t | user_master_t.
Definition type_index (k : service_kind) : Z :=
  match k with lobby_runner_t => 1 | room_master_t => 2 | room_runner_t => 3 | user_master_t => 4 end.

Section alpha_app.
Context `{Build} `{Json}.
(** The hardware, the parsed files, the identifiers of the services, what starting the
    server and the client answers, and whether a [shared_ptr] owns the application. *)
Context (hardware_concurrency : Z) (file : str → option json) (service_id : service_kind → nat)
  (server_ok client_ok shared : bool).

(** A service: its type and the pulses it owns. *)
Record service := Service { kind : service_kind; pulse_front : option nat; pulse_back : option nat }.

(** The data members; [runner_] says whether the runner was stopped. *)
Record state := State {
  world_ : pulse.world (frame := object);
  next_pulse : nat;
  objects : list service;
  base : app.state;
  config_file_ : str;
  jconf_ : json;
  runner_ : option bool;
  role_ : str;
  stop_ : bool
}.
Definition set_world (w : pulse.world) (s : state) : state :=
  State w (next_pulse s) (objects s) (base s) (config_file_ s) (jconf_ s) (runner_ s) (role_ s) (stop_ s).
Definition set_next (n : nat) (s : state) : state :=
  State (world_ s) n (objects s) (base s) (config_file_ s) (jconf_ s) (runner_ s) (role_ s) (stop_ s).
Definition set_objects (l : list service) (s : state) : state :=
  State (world_ s) (next_pulse s) l (base s) (config_file_ s) (jconf_ s) (runner_ s) (role_ s) (stop_ s).
Definition set_base (b : app.state) (s : state) : state :=
  State (world_ s) (next_pulse s) (objects s) b (config_file_ s) (jconf_ s) (runner_ s) (role_ s) (stop_ s).
Definition set_config (f : str) (s : state) : state :=
  State (world_ s) (next_pulse s) (objects s) (base s) f (jconf_ s) (runner_ s) (role_ s) (stop_ s).
Definition set_jconf (j : json) (s : state) : state :=
  State (world_ s) (next_pulse s) (objects s) (base s) (config_file_ s) j (runner_ s) (role_ s) (stop_ s).
Definition set_runner (r : bool) (s : state) : state :=
  State (world_ s) (next_pulse s) (objects s) (base s) (config_file_ s) (jconf_ s) (Some r) (role_ s) (stop_ s).
Definition set_role (r : str) (s : state) : state :=
  State (world_ s) (next_pulse s) (objects s) (base s) (config_file_ s) (jconf_ s) (runner_ s) r (stop_ s).
Definition set_stop (b : bool) (s : state) : state :=
  State (world_ s) (next_pulse s) (objects s) (base s) (config_file_ s) (jconf_ s) (runner_ s) (role_ s) b.

Definition pulse_ : nat := 1.
Definition pulse_back_ : nat := 2.
Definition the_runner : nat := 1.

(** [app()] *)
Definition make : state :=
  State (pulse.World (<[pulse_ := pulse.make]> {[pulse_back_ := pulse.make]}) [] []) 3 [] app.make [] jnull None [] false.

Definition on_pulse {A} : M (pulse.world (frame := object)) A → M state A := zoom world_ set_world.

(** [std::make_unique<app::pulse>()], [as_child], [with_strand], [mark_final], the
    subscriptions and [start], as the services chain them *)
Definition new_pulse : M state nat :=
  s ← get;
  _ ← modify (set_next (S (next_pulse s)));
  _ ← modify (λ s', set_world (pulse.set_pulses (<[next_pulse s := pulse.make]> (pulse.pulses (world_ s'))) (world_ s')) s');
  mret (next_pulse s).
Definition start_child (parent key : nat) (final : bool) (topics : list topic) : M state nat :=
  c ← new_pulse;
  _ ← on_pulse (pulse.as_child c parent);
  _ ← on_pulse (pulse.with_strand c key);
  _ ← when final (on_pulse (pulse.mark_final c));
  _ ← for_each topics (λ t, on_pulse (pulse.subscribe c (number t) (pulse.user_receiver (Z.to_nat (number t)))));
  _ ← on_pulse (pulse.start c true);
  mret c.

(** [on_start()] of the services: the pulses they make.  That [user_master] also binds
    its [fronts_] is in [AlphaLogin.user_master.on_start]. *)
Definition set_service (i : nat) (v : service) : M state unit :=
  modify (λ s, set_objects (<[i := v]> (objects s)) s).
Definition service_start (i : nat) : M state bool :=
  s ← get;
  v ← deref (objects s !! i);
  let id := service_id (kind v) in
  match kind v with
  | user_master_t =>
      c ← start_child pulse_ id false [topic_estalished; topic_closed; auth_req_login_f2b; auth_req_logout_f2b];
      _ ← set_service i (Service (kind v) (Some c) None);
      mret true
  | room_master_t =>
      c ← start_child pulse_ id false [topic_estalished; topic_closed; room_syn_runner_up; room_req_create_f2b;
             room_res_create_f2b; room_req_page_f2b; room_req_reserve_f2b; room_res_reserve_f2b];
      _ ← set_service i (Service (kind v) (Some c) None);
      mret true
  | lobby_runner_t =>
      c ← start_child pulse_ id false [auth_req_login; room_res_create_b2f];
      d ← start_child pulse_back_ id true [topic_estalished];
      _ ← set_service i (Service (kind v) (Some c) (Some d));
      mret true
  | room_runner_t =>
      c ← start_child pulse_ id false [room_req_checkin];
      d ← start_child pulse_back_ id true [topic_estalished];
      _ ← set_service i (Service (kind v) (Some c) (Some d));
      mret true
  end.

(** [on_stop()] of the services: the pulses are destroyed. *)
Definition reset (p : option nat) : M state unit :=
  match p with Some p => on_pulse (pulse.destroy p) | None => mret tt end.
Definition service_stop (i : nat) : M state unit :=
  s ← get;
  v ← deref (objects s !! i);
  _ ← reset (pulse_front v);
  _ ← reset (pulse_back v);
  set_service i (Service (kind v) None None).

(** [create_service<Service>( *this)] and [get_service<Service>()->start()] *)
Definition create_and_start (k : service_kind) : M state unit :=
  s ← get;
  _ ← modify (set_objects (objects s ++ [Service k None None]));
  _ ← zoom base set_base (app.create_service (type_index k) (length (objects s)));
  s ← get;
  i ← deref (app.get_service (type_index k) (base s));
  _ ← service_start i;
  mret tt.

(** [start_services()], [stop_services()] *)
Definition start_services : M state bool :=
  s ← get;
  if decide (role_ s = $"front") then
    _ ← create_and_start lobby_runner_t;
    _ ← create_and_start room_runner_t;
    on_pulse (pulse.start pulse_back_ client_ok)
  else
    _ ← PLAY_CHECK (bool_decide (role_ s = $"back"));
    _ ← create_and_start user_master_t;
    _ ← create_and_start room_master_t;
    mret true.
Definition stop_services : M state unit := s ← get; app.for_each_service service_stop (base s).

(** [shared_from_this()] *)
Definition shared_from_this : M state unit :=
  if shared then mret tt else throw (std_exception $"bad_weak_ptr").

(** [start(jconf)] *)
Definition start (jconf : json) : M state bool :=
  _ ← modify (set_jconf jconf);
  _ ← modify (set_stop false);
  try_catch (
    concurrency ← json_reader.read_value (λ j, u32 <$> get_int j) jconf $"alpha.concurrency" hardware_concurrency;
    port ← json_reader.read_value get_int jconf $"alpha.port" 7000%Z;
    role ← json_reader.read_value get_str jconf $"alpha.role" $"back";
    _ ← modify (set_role role);
    _ ← modify (set_runner false);
    _ ← on_pulse (pulse.as_server pulse_ (Some the_runner) (u16 port));
    rc_1 ← on_pulse (pulse.start pulse_ server_ok);
    if (rc_1 : bool) then
      _ ← when (bool_decide (role = $"front"))
            (addr ← json_reader.read_value get_str jconf $"alpha.backend" $"127.0.0.1:7000";
             _ ← on_pulse (pulse.as_client pulse_back_ (Some the_runner) addr);
             _ ← shared_from_this;
             on_pulse (pulse.subscribe pulse_back_ (number topic_closed) (pulse.user_receiver 2)));
      start_services
    else mret false)
  (λ _, mret false).

(** [on_closed_back] *)
Definition on_closed_back : M state unit :=
  _ ← on_pulse (pulse.connect pulse_back_ client_ok); mret tt.

(** [start(config_file)] *)
Definition start_file (config_file : str) : M state bool :=
  _ ← modify (set_config config_file);
  try_catch (match file config_file with
             | Some jconf => start jconf
             | None => throw (std_exception $"parse_error")
             end)
            (λ _, mret false).

(** [stop()] *)
Definition stop : M state unit :=
  s ← get;
  if stop_ s then mret tt
  else
    _ ← modify (set_stop true);
    _ ← deref (runner_ s);
    _ ← modify (set_runner true);
    _ ← on_pulse (pulse.stop pulse_);
    stop_services.
End alpha_app.
End alpha_app.

(** ** Lemmas *)
Section facts.
Context `{Build} `{Json} (hardware_concurrency : Z) (service_id : alpha_app.service_kind → nat)
  (client_ok shared : bool).
Import alpha_app.
Implicit Types s : alpha_app.state.

Lemma on_pulse_run {A} (m : M (pulse.world (frame := object)) A) s a w :
  m (world_ s) = (Ret a, w) → on_pulse m s = (Ret a, set_world w s).
Proof. intros Hm. unfold on_pulse, zoom. by rewrite Hm. Qed.

Lemma as_server_run (w : pulse.world (frame := object)) p v port :
  pulse.pulses w !! p = Some v →
  pulse.as_server p (Some the_runner) port w = (Ret tt, pulse.set_pulses
    (<[p := pulse.set_port port (pulse.set_mode pulse.mode_server (pulse.set_runner (Some the_runner) v))]> (pulse.pulses w)) w).
Proof.
  intros Hv. unfold pulse.as_server. rewrite (bind_run _ _ w tt w) by (by apply check_true).
  by rewrite (update_spec _ _ _ _ Hv).
Qed.

Lemma start_server_run (w : pulse.world (frame := object)) p v r :
  pulse.pulses w !! p = Some v → pulse.mode_ v = pulse.mode_server → pulse.runner_ v = Some r →
  pulse.start p true w = (Ret true, pulse.emit (pulse.server_started p (pulse.port_ v))
    (pulse.set_pulses (<[p := pulse.set_server true v]> (pulse.pulses w)) w)).
Proof.
  intros Hv Hm Hr. unfold pulse.start. rewrite (bind_run _ _ _ _ _ (at_spec _ _ _ Hv)).
  rewrite (bind_run _ _ w tt w) by (apply check_true, bool_decide_true; by rewrite Hm).
  rewrite (bind_run _ _ w (Some r) w).
  2:{ unfold pulse.get_runner. rewrite (bind_run _ _ w w w) by done. cbn [pulse.get_runner_fuel].
      rewrite (bind_run _ _ _ _ _ (at_spec _ _ _ Hv)). by rewrite Hr. }
  rewrite (bind_run _ _ w tt w) by (by apply check_true). rewrite Hm, Hr.
  by rewrite (bind_run _ _ _ _ _ (update_spec _ _ _ _ Hv)).
Qed.

(** What a configuration says. *)
Record configured (j : json) (conc port : Z) (role : str) : Prop := {
  reads_alpha_concurrency : reads (λ j, u32 <$> get_int j) j $"alpha.concurrency" hardware_concurrency conc;
  reads_alpha_port : reads get_int j $"alpha.port" 7000%Z port;
  reads_role : reads get_str j $"alpha.role" $"back" role
}.

(** The application when the server listens. *)
Definition listening (j : json) (port : Z) (role : str) : alpha_app.state :=
  let s := set_runner false (set_role role (set_stop false (set_jconf j make))) in
  set_world (pulse.emit (pulse.server_started pulse_ port)
    (pulse.set_pulses (<[pulse_ := pulse.set_server true (pulse.set_port port
      (pulse.set_mode pulse.mode_server (pulse.set_runner (Some the_runner) pulse.make)))]> (pulse.pulses (world_ s)))
      (world_ s))) s.

Lemma start_listening j conc port role :
  configured j conc port role →
  start hardware_concurrency service_id true client_ok shared j make
  = try_catch (
      _ ← when (bool_decide (role = $"front"))
            (addr ← json_reader.read_value get_str j $"alpha.backend" $"127.0.0.1:7000";
             _ ← on_pulse (pulse.as_client pulse_back_ (Some the_runner) addr);
             _ ← shared_from_this shared;
             on_pulse (pulse.subscribe pulse_back_ (number topic_closed) (pulse.user_receiver 2)));
      start_services service_id client_ok) (λ _, mret false) (listening j (u16 port) role).
Proof.
  intros [R1 R2 R3]. unfold start. rewrite (bind_run _ _ make tt (set_jconf j make)) by done.
  set (s0 := set_stop false (set_jconf j make)). rewrite (bind_run _ _ _ tt s0) by done. unfold try_catch at 1.
  rewrite (bind_run _ _ _ _ _ (R1 _ s0)), (bind_run _ _ _ _ _ (R2 _ s0)), (bind_run _ _ _ _ _ (R3 _ s0)).
  rewrite (bind_run _ _ s0 tt (set_role role s0)) by done.
  set (s1 := set_runner false (set_role role s0)). rewrite (bind_run _ _ _ tt s1) by done.
  rewrite (bind_run _ _ _ _ _ (on_pulse_run _ s1 _ _ (as_server_run (world_ s1) pulse_ _ (u16 port) (lookup_insert_eq _ _ _)))).
  set (s2 := set_world _ s1).
  rewrite (bind_run _ _ _ _ _ (on_pulse_run _ s2 _ _ (start_server_run (world_ s2) pulse_ _ the_runner (lookup_insert_eq _ _ _)
    eq_refl eq_refl))).
  unfold listening. fold s0 s1. unfold s2. simpl. by rewrite !insert_insert_eq.
Qed.

End facts.

(** ** The started application *)
Section started.
Context `{Build} `{Json} (hardware_concurrency : Z) (service_id : alpha_app.service_kind → nat) (client_ok : bool).
Import alpha_app.
Implicit Types s : alpha_app.state.
(** *** Dispatching to the services *)
Implicit Types w : pulse.world (frame := object).

(** The root has the runner [x], itself does not subscribe to [t], nobody named a
    session, and those interested in [t] are its children. *)
Definition child_of_root (w : pulse.world (frame := object)) (c : nat) : bool :=
  match pulse.pulses w !! c with
  | Some v => bool_decide (pulse.parent_ v = Some pulse_ ∧ pulse.runner_ v = None)
  | None => false
  end.
Definition at_root {A} (w : pulse.world (frame := object)) (d : A) (f : pulse.state → A) : A := from_option f d (pulse.pulses w !! pulse_).
Definition no_sessions (m : gmap (nat * Z) (gset nat)) : bool := forallb (λ kv, kv.1.1 =? 0) (map_to_list m).
Definition reaches (w : pulse.world (frame := object)) (x : nat) (t : topic) : bool :=
  at_root w false (λ v,
    bool_decide (pulse.parent_ v = None ∧ pulse.runner_ v = Some x ∧ pulse.subscriptions v !! number t = None) &&
    no_sessions (pulse.interests v) && forallb (child_of_root w) (elements (interested v 0 (number t)))).
Definition service_tasks (w : pulse.world (frame := object)) (x : nat) (t : topic) (f : option object) : list (pulse.posting (frame := object)) :=
  at_root w [] (λ v, child_deliveries w x (interested v 0 (number t)) 0 (number t) f).

Lemma no_sessions_interested v se t : no_sessions (pulse.interests v) = true → se ≠ 0 → interested v se t = ∅.
Proof.
  unfold no_sessions, interested. rewrite forallb_forall. intros Hall Hse.
  destruct (pulse.interests v !! (se, t)) as [X|] eqn:HX; [|done].
  specialize (Hall ((se, t), X)). rewrite <-list_elem_of_In, elem_of_map_to_list in Hall.
  apply Hall, Nat.eqb_eq in HX. done.
Qed.

Lemma dispatch_services w x t se f :
  reaches w x t = true →
  pulse.dispatch pulse_ se (number t) f w = (Ret tt, pulse.enqueue (service_tasks w x t f) w).
Proof.
  unfold reaches, service_tasks, at_root. destruct (pulse.pulses w !! pulse_) as [s|] eqn:Hs; [|done]. simpl.
  rewrite !andb_true_iff, bool_decide_eq_true. intros [[(Hp & Hr & Hsub) Hn] Hall].
  assert (below w pulse_ x 0 pulse_) as Hb by by eapply below_root.
  assert (all_below w pulse_ x (interested s 0 (number t))) as H0b.
  { intros c Hc. rewrite forallb_forall in Hall. specialize (Hall c).
    rewrite <-list_elem_of_In, elem_of_elements in Hall. apply Hall in Hc. unfold child_of_root in Hc.
    destruct (pulse.pulses w !! c) as [v|] eqn:Hv; [|done]. apply bool_decide_eq_true in Hc as [Hcp Hcr].
    exists v, 0. split; [done|]. by eapply below_child. }
  assert (all_below w pulse_ x (interested s se (number t))) as Hsb.
  { destruct (decide (se = 0)) as [->|Hse]; [done|]. rewrite (no_sessions_interested _ _ _ Hn Hse). intros c ?%elem_of_empty. done. }
  rewrite (dispatch_spec _ _ _ _ _ _ _ Hb Hs H0b Hsb). do 2 f_equal. unfold deliveries at 1. rewrite Hsub. simpl.
  destruct (decide (se ≠ 0)) as [Hse|]; [|by rewrite app_nil_r].
  rewrite (no_sessions_interested _ _ _ Hn Hse). by rewrite app_nil_r.
Qed.

(** What starting the services computes. *)
Definition back_run (j : json) (port : Z) := start_services service_id client_ok (listening j port $"back").
Definition front_from (addr : str) : M alpha_app.state bool :=
  _ ← on_pulse (pulse.as_client pulse_back_ (Some the_runner) addr);
  _ ← shared_from_this true;
  _ ← on_pulse (pulse.subscribe pulse_back_ (number topic_closed) (pulse.user_receiver 2));
  start_services service_id client_ok.
Definition front_run (j : json) (port : Z) (addr : str) := front_from addr (listening j port $"front").
Definition strand_of_service (k : service_kind) : option nat :=
  if decide (0 < service_id k) then Some (service_id k) else None.
Definition to_service (k : service_kind) (t : topic) (f : option object) : list (pulse.posting (frame := object)) :=
  [pulse.Posting the_runner (strand_of_service k) (pulse.run_receiver (pulse.user_receiver (Z.to_nat (number t))) 0 f)].


(** A dispatch of [t] at the application's pulse posts one task to each of the
    services [ks], on their strands. *)
Definition serves (s : alpha_app.state) (t : topic) (ks : list service_kind) : Prop :=
  ∀ se f, pulse.dispatch pulse_ se (number t) f (world_ s)
          = (Ret tt, pulse.enqueue (flat_map (λ k, to_service k t f) ks) (world_ s)).
Definition back_topics : list (topic * list service_kind) :=
  [(topic_estalished, [user_master_t; room_master_t]); (topic_closed, [user_master_t; room_master_t]);
   (auth_req_login_f2b, [user_master_t]); (auth_req_logout_f2b, [user_master_t]);
   (room_syn_runner_up, [room_master_t]); (room_req_create_f2b, [room_master_t]);
   (room_res_create_f2b, [room_master_t]); (room_req_page_f2b, [room_master_t]);
   (room_req_reserve_f2b, [room_master_t]); (room_res_reserve_f2b, [room_master_t])].
Definition front_topics : list (topic * list service_kind) :=
  [(auth_req_login, [lobby_runner_t]); (room_res_create_b2f, [lobby_runner_t]); (room_req_checkin, [room_runner_t])].

Lemma serves_check s t ks :
  reaches (world_ s) the_runner t = true →
  (∀ f, service_tasks (world_ s) the_runner t f = flat_map (λ k, to_service k t f) ks) → serves s t ks.
Proof. intros Hr Ht se f. rewrite (dispatch_services _ _ _ _ _ Hr). by rewrite Ht. Qed.

Lemma back_serves j port tk : tk ∈ back_topics → serves (back_run j port).2 tk.1 tk.2.
Proof.
  intros Hin. repeat (apply elem_of_cons in Hin as [->|Hin]);
    [..|by apply not_elem_of_nil in Hin]; apply serves_check; by vm_compute.
Qed.
Lemma front_serves j port addr tk : tk ∈ front_topics → serves (front_run j port addr).2 tk.1 tk.2.
Proof.
  intros Hin. repeat (apply elem_of_cons in Hin as [->|Hin]);
    [..|by apply not_elem_of_nil in Hin]; apply serves_check; by vm_compute.
Qed.

Lemma back_computed j port :
  (back_run j port).1 = Ret true ∧ map kind (objects (back_run j port).2) = [user_master_t; room_master_t] ∧
  pulse.effects (world_ (back_run j port).2) = [pulse.server_started pulse_ port].
Proof. vm_compute. done. Qed.
Lemma front_computed j port addr :
  (front_run j port addr).1 = Ret client_ok ∧
  map kind (objects (front_run j port addr).2) = [lobby_runner_t; room_runner_t] ∧
  pulse.effects (world_ (front_run j port addr).2)
  = [pulse.server_started pulse_ port; pulse.client_connected pulse_back_ addr].
Proof. vm_compute. done. Qed.

Lemma back_ret j port : back_run j port = (Ret true, (back_run j port).2).
Proof. destruct (back_computed j port) as [Hr _]. destruct (back_run j port). simpl in *. by rewrite Hr. Qed.
Lemma front_ret j port addr : front_run j port addr = (Ret client_ok, (front_run j port addr).2).
Proof. destruct (front_computed j port addr) as [Hr _]. destruct (front_run j port addr). simpl in *. by rewrite Hr. Qed.

Lemma start_back shared j conc port :
  configured hardware_concurrency j conc port $"back" →
  start hardware_concurrency service_id true client_ok shared j make = (Ret true, (back_run j (u16 port)).2).
Proof.
  intros Hc. rewrite (start_listening _ _ _ _ _ _ _ _ Hc). apply try_catch_value.
  rewrite (bind_run _ _ _ tt (listening j (u16 port) $"back")) by done.
  etransitivity; [|exact (back_ret j (u16 port))]. unfold back_run. reflexivity.
Qed.

Lemma start_front j conc port addr :
  configured hardware_concurrency j conc port $"front" → reads get_str j $"alpha.backend" $"127.0.0.1:7000" addr →
  start hardware_concurrency service_id true client_ok true j make = (Ret client_ok, (front_run j (u16 port) addr).2).
Proof.
  intros Hc Ha. rewrite (start_listening _ _ _ _ _ _ _ _ Hc). apply try_catch_value. unfold when.
  rewrite bool_decide_true by done. rewrite bind_bind, (bind_run _ _ _ _ _ (Ha _ _)).
  etransitivity; [|exact (front_ret j (u16 port) addr)]. unfold front_run, front_from.
  unfold mbind, M_bind. destruct (on_pulse _ _) as [[] ?]; reflexivity.
Qed.

Lemma back_stop j port :
  let s := (back_run j port).2 in let s' := (stop s).2 in
  (stop s).1 = Throw (play_error $"pulse should not have any child bound when stop") ∧
  stop s' = (Ret tt, s') ∧ objects s' = objects s ∧ pulse.effects (world_ s') = pulse.effects (world_ s).
Proof. vm_compute. done. Qed.

(** A task posted for a service, as the service gets it: the null pointer or a session. *)
Definition session_of (p : pulse.posting (frame := object)) : option Z :=
  match pulse.what p with
  | pulse.run_receiver _ se _ => if decide (se = 0) then None else Some (Z.of_nat se)
  | _ => None
  end.

(** C25. The application starts.  As the back it listens, has its two services, and
    every topic of the front reaches them: a dispatch posts one task for each service
    that subscribed, on that service's strand.  As the front, when a [shared_ptr] owns
    it, it listens, connects to the back and reaches its services in the same way; the
    answer is that of the client. *)
Theorem app_starts shared j conc port role :
  configured hardware_concurrency j conc port role →
  (role = $"back" →
    ∃ s, start hardware_concurrency service_id true client_ok shared j make = (Ret true, s) ∧
      map kind (objects s) = [user_master_t; room_master_t] ∧
      pulse.effects (world_ s) = [pulse.server_started pulse_ (u16 port)] ∧
      ∀ t ks, (t, ks) ∈ back_topics → serves s t ks) ∧
  (role = $"front" → shared = true →
    ∀ addr, reads get_str j $"alpha.backend" $"127.0.0.1:7000" addr →
    ∃ s, start hardware_concurrency service_id true client_ok shared j make = (Ret client_ok, s) ∧
      map kind (objects s) = [lobby_runner_t; room_runner_t] ∧
      pulse.effects (world_ s) = [pulse.server_started pulse_ (u16 port); pulse.client_connected pulse_back_ addr] ∧
      ∀ t ks, (t, ks) ∈ front_topics → serves s t ks).
Proof.
  intros Hc. split.
  - intros ->. exists (back_run j (u16 port)).2.
    destruct (back_computed j (u16 port)) as (_ & Hk & He).
    split; [exact (start_back _ _ _ _ Hc)|]. split; [exact Hk|split; [exact He|]].
    intros t ks. exact (back_serves j (u16 port) (t, ks)).
  - intros -> -> addr Ha. exists (front_run j (u16 port) addr).2.
    destruct (front_computed j (u16 port) addr) as (_ & Hk & He).
    split; [exact (start_front _ _ _ _ Hc Ha)|]. split; [exact Hk|split; [exact He|]].
    intros t ks. exact (front_serves j (u16 port) addr (t, ks)).
Qed.

(** What goes wrong around it.  Stopping the back throws, because the pulses of the
    services are bound to the pulse that is stopped first; the server goes on, the
    services keep their pulses, and a second stop does nothing.  The application of
    main.cpp is a global, owned by no [shared_ptr]: as the front it listens, starts no
    service and answers false.  The tasks of the services get the null session: a
    login ends a debug build, and a room runner that announces itself is a null
    dereference. *)
Theorem app_hazards shared j conc port role addr :
  configured hardware_concurrency j conc port role → reads get_str j $"alpha.backend" $"127.0.0.1:7000" addr →
  (role = $"back" →
    ∃ s s', start hardware_concurrency service_id true client_ok shared j make = (Ret true, s) ∧
      stop s = (Throw (play_error $"pulse should not have any child bound when stop"), s') ∧
      stop s' = (Ret tt, s') ∧ objects s' = objects s ∧ pulse.effects (world_ s') = pulse.effects (world_ s) ∧
      ∀ se f, ∃ p, pulse.dispatch pulse_ se (number room_syn_runner_up) f (world_ s)
                   = (Ret tt, pulse.enqueue [p] (world_ s)) ∧
        ∀ remote_addr m, room_master.on_room_syn_runner_up (session_of p) remote_addr m = (Undefined, m)) ∧
  (role = $"front" → shared = false →
    ∃ s, start hardware_concurrency service_id true client_ok shared j make = (Ret false, s) ∧
      objects s = [] ∧ pulse.effects (world_ s) = [pulse.server_started pulse_ (u16 port)]) ∧
  (role = $"front" → shared = true → assertions = true →
    ∃ s, start hardware_concurrency service_id true client_ok shared j make = (Ret client_ok, s) ∧
      ∀ se f, ∃ p, pulse.dispatch pulse_ se (number auth_req_login) f (world_ s)
                   = (Ret tt, pulse.enqueue [p] (world_ s)) ∧
        ∀ ok id name password L,
          (lobby_runner.on_auth_req_login ok id (session_of p) name password L).1 = Aborted).
Proof.
  intros Hc Ha. split_and!.
  - intros ->. set (s := (back_run j (u16 port)).2).
    destruct (back_stop j (u16 port)) as (H1 & H2 & H3 & H4). fold s in H1, H2, H3, H4.
    exists s, (stop s).2. split; [exact (start_back _ _ _ _ Hc)|].
    split; [by rewrite <-H1; destruct (stop s)|]. split; [exact H2|split; [exact H3|split; [exact H4|]]].
    intros se f. eexists. split.
    { exact (back_serves j (u16 port) (room_syn_runner_up, [room_master_t])
        ltac:(repeat constructor) se f). }
    done.
  - intros -> ->. eexists. split; [|split].
    + rewrite (start_listening _ _ _ _ _ _ _ _ Hc). unfold when, try_catch. rewrite bool_decide_true by done.
      rewrite bind_bind, (bind_run _ _ _ _ _ (Ha _ _)). reflexivity.
    + reflexivity.
    + reflexivity.
  - intros -> -> Hd. exists (front_run j (u16 port) addr).2.
    split; [exact (start_front _ _ _ _ Hc Ha)|].
    intros se f. eexists. split.
    { exact (front_serves j (u16 port) addr (auth_req_login, [lobby_runner_t])
        ltac:(repeat constructor) se f). }
    intros ok id name password L. by apply login_null_checked.
Qed.
End started.

(** Configurations of a back and of a front. *)
Definition back_doc : tree := tobject [($"alpha", tobject [($"role", tstring $"back"); ($"port", tint 7100)])].
Definition front_doc : tree := tobject [($"alpha", tobject [($"role", tstring $"front"); ($"concurrency", tint 2)])].
Definition some_id (k : alpha_app.service_kind) : nat :=
  match k with
  | alpha_app.user_master_t => 11 | alpha_app.room_master_t => 12
  | alpha_app.lobby_runner_t => 13 | alpha_app.room_runner_t => 14
  end.

Lemma app_starts_witness :
  let _ := debug_build in
  (∃ s, alpha_app.start 4 some_id true true false (back_doc : json (Json:=tree_Json)) alpha_app.make = (Ret true, s) ∧
    serves some_id s auth_req_login_f2b [alpha_app.user_master_t]) ∧
  (∃ s, alpha_app.start 4 some_id true true true (front_doc : json (Json:=tree_Json)) alpha_app.make = (Ret true, s) ∧
    serves some_id s room_req_checkin [alpha_app.room_runner_t]).
Proof.
  intros d. split.
  - destruct (app_starts (H0:=tree_Json) 4 some_id true false (back_doc : json (Json:=tree_Json)) 4 7100 $"back")
      as [Hb _].
    + split; intros S x; reflexivity.
    + destruct Hb as (s & Hs & _ & _ & Ht); [reflexivity|]. exists s. split; [exact Hs|]. apply Ht. repeat constructor.
  - destruct (app_starts (H0:=tree_Json) 4 some_id true true (front_doc : json (Json:=tree_Json)) 2 7000 $"front")
      as [_ Hf].
    + split; intros S x; reflexivity.
    + destruct (Hf eq_refl eq_refl $"127.0.0.1:7000") as (s & Hs & _ & _ & Ht); [intros S x; reflexivity|].
      exists s. split; [exact Hs|]. apply Ht. repeat constructor.
Defined.

Lemma app_hazards_witness :
  let _ := debug_build in
  (∃ s s', alpha_app.start 4 some_id true true false (back_doc : json (Json:=tree_Json)) alpha_app.make = (Ret true, s) ∧
    alpha_app.stop s = (Throw (play_error $"pulse should not have any child bound when stop"), s')) ∧
  (∃ s, alpha_app.start 4 some_id true true false (front_doc : json (Json:=tree_Json)) alpha_app.make = (Ret false, s) ∧
    alpha_app.objects s = []).
Proof.
  intros d. split.
  - destruct (app_hazards (H0:=tree_Json) 4 some_id true false (back_doc : json (Json:=tree_Json)) 4 7100 $"back"
      $"127.0.0.1:7000") as (Hb & _).
    + split; intros S x; reflexivity.
    + intros S x. reflexivity.
    + destruct Hb as (s & s' & Hs & Hp & _); [reflexivity|]. exists s, s'. split; [exact Hs|exact Hp].
  - destruct (app_hazards (H0:=tree_Json) 4 some_id true false (front_doc : json (Json:=tree_Json)) 2 7000 $"front"
      $"127.0.0.1:7000") as (_ & Hf & _).
    + split; intros S x; reflexivity.
    + intros S x. reflexivity.
    + destruct Hf as (s & Hs & Ho & _); [reflexivity|reflexivity|]. exists s. split; [exact Hs|exact Ho].
Defined.
