(* ===== verification/AlphaEnsure.v ===== *)
(** * play/sample/alpha/ensure: the acts of the bots of the sample

    [act_connect_lobby] and [act_auth_login] over [Pulse] and the blackboard of the bot.
    The runner comes from [ensure::get()], which is another object than the [app] that main
    starts. *)

From S2P Require Import Prelude.
From S2P Require Import Serializer.
From S2P Require Import StringUtil.
From S2P Require Import App.
From S2P Require Import Json.
From S2P Require Import Pulse.
From S2P Require Import PulseTree.
From S2P Require Import PulseCalls.
From S2P Require Import Bot.
From S2P Require Import AlphaNet.
From S2P Require Import AlphaApp.

Module alpha_act.
Section alpha_act.
Context `{Build} `{Json}.

(** The pulses; the blackboard of the bot, with its identifier; [runner_] of [ensure::get()];
    and the members [address_] and [pulse_] of the two acts. *)
Record state := State {
  world_ : pulse.world (frame := object);
  next_pulse : nat;
  board_ : blackboard.state unit;
  id_ : nat;
  runner_ : option nat;
  address_ : str;
  pulse_ : option nat
}.
Definition set_world (w : pulse.world) (s : state) : state :=
  State w (next_pulse s) (board_ s) (id_ s) (runner_ s) (address_ s) (pulse_ s).
Definition set_next (n : nat) (s : state) : state :=
  State (world_ s) n (board_ s) (id_ s) (runner_ s) (address_ s) (pulse_ s).
Definition set_board (b : blackboard.state unit) (s : state) : state :=
  State (world_ s) (next_pulse s) b (id_ s) (runner_ s) (address_ s) (pulse_ s).
Definition set_address (a : str) (s : state) : state :=
  State (world_ s) (next_pulse s) (board_ s) (id_ s) (runner_ s) a (pulse_ s).
Definition set_pulse (p : option nat) (s : state) : state :=
  State (world_ s) (next_pulse s) (board_ s) (id_ s) (runner_ s) (address_ s) p.

Definition on_pulse {A} : M (pulse.world (frame := object)) A → M state A := zoom world_ set_world.

(** A new pulse, and the end of the last pointer to one. *)
Definition new_pulse : M state nat :=
  s ← get;
  _ ← modify (set_next (S (next_pulse s)));
  _ ← modify (λ s', set_world (pulse.set_pulses (<[next_pulse s := pulse.make]> (pulse.pulses (world_ s'))) (world_ s')) s');
  mret (next_pulse s).
Definition release (p : option nat) : M state unit :=
  match p with Some p => on_pulse (pulse.destroy p) | None => mret tt end.

(** The type [ensure::pulse], for the blackboard. *)
Definition pulse_type : nat := 1.

(** [act_connect_lobby::on_load_json()] *)
Definition connect_on_load_json (j : json) : M state unit :=
  a ← json_reader.read_value get_str j $"address" $"127.0.0.1:7000";
  modify (set_address a).

(** [act_connect_lobby::on_activate()]: at its end the local pointer goes, and the pulse with it
    unless the blackboard has taken it.  [ok] is what connecting answers. *)
Definition connect_on_activate (ok : bool) : M state bool :=
  p ← new_pulse;
  _ ← modify (λ s, set_board (blackboard.set_ptr $"lobby" pulse_type (Some p) (board_ s)) s);
  s ← get;
  r ← deref (runner_ s);
  _ ← on_pulse (pulse.as_client p (Some r) (address_ s));
  _ ← on_pulse (pulse.with_strand p (id_ s));
  _ ← on_pulse (pulse.subscribe p (number topic_estalished) (pulse.user_receiver p));
  _ ← on_pulse (pulse.start p ok);
  lobby ← zoom board_ set_board (blackboard.get_ptr pulse_type $"lobby");
  _ ← when (bool_decide (lobby ≠ Some p)) (release (Some p));
  mret true.

(** [act_auth_login::on_activate()]: the assignment of [pulse_] destroys the pulse it had. *)
Definition login_on_activate (ok : bool) : M state bool :=
  lobby ← zoom board_ set_board (blackboard.get_ptr pulse_type $"lobby");
  p ← new_pulse;
  s ← get;
  _ ← modify (set_pulse (Some p));
  _ ← release (pulse_ s);
  _ ← on_pulse (pulse.as_child p (default 0 lobby));
  _ ← on_pulse (pulse.with_strand p (id_ s));
  _ ← on_pulse (pulse.subscribe p (number auth_res_login) (pulse.user_receiver p));
  _ ← on_pulse (pulse.start p ok);
  mret true.

(** [act_auth_login::on_deactivate()] *)
Definition login_on_deactivate : M state unit :=
  s ← get;
  _ ← modify (set_pulse None);
  release (pulse_ s).

(** A bot with an empty blackboard. *)
Definition make (id : nat) (runner : option nat) (address : str) : state :=
  State (pulse.World ∅ [] []) 1 ∅ id runner address None.
End alpha_act.
End alpha_act.

(** ** What the acts do *)
Section facts.
Context `{Build} `{Json}.
Import alpha_act.

Definition pulse_at (s : state) (p : nat) : option pulse.state := pulse.pulses (world_ s) !! p.

(** The bot's two acts: connecting; logging in; the end of the login; and connecting again. *)
Section bot.
Context (id r : nat) (addr : str).
Definition connected : state := (connect_on_activate true (make id (Some r) addr)).2.
Definition logging_in : state := (login_on_activate true connected).2.
Definition logged_out : state := (login_on_deactivate logging_in).2.
Definition connected_again : state := (connect_on_activate true connected).2.

(** The client pulse of the bot is the one the blackboard has, on the bot's strand. *)
Lemma connect_spec :
  connect_on_activate true (make id (Some r) addr) = (Ret true, connected) ∧
  blackboard.get $"lobby" (board_ connected) = Some (blackboard.mem_ptr pulse_type (Some 1)) ∧
  (λ t, (pulse.mode_ t, pulse.runner_ t, pulse.addr_ t, pulse.strand_key t)) <$> pulse_at connected 1
  = Some (pulse.mode_client, Some r, addr, id) ∧
  pulse.effects (world_ connected) = [pulse.client_connected 1 addr].
Proof. vm_compute. repeat split. Qed.

(** The pulse of the login is a child of it that the lobby pulse knows to be interested in the response;
    it goes with the end of the act. *)
Lemma login_spec :
  login_on_activate true connected = (Ret true, logging_in) ∧
  pulse.parent_ <$> pulse_at logging_in 2 = Some (Some 1) ∧ pulse.strand_key <$> pulse_at logging_in 2 = Some id ∧
  (λ t, (elements (pulse.childs t), elements <$> pulse.interests t !! (0, number auth_res_login))) <$> pulse_at logging_in 1
  = Some ([2], Some [2]) ∧
  login_on_deactivate logging_in = (Ret tt, logged_out) ∧
  pulse_at logged_out 2 = None ∧ elements ∘ pulse.childs <$> pulse_at logged_out 1 = Some [] ∧
  (λ t, elements <$> pulse.interests t !! (0, number auth_res_login)) <$> pulse_at logged_out 1 = Some (Some []).
Proof. vm_compute. repeat split. Qed.

(** A second activation makes a pulse that nobody keeps: it is closed at once. *)
Lemma connect_again_spec :
  connect_on_activate true connected = (Ret true, connected_again) ∧
  board_ connected_again = board_ connected ∧ pulse_at connected_again 1 = pulse_at connected 1 ∧
  pulse_at connected_again 2 = None ∧
  pulse.effects (world_ connected_again)
  = [pulse.client_connected 1 addr; pulse.client_connected 2 addr; pulse.client_closed 2].
Proof. vm_compute. repeat split. Qed.
End bot.

(** The sample's bots connect to the address of their act, which its constructor leaves empty, on the
    bot's strand, and log in through a child of that pulse, whose interest goes when the act ends;
    connecting twice closes the second pulse at once.  With [ensure::get()] not
    started there is no runner to connect on, and without the lobby no login. *)
Theorem alpha_acts (id r : nat) (addr : str) :
  (∃ s1, connect_on_activate true (make id (Some r) addr) = (Ret true, s1) ∧
    blackboard.get $"lobby" (board_ s1) = Some (blackboard.mem_ptr pulse_type (Some 1)) ∧
    pulse.effects (world_ s1) = [pulse.client_connected 1 addr] ∧
    (∃ s2 s3, login_on_activate true s1 = (Ret true, s2) ∧ pulse.parent_ <$> pulse_at s2 2 = Some (Some 1) ∧
       login_on_deactivate s2 = (Ret tt, s3) ∧ pulse_at s3 2 = None ∧
       elements ∘ pulse.childs <$> pulse_at s3 1 = Some []) ∧
    ∃ s2, connect_on_activate true s1 = (Ret true, s2) ∧ board_ s2 = board_ s1 ∧
       pulse.effects (world_ s2) = [pulse.client_connected 1 addr; pulse.client_connected 2 addr; pulse.client_closed 2]) ∧
  (∀ ok, (connect_on_activate ok (make id None addr)).1 = Undefined) ∧
  (∀ ok run, (login_on_activate ok (make id run addr)).1 = if assertions then Aborted else Undefined).
Proof.
  destruct (connect_spec id r addr) as (Hc & Hb & _ & He).
  destruct (login_spec id r addr) as (Hl & Hp & _ & _ & Hd & Hn & Hch & _).
  destruct (connect_again_spec id r addr) as (Ha & Hab & _ & _ & Hae). split_and!.
  - exists (connected id r addr). split; [exact Hc|split; [exact Hb|split; [exact He|split]]].
    + exists (logging_in id r addr), (logged_out id r addr).
      split; [exact Hl|split; [exact Hp|split; [exact Hd|split; [exact Hn|exact Hch]]]].
    + exists (connected_again id r addr). split; [exact Ha|split; [exact Hab|exact Hae]].
  - intros ok. vm_compute. done.
  - intros ok run. destruct H as [[|]]; vm_compute; done.
Qed.
End facts.
